(** * uigen: the virtual file system and the preview pipeline

    A shallow embedding of [src/lib/file-system.ts] (class
    [VirtualFileSystem]) and of [src/lib/transform/jsx-transformer.ts]
    ([transformJSX], [createImportMap], [createPreviewHTML]), followed by
    the properties of the written specification that concern them.

    JavaScript strings are embedded as [string]; a character stands for
    one code unit.  Objects that the program shares between several
    containers (the [FileNode]s) live in an explicit store and are named
    by their address. *)

From Stdlib Require Import String Ascii List Arith Lia Bool DecimalString.
From stdpp Require Import gmap strings.
Import ListNotations.

Local Open Scope string_scope.
Local Open Scope list_scope.

(** Let [simpl] unfold the concatenation of strings on a constructor. *)
Arguments String.append !s1 s2 : simpl nomatch.

(** ** JavaScript string primitives *)

Module JS.

(** [a + b] *)
Definition cat (a b : string) : string := String.append a b.

(** [s.startsWith(p)] *)
Definition startsWith (s p : string) : bool := String.prefix p s.

(** [s.endsWith(p)]: [p] is [s] or a suffix of the tail of [s]. *)
Fixpoint endsWith (s p : string) : bool :=
  String.eqb s p ||
  match s with
  | EmptyString => false
  | String _ s' => endsWith s' p
  end.

(** [s.substring(n)] *)
Fixpoint substringFrom (n : nat) (s : string) : string :=
  match n, s with
  | O, _ => s
  | S n', String _ s' => substringFrom n' s'
  | S _, EmptyString => EmptyString
  end.

(** [s.slice(0, -1)] *)
Fixpoint sliceDropLast (s : string) : string :=
  match s with
  | EmptyString => EmptyString
  | String _ EmptyString => EmptyString
  | String c s' => String c (sliceDropLast s')
  end.

(** [s.includes(p)] *)
Fixpoint includes (s p : string) : bool :=
  String.prefix p s ||
  match s with
  | EmptyString => false
  | String _ s' => includes s' p
  end.

(** [s.split(sep)] for a non-empty separator: the text is scanned from the
    left; [skip] counts the characters of a separator just recognised that
    are still to be passed over, [cur] is the piece being accumulated. *)
Fixpoint splitFrom (sep s : string) (skip : nat) (cur : string) : list string :=
  match s with
  | EmptyString => [cur]
  | String c s' =>
      match skip with
      | S k => splitFrom sep s' k cur
      | O =>
          if String.prefix sep s
          then cur :: splitFrom sep s' (String.length sep - 1) EmptyString
          else splitFrom sep s' 0 (String.append cur (String c EmptyString))
      end
  end.

Definition split (sep s : string) : list string := splitFrom sep s 0 EmptyString.

(** [l.join(sep)] *)
Definition join (sep : string) (l : list string) : string := String.concat sep l.

(** [l.filter(Boolean)] on an array of strings: the empty string is the
    only falsy one. *)
Definition filterBoolean (l : list string) : list string :=
  List.filter (fun x => negb (String.eqb x EmptyString)) l.

(** [s.replace(pat, rep)] with a string pattern and a replacement free of
    dollar patterns: the first occurrence only. *)
Fixpoint replaceFirst (pat rep s : string) : string :=
  if String.prefix pat s
  then String.append rep (substringFrom (String.length pat) s)
  else match s with
       | EmptyString => EmptyString
       | String c s' => String c (replaceFirst pat rep s')
       end.

(** White space among the code units below 256, and [s.trim()]. *)
Definition isSpace (c : ascii) : bool :=
  let n := nat_of_ascii c in
  Nat.eqb n 32 || Nat.eqb n 9 || Nat.eqb n 10 || Nat.eqb n 11 || Nat.eqb n 12
  || Nat.eqb n 13 || Nat.eqb n 160.

Fixpoint trimStart (s : string) : string :=
  match s with
  | String c s' => if isSpace c then trimStart s' else s
  | EmptyString => EmptyString
  end.

Fixpoint trimEnd (s : string) : string :=
  match s with
  | EmptyString => EmptyString
  | String c s' =>
      match trimEnd s' with
      | EmptyString => if isSpace c then EmptyString else String c EmptyString
      | t => String c t
      end
  end.

Definition trim (s : string) : string := trimEnd (trimStart s).

(** [String(n)] for a natural number. *)
Definition ofNat (n : nat) : string := NilZero.string_of_uint (Nat.to_uint n).

(** Truthiness of a string value and of a possibly missing one. *)
Definition truthy (s : string) : bool := negb (String.eqb s EmptyString).

Definition truthyOpt (o : option string) : bool :=
  match o with
  | Some s => truthy s
  | None => false
  end.

End JS.

(** ** Regular expressions

    The patterns of the program use literal characters, character classes,
    sequencing, ordered alternatives, greedy repetition of a character
    class, one capturing group and the end anchor.  The matcher is the
    backtracking one of the language: an alternative is tried left first,
    a repetition takes as many characters as it can and gives them back
    one at a time. *)

Module Regex.

Inductive regex : Type :=
| Eps                                  (* the empty pattern *)
| Cls (p : ascii -> bool)              (* one character of a class *)
| Seq (a b : regex)
| Alt (a b : regex)                    (* a|b, left first *)
| Star (p : ascii -> bool)             (* [class]* , greedy *)
| Group (a : regex)                    (* ( ... ), capture 1 *)
| Eol.                                 (* $ without the m flag *)

Definition Chr (c : ascii) : regex := Cls (Ascii.eqb c).
Definition Plus (p : ascii -> bool) : regex := Seq (Cls p) (Star p).
Definition Opt (a : regex) : regex := Alt a Eps.

Fixpoint Lit (s : string) : regex :=
  match s with
  | EmptyString => Eps
  | String c s' => Seq (Chr c) (Lit s')
  end.

(** The characters of [s] consumed when [s'] is what remains. *)
Definition consumed (s s' : string) : string :=
  String.substring 0 (String.length s - String.length s') s.

Section Matcher.
Context {R : Type}.

  (** [run r s cap k]: match [r] at the head of [s] with the capture
      [cap] so far, then continue with [k] on what remains; [None] makes
      the matcher backtrack. *)
Fixpoint run (r : regex) (s : string) (cap : option string)
      (k : string -> option string -> option R) : option R :=
    match r with
    | Eps => k s cap
    | Cls p =>
        match s with
        | String c s' => if p c then k s' cap else None
        | EmptyString => None
        end
    | Seq a b => run a s cap (fun s' cap' => run b s' cap' k)
    | Alt a b =>
        match run a s cap k with
        | Some x => Some x
        | None => run b s cap k
        end
    | Star p =>
        (fix star (s : string) : option R :=
           match s with
           | String c s' =>
               if p c
               then match star s' with
                    | Some x => Some x
                    | None => k s cap
                    end
               else k s cap
           | EmptyString => k s cap
           end) s
    | Group a => run a s cap (fun s' _ => k s' (Some (consumed s s')))
    | Eol =>
        match s with
        | EmptyString => k s cap
        | String _ _ => None
        end
    end.
End Matcher.

(** A match: the text passed over before it, the matched text and
    capture 1. *)
Record found : Type := Found {
  before : string;
  matched : string;
  capture : option string
}.

(** Match anchored at the head of [s]: the matched text, capture 1 and
    what remains. *)
Definition matchHere (r : regex) (s : string) : option (string * option string * string) :=
  run r s None (fun s' cap => Some (consumed s s', cap, s')).

(** [r.exec(s)] from index 0: the leftmost position where [r] matches,
    with the text that follows the match. *)
Fixpoint search (r : regex) (s : string) : option (found * string) :=
  match matchHere r s with
  | Some (m, cap, rest) => Some (Found EmptyString m cap, rest)
  | None =>
      match s with
      | EmptyString => None
      | String c s' =>
          match search r s' with
          | Some (f, rest) => Some (Found (String c (before f)) (matched f) (capture f), rest)
          | None => None
          end
      end
  end.

(** The successive matches of a global pattern, left to right, each
    search starting where the previous match ended ([lastIndex]), and the
    text left after the last match.  Every global pattern of the program
    starts with a mandatory character, so a match is never empty; the scan
    stops at an empty match.  The fuel bounds the number of matches. *)
Fixpoint scanFuel (n : nat) (r : regex) (s : string) : list found * string :=
  match n with
  | O => ([], s)
  | S n' =>
      match search r s with
      | None => ([], s)
      | Some (f, rest) =>
          match matched f with
          | EmptyString => ([], s)
          | String _ _ =>
              let '(fs, tl) := scanFuel n' r rest in (f :: fs, tl)
          end
      end
  end.

Definition scan (r : regex) (s : string) : list found * string :=
  scanFuel (String.length s) r s.

(** [while ((m = r.exec(s)) !== null)] and [s.match(r)] with the g flag. *)
Definition matchAll (r : regex) (s : string) : list found := fst (scan r s).

(** [s.replace(r, f)] with the g flag; [f] builds the replacement from the
    matched text. *)
Definition replaceAll (r : regex) (f : string -> string) (s : string) : string :=
  let '(fs, tl) := scan r s in
  String.append
    (String.concat EmptyString
       (List.map (fun m => String.append (before m) (f (matched m))) fs))
    tl.

(** [s.replace(r, f)] without the g flag: the first match only. *)
Definition replaceOne (r : regex) (f : string -> string) (s : string) : string :=
  match search r s with
  | None => s
  | Some (m, rest) => String.append (before m) (String.append (f (matched m)) rest)
  end.

End Regex.

(** ** [VirtualFileSystem]: paths *)

Definition slash : ascii := "/"%char.

(** [/\/+/g] *)
Definition slashes : Regex.regex := Regex.Plus (Ascii.eqb slash).

Definition normalizePath (path : string) : string :=
  let path := if negb (JS.startsWith path "/") then JS.cat "/" path else path in
  let path := if negb (String.eqb path "/") && JS.endsWith path "/"
              then JS.sliceDropLast path else path in
  Regex.replaceAll slashes (fun _ => "/") path.

Definition getParentPath (path : string) : string :=
  let normalized := normalizePath path in
  if String.eqb normalized "/" then "/"
  else
    let parts := JS.split "/" normalized in
    let parts := List.removelast parts in
    if Nat.eqb (List.length parts) 1 then "/" else JS.join "/" parts.

Definition getFileName (path : string) : string :=
  let normalized := normalizePath path in
  if String.eqb normalized "/" then "/"
  else List.last (JS.split "/" normalized) EmptyString.

(** ** [Map<string, V>]

    The entries of a JavaScript [Map] are kept in insertion order; a
    deleted entry leaves an empty slot behind, so that an iteration in
    progress keeps its position.  [set] on a present key replaces the
    value in place, on a new key it appends.  Keys are unique among the
    live entries of every map built from the empty one. *)

Module Map_.
Section Defs.
Context {V : Type}.

Definition t : Type := list (option (string * V)).

Definition empty : t := [].

Fixpoint get (m : t) (k : string) : option V :=
    match m with
    | [] => None
    | Some (k', v) :: m' => if String.eqb k' k then Some v else get m' k
    | None :: m' => get m' k
    end.

Definition has (m : t) (k : string) : bool :=
    match get m k with Some _ => true | None => false end.

Fixpoint replaceValue (m : t) (k : string) (v : V) : t :=
    match m with
    | [] => []
    | Some (k', v') :: m' =>
        if String.eqb k' k then Some (k', v) :: m'
        else Some (k', v') :: replaceValue m' k v
    | None :: m' => None :: replaceValue m' k v
    end.

Definition set (m : t) (k : string) (v : V) : t :=
    if has m k then replaceValue m k v else m ++ [Some (k, v)].

Fixpoint delete (m : t) (k : string) : t :=
    match m with
    | [] => []
    | Some (k', v') :: m' =>
        if String.eqb k' k then None :: m'
        else Some (k', v') :: delete m' k
    | None :: m' => None :: delete m' k
    end.

Definition clear (m : t) : t := List.map (fun _ => None) m.

  (** The live entries, in order: what [for (const [k, v] of m)] visits
      when the map is not changed meanwhile. *)
Fixpoint entries (m : t) : list (string * V) :=
    match m with
    | [] => []
    | Some e :: m' => e :: entries m'
    | None :: m' => entries m'
    end.

  (** One step of a live iterator standing at slot [i]: the first live
      entry at a slot [j >= i], with [j]. *)
Fixpoint next (m : t) (i : nat) : option (nat * (string * V)) :=
    match m with
    | [] => None
    | e :: m' =>
        match i with
        | S i' =>
            match next m' i' with
            | Some (j, kv) => Some (S j, kv)
            | None => None
            end
        | O =>
            match e with
            | Some kv => Some (0, kv)
            | None =>
                match next m' 0 with
                | Some (j, kv) => Some (S j, kv)
                | None => None
                end
            end
        end
    end.

  (** The keys of the live entries are pairwise distinct. *)
Definition wf (m : t) : Prop := List.NoDup (List.map fst (entries m)).
End Defs.
Arguments t : clear implicits.
End Map_.

(** ** [VirtualFileSystem]: the store *)

Inductive NodeType : Type := TFile | TDirectory.

Definition NodeType_eqb (a b : NodeType) : bool :=
  match a, b with
  | TFile, TFile | TDirectory, TDirectory => true
  | _, _ => false
  end.

(** A reference to a [FileNode] object. *)
Definition ref : Type := nat.

Module FileNode.
Record t : Type := Build {
    type : NodeType;
    name : string;
    path : string;
    content : option string;
    children : option (Map_.t ref)
  }.

Definition setName (n : t) (x : string) : t :=
    Build (type n) x (path n) (content n) (children n).
Definition setPath (n : t) (x : string) : t :=
    Build (type n) (name n) x (content n) (children n).
Definition setContent (n : t) (x : string) : t :=
    Build (type n) (name n) (path n) (Some x) (children n).
Definition setChildren (n : t) (x : Map_.t ref) : t :=
    Build (type n) (name n) (path n) (content n) (Some x).

  (** What reading through a reference to no object yields; never read in
      a store where every reference held by the program is allocated. *)
Definition undefined : t := Build TFile EmptyString EmptyString None None.
End FileNode.

(** The class instance: the objects allocated so far ([heap], with
    [fresh] the next unused address), and the two fields [files] and
    [root]. *)
Record VirtualFileSystem : Type := Build_VFS {
  heap : gmap nat FileNode.t;
  fresh : nat;
  files : Map_.t ref;
  root : ref
}.

Definition deref (fs : VirtualFileSystem) (a : ref) : FileNode.t :=
  match heap fs !! a with
  | Some n => n
  | None => FileNode.undefined
  end.

(** [new FileNode-literal]: allocation of an object. *)
Definition alloc (fs : VirtualFileSystem) (n : FileNode.t) : ref * VirtualFileSystem :=
  (fresh fs, Build_VFS (<[fresh fs := n]> (heap fs)) (S (fresh fs)) (files fs) (root fs)).

(** Assignment through a reference. *)
Definition update (fs : VirtualFileSystem) (a : ref) (f : FileNode.t -> FileNode.t)
  : VirtualFileSystem :=
  Build_VFS (<[a := f (deref fs a)]> (heap fs)) (fresh fs) (files fs) (root fs).

Definition setFiles (fs : VirtualFileSystem) (m : Map_.t ref) : VirtualFileSystem :=
  Build_VFS (heap fs) (fresh fs) m (root fs).

(** [node.children!] *)
Definition childrenOf (fs : VirtualFileSystem) (a : ref) : Map_.t ref :=
  match FileNode.children (deref fs a) with
  | Some m => m
  | None => Map_.empty
  end.

(** [node.children!.set(k, c)] and [node.children!.delete(k)] *)
Definition childrenSet (fs : VirtualFileSystem) (a : ref) (k : string) (c : ref)
  : VirtualFileSystem :=
  update fs a (fun n => FileNode.setChildren n (Map_.set (childrenOf fs a) k c)).

Definition childrenDelete (fs : VirtualFileSystem) (a : ref) (k : string)
  : VirtualFileSystem :=
  update fs a (fun n => FileNode.setChildren n (Map_.delete (childrenOf fs a) k)).

Definition isDirectory (fs : VirtualFileSystem) (a : ref) : bool :=
  NodeType_eqb (FileNode.type (deref fs a)) TDirectory.

Definition isFile (fs : VirtualFileSystem) (a : ref) : bool :=
  NodeType_eqb (FileNode.type (deref fs a)) TFile.

(** [constructor()] *)
Definition rootNode : FileNode.t :=
  FileNode.Build TDirectory "/" "/" None (Some Map_.empty).

Definition constructor : VirtualFileSystem :=
  Build_VFS {[ 0 := rootNode ]} 1 (Map_.set Map_.empty "/" 0) 0.

(** ** [VirtualFileSystem]: the methods *)

Definition getParentNode (fs : VirtualFileSystem) (path : string) : option ref :=
  Map_.get (files fs) (getParentPath path).

Definition exists_ (fs : VirtualFileSystem) (path : string) : bool :=
  Map_.has (files fs) (normalizePath path).

Definition getNode (fs : VirtualFileSystem) (path : string) : option ref :=
  Map_.get (files fs) (normalizePath path).

Definition createDirectory (fs : VirtualFileSystem) (path : string)
  : option ref * VirtualFileSystem :=
  let normalized := normalizePath path in
  if Map_.has (files fs) normalized then (None, fs)
  else
    match getParentNode fs normalized with
    | None => (None, fs)
    | Some parent =>
        if negb (isDirectory fs parent) then (None, fs)
        else
          let dirName := getFileName normalized in
          let '(directory, fs) :=
            alloc fs (FileNode.Build TDirectory dirName normalized None (Some Map_.empty)) in
          let fs := setFiles fs (Map_.set (files fs) normalized directory) in
          let fs := childrenSet fs parent dirName directory in
          (Some directory, fs)
    end.

(** The loops that create the missing ancestors: [currentPath] grows by
    one part per round. *)
Fixpoint createAncestors (fs : VirtualFileSystem) (currentPath : string)
    (parts : list string) : VirtualFileSystem :=
  match parts with
  | [] => fs
  | part :: rest =>
      let currentPath := JS.cat currentPath (JS.cat "/" part) in
      let fs := if negb (exists_ fs currentPath)
                then snd (createDirectory fs currentPath) else fs in
      createAncestors fs currentPath rest
  end.

Definition createFile (fs : VirtualFileSystem) (path : string) (content : string)
  : option ref * VirtualFileSystem :=
  let normalized := normalizePath path in
  if Map_.has (files fs) normalized then (None, fs)
  else
    let parts := JS.filterBoolean (JS.split "/" normalized) in
    let fs := createAncestors fs EmptyString (List.removelast parts) in
    match getParentNode fs normalized with
    | None => (None, fs)
    | Some parent =>
        if negb (isDirectory fs parent) then (None, fs)
        else
          let fileName := getFileName normalized in
          let '(file, fs) :=
            alloc fs (FileNode.Build TFile fileName normalized (Some content) None) in
          let fs := setFiles fs (Map_.set (files fs) normalized file) in
          let fs := childrenSet fs parent fileName file in
          (Some file, fs)
    end.

Definition readFile (fs : VirtualFileSystem) (path : string) : option string :=
  let normalized := normalizePath path in
  match Map_.get (files fs) normalized with
  | None => None
  | Some file =>
      if negb (isFile fs file) then None
      else
        match FileNode.content (deref fs file) with
        | Some c => if JS.truthy c then Some c else Some EmptyString
        | None => Some EmptyString
        end
  end.

Definition updateFile (fs : VirtualFileSystem) (path : string) (content : string)
  : bool * VirtualFileSystem :=
  let normalized := normalizePath path in
  match Map_.get (files fs) normalized with
  | None => (false, fs)
  | Some file =>
      if negb (isFile fs file) then (false, fs)
      else (true, update fs file (fun n => FileNode.setContent n content))
  end.

(** [deleteFile] calls itself on the children of a directory, and
    [rename] goes down the moved subtree through [updateChildrenPaths]:
    both recursions follow references of the store, so they take fuel,
    which bounds the depth of the calls and the number of rounds of each
    loop; [None] means the fuel ran out. *)
Fixpoint deleteFile (fuel : nat) (fs : VirtualFileSystem) (path : string)
  : option (bool * VirtualFileSystem) :=
  match fuel with
  | O => None
  | S fuel' =>
      let normalized := normalizePath path in
      match Map_.get (files fs) normalized with
      | None => Some (false, fs)
      | Some file =>
          if String.eqb normalized "/" then Some (false, fs)
          else
            match getParentNode fs normalized with
            | None => Some (false, fs)
            | Some parent =>
                if negb (isDirectory fs parent) then Some (false, fs)
                else
                  (* for (const [_, child] of file.children) *)
                  let loop :=
                    fix loop (rounds : nat) (fs : VirtualFileSystem) (i : nat)
                      : option VirtualFileSystem :=
                      match rounds with
                      | O => None
                      | S rounds' =>
                          match Map_.next (childrenOf fs file) i with
                          | None => Some fs
                          | Some (j, (_, child)) =>
                              match deleteFile fuel' fs (FileNode.path (deref fs child)) with
                              | None => None
                              | Some (_, fs') => loop rounds' fs' (S j)
                              end
                          end
                      end in
                  let after :=
                    match FileNode.children (deref fs file) with
                    | Some _ => if isDirectory fs file then loop fuel' fs 0 else Some fs
                    | None => Some fs
                    end in
                  match after with
                  | None => None
                  | Some fs =>
                      let fs := childrenDelete fs parent (FileNode.name (deref fs file)) in
                      let fs := setFiles fs (Map_.delete (files fs) normalized) in
                      Some (true, fs)
                  end
            end
      end
  end.

Fixpoint updateChildrenPaths (fuel : nat) (fs : VirtualFileSystem) (node : ref)
  : option VirtualFileSystem :=
  match fuel with
  | O => None
  | S fuel' =>
      match FileNode.children (deref fs node) with
      | None => Some fs
      | Some _ =>
          if negb (isDirectory fs node) then Some fs
          else
            (fix loop (rounds : nat) (fs : VirtualFileSystem) (i : nat)
               : option VirtualFileSystem :=
               match rounds with
               | O => None
               | S rounds' =>
                   match Map_.next (childrenOf fs node) i with
                   | None => Some fs
                   | Some (j, (_, child)) =>
                       let oldChildPath := FileNode.path (deref fs child) in
                       let fs :=
                         update fs child (fun n =>
                           FileNode.setPath n
                             (JS.cat (FileNode.path (deref fs node))
                                (JS.cat "/" (FileNode.name (deref fs child))))) in
                       let fs := setFiles fs (Map_.delete (files fs) oldChildPath) in
                       let fs :=
                         setFiles fs (Map_.set (files fs) (FileNode.path (deref fs child)) child) in
                       if isDirectory fs child
                       then match updateChildrenPaths fuel' fs child with
                            | None => None
                            | Some fs' => loop rounds' fs' (S j)
                            end
                       else loop rounds' fs (S j)
                   end
               end) fuel' fs 0
      end
  end.

Definition rename (fuel : nat) (fs : VirtualFileSystem) (oldPath newPath : string)
  : option (bool * VirtualFileSystem) :=
  let normalizedOld := normalizePath oldPath in
  let normalizedNew := normalizePath newPath in
  if String.eqb normalizedOld "/" || String.eqb normalizedNew "/" then Some (false, fs)
  else
    match Map_.get (files fs) normalizedOld with
    | None => Some (false, fs)
    | Some sourceNode =>
        if Map_.has (files fs) normalizedNew then Some (false, fs)
        else
          match getParentNode fs normalizedOld with
          | None => Some (false, fs)
          | Some oldParent =>
              if negb (isDirectory fs oldParent) then Some (false, fs)
              else
                let newParentPath := getParentPath normalizedNew in
                let fs :=
                  if negb (exists_ fs newParentPath)
                  then createAncestors fs EmptyString
                         (JS.filterBoolean (JS.split "/" newParentPath))
                  else fs in
                match getParentNode fs normalizedNew with
                | None => Some (false, fs)
                | Some newParent =>
                    if negb (isDirectory fs newParent) then Some (false, fs)
                    else
                      let fs := childrenDelete fs oldParent (FileNode.name (deref fs sourceNode)) in
                      let newName := getFileName normalizedNew in
                      let fs := update fs sourceNode (fun n => FileNode.setName n newName) in
                      let fs := update fs sourceNode (fun n => FileNode.setPath n normalizedNew) in
                      let fs := childrenSet fs newParent newName sourceNode in
                      let fs := setFiles fs (Map_.delete (files fs) normalizedOld) in
                      let fs := setFiles fs (Map_.set (files fs) normalizedNew sourceNode) in
                      match FileNode.children (deref fs sourceNode) with
                      | Some _ =>
                          if isDirectory fs sourceNode
                          then match updateChildrenPaths fuel fs sourceNode with
                               | None => None
                               | Some fs' => Some (true, fs')
                               end
                          else Some (true, fs)
                      | None => Some (true, fs)
                      end
                end
          end
    end.

(** [Object.keys(data).sort()]: ascending order of the code units. *)
Fixpoint insertSorted (x : string) (l : list string) : list string :=
  match l with
  | [] => [x]
  | y :: l' => if String.leb x y then x :: l else y :: insertSorted x l'
  end.

Definition sortStrings (l : list string) : list string :=
  List.fold_right insertSorted [] l.

(** [data[path]] on a record given by its entries. *)
Fixpoint recordGet {V : Type} (data : list (string * V)) (k : string) : option V :=
  match data with
  | [] => None
  | (k', v) :: data' => if String.eqb k' k then Some v else recordGet data' k
  end.

(** The first lines of [deserialize], [deserializeFromNodes]. *)
Definition clearAll (fs : VirtualFileSystem) : VirtualFileSystem :=
  let fs := setFiles fs (Map_.clear (files fs)) in
  let fs :=
    match FileNode.children (deref fs (root fs)) with
    | Some m => update fs (root fs) (fun n => FileNode.setChildren n (Map_.clear m))
    | None => fs
    end in
  setFiles fs (Map_.set (files fs) "/" (root fs)).

Definition deserialize (fs : VirtualFileSystem) (data : list (string * string))
  : VirtualFileSystem :=
  let fs := clearAll fs in
  let paths := sortStrings (List.map fst data) in
  List.fold_left
    (fun fs path =>
       let parts := JS.filterBoolean (JS.split "/" path) in
       let fs := createAncestors fs EmptyString (List.removelast parts) in
       let content := match recordGet data path with Some c => c | None => EmptyString end in
       snd (createFile fs path content))
    paths fs.

Definition reset (fs : VirtualFileSystem) : VirtualFileSystem :=
  let fs := setFiles fs (Map_.clear (files fs)) in
  let '(r, fs) := alloc fs rootNode in
  let fs := Build_VFS (heap fs) (fresh fs) (files fs) r in
  setFiles fs (Map_.set (files fs) "/" (root fs)).

(** ** [VirtualFileSystem]: [replaceInFile] *)

Definition dquote : string := String (ascii_of_nat 34) EmptyString.
Definition backslash : ascii := ascii_of_nat 92.

(** The class [[.*+?^${}()|[\]\\]]. *)
Definition isSyntaxChar (c : ascii) : bool :=
  List.existsb (Ascii.eqb c)
    (backslash :: list_ascii_of_string ".*+?^${}()|[]").

(** [s.replace(/[.*+?^${}()|[\]\\]/g, "\\$&")] *)
Definition escapeRegExp (s : string) : string :=
  Regex.replaceAll (Regex.Cls isSyntaxChar) (fun m => String backslash m) s.

(** [new RegExp(pattern, "g")] for a pattern made of characters that
    stand for themselves and of escaped syntax characters; [None] for any
    other pattern. *)
Fixpoint RegExp (pattern : string) : option Regex.regex :=
  match pattern with
  | EmptyString => Some Regex.Eps
  | String c rest =>
      if Ascii.eqb c backslash
      then match rest with
           | String d rest' =>
               if isSyntaxChar d
               then match RegExp rest' with
                    | Some r => Some (Regex.Seq (Regex.Chr d) r)
                    | None => None
                    end
               else None
           | EmptyString => None
           end
      else if isSyntaxChar c then None
      else match RegExp rest with
           | Some r => Some (Regex.Seq (Regex.Chr c) r)
           | None => None
           end
  end.

(** The result is [None] when the [RegExp] constructor is given a pattern
    outside the fragment above. *)
Definition replaceInFile (fs : VirtualFileSystem) (path oldStr newStr : string)
  : option (string * VirtualFileSystem) :=
  match getNode fs path with
  | None => Some (JS.cat "Error: File not found: " path, fs)
  | Some file =>
      if negb (isFile fs file)
      then Some (JS.cat "Error: Cannot edit a directory: " path, fs)
      else
        let content := match readFile fs path with Some c => c | None => EmptyString end in
        if negb (JS.truthy oldStr) || negb (JS.includes content oldStr)
        then Some (JS.cat "Error: String not found in file: "
                     (JS.cat dquote (JS.cat oldStr dquote)), fs)
        else
          match RegExp (escapeRegExp oldStr) with
          | None => None
          | Some re =>
              let occurrences := List.length (Regex.matchAll re content) in
              let updatedContent := JS.join newStr (JS.split oldStr content) in
              let fs := snd (updateFile fs path updatedContent) in
              Some (JS.cat "Replaced "
                      (JS.cat (JS.ofNat occurrences)
                         (JS.cat " occurrence(s) of the string in " path)), fs)
          end
  end.

(** ** [jsx-transformer.ts] *)

(** [s.lastIndexOf(c)] for a one-character [c]; [None] is the result -1. *)
Fixpoint lastIndexOfChar (c : ascii) (s : string) : option nat :=
  match s with
  | EmptyString => None
  | String d s' =>
      match lastIndexOfChar c s' with
      | Some i => Some (S i)
      | None => if Ascii.eqb d c then Some 0 else None
      end
  end.

(** [set.add(x)] on a [Set<string>], kept in insertion order. *)
Definition setAdd (l : list string) (x : string) : list string :=
  if List.existsb (String.eqb x) l then l else l ++ [x].

Definition nl : string := String (ascii_of_nat 10) EmptyString.

Definition createPlaceholderModule (componentName : string) : string :=
  JS.cat nl (JS.cat "import React from 'react';" (JS.cat nl
  (JS.cat "const " (JS.cat componentName (JS.cat " = function() {" (JS.cat nl
  (JS.cat "  return React.createElement('div', {}, null);" (JS.cat nl
  (JS.cat "}" (JS.cat nl
  (JS.cat "export default " (JS.cat componentName (JS.cat ";" (JS.cat nl
  (JS.cat "export { " (JS.cat componentName (JS.cat " };" nl))))))))))))))))).

Module Pat.
Import Regex.

Definition seqs (l : list regex) : regex := List.fold_right Seq Eps l.

Definition isQuote (c : ascii) : bool :=
    Ascii.eqb c "'"%char || Ascii.eqb c (ascii_of_nat 34).
Definition notQuote (c : ascii) : bool := negb (isQuote c).
Definition notCloseBrace (c : ascii) : bool := negb (Ascii.eqb c "}"%char).
Definition notCommaSpace (c : ascii) : bool :=
    negb (Ascii.eqb c ","%char || JS.isSpace c).
Definition isDigit (c : ascii) : bool :=
    let n := nat_of_ascii c in Nat.leb 48 n && Nat.leb n 57.
Definition isAlnum (c : ascii) : bool :=
    let n := nat_of_ascii c in
    (Nat.leb 97 n && Nat.leb n 122) || (Nat.leb 65 n && Nat.leb n 90) || isDigit c.
Definition notSlash (c : ascii) : bool := negb (Ascii.eqb c "/"%char).

  (** [{[^}]+}] *)
Definition braces : regex := seqs [Chr "{"; Plus notCloseBrace; Chr "}"].

  (** [importRegex]: the word import, white space, optionally a brace list
      or a run free of commas and white space, optional white space,
      optionally a comma and a brace list, white space, the word from,
      white space, a quote of either kind, the captured run free of
      quotes, a quote of either kind. *)
Definition importRegex : regex :=
    seqs [Lit "import"; Plus JS.isSpace;
          Opt (Alt braces (Plus notCommaSpace));
          Star JS.isSpace;
          Opt (seqs [Chr ","; Star JS.isSpace; braces]);
          Plus JS.isSpace; Lit "from"; Plus JS.isSpace;
          Cls isQuote; Group (Plus notQuote); Cls isQuote].

  (** [cssImportRegex]: the word import, white space, a quote of either
      kind, the captured run free of quotes that ends in .css, a quote. *)
Definition cssImportRegex : regex :=
    seqs [Lit "import"; Plus JS.isSpace; Cls isQuote;
          Group (Seq (Plus notQuote) (Lit ".css")); Cls isQuote].

  (** [/\.(jsx?|tsx?)$/] *)
Definition extensionRegex : regex :=
    seqs [Chr "."; Group (Alt (Seq (Lit "js") (Opt (Chr "x"))) (Seq (Lit "ts") (Opt (Chr "x"))));
          Eol].

  (** [/\/([^\/]+)$/] *)
Definition lastSegmentRegex : regex :=
    seqs [Chr "/"; Group (Plus notSlash); Eol].

  (** [/[^a-zA-Z0-9]/g] *)
Definition nonAlnumRegex : regex := Cls (fun c => negb (isAlnum c)).

  (** [/\((\d+:\d+)\)/] and [/\(\d+:\d+\)/] *)
Definition locationRegex : regex :=
    seqs [Chr "("; Group (seqs [Plus isDigit; Chr ":"; Plus isDigit]); Chr ")"].
End Pat.

(** The import map is a plain object, [const imports = { ... }], whose
    prototype is [Object.prototype].  An assignment [imports[k] = v] of a
    string stores an own property under [k], except under the key
    [__proto__]: that assignment reaches the accessor of the prototype,
    which ignores a value that is not an object, so nothing is stored.  A
    read [imports[k]] gives the own property when there is one, and else
    the property of the prototype, which is a function or an object, so
    truthy, for the keys of [Object.prototype]. *)
Module Obj.
Definition prototypeKeys : list string :=
    [ "__proto__"; "constructor"; "hasOwnProperty"; "isPrototypeOf";
      "propertyIsEnumerable"; "toLocaleString"; "toString"; "valueOf";
      "__defineGetter__"; "__defineSetter__"; "__lookupGetter__"; "__lookupSetter__" ].

  (** [o[k] = v] *)
Definition set (o : gmap string string) (k v : string) : gmap string string :=
    if String.eqb k "__proto__" then o else <[k := v]> o.

  (** The truth value of [o[k]]. *)
Definition truthyAt (o : gmap string string) (k : string) : bool :=
    match o !! k with
    | Some v => JS.truthy v
    | None => List.existsb (String.eqb k) prototypeKeys
    end.
End Obj.

Module TransformResult.
Record t : Type := Build {
    code : string;
    error : option string;
    missingImports : option (list string);
    cssImports : option (list string)
  }.
End TransformResult.

Module ErrorEntry.
Record t : Type := Build { path : string; error : string }.
End ErrorEntry.

Record ImportMapResult : Type := Build_ImportMapResult {
  importMap : string;
  styles : string;
  errors : list ErrorEntry.t
}.

(** What a call of [Babel.transform] does: it returns an object whose
    [code] may be missing, or throws an [Error] with a message, or throws
    something else. *)
Inductive BabelOutcome : Type :=
| BabelResult (code : option string)
| BabelThrowsError (message : string)
| BabelThrowsOther.

(** The scan of the raw text that [transformJSX] does before compiling:
    the style sheet specifiers, the text without the style sheet imports,
    and the other specifiers. *)
Definition captures (fs : list Regex.found) : list string :=
  List.flat_map (fun f => match Regex.capture f with Some c => [c] | None => [] end) fs.

Definition scanCssImports (code : string) : list string :=
  List.fold_left setAdd (captures (Regex.matchAll Pat.cssImportRegex code)) [].

Definition removeCssImports (code : string) : string :=
  Regex.replaceAll Pat.cssImportRegex (fun _ => EmptyString) code.

Definition scanImports (code : string) : list string :=
  List.fold_left
    (fun imports m => if negb (JS.endsWith m ".css") then setAdd imports m else imports)
    (captures (Regex.matchAll Pat.importRegex code)) [].

(** The state of [createImportMap] between its loops. *)
Record Pass : Type := Build_Pass {
  imports : gmap string string;
  transformedFiles : Map_.t string;
  allImports : list string;
  allCssImports : list (string * string);
  collectedStyles : string;
  passErrors : list ErrorEntry.t;
  blobs : list string
}.

Definition isPackage (imp : string) : bool :=
  negb (JS.startsWith imp ".") && negb (JS.startsWith imp "/")
  && negb (JS.startsWith imp "@/").

Definition isScriptPath (path : string) : bool :=
  JS.endsWith path ".js" || JS.endsWith path ".jsx"
  || JS.endsWith path ".ts" || JS.endsWith path ".tsx".

Definition resolveRelativePath (fromDir relativePath : string) : string :=
  let parts := JS.filterBoolean (JS.split "/" fromDir) in
  let relParts := JS.split "/" relativePath in
  let parts :=
    List.fold_left
      (fun parts part =>
         if String.eqb part ".." then List.removelast parts
         else if negb (String.eqb part ".") then parts ++ [part]
         else parts)
      relParts parts in
  JS.cat "/" (JS.join "/" parts).

(** The spellings tried for a local import. *)
Definition variations (importPath : string) : list string :=
  [ importPath;
    JS.cat importPath ".jsx";
    JS.cat importPath ".tsx";
    JS.cat importPath ".js";
    JS.cat importPath ".ts";
    JS.replaceFirst "@/" "/" importPath;
    JS.cat (JS.replaceFirst "@/" "/" importPath) ".jsx";
    JS.cat (JS.replaceFirst "@/" "/" importPath) ".tsx" ].

Definition componentNameOf (importPath : string) : string :=
  match Regex.search Pat.lastSegmentRegex importPath with
  | Some (m, _) =>
      match Regex.capture m with Some c => c | None => EmptyString end
  | None => Regex.replaceAll Pat.nonAlnumRegex (fun _ => EmptyString) importPath
  end.

Section Transformer.
  (** The platform: the compiler, the URL given to the [n]-th blob
      created, and the JSON serialiser applied to [{ imports }]. *)
Variable Babel_transform : string -> string -> bool -> BabelOutcome.
Variable objectURL : nat -> string.
Variable JSON_stringify_imports : gmap string string -> string.

Definition transformJSX (code filename : string) (existingFiles : list string)
    : TransformResult.t :=
    let isTypeScript := JS.endsWith filename ".ts" || JS.endsWith filename ".tsx" in
    let cssImports := scanCssImports code in
    let processedCode := removeCssImports code in
    let imports := scanImports code in
    match Babel_transform processedCode filename isTypeScript with
    | BabelResult c =>
        TransformResult.Build
          (match c with Some c => if JS.truthy c then c else EmptyString | None => EmptyString end)
          None (Some imports) (Some cssImports)
    | BabelThrowsError message => TransformResult.Build EmptyString (Some message) None None
    | BabelThrowsOther =>
        TransformResult.Build EmptyString (Some "Unknown transform error") None None
    end.

  (** [createBlobURL(code)]: the blob is recorded, its URL returned. *)
Definition createBlobURL (bs : list string) (code : string) : string * list string :=
    (objectURL (List.length bs), bs ++ [code]).

  (** The keys under which a compiled file is registered, in the order of
      the assignments. *)
Definition registerFile (imports : gmap string string) (path blobUrl : string)
    : gmap string string :=
    let imports := Obj.set imports path blobUrl in
    let imports :=
      if JS.startsWith path "/" then Obj.set imports (JS.substringFrom 1 path) blobUrl
      else imports in
    let imports :=
      if JS.startsWith path "/"
      then Obj.set (Obj.set imports (JS.cat "@" path) blobUrl)
             (JS.cat "@/" (JS.substringFrom 1 path)) blobUrl
      else imports in
    let pathWithoutExt := Regex.replaceOne Pat.extensionRegex (fun _ => EmptyString) path in
    let imports := Obj.set imports pathWithoutExt blobUrl in
    if JS.startsWith path "/"
    then Obj.set
           (Obj.set (Obj.set imports (JS.substringFrom 1 pathWithoutExt) blobUrl)
              (JS.cat "@" pathWithoutExt) blobUrl)
           (JS.cat "@/" (JS.substringFrom 1 pathWithoutExt)) blobUrl
    else imports.

  (** The callback of [missingImports.forEach]: a package goes to the
      import map, a local specifier to [allImports]. *)
Definition collectImport (acc : gmap string string * list string) (imp : string)
    : gmap string string * list string :=
    let '(imps, alls) := acc in
    if isPackage imp
    then (Obj.set imps imp (JS.cat "https://esm.sh/" imp), alls)
    else (imps, setAdd alls imp).

  (** One round of the first loop. *)
Definition firstPassStep (existingFiles : list string) (st : Pass)
      (entry : string * string) : Pass :=
    let '(path, content) := entry in
    if isScriptPath path then
      let r := transformJSX content path existingFiles in
      if JS.truthyOpt (TransformResult.error r) then
        Build_Pass (imports st) (transformedFiles st) (allImports st) (allCssImports st)
          (collectedStyles st)
          (passErrors st ++
             [ErrorEntry.Build path
                (match TransformResult.error r with Some e => e | None => EmptyString end)])
          (blobs st)
      else
        let '(blobUrl, bs) := createBlobURL (blobs st) (TransformResult.code r) in
        let transformed := Map_.set (transformedFiles st) path blobUrl in
        let '(imps, alls) :=
          match TransformResult.missingImports r with
          | Some missing =>
              List.fold_left collectImport missing (imports st, allImports st)
          | None => (imports st, allImports st)
          end in
        let css :=
          match TransformResult.cssImports r with
          | Some l => allCssImports st ++ List.map (fun c => (path, c)) l
          | None => allCssImports st
          end in
        Build_Pass (registerFile imps path blobUrl) transformed alls css
          (collectedStyles st) (passErrors st) bs
    else if JS.endsWith path ".css" then
      Build_Pass (imports st) (transformedFiles st) (allImports st) (allCssImports st)
        (JS.cat (collectedStyles st)
           (JS.cat "/* " (JS.cat path (JS.cat " */" (JS.cat nl (JS.cat content (JS.cat nl nl)))))))
        (passErrors st) (blobs st)
    else st.

  (** One round of the loop over the style sheet imports. *)
Definition cssStep (files : Map_.t string) (st : Pass) (entry : string * string) : Pass :=
    let '(from, cssPath) := entry in
    let resolvedPath :=
      if JS.startsWith cssPath "@/" then JS.replaceFirst "@/" "/" cssPath
      else if JS.startsWith cssPath "./" || JS.startsWith cssPath "../" then
        let fromDir :=
          match lastIndexOfChar slash from with
          | Some i => String.substring 0 i from
          | None => EmptyString
          end in
        resolveRelativePath fromDir cssPath
      else cssPath in
    if Map_.has files resolvedPath then st
    else
      Build_Pass (imports st) (transformedFiles st) (allImports st) (allCssImports st)
        (JS.cat (collectedStyles st)
           (JS.cat "/* " (JS.cat cssPath (JS.cat " not found */" nl))))
        (passErrors st) (blobs st).

  (** One round of the second loop. *)
Definition secondPassStep (files : Map_.t string) (st : Pass) (importPath : string) : Pass :=
    if Obj.truthyAt (imports st) importPath || JS.startsWith importPath "react" then st
    else if isPackage importPath then
      Build_Pass (Obj.set (imports st) importPath (JS.cat "https://esm.sh/" importPath))
        (transformedFiles st) (allImports st) (allCssImports st) (collectedStyles st)
        (passErrors st) (blobs st)
    else
      let found :=
        List.existsb
          (fun variant => Obj.truthyAt (imports st) variant || Map_.has files variant)
          (variations importPath) in
      if found then st
      else
        let placeholderCode := createPlaceholderModule (componentNameOf importPath) in
        let '(placeholderUrl, bs) := createBlobURL (blobs st) placeholderCode in
        let imps := Obj.set (imports st) importPath placeholderUrl in
        let imps :=
          if JS.startsWith importPath "@/"
          then Obj.set (Obj.set imps (JS.replaceFirst "@/" "/" importPath) placeholderUrl)
                 (JS.replaceFirst "@/" EmptyString importPath) placeholderUrl
          else imps in
        Build_Pass imps (transformedFiles st) (allImports st) (allCssImports st)
          (collectedStyles st) (passErrors st) bs.

Definition initialImports : gmap string string :=
    <["react/jsx-dev-runtime" := "https://esm.sh/react@19/jsx-dev-runtime"]>
    (<["react/jsx-runtime" := "https://esm.sh/react@19/jsx-runtime"]>
    (<["react-dom/client" := "https://esm.sh/react-dom@19/client"]>
    (<["react-dom" := "https://esm.sh/react-dom@19"]>
    (<["react" := "https://esm.sh/react@19"]> ∅)))).

Definition firstPass (files : Map_.t string) : Pass :=
    List.fold_left (firstPassStep (List.map fst (Map_.entries files)))
      (Map_.entries files)
      (Build_Pass initialImports Map_.empty [] [] EmptyString [] []).

Definition cssPass (files : Map_.t string) (st : Pass) : Pass :=
    List.fold_left (cssStep files) (allCssImports st) st.

Definition secondPass (files : Map_.t string) (st : Pass) : Pass :=
    List.fold_left (secondPassStep files) (allImports st) st.

  (** The state in which [createImportMap] reaches its [return]. *)
Definition finalPass (files : Map_.t string) : Pass :=
    secondPass files (cssPass files (firstPass files)).

Definition createImportMap (files : Map_.t string) : ImportMapResult :=
    let st := finalPass files in
    Build_ImportMapResult (JSON_stringify_imports (imports st)) (collectedStyles st)
      (passErrors st).
End Transformer.

(** ** [createPreviewHTML]

    In the literals of the document template the character [`] stands for
    the double quote; the template itself has no [`]. *)
Definition dq (s : string) : string :=
  string_of_list_ascii
    (List.map (fun c => if Ascii.eqb c "`"%char then ascii_of_nat 34 else c)
       (list_ascii_of_string s)).

Definition docHead : string := dq "<!DOCTYPE html>
<html lang=`en`>
<head>
  <meta charset=`UTF-8`>
  <meta name=`viewport` content=`width=device-width, initial-scale=1.0`>
  <title>Preview</title>
  <script src=`https://cdn.tailwindcss.com`></script>
  <style>
    body {
      margin: 0;
      padding: 0;
      font-family: -apple-system, BlinkMacSystemFont, 'Segoe UI', Roboto, sans-serif;
    }
    #root {
      width: 100vw;
      height: 100vh;
    }
    .error-boundary {
      color: red;
      padding: 1rem;
      border: 2px solid red;
      margin: 1rem;
      border-radius: 4px;
      background: #fee;
    }
    .syntax-errors {
      background: #fef5f5;
      border: 2px solid #ff6b6b;
      border-radius: 12px;
      padding: 32px;
      margin: 24px;
      font-family: 'SF Mono', Monaco, Consolas, 'Courier New', monospace;
      font-size: 14px;
      box-shadow: 0 4px 6px rgba(0, 0, 0, 0.1);
    }
    .syntax-errors h3 {
      color: #dc2626;
      margin: 0 0 20px 0;
      font-size: 18px;
      font-weight: 600;
      display: flex;
      align-items: center;
      gap: 8px;
    }
    .syntax-errors .error-item {
      margin: 16px 0;
      padding: 16px;
      background: #fff;
      border-radius: 8px;
      border-left: 4px solid #ff6b6b;
      box-shadow: 0 2px 4px rgba(0, 0, 0, 0.05);
    }
    .syntax-errors .error-path {
      font-weight: 600;
      color: #991b1b;
      font-size: 15px;
      margin-bottom: 8px;
    }
    .syntax-errors .error-message {
      color: #7c2d12;
      margin-top: 8px;
      white-space: pre-wrap;
      line-height: 1.5;
      font-size: 13px;
    }
    .syntax-errors .error-location {
      display: inline-block;
      background: #fee0e0;
      padding: 2px 6px;
      border-radius: 4px;
      font-size: 12px;
      margin-left: 8px;
      color: #991b1b;
    }
  </style>
  ".

Definition importMapOpen : string := dq "
  <script type=`importmap`>
    ".

Definition importMapClose : string := dq "
  </script>
</head>
<body>
  ".

Definition rootDiv : string := dq "
  <div id=`root`></div>
  ".

Definition docTail : string := dq "
</body>
</html>".

Definition bannerOpen : string := dq "
    <div class=`syntax-errors`>
      <h3>
        <svg width=`20` height=`20` viewBox=`0 0 20 20` fill=`none` style=`flex-shrink: 0;`>
          <path d=`M10 0C4.48 0 0 4.48 0 10s4.48 10 10 10 10-4.48 10-10S15.52 0 10 0zm1 15h-2v-2h2v2zm0-4h-2V5h2v6z` fill=`#dc2626`/>
        </svg>
        Syntax Error".

Definition bannerMid : string := dq "
      </h3>
      ".

Definition bannerClose : string := dq "
    </div>
  ".

Definition itemOpen : string := dq "
        <div class=`error-item`>
          <div class=`error-path`>
            ".

Definition itemAfterPath : string := dq "
            ".

Definition locationOpen : string := dq "<span class=`error-location`>".

Definition locationClose : string := dq "</span>".

Definition itemBeforeMessage : string := dq "
          </div>
          <div class=`error-message`>".

Definition itemClose : string := dq "</div>
        </div>
      ".

Definition loaderOpen : string := dq "<script type=`module`>
    import React from 'react';
    import ReactDOM from 'react-dom/client';
    
    class ErrorBoundary extends React.Component {
      constructor(props) {
        super(props);
        this.state = { hasError: false, error: null };
      }

      static getDerivedStateFromError(error) {
        return { hasError: true, error };
      }

      componentDidCatch(error, errorInfo) {
        console.error('Error caught by boundary:', error, errorInfo);
      }

      render() {
        if (this.state.hasError) {
          return React.createElement('div', { className: 'error-boundary' },
            React.createElement('h2', null, 'Something went wrong'),
            React.createElement('pre', null, this.state.error?.toString())
          );
        }

        return this.props.children;
      }
    }

    async function loadApp() {
      try {
        const module = await import('".

Definition loaderAfterUrl : string := dq "');
        const App = module.default || module.App;
        
        if (!App) {
          throw new Error('No default export or App export found in ".

Definition loaderAfterEntry : string := dq "');
        }

        const root = ReactDOM.createRoot(document.getElementById('root'));
        root.render(
          React.createElement(ErrorBoundary, null,
            React.createElement(App)
          )
        );
      } catch (error) {
        console.error('Failed to load app:', error);
        console.error('Import map:', ".

Definition loaderClose : string := dq ");
        document.getElementById('root').innerHTML = '<div class=`error-boundary`><h2>Failed to load app</h2><pre>' + error.toString() + '</pre></div>';
      }
    }

    loadApp();
  </script>".

Section Preview.
  (** The platform: [JSON.parse(importMap).imports[entryPoint]] when the
      text parses and the entry is truthy, as the template prints it; and
      [JSON.stringify] of a string. *)
Variable JSON_parse_entry : string -> string -> option string.
Variable JSON_stringify_string : string -> string.

  (** The first interpolation: the collected style sheets. *)
Definition stylesSection (styles : string) : string :=
    if JS.truthy styles then JS.cat "<style>" (JS.cat nl (JS.cat styles "</style>"))
    else EmptyString.

  (** One entry of the error listing: [location], [cleanError] and the
      two replacements applied to it are the constants of the arrow
      function. *)
Definition errorLocation (error : string) : string :=
    match Regex.search Pat.locationRegex error with
    | Some (m, _) => match Regex.capture m with Some c => c | None => EmptyString end
    | None => EmptyString
    end.

Definition cleanError (error : string) : string :=
    JS.trim (Regex.replaceOne Pat.locationRegex (fun _ => EmptyString) error).

Definition escapeAngles (s : string) : string :=
    Regex.replaceAll (Regex.Chr ">") (fun _ => "&gt;")
      (Regex.replaceAll (Regex.Chr "<") (fun _ => "&lt;") s).

Definition errorItem (e : ErrorEntry.t) : string :=
    let location := errorLocation (ErrorEntry.error e) in
    JS.cat itemOpen (JS.cat (ErrorEntry.path e) (JS.cat itemAfterPath
      (JS.cat (if JS.truthy location
               then JS.cat locationOpen (JS.cat location locationClose)
               else EmptyString)
      (JS.cat itemBeforeMessage
         (JS.cat (escapeAngles (cleanError (ErrorEntry.error e))) itemClose))))).

  (** The interpolation guarded by [errors.length > 0]. *)
Definition errorSection (errors : list ErrorEntry.t) : string :=
    if Nat.ltb 0 (List.length errors) then
      JS.cat bannerOpen
        (JS.cat (if Nat.ltb 1 (List.length errors) then "s" else EmptyString)
        (JS.cat " (" (JS.cat (JS.ofNat (List.length errors)) (JS.cat ")"
        (JS.cat bannerMid
        (JS.cat (JS.join EmptyString (List.map errorItem errors)) bannerClose))))))
    else EmptyString.

  (** The interpolation guarded by [errors.length === 0]. *)
Definition loaderSection (entryPointUrl entryPoint importMap : string)
      (errors : list ErrorEntry.t) : string :=
    if Nat.eqb (List.length errors) 0 then
      JS.cat loaderOpen (JS.cat entryPointUrl (JS.cat loaderAfterUrl
        (JS.cat entryPoint (JS.cat loaderAfterEntry
        (JS.cat (JSON_stringify_string importMap) loaderClose)))))
    else EmptyString.

Definition createPreviewHTML (entryPoint importMap styles : string)
      (errors : list ErrorEntry.t) : string :=
    let entryPointUrl :=
      match JSON_parse_entry importMap entryPoint with
      | Some url => url
      | None => entryPoint
      end in
    JS.cat docHead (JS.cat (stylesSection styles) (JS.cat importMapOpen
      (JS.cat importMap (JS.cat importMapClose (JS.cat (errorSection errors)
      (JS.cat rootDiv (JS.cat (loaderSection entryPointUrl entryPoint importMap errors)
         docTail))))))).
End Preview.

(** ** Vocabulary of the properties *)


(** What a pattern matches, without the order of the attempts:
    [Matches r m rest cap cap'] says that [r] matches exactly [m] when
    [rest] follows, taking the capture from [cap] to [cap']. *)
Fixpoint allOf (p : ascii -> bool) (s : string) : bool :=
  match s with
  | EmptyString => true
  | String c s' => p c && allOf p s'
  end.

Inductive Matches : Regex.regex -> string -> string -> option string -> option string -> Prop :=
| M_Eps rest cap : Matches Regex.Eps EmptyString rest cap cap
| M_Cls p c rest cap : p c = true -> Matches (Regex.Cls p) (String c EmptyString) rest cap cap
| M_Seq a b m1 m2 rest cap cap' cap'' :
    Matches a m1 (String.append m2 rest) cap cap' ->
    Matches b m2 rest cap' cap'' ->
    Matches (Regex.Seq a b) (String.append m1 m2) rest cap cap''
| M_AltL a b m rest cap cap' :
    Matches a m rest cap cap' -> Matches (Regex.Alt a b) m rest cap cap'
| M_AltR a b m rest cap cap' :
    Matches b m rest cap cap' -> Matches (Regex.Alt a b) m rest cap cap'
| M_Star p m rest cap : allOf p m = true -> Matches (Regex.Star p) m rest cap cap
| M_Group a m rest cap cap' :
    Matches a m rest cap cap' -> Matches (Regex.Group a) m rest cap (Some m)
| M_Eol cap : Matches Regex.Eol EmptyString EmptyString cap cap.




(** The longest run of a class at the head of a text, and what follows. *)
Fixpoint takeWhile (p : ascii -> bool) (s : string) : string :=
  match s with
  | EmptyString => EmptyString
  | String c s' => if p c then String c (takeWhile p s') else EmptyString
  end.

Fixpoint dropWhile (p : ascii -> bool) (s : string) : string :=
  match s with
  | EmptyString => EmptyString
  | String c s' => if p c then dropWhile p s' else s
  end.

(** The classes of the slash and of the other characters. *)
Definition isSlash : ascii -> bool := Ascii.eqb slash.

Definition notSlashChar (c : ascii) : bool := negb (Ascii.eqb c slash).

(** Slashes that follow a slash are dropped. *)
Fixpoint collapseSlashes (s : string) : string :=
  match s with
  | EmptyString => EmptyString
  | String c s' =>
      match s' with
      | String d _ =>
          if Ascii.eqb c slash && Ascii.eqb d slash then collapseSlashes s'
          else String c (collapseSlashes s')
      | EmptyString => String c EmptyString
      end
  end.

(** A name of a node: not empty, without slash. *)
Fixpoint noSlash (s : string) : bool :=
  match s with
  | EmptyString => true
  | String c s' => negb (Ascii.eqb c slash) && noSlash s'
  end.

Definition validName (k : string) : bool := negb (String.eqb k EmptyString) && noSlash k.

(** The path written from its names, the root for no name. *)
Fixpoint rawPath (segs : list string) : string :=
  match segs with
  | [] => EmptyString
  | k :: rest => String slash (String.append k (rawPath rest))
  end.

Definition pathOf (segs : list string) : string :=
  match segs with
  | [] => "/"
  | _ => rawPath segs
  end.

(** A normal path, in the words of the specification: it starts with a
    slash, has no two slashes in a row, and ends with a slash only when it
    is the root. *)
Definition cleanPath (p : string) : bool :=
  JS.startsWith p "/" && negb (JS.includes p "//")
  && (String.eqb p "/" || negb (JS.endsWith p "/")).

(** The path of the child named [k] of the node at [p]. *)
Definition joinPath (p k : string) : string :=
  if String.eqb p "/" then JS.cat "/" k else JS.cat p (JS.cat "/" k).

(** *** Occurrences of a text, as the specification counts them

    [cutAt old s] cuts [s] at the first place where [old] occurs: the
    text before the occurrence and the text after it.  Replacing every
    occurrence, and counting them, go from left to right and resume after
    each occurrence, so the occurrences do not overlap.  The fuel bounds
    the number of occurrences; the length of the text is enough when
    [old] is not empty. *)
Fixpoint cutAt (old s : string) : option (string * string) :=
  if String.prefix old s then Some (EmptyString, JS.substringFrom (String.length old) s)
  else
    match s with
    | EmptyString => None
    | String c s' =>
        match cutAt old s' with
        | Some (a, b) => Some (String c a, b)
        | None => None
        end
    end.

Fixpoint replaceEveryFuel (n : nat) (old new s : string) : string :=
  match n with
  | O => s
  | S n' =>
      match cutAt old s with
      | None => s
      | Some (a, b) => String.append a (String.append new (replaceEveryFuel n' old new b))
      end
  end.

Definition replaceEvery (old new s : string) : string :=
  replaceEveryFuel (String.length s) old new s.

Fixpoint countFuel (n : nat) (old s : string) : nat :=
  match n with
  | O => 0
  | S n' =>
      match cutAt old s with
      | None => 0
      | Some (_, b) => S (countFuel n' old b)
      end
  end.

Definition countOccurrences (old s : string) : nat := countFuel (String.length s) old s.

(** *** The resolution map

    The spellings under which a compiled file is registered: its path,
    the path without the leading slash, the two alias forms, and each of
    these without the extension. *)
Definition specifierKeys (path : string) : list string :=
  let w := Regex.replaceOne Pat.extensionRegex (fun _ => EmptyString) path in
  if JS.startsWith path "/" then
    [ path; JS.substringFrom 1 path; JS.cat "@" path; JS.cat "@/" (JS.substringFrom 1 path);
      w; JS.substringFrom 1 w; JS.cat "@" w; JS.cat "@/" (JS.substringFrom 1 w) ]
  else [ path; w ].

(** A file fails to compile when [transformJSX] reports an error, in the
    sense in which [createImportMap] tests it; otherwise it compiles. *)
Definition failsToCompile (Babel_transform : string -> string -> bool -> BabelOutcome)
    (files : Map_.t string) (path content : string) : bool :=
  JS.truthyOpt
    (TransformResult.error
       (transformJSX Babel_transform content path (List.map fst (Map_.entries files)))).

(** The compiled code of a script file of the snapshot that compiles. *)
Definition isOutput (Babel_transform : string -> string -> bool -> BabelOutcome)
    (files : Map_.t string) (b : string) : Prop :=
  exists path content,
    In (path, content) (Map_.entries files) /\ isScriptPath path = true
    /\ failsToCompile Babel_transform files path content = false
    /\ b = TransformResult.code
             (transformJSX Babel_transform content path (List.map fst (Map_.entries files))).

Definition isPlaceholder (b : string) : Prop :=
  exists componentName, b = createPlaceholderModule componentName.

Definition isPackageUrl (v : string) : Prop :=
  exists imp, v = JS.cat "https://esm.sh/" imp.

(** What holds of the state of [createImportMap] all along: a value of
    the map is a package URL or the URL of a blob created so far, a blob
    is a compiled output or a placeholder, and [transformedFiles] knows
    script files that compile only. *)
Definition passSound (Babel_transform : string -> string -> bool -> BabelOutcome)
    (objectURL : nat -> string) (files : Map_.t string) (st : Pass) : Prop :=
  (forall k v, imports st !! k = Some v ->
     isPackageUrl v \/ exists i, i < List.length (blobs st) /\ v = objectURL i)
  /\ (forall b, In b (blobs st) -> isOutput Babel_transform files b \/ isPlaceholder b)
  /\ (forall p u, Map_.get (transformedFiles st) p = Some u ->
        exists c, In (p, c) (Map_.entries files) /\ isScriptPath p = true
                  /\ failsToCompile Babel_transform files p c = false).

(** A toy platform for the examples: every file compiles to itself, except
    those named in [bad], on which the compiler throws; the [n]-th blob
    gets the URL [blob:n]. *)
Definition toyBabel (bad : list string) (code filename : string) (typescript : bool)
  : BabelOutcome :=
  if List.existsb (String.eqb filename) bad
  then BabelThrowsError (JS.cat filename ": Unexpected token (1:5)")
  else BabelResult (Some code).

Definition toyURL (n : nat) : string := JS.cat "blob:" (JS.ofNat n).

(** A snapshot given by its entries. *)
Definition snapshot (l : list (string * string)) : Map_.t string :=
  List.fold_left (fun m '(k, v) => Map_.set m k v) l Map_.empty.

(** *** The two indices of the tree

    [reachable fs a]: the node [a] is the root or a child, under some
    name, of a reachable node. *)
Inductive reachable (fs : VirtualFileSystem) : ref -> Prop :=
| reach_root : reachable fs (root fs)
| reach_child pa k c :
    reachable fs pa -> In (k, c) (Map_.entries (childrenOf fs pa)) -> reachable fs c.

(** The synchronization of the flat table and of the children
    collections, for a given way [join] of writing the path of a child
    from the path of its parent and its name: the root is in the table
    under the root path; a node of the table other than the root is a
    child, under its own name, of one node of the table and of no other,
    and its path is the one of that parent joined with its name; a node
    reachable from the root is in the table under its path. *)
Definition synchronizedWith (join : string -> string -> string) (fs : VirtualFileSystem)
  : Prop :=
  Map_.get (files fs) "/" = Some (root fs)
  /\ (forall p a, Map_.get (files fs) p = Some a -> p <> "/" ->
        exists q pa,
          Map_.get (files fs) q = Some pa
          /\ In (FileNode.name (deref fs a), a) (Map_.entries (childrenOf fs pa))
          /\ FileNode.path (deref fs a)
              = join (FileNode.path (deref fs pa)) (FileNode.name (deref fs a))
          /\ (forall q' pa' k',
                Map_.get (files fs) q' = Some pa' ->
                In (k', a) (Map_.entries (childrenOf fs pa')) ->
                pa' = pa /\ k' = FileNode.name (deref fs a)))
  /\ (forall a, reachable fs a -> Map_.get (files fs) (FileNode.path (deref fs a)) = Some a).

(** With the paths joined as the code joins them: a child of the root is
    at the slash followed by its name. *)
Definition synchronized : VirtualFileSystem -> Prop := synchronizedWith joinPath.

(** With the paths joined as the claim writes them:
    [parent.path + "/" + name]. *)
Definition synchronizedAsStated : VirtualFileSystem -> Prop :=
  synchronizedWith (fun p k => JS.cat p (JS.cat "/" k)).

(** The mutations, and the sequences of mutations. *)
Inductive Mutation : Type :=
| MCreateFile (path content : string)
| MCreateDirectory (path : string)
| MUpdateFile (path content : string)
| MDeleteFile (path : string)
| MRename (oldPath newPath : string)
| MDeserialize (data : list (string * string))
| MReset.

Definition mutate (fuel : nat) (fs : VirtualFileSystem) (m : Mutation)
  : option VirtualFileSystem :=
  match m with
  | MCreateFile path content => Some (snd (createFile fs path content))
  | MCreateDirectory path => Some (snd (createDirectory fs path))
  | MUpdateFile path content => Some (snd (updateFile fs path content))
  | MDeleteFile path => option_map snd (deleteFile fuel fs path)
  | MRename oldPath newPath => option_map snd (rename fuel fs oldPath newPath)
  | MDeserialize data => Some (deserialize fs data)
  | MReset => Some (reset fs)
  end.

(** The mutations that the property covers: a path that may be created
    normalizes to a normal path, and a directory is not renamed to a
    destination inside its own subtree. *)
Definition intoOwnSubtree (fs : VirtualFileSystem) (oldPath newPath : string) : Prop :=
  exists a, getNode fs oldPath = Some a /\ isDirectory fs a = true
    /\ JS.startsWith (normalizePath newPath) (JS.cat (normalizePath oldPath) "/") = true.

Definition covered (fs : VirtualFileSystem) (m : Mutation) : Prop :=
  match m with
  | MCreateFile path _ | MCreateDirectory path => cleanPath (normalizePath path) = true
  | MUpdateFile _ _ | MDeleteFile _ | MReset => True
  | MRename oldPath newPath =>
      cleanPath (normalizePath newPath) = true /\ ~ intoOwnSubtree fs oldPath newPath
  | MDeserialize data =>
      forall path, In path (List.map fst data) -> cleanPath (normalizePath path) = true
  end.

Inductive reaches : VirtualFileSystem -> list Mutation -> VirtualFileSystem -> Prop :=
| reaches_nil fs : reaches fs [] fs
| reaches_cons fs m fuel fs' ms fs'' :
    covered fs m -> mutate fuel fs m = Some fs' -> reaches fs' ms fs'' ->
    reaches fs (m :: ms) fs''.

(** *** The invariant of the proofs

    The facts of the store ([grounded]), and the coherence of the children
    collections with a table [tab] of paths, which is the flat table
    itself ([stored]) or, while [rename] rewrites the paths of a moved
    subtree, the flat table read through the move. *)
Definition cleanSegs (p : string) : Prop :=
  exists segs, List.forallb validName segs = true /\ p = pathOf segs.

Definition kindOK (n : FileNode.t) : Prop :=
  match FileNode.type n with
  | TDirectory => exists m, FileNode.children n = Some m /\ Map_.wf m
  | TFile => FileNode.children n = None
  end.

Record coherent (tab : string -> ref -> Prop) (fs : VirtualFileSystem) : Prop := {
  c_root : tab "/" (root fs);
  c_root_dir : isDirectory fs (root fs) = true;
  c_fun : forall q a a', tab q a -> tab q a' -> a = a';
  c_node : forall q a, tab q a ->
    is_Some (heap fs !! a) /\ cleanSegs q /\ kindOK (deref fs a);
  c_up : forall q a, tab q a -> q <> "/" ->
    exists pa, tab (getParentPath q) pa /\ isDirectory fs pa = true
      /\ Map_.get (childrenOf fs pa) (getFileName q) = Some a
      /\ FileNode.name (deref fs a) = getFileName q;
  c_down : forall q pa k c, tab q pa -> Map_.get (childrenOf fs pa) k = Some c ->
    tab (joinPath q k) c /\ validName k = true
}.

Record grounded (fs : VirtualFileSystem) : Prop := {
  g_fresh : forall a, is_Some (heap fs !! a) -> a < fresh fs;
  g_files : Map_.wf (files fs);
  g_path : forall q a, Map_.get (files fs) q = Some a -> FileNode.path (deref fs a) = q
}.

Definition stored (fs : VirtualFileSystem) (q : string) (a : ref) : Prop :=
  Map_.get (files fs) q = Some a.

Definition wellFormed (fs : VirtualFileSystem) : Prop :=
  grounded fs /\ coherent (stored fs) fs.

(** [under sp q]: the path [q] is at or below the path of the names
    [sp]; [below sp q]: strictly below. *)
Definition under (sp : list string) (q : string) : Prop :=
  exists t, List.forallb validName t = true /\ q = pathOf (sp ++ t).

Definition below (sp : list string) (q : string) : Prop :=
  exists t, List.forallb validName t = true /\ t <> [] /\ q = pathOf (sp ++ t).


(** [grows new fs fs']: from [fs] to [fs'] the table has kept its
    entries and gained directories only, at paths among [new] and at
    objects allocated meanwhile; the objects of [fs] have kept their
    type, content, name and path. *)
Definition grows (new : string -> Prop) (fs fs' : VirtualFileSystem) : Prop :=
  (forall q a, stored fs q a -> stored fs' q a)
  /\ (forall q a, stored fs' q a ->
        stored fs q a
        \/ (new q /\ isDirectory fs' a = true /\ is_Some (heap fs' !! a) /\ heap fs !! a = None))
  /\ (forall a, is_Some (heap fs !! a) ->
        is_Some (heap fs' !! a)
        /\ FileNode.type (deref fs' a) = FileNode.type (deref fs a)
        /\ FileNode.content (deref fs' a) = FileNode.content (deref fs a)
        /\ FileNode.name (deref fs' a) = FileNode.name (deref fs a)
        /\ FileNode.path (deref fs' a) = FileNode.path (deref fs a)).


(** *** The loops of [deleteFile] and [updateChildrenPaths]

    The two loops on their own, over the function called on each child:
    [deleteFile] and [updateChildrenPaths] run them with themselves at
    one unit of fuel less. *)
Section Loops.
Variable del : VirtualFileSystem -> string -> option (bool * VirtualFileSystem).
Variable upd : VirtualFileSystem -> ref -> option VirtualFileSystem.
Variable node : ref.

Fixpoint deleteLoop (rounds : nat) (fs : VirtualFileSystem) (i : nat)
  : option VirtualFileSystem :=
  match rounds with
  | O => None
  | S rounds' =>
      match Map_.next (childrenOf fs node) i with
      | None => Some fs
      | Some (j, (_, child)) =>
          match del fs (FileNode.path (deref fs child)) with
          | None => None
          | Some (_, fs') => deleteLoop rounds' fs' (S j)
          end
      end
  end.

Fixpoint updateLoop (rounds : nat) (fs : VirtualFileSystem) (i : nat)
  : option VirtualFileSystem :=
  match rounds with
  | O => None
  | S rounds' =>
      match Map_.next (childrenOf fs node) i with
      | None => Some fs
      | Some (j, (_, child)) =>
          let oldChildPath := FileNode.path (deref fs child) in
          let fs :=
            update fs child (fun n =>
              FileNode.setPath n
                (JS.cat (FileNode.path (deref fs node))
                   (JS.cat "/" (FileNode.name (deref fs child))))) in
          let fs := setFiles fs (Map_.delete (files fs) oldChildPath) in
          let fs :=
            setFiles fs (Map_.set (files fs) (FileNode.path (deref fs child)) child) in
          if isDirectory fs child
          then match upd fs child with
               | None => None
               | Some fs' => updateLoop rounds' fs' (S j)
               end
          else updateLoop rounds' fs (S j)
      end
  end.
End Loops.
Arguments deleteLoop del node rounds fs i : assert.
Arguments updateLoop upd node rounds fs i : assert.

(** [fits D W fs]: no path of the table is longer than [D], and no
    children collection of a node of the table has [W] slots or more. *)
Definition fits (D W : nat) (fs : VirtualFileSystem) : Prop :=
  forall q a, stored fs q a ->
    String.length q <= D /\ List.length (childrenOf fs a) < W.

(** [removedAt segs k fs fs']: [fs'] is [fs] without the subtree at the
    path of the names [segs ++ [k]]: the table has lost the paths at or
    below it and nothing else, the parent has lost the child named [k],
    and the other nodes of the table are as they were. *)
Definition removedAt (segs : list string) (k : string) (fs fs' : VirtualFileSystem) : Prop :=
  wellFormed fs'
  /\ (forall q a, stored fs' q a <-> stored fs q a /\ ~ under (segs ++ [k]) q)
  /\ (forall q a, stored fs' q a -> q <> pathOf segs -> deref fs' a = deref fs a)
  /\ (forall pa, stored fs (pathOf segs) pa ->
        deref fs' pa
        = FileNode.setChildren (deref fs pa) (Map_.delete (childrenOf fs pa) k)).

(** What holds at each round of the loop of [deleteFile] on the children
    of the node [file] at the path of the names [sN], started in [fs0]:
    the slots before the position [i] of the iterator are empty, the
    table has lost paths below [sN] only, and the nodes of the table that
    are not at or below [sN] are as they were. *)
Definition deleting (fs0 : VirtualFileSystem) (sN : list string) (file : ref)
    (D W i : nat) (fs : VirtualFileSystem) : Prop :=
  wellFormed fs /\ fits D W fs /\ stored fs (pathOf sN) file
  /\ (forall l, l < i -> nth_error (childrenOf fs file) l = Some None)
  /\ (forall q a, stored fs q a -> stored fs0 q a)
  /\ (forall q a, stored fs0 q a -> ~ below sN q -> stored fs q a)
  /\ (forall q a, stored fs0 q a -> ~ under sN q -> deref fs a = deref fs0 a).

(** *** The table while [rename] rewrites the paths of a moved subtree

    [so] are the names of the old path, [sn] the names of the new one.
    A key of the flat table that is still below the old path stands for
    the path below the new one with the same names after it; the other
    keys stand for themselves. *)
Definition movedTable (so sn : list string) (fs : VirtualFileSystem) (q : string) (a : ref)
  : Prop :=
  (stored fs q a /\ ~ below so q)
  \/ (exists t, List.forallb validName t = true /\ t <> []
               /\ q = pathOf (sn ++ t) /\ stored fs (pathOf (so ++ t)) a).

(** No path is at or below both. *)
Definition apart (so sn : list string) : Prop := forall t t', so ++ t <> sn ++ t'.

Definition fitsMoved (D W : nat) (so sn : list string) (fs : VirtualFileSystem) : Prop :=
  forall q a, movedTable so sn fs q a ->
    String.length q <= D /\ List.length (childrenOf fs a) < W.

(** The objects are the same but for their paths. *)
Definition sameNodes (fs fs' : VirtualFileSystem) : Prop :=
  root fs' = root fs /\ fresh fs' = fresh fs
  /\ forall a,
       (is_Some (heap fs' !! a) <-> is_Some (heap fs !! a))
       /\ FileNode.type (deref fs' a) = FileNode.type (deref fs a)
       /\ FileNode.name (deref fs' a) = FileNode.name (deref fs a)
       /\ FileNode.content (deref fs' a) = FileNode.content (deref fs a)
       /\ FileNode.children (deref fs' a) = FileNode.children (deref fs a).

(** From [fs] to [fs'] keys of the table have been rewritten, and nothing
    else has changed: the table read through the move is the same, and
    the keys that were not below the old path are still there. *)
Definition relabelled (so sn : list string) (fs fs' : VirtualFileSystem) : Prop :=
  grounded fs' /\ sameNodes fs fs'
  /\ (forall q a, movedTable so sn fs' q a <-> movedTable so sn fs q a)
  /\ (forall q a, stored fs q a -> ~ below so q -> stored fs' q a).

(** What holds at each round of the loop of [updateChildrenPaths] on the
    children [m] of the node at the new path followed by the names [u],
    started in [fs0]: the subtrees of the children at the slots before
    the position [i] of the iterator are in the table under their new
    paths. *)
Definition relabelling (so sn u : list string) (m : Map_.t ref) (fs0 : VirtualFileSystem)
    (i : nat) (fs : VirtualFileSystem) : Prop :=
  relabelled so sn fs0 fs
  /\ (forall l k c, l < i -> nth_error m l = Some (Some (k, c)) ->
        forall q a, movedTable so sn fs0 q a -> under (sn ++ u ++ [k]) q -> stored fs q a).

(** The table after the subtree at [so] has been moved to [sn], from the
    table [fs0] before. *)
Definition movedFrom (so sn : list string) (fs0 : VirtualFileSystem) (q : string) (a : ref)
  : Prop :=
  (stored fs0 q a /\ ~ under so q)
  \/ (exists t, List.forallb validName t = true
               /\ q = pathOf (sn ++ t) /\ stored fs0 (pathOf (so ++ t)) a).

(** *** The steps of [rename]

    The creation of the missing ancestors of the destination, the move
    of the source node, and the end of the method, each on its own. *)
Definition ancestorsFor (fs : VirtualFileSystem) (normalizedNew : string) : VirtualFileSystem :=
  let newParentPath := getParentPath normalizedNew in
  if negb (exists_ fs newParentPath)
  then createAncestors fs EmptyString (JS.filterBoolean (JS.split "/" newParentPath))
  else fs.

Definition moveNode (fs : VirtualFileSystem) (oldParent sourceNode newParent : ref)
    (normalizedOld normalizedNew : string) : VirtualFileSystem :=
  let fs := childrenDelete fs oldParent (FileNode.name (deref fs sourceNode)) in
  let newName := getFileName normalizedNew in
  let fs := update fs sourceNode (fun n => FileNode.setName n newName) in
  let fs := update fs sourceNode (fun n => FileNode.setPath n normalizedNew) in
  let fs := childrenSet fs newParent newName sourceNode in
  let fs := setFiles fs (Map_.delete (files fs) normalizedOld) in
  setFiles fs (Map_.set (files fs) normalizedNew sourceNode).

Definition renameTail (fuel : nat) (fs : VirtualFileSystem) (sourceNode : ref)
  : option (bool * VirtualFileSystem) :=
  match FileNode.children (deref fs sourceNode) with
  | Some _ =>
      if isDirectory fs sourceNode
      then match updateChildrenPaths fuel fs sourceNode with
           | None => None
           | Some fs' => Some (true, fs')
           end
      else Some (true, fs)
  | None => Some (true, fs)
  end.


(** ** [VirtualFileSystem]: the other methods *)

(** [node.content || ""] *)
Definition contentOrEmpty (n : FileNode.t) : string :=
  match FileNode.content n with
  | Some c => if JS.truthy c then c else EmptyString
  | None => EmptyString
  end.

(** [Array.from(dir.children?.values() || [])] *)
Definition listDirectory (fs : VirtualFileSystem) (path : string) : option (list ref) :=
  let normalized := normalizePath path in
  match Map_.get (files fs) normalized with
  | None => None
  | Some dir =>
      if negb (isDirectory fs dir) then None
      else
        Some (match FileNode.children (deref fs dir) with
              | Some m => List.map snd (Map_.entries m)
              | None => []
              end)
  end.

Definition getAllFiles (fs : VirtualFileSystem) : Map_.t string :=
  List.fold_left
    (fun fileMap '(path, node) =>
       if isFile fs node then Map_.set fileMap path (contentOrEmpty (deref fs node))
       else fileMap)
    (Map_.entries (files fs)) Map_.empty.

(** The copies that [serialize] makes: a node without its children, a
    directory without content either. *)
Module SerialNode.
Record t : Type := Build {
    type : NodeType;
    name : string;
    path : string;
    content : option string
  }.
End SerialNode.

(** The result object is used as a map from paths to copies. *)
Definition serialize (fs : VirtualFileSystem) : gmap string SerialNode.t :=
  List.fold_left
    (fun result '(path, node) =>
       let n := deref fs node in
       if isDirectory fs node
       then <[path := SerialNode.Build (FileNode.type n) (FileNode.name n) (FileNode.path n)
                        None]> result
       else <[path := SerialNode.Build (FileNode.type n) (FileNode.name n) (FileNode.path n)
                        (FileNode.content n)]> result)
    (Map_.entries (files fs)) ∅.

Definition deserializeFromNodes (fs : VirtualFileSystem) (data : gmap string SerialNode.t)
  : VirtualFileSystem :=
  let fs := clearAll fs in
  let paths := sortStrings (List.map fst (map_to_list data)) in
  List.fold_left
    (fun fs path =>
       if String.eqb path "/" then fs
       else
         match data !! path with
         | None => fs
         | Some node =>
             let parts := JS.filterBoolean (JS.split "/" path) in
             let fs := createAncestors fs EmptyString (List.removelast parts) in
             match SerialNode.type node with
             | TFile =>
                 snd (createFile fs path
                        (match SerialNode.content node with
                         | Some c => if JS.truthy c then c else EmptyString
                         | None => EmptyString
                         end))
             | TDirectory => snd (createDirectory fs path)
             end
         end)
    paths fs.

Definition createFileWithParents (fs : VirtualFileSystem) (path content : string)
  : string * VirtualFileSystem :=
  if exists_ fs path then (JS.cat "Error: File already exists: " path, fs)
  else
    let parts := JS.filterBoolean (JS.split "/" path) in
    let fs := createAncestors fs EmptyString (List.removelast parts) in
    let fs := snd (createFile fs path content) in
    (JS.cat "File created: " path, fs).

(** A number that is an integer, printed in decimal notation (as the
    integers below ten to the power 21 in absolute value are). *)
Definition numberToString (z : Z) : string :=
  if Z.ltb z 0 then JS.cat "-" (JS.ofNat (Z.to_nat (Z.opp z))) else JS.ofNat (Z.to_nat z).

(** [insertLine] is [None] for [undefined]. *)
Definition insertInFile (fs : VirtualFileSystem) (path : string) (insertLine : option Z)
    (text : string) : string * VirtualFileSystem :=
  match getNode fs path with
  | None => (JS.cat "Error: File not found: " path, fs)
  | Some file =>
      if negb (isFile fs file) then (JS.cat "Error: Cannot edit a directory: " path, fs)
      else
        let content := match readFile fs path with Some c => c | None => EmptyString end in
        let lines := JS.split nl content in
        let invalid (shown : string) :=
          (JS.cat "Error: Invalid line number: "
             (JS.cat shown
                (JS.cat ". File has "
                   (JS.cat (JS.ofNat (List.length lines)) " lines."))), fs) in
        match insertLine with
        | None => invalid "undefined"
        | Some n =>
            if Z.ltb n 0 || Z.ltb (Z.of_nat (List.length lines)) n
            then invalid (numberToString n)
            else
              (* lines.splice(insertLine, 0, text || "") *)
              let lines :=
                List.firstn (Z.to_nat n) lines ++ text :: List.skipn (Z.to_nat n) lines in
              let updatedContent := JS.join nl lines in
              let fs := snd (updateFile fs path updatedContent) in
              (JS.cat "Text inserted at line "
                 (JS.cat (numberToString n) (JS.cat " in " path)), fs)
        end
  end.

(** [l.slice(b, e)] with integers: a negative index counts from the end. *)
Definition arraySlice {A : Type} (l : list A) (b e : Z) : list A :=
  let len := Z.of_nat (List.length l) in
  let from := if Z.ltb b 0 then Z.max (len + b) 0 else Z.min b len in
  let to := if Z.ltb e 0 then Z.max (len + e) 0 else Z.min e len in
  List.firstn (Z.to_nat (to - from)) (List.skipn (Z.to_nat from) l).

(** [l.map((x, index) => f(x, index))], the indices counted from [i]. *)
Fixpoint mapIndexedFrom {A B : Type} (i : nat) (f : A -> nat -> B) (l : list A) : list B :=
  match l with
  | [] => []
  | x :: l' => f x i :: mapIndexedFrom (S i) f l'
  end.

Definition tab : string := String (ascii_of_nat 9) EmptyString.

Section ViewFile.
  (** [children.sort((a, b) => a.name.localeCompare(b.name))]: the sort
      of the platform with the collation of the platform, given the
      names of the nodes. *)
Variable sortByName : (ref -> string) -> list ref -> list ref.

  (** [viewRange] is [None] when the argument is left out. *)
Definition viewFile (fs : VirtualFileSystem) (path : string) (viewRange : option (list Z))
    : string :=
    match getNode fs path with
    | None => JS.cat "File not found: " path
    | Some file =>
        if isDirectory fs file then
          match listDirectory fs path with
          | None => "(empty directory)"
          | Some children =>
              if Nat.eqb (List.length children) 0 then "(empty directory)"
              else
                JS.join nl
                  (List.map
                     (fun child =>
                        JS.cat (if isDirectory fs child then "[DIR]" else "[FILE]")
                          (JS.cat " " (FileNode.name (deref fs child))))
                     (sortByName (fun a => FileNode.name (deref fs a)) children))
          end
        else
          let content := contentOrEmpty (deref fs file) in
          let ranged :=
            match viewRange with
            | Some [start; end_] => Some (start, end_)
            | _ => None
            end in
          match ranged with
          | Some (start, end_) =>
              let lines := JS.split nl content in
              let startLine := Z.max 1 start in
              let endLine :=
                if Z.eqb end_ (-1) then Z.of_nat (List.length lines)
                else Z.min (Z.of_nat (List.length lines)) end_ in
              let viewedLines := arraySlice lines (startLine - 1) endLine in
              JS.join nl
                (mapIndexedFrom 0
                   (fun line index =>
                      JS.cat (numberToString (startLine + Z.of_nat index)) (JS.cat tab line))
                   viewedLines)
          | None =>
              let lines := JS.split nl content in
              let out :=
                JS.join nl
                  (mapIndexedFrom 0
                     (fun line index => JS.cat (JS.ofNat (index + 1)) (JS.cat tab line))
                     lines) in
              if JS.truthy out then out else "(empty file)"
          end
    end.
End ViewFile.

(** ** The tools over the file system

    [file-manager.ts]: the result of [execute]. *)
Module ToolResult.
Record t : Type := Build {
    success : bool;
    message : option string;
    error : option string
  }.
End ToolResult.

(** [new_path] is [None] when the argument is left out. *)
Definition fileManagerExecute (fuel : nat) (fs : VirtualFileSystem)
    (command path : string) (new_path : option string)
  : option (ToolResult.t * VirtualFileSystem) :=
  if String.eqb command "rename" then
    if negb (JS.truthyOpt new_path)
    then Some (ToolResult.Build false None (Some "new_path is required for rename command"), fs)
    else
      let new_path := match new_path with Some p => p | None => EmptyString end in
      match rename fuel fs path new_path with
      | None => None
      | Some (true, fs') =>
          Some (ToolResult.Build true
                  (Some (JS.cat "Successfully renamed "
                           (JS.cat path (JS.cat " to " new_path)))) None, fs')
      | Some (false, fs') =>
          Some (ToolResult.Build false None
                  (Some (JS.cat "Failed to rename "
                           (JS.cat path (JS.cat " to " new_path)))), fs')
      end
  else if String.eqb command "delete" then
    match deleteFile fuel fs path with
    | None => None
    | Some (true, fs') =>
        Some (ToolResult.Build true (Some (JS.cat "Successfully deleted " path)) None, fs')
    | Some (false, fs') =>
        Some (ToolResult.Build false None (Some (JS.cat "Failed to delete " path)), fs')
    end
  else Some (ToolResult.Build false None (Some "Invalid command"), fs).

(** [str-replace.ts]: the commands, and [execute]. *)
Inductive EditorCommand : Type :=
| CmdView | CmdCreate | CmdStrReplace | CmdInsert | CmdUndoEdit.

Section StrReplaceTool.
Variable sortByName : (ref -> string) -> list ref -> list ref.

Definition strReplaceExecute (fs : VirtualFileSystem) (command : EditorCommand)
      (path : string) (file_text : option string) (insert_line : option Z)
      (new_str old_str : option string) (view_range : option (list Z))
    : option (string * VirtualFileSystem) :=
    let orEmpty (o : option string) := match o with Some s => s | None => EmptyString end in
    match command with
    | CmdView => Some (viewFile sortByName fs path view_range, fs)
    | CmdCreate => Some (createFileWithParents fs path (orEmpty file_text))
    | CmdStrReplace => replaceInFile fs path (orEmpty old_str) (orEmpty new_str)
    | CmdInsert =>
        Some (insertInFile fs path
                (Some (match insert_line with Some n => n | None => 0%Z end))
                (orEmpty new_str))
    | CmdUndoEdit =>
        Some ("Error: undo_edit command is not supported in this version. Use str_replace to revert changes.", fs)
    end.
End StrReplaceTool.

(** ** Every method that changes the tree

    The mutations, and the methods of the text editor. *)
Inductive Operation : Type :=
| OMutation (m : Mutation)
| OCreateFileWithParents (path content : string)
| OReplaceInFile (path oldStr newStr : string)
| OInsertInFile (path : string) (insertLine : option Z) (text : string)
| ODeserializeFromNodes (data : gmap string SerialNode.t).

Definition operate (fuel : nat) (fs : VirtualFileSystem) (op : Operation)
  : option VirtualFileSystem :=
  match op with
  | OMutation m => mutate fuel fs m
  | OCreateFileWithParents path content => Some (snd (createFileWithParents fs path content))
  | OReplaceInFile path oldStr newStr => option_map snd (replaceInFile fs path oldStr newStr)
  | OInsertInFile path insertLine text => Some (snd (insertInFile fs path insertLine text))
  | ODeserializeFromNodes data => Some (deserializeFromNodes fs data)
  end.

(** As for the mutations: a path that may be created normalizes to a
    normal path. *)
Definition coveredOp (fs : VirtualFileSystem) (op : Operation) : Prop :=
  match op with
  | OMutation m => covered fs m
  | OCreateFileWithParents path _ => cleanPath (normalizePath path) = true
  | OReplaceInFile _ _ _ | OInsertInFile _ _ _ => True
  | ODeserializeFromNodes data =>
      forall path, is_Some (data !! path) -> cleanPath (normalizePath path) = true
  end.

(** The trees that the methods build from a new instance by operations
    that [coveredOp] admits: each path to create (the path of
    [createFile], [createDirectory] and [createFileWithParents], the
    destination of [rename], the keys given to [deserialize] and
    [deserializeFromNodes]) normalizes to a normal path, and no directory
    is renamed into its own subtree.  Every path that does not end in two
    slashes normalizes to a normal path. *)
Inductive built : VirtualFileSystem -> Prop :=
| built_new : built constructor
| built_step fs op fuel fs' :
    built fs -> coveredOp fs op -> operate fuel fs op = Some fs' -> built fs'.

(** [q] is the path [p] or a path below it. *)
Definition atOrBelow (p q : string) : bool :=
  String.eqb q p || JS.startsWith q (JS.cat p "/").

(** The reasons for which [rename] refuses. *)
Definition renameRefused (fs : VirtualFileSystem) (oldPath newPath : string) : Prop :=
  normalizePath oldPath = "/" \/ normalizePath newPath = "/"
  \/ exists_ fs oldPath = false \/ exists_ fs newPath = true
  \/ exists q a, Map_.get (files fs) q = Some a
       /\ JS.startsWith (normalizePath newPath) (JS.cat q "/") = true
       /\ isDirectory fs a = false.

(** What holds while [deserialize] and [deserializeFromNodes] rebuild a
    tree: every node of the table other than the root is a directory at a
    path where a directory is wanted, or a file at a path where a file is
    wanted, with the content wanted. *)
Definition rebuilding (dirWanted : string -> Prop) (fileWanted : string -> string -> Prop)
    (fs : VirtualFileSystem) : Prop :=
  wellFormed fs
  /\ forall q a, stored fs q a ->
       q = "/"
       \/ (dirWanted q /\ isDirectory fs a = true)
       \/ (exists c, fileWanted q c /\ isFile fs a = true
                     /\ FileNode.content (deref fs a) = Some c).

(** * Properties *)


(** ** Strings *)

Section StringFacts.
Implicit Types a b c s t : string.

Lemma app_nil_r_s s : String.append s EmptyString = s.
  Proof. induction s as [|x s IH]; simpl; congruence. Qed.

Lemma app_assoc_s a b c :
    String.append (String.append a b) c = String.append a (String.append b c).
  Proof. induction a as [|x a IH]; simpl; congruence. Qed.

Lemma app_length_s a b :
    String.length (String.append a b) = String.length a + String.length b.
  Proof. induction a as [|x a IH]; simpl; congruence. Qed.

Lemma app_inv_head_s a b c : String.append a b = String.append a c -> b = c.
  Proof. induction a as [|x a IH]; simpl; intros H; [exact H|]. injection H. exact IH. Qed.

Lemma app_inv_tail_s a b c : String.append a c = String.append b c -> a = b.
  Proof.
    revert b. induction a as [|x a IH]; intros [|y b] H; simpl in *.
    - reflexivity.
    - apply (f_equal String.length) in H. simpl in H. rewrite app_length_s in H. lia.
    - apply (f_equal String.length) in H. simpl in H. rewrite app_length_s in H. lia.
    - injection H as -> H. f_equal. auto.
  Qed.

Lemma app_eq_nil_s a b : String.append a b = EmptyString -> a = EmptyString /\ b = EmptyString.
  Proof. destruct a; simpl; intros H; [auto | discriminate]. Qed.

Lemma length_zero_s s : String.length s = 0 -> s = EmptyString.
  Proof. destruct s; simpl; [reflexivity | discriminate]. Qed.

  (** [String.prefix p s] holds exactly when [s] starts with [p]. *)
Lemma prefix_app p t : String.prefix p (String.append p t) = true.
  Proof.
    induction p as [|x p IH]; simpl.
    - destruct t; reflexivity.
    - destruct (ascii_dec x x) as [_|n]; [exact IH | contradiction].
  Qed.

Lemma prefix_inv p s : String.prefix p s = true -> exists t, s = String.append p t.
  Proof.
    revert s. induction p as [|x p IH]; intros s H.
    - exists s. reflexivity.
    - destruct s as [|y s]; simpl in H; [discriminate|].
      destruct (ascii_dec x y) as [->|]; [|discriminate].
      destruct (IH _ H) as [t ->]. exists t. reflexivity.
  Qed.

Lemma prefix_nil s : String.prefix EmptyString s = true.
  Proof. destruct s; reflexivity. Qed.

Lemma prefix_cons x p y s :
    String.prefix (String x p) (String y s) = Ascii.eqb x y && String.prefix p s.
  Proof.
    simpl. destruct (ascii_dec x y) as [->|n].
    - rewrite Ascii.eqb_refl. reflexivity.
    - apply Ascii.eqb_neq in n. rewrite n. reflexivity.
  Qed.

Lemma startsWith_cons x s : JS.startsWith (String x s) (String x EmptyString) = true.
  Proof. unfold JS.startsWith. rewrite prefix_cons, Ascii.eqb_refl, prefix_nil. reflexivity. Qed.

Lemma endsWith_eq s p :
    JS.endsWith s p =
    String.eqb s p || match s with EmptyString => false | String _ s' => JS.endsWith s' p end.
  Proof. destruct s; reflexivity. Qed.

Lemma endsWith_app s p : JS.endsWith (String.append s p) p = true.
  Proof.
    induction s as [|x s IH].
    - rewrite endsWith_eq. simpl. rewrite String.eqb_refl. reflexivity.
    - rewrite endsWith_eq. change (String.append (String x s) p) with (String x (String.append s p)).
      cbv iota. rewrite IH. apply orb_true_r.
  Qed.

Lemma endsWith_inv s p : JS.endsWith s p = true -> exists t, s = String.append t p.
  Proof.
    induction s as [|x s IH]; rewrite endsWith_eq; intros H.
    - rewrite orb_false_r in H. apply String.eqb_eq in H. subst. exists EmptyString. reflexivity.
    - apply orb_true_iff in H as [H|H].
      + apply String.eqb_eq in H. subst. exists EmptyString. reflexivity.
      + destruct (IH H) as [t ->]. exists (String x t). reflexivity.
  Qed.

Lemma includes_eq s p :
    JS.includes s p =
    String.prefix p s || match s with EmptyString => false | String _ s' => JS.includes s' p end.
  Proof. destruct s; reflexivity. Qed.

Lemma includes_nil s : JS.includes s EmptyString = true.
  Proof. rewrite includes_eq, prefix_nil. reflexivity. Qed.

Lemma includes_app a p b : JS.includes (String.append a (String.append p b)) p = true.
  Proof.
    induction a as [|x a IH].
    - change (String.append EmptyString (String.append p b)) with (String.append p b).
      rewrite includes_eq, prefix_app. reflexivity.
    - change (String.append (String x a) (String.append p b))
        with (String x (String.append a (String.append p b))).
      rewrite includes_eq, IH. apply orb_true_r.
  Qed.

Lemma includes_inv s p :
    JS.includes s p = true -> exists a b, s = String.append a (String.append p b).
  Proof.
    induction s as [|x s IH]; rewrite includes_eq; intros H.
    - rewrite orb_false_r in H. apply prefix_inv in H as [t ->].
      exists EmptyString, t. reflexivity.
    - apply orb_true_iff in H as [H|H].
      + apply prefix_inv in H as [t ->]. exists EmptyString, t. reflexivity.
      + destruct (IH H) as (a & b & ->). exists (String x a), b. reflexivity.
  Qed.

Lemma substringFrom_app a b : JS.substringFrom (String.length a) (String.append a b) = b.
  Proof. induction a as [|x a IH]; simpl; [destruct b; reflexivity | exact IH]. Qed.

Lemma substring_app a b : String.substring 0 (String.length a) (String.append a b) = a.
  Proof.
    induction a as [|x a IH]; simpl.
    - destruct b; reflexivity.
    - rewrite IH. reflexivity.
  Qed.

Lemma consumed_app m rest : Regex.consumed (String.append m rest) rest = m.
  Proof.
    unfold Regex.consumed. rewrite app_length_s.
    replace (String.length m + String.length rest - String.length rest) with (String.length m) by lia.
    apply substring_app.
  Qed.

End StringFacts.


(** ** The matcher: soundness and completeness *)

Section MatcherFacts.
Context {R : Type}.
Implicit Types (k : string -> option string -> option R).

Lemma run_star_eq p s cap k :
    Regex.run (Regex.Star p) s cap k =
    match s with
    | String c s' =>
        if p c
        then match Regex.run (Regex.Star p) s' cap k with
             | Some x => Some x
             | None => k s cap
             end
        else k s cap
    | EmptyString => k s cap
    end.
  Proof. destruct s; reflexivity. Qed.

Lemma run_seq a b s cap k :
    Regex.run (Regex.Seq a b) s cap k =
    Regex.run a s cap (fun s' cap' => Regex.run b s' cap' k).
  Proof. reflexivity. Qed.

Lemma run_cls p s cap k :
    Regex.run (Regex.Cls p) s cap k =
    match s with
    | String c s' => if p c then k s' cap else None
    | EmptyString => None
    end.
  Proof. reflexivity. Qed.

Lemma run_alt a b s cap k :
    Regex.run (Regex.Alt a b) s cap k =
    match Regex.run a s cap k with
    | Some x => Some x
    | None => Regex.run b s cap k
    end.
  Proof. reflexivity. Qed.

Lemma run_group a s cap k :
    Regex.run (Regex.Group a) s cap k =
    Regex.run a s cap (fun s' _ => k s' (Some (Regex.consumed s s'))).
  Proof. reflexivity. Qed.

Lemma run_eps s cap k : Regex.run Regex.Eps s cap k = k s cap.
  Proof. reflexivity. Qed.

Lemma run_eol s cap k :
    Regex.run Regex.Eol s cap k =
    match s with EmptyString => k s cap | String _ _ => None end.
  Proof. reflexivity. Qed.

Lemma run_sound r : forall s cap k x,
    Regex.run r s cap k = Some x ->
    exists m rest cap',
      s = String.append m rest /\ Matches r m rest cap cap' /\ k rest cap' = Some x.
  Proof.
    induction r as [|p|a IHa b IHb|a IHa b IHb|p|a IHa|]; intros s cap k x H.
    - exists EmptyString, s, cap. repeat split; [constructor | exact H].
    - destruct s as [|c s]; simpl in H; [discriminate|].
      destruct (p c) eqn:Hp; [|discriminate].
      exists (String c EmptyString), s, cap. repeat split; [constructor; exact Hp | exact H].
    - simpl in H. apply IHa in H as (m1 & rest1 & cap1 & -> & Ha & H).
      apply IHb in H as (m2 & rest & cap2 & -> & Hb & H).
      exists (String.append m1 m2), rest, cap2. rewrite app_assoc_s.
      repeat split; [econstructor; eassumption | exact H].
    - simpl in H. destruct (Regex.run a s cap k) eqn:Ea.
      + injection H as ->. apply IHa in Ea as (m & rest & cap' & -> & Ha & H).
        exists m, rest, cap'. repeat split; [apply M_AltL; exact Ha | exact H].
      + apply IHb in H as (m & rest & cap' & -> & Hb & H).
        exists m, rest, cap'. repeat split; [apply M_AltR; exact Hb | exact H].
    - revert H. induction s as [|c s IH]; rewrite run_star_eq; intros H.
      + exists EmptyString, EmptyString, cap. repeat split; [constructor; reflexivity | exact H].
      + destruct (p c) eqn:Hp.
        * destruct (Regex.run (Regex.Star p) s cap k) eqn:Es.
          -- injection H as ->. destruct (IH eq_refl) as (m & rest & cap' & -> & Hm & H).
             inversion Hm; subst.
             exists (String c m), rest, cap'. repeat split; [|exact H].
             constructor. simpl. rewrite Hp. assumption.
          -- exists EmptyString, (String c s), cap.
             repeat split; [constructor; reflexivity | exact H].
        * exists EmptyString, (String c s), cap.
          repeat split; [constructor; reflexivity | exact H].
    - simpl in H. apply IHa in H as (m & rest & cap' & -> & Ha & H).
      rewrite consumed_app in H.
      exists m, rest, (Some m). repeat split; [econstructor; exact Ha | exact H].
    - destruct s; simpl in H; [|discriminate].
      exists EmptyString, EmptyString, cap. repeat split; [constructor | exact H].
  Qed.

Lemma run_complete r m rest cap cap' :
    Matches r m rest cap cap' ->
    forall k, k rest cap' <> None -> Regex.run r (String.append m rest) cap k <> None.
  Proof.
    induction 1 as [rest cap|p c rest cap Hp|a b m1 m2 rest cap cap' cap'' Ha IHa Hb IHb
                   |a b m rest cap cap' Ha IHa|a b m rest cap cap' Hb IHb
                   |p m rest cap Hm|a m rest cap cap' Ha IHa|cap]; intros k Hk.
    - exact Hk.
    - simpl. rewrite Hp. exact Hk.
    - simpl. rewrite app_assoc_s. apply IHa. apply IHb. exact Hk.
    - simpl. specialize (IHa k Hk). destruct (Regex.run a _ cap k); congruence.
    - simpl. specialize (IHb k Hk). destruct (Regex.run a _ cap k); congruence.
    - induction m as [|c m IH].
      + simpl String.append. rewrite run_star_eq. destruct rest as [|c rest]; [exact Hk|].
        destruct (p c); [|exact Hk].
        destruct (Regex.run (Regex.Star p) rest cap k); congruence.
      + simpl in Hm. apply andb_true_iff in Hm as [Hc Hm].
        change (String.append (String c m) rest) with (String c (String.append m rest)).
        rewrite run_star_eq, Hc. specialize (IH Hm).
        destruct (Regex.run (Regex.Star p) (String.append m rest) cap k); congruence.
    - simpl. apply IHa. rewrite consumed_app. exact Hk.
    - exact Hk.
  Qed.
End MatcherFacts.

Lemma matchHere_sound r s m cap rest :
  Regex.matchHere r s = Some (m, cap, rest) ->
  s = String.append m rest /\ Matches r m rest None cap.
Proof.
  unfold Regex.matchHere. intros H.
  apply run_sound in H as (m' & rest' & cap' & -> & HM & H).
  rewrite consumed_app in H. injection H as <- <- <-. auto.
Qed.

Lemma matchHere_complete r m rest cap :
  Matches r m rest None cap -> Regex.matchHere r (String.append m rest) <> None.
Proof.
  intros HM. unfold Regex.matchHere. eapply run_complete; [exact HM | discriminate].
Qed.


(** ** The leftmost match *)

Lemma search_eq r s :
  Regex.search r s =
  match Regex.matchHere r s with
  | Some (m, cap, rest) => Some (Regex.Found EmptyString m cap, rest)
  | None =>
      match s with
      | EmptyString => None
      | String c s' =>
          match Regex.search r s' with
          | Some (f, rest) =>
              Some (Regex.Found (String c (Regex.before f)) (Regex.matched f) (Regex.capture f), rest)
          | None => None
          end
      end
  end.
Proof. destruct s; reflexivity. Qed.

Lemma search_sound r s f rest :
  Regex.search r s = Some (f, rest) ->
  s = String.append (Regex.before f) (String.append (Regex.matched f) rest)
  /\ Matches r (Regex.matched f) rest None (Regex.capture f)
  /\ (forall a c b, Regex.before f = String.append a (String c b) ->
        Regex.matchHere r (String.append (String c b) (String.append (Regex.matched f) rest)) = None).
Proof.
  revert f rest. induction s as [|c s IH]; intros f rest; rewrite search_eq.
  - destruct (Regex.matchHere r EmptyString) as [[[m cap] rest']|] eqn:E; [|discriminate].
    intros H. injection H as <- <-. apply matchHere_sound in E as [E HM].
    simpl. repeat split; [exact E | exact HM |].
    intros [|] ? ? Hb; discriminate.
  - destruct (Regex.matchHere r (String c s)) as [[[m cap] rest']|] eqn:E.
    + intros H. injection H as <- <-. apply matchHere_sound in E as [E HM].
      simpl. repeat split; [exact E | exact HM |].
      intros [|] ? ? Hb; discriminate.
    + destruct (Regex.search r s) as [[f' rest']|] eqn:Es; [|discriminate].
      intros H. injection H as <- <-. destruct (IH _ _ eq_refl) as (Hs & HM & Hleft).
      simpl. repeat split; [congruence | exact HM |].
      intros [|a0 a] c0 b Hb; simpl in Hb; injection Hb as -> Hb.
      * rewrite <- Hb, <- Hs. exact E.
      * apply Hleft with (a := a). exact Hb.
Qed.

Lemma search_none r s :
  Regex.search r s = None ->
  forall a b, s = String.append a b -> Regex.matchHere r b = None.
Proof.
  induction s as [|c s IH]; rewrite search_eq; intros H a b Hs.
  - destruct (Regex.matchHere r EmptyString) as [[[m cap] rest']|] eqn:E; [discriminate|].
    symmetry in Hs. apply app_eq_nil_s in Hs as [_ ->]. exact E.
  - destruct (Regex.matchHere r (String c s)) as [[[m cap] rest']|] eqn:E; [discriminate|].
    destruct (Regex.search r s) as [[f' rest']|] eqn:Es; [discriminate|].
    destruct a as [|a0 a]; simpl in Hs.
    + subst b. exact E.
    + injection Hs as _ Hs. eapply IH; [reflexivity | exact Hs].
Qed.

(** A match that the pattern has somewhere makes the search succeed. *)
Lemma search_complete r a m rest cap :
  Matches r m rest None cap ->
  Regex.search r (String.append a (String.append m rest)) <> None.
Proof.
  intros HM Hn. apply (matchHere_complete _ _ _ _ HM).
  eapply search_none; [exact Hn | reflexivity].
Qed.

(** ** Global scans *)

Arguments Regex.search : simpl never.
Arguments Regex.matchHere : simpl never.


Lemma search_shorter r s f rest :
  Regex.search r s = Some (f, rest) -> Regex.matched f <> EmptyString ->
  String.length rest < String.length s.
Proof.
  intros H Hne. apply search_sound in H as (-> & _ & _).
  rewrite !app_length_s. destruct (Regex.matched f); [congruence | simpl; lia].
Qed.

Lemma scanFuel_enough r : forall n m s,
  String.length s <= n -> String.length s <= m ->
  Regex.scanFuel n r s = Regex.scanFuel m r s.
Proof.
  induction n as [|n IH]; intros m s Hn Hm.
  - assert (s = EmptyString) as -> by (apply length_zero_s; lia).
    destruct m as [|m]; [reflexivity|]. simpl.
    destruct (Regex.search r EmptyString) as [[f rest]|] eqn:E; [|reflexivity].
    destruct (Regex.matched f) eqn:Ef; [reflexivity|].
    apply search_shorter in E; [simpl in E; lia | congruence].
  - destruct m as [|m].
    + assert (s = EmptyString) as -> by (apply length_zero_s; lia).
      simpl.
      destruct (Regex.search r EmptyString) as [[f rest]|] eqn:E; [|reflexivity].
      destruct (Regex.matched f) eqn:Ef; [reflexivity|].
      apply search_shorter in E; [simpl in E; lia | congruence].
    + simpl. destruct (Regex.search r s) as [[f rest]|] eqn:E; [|reflexivity].
      destruct (Regex.matched f) eqn:Ef; [reflexivity|].
      assert (String.length rest < String.length s)
        by (eapply search_shorter; [exact E | congruence]).
      rewrite (IH m rest) by lia. reflexivity.
Qed.

Lemma scan_none r s : Regex.search r s = None -> Regex.scan r s = ([], s).
Proof.
  intros H. unfold Regex.scan. destruct (String.length s) eqn:E.
  - reflexivity.
  - simpl. rewrite H. reflexivity.
Qed.

Lemma scan_step r s f rest :
  Regex.search r s = Some (f, rest) -> Regex.matched f <> EmptyString ->
  Regex.scan r s = (f :: fst (Regex.scan r rest), snd (Regex.scan r rest)).
Proof.
  intros H Hne. pose proof (search_shorter _ _ _ _ H Hne) as Hlt.
  unfold Regex.scan. destruct (String.length s) as [|n] eqn:E; [lia|].
  simpl. rewrite H. destruct (Regex.matched f) eqn:Ef; [congruence|].
  rewrite (scanFuel_enough r n (String.length rest) rest) by lia.
  destruct (Regex.scanFuel (String.length rest) r rest). reflexivity.
Qed.

Lemma scan_empty_match r s f rest :
  Regex.search r s = Some (f, rest) -> Regex.matched f = EmptyString ->
  Regex.scan r s = ([], s).
Proof.
  intros H He. unfold Regex.scan. destruct (String.length s) as [|n] eqn:E; [reflexivity|].
  simpl. rewrite H, He. reflexivity.
Qed.

Lemma replaceAll_none r g s : Regex.search r s = None -> Regex.replaceAll r g s = s.
Proof. intros H. unfold Regex.replaceAll. rewrite (scan_none _ _ H). reflexivity. Qed.

Lemma replaceAll_step r g s f rest :
  Regex.search r s = Some (f, rest) -> Regex.matched f <> EmptyString ->
  Regex.replaceAll r g s =
  String.append (Regex.before f)
    (String.append (g (Regex.matched f)) (Regex.replaceAll r g rest)).
Proof.
  intros H Hne. unfold Regex.replaceAll. rewrite (scan_step _ _ _ _ H Hne).
  destruct (Regex.scan r rest) as [fs tl]. simpl fst. simpl snd. cbv iota beta.
  simpl List.map. simpl String.concat.
  destruct (List.map _ fs) eqn:E.
  - simpl. rewrite !app_assoc_s. reflexivity.
  - rewrite !app_assoc_s. reflexivity.
Qed.

Lemma matchAll_none r s : Regex.search r s = None -> Regex.matchAll r s = [].
Proof. intros H. unfold Regex.matchAll. rewrite (scan_none _ _ H). reflexivity. Qed.

Lemma matchAll_step r s f rest :
  Regex.search r s = Some (f, rest) -> Regex.matched f <> EmptyString ->
  Regex.matchAll r s = f :: Regex.matchAll r rest.
Proof.
  intros H Hne. unfold Regex.matchAll. rewrite (scan_step _ _ _ _ H Hne). reflexivity.
Qed.


(** ** Repetitions followed by a continuation that cannot fail *)

Lemma take_drop p s : String.append (takeWhile p s) (dropWhile p s) = s.
Proof. induction s as [|c s IH]; simpl; [reflexivity|]. destruct (p c); simpl; congruence. Qed.

Lemma allOf_takeWhile p s : allOf p (takeWhile p s) = true.
Proof. induction s as [|c s IH]; simpl; [reflexivity|]. destruct (p c) eqn:E; simpl; [rewrite E|]; auto. Qed.

Lemma dropWhile_length p s : String.length (dropWhile p s) <= String.length s.
Proof. induction s as [|c s IH]; simpl; [lia|]. destruct (p c); simpl; lia. Qed.

Lemma run_star_total {R} p s cap (k : string -> option string -> option R) :
  (forall x, k x cap <> None) ->
  Regex.run (Regex.Star p) s cap k = k (dropWhile p s) cap.
Proof.
  intros Hk. induction s as [|c s IH]; rewrite run_star_eq; [reflexivity|].
  cbn [dropWhile]. destruct (p c); [|reflexivity].
  rewrite IH. specialize (Hk (dropWhile p s)). destruct (k (dropWhile p s) cap); congruence.
Qed.

Lemma matchHere_plus p c s :
  p c = true ->
  Regex.matchHere (Regex.Plus p) (String c s) =
  Some (String c (takeWhile p s), None, dropWhile p s).
Proof.
  intros Hc. unfold Regex.matchHere, Regex.Plus.
  rewrite run_seq, run_cls, Hc. rewrite run_star_total by discriminate.
  rewrite <- (take_drop p s) at 1.
  change (String c (String.append (takeWhile p s) (dropWhile p s)))
    with (String.append (String c (takeWhile p s)) (dropWhile p s)).
  rewrite consumed_app. reflexivity.
Qed.

Lemma matchHere_plus_fail p c s :
  p c = false -> Regex.matchHere (Regex.Plus p) (String c s) = None.
Proof. intros Hc. unfold Regex.matchHere, Regex.Plus. rewrite run_seq, run_cls, Hc. reflexivity. Qed.

Lemma matchHere_plus_nil p : Regex.matchHere (Regex.Plus p) EmptyString = None.
Proof. reflexivity. Qed.

(** ** Replacement: one position at a time *)

Lemma replaceAll_here r g s m cap rest :
  Regex.matchHere r s = Some (m, cap, rest) -> m <> EmptyString ->
  Regex.replaceAll r g s = String.append (g m) (Regex.replaceAll r g rest).
Proof.
  intros H Hne.
  rewrite (replaceAll_step r g s (Regex.Found EmptyString m cap) rest).
  - reflexivity.
  - rewrite search_eq, H. reflexivity.
  - exact Hne.
Qed.

Lemma replaceAll_skip r g c s :
  Regex.matchHere r (String c s) = None ->
  Regex.replaceAll r g (String c s) = String c (Regex.replaceAll r g s).
Proof.
  intros H. destruct (Regex.search r s) as [[f rest]|] eqn:Es.
  - assert (Hs : Regex.search r (String c s) =
                 Some (Regex.Found (String c (Regex.before f)) (Regex.matched f) (Regex.capture f), rest))
      by (rewrite search_eq, H, Es; reflexivity).
    destruct (Regex.matched f) eqn:Ef.
    + unfold Regex.replaceAll.
      rewrite (scan_empty_match _ _ _ _ Hs) by reflexivity.
      rewrite (scan_empty_match _ _ _ _ Es) by exact Ef. reflexivity.
    + rewrite (replaceAll_step _ _ _ _ _ Hs) by (simpl; congruence).
      rewrite (replaceAll_step _ _ _ _ _ Es) by congruence. simpl. rewrite Ef. reflexivity.
  - rewrite replaceAll_none by (rewrite search_eq, H, Es; reflexivity).
    rewrite replaceAll_none by exact Es. reflexivity.
Qed.

Lemma replaceAll_nil r g :
  Regex.matchHere r EmptyString = None -> Regex.replaceAll r g EmptyString = EmptyString.
Proof. intros H. apply replaceAll_none. rewrite search_eq, H. reflexivity. Qed.

(** ** [normalizePath] *)

Lemma isSlash_eqb c : isSlash c = Ascii.eqb c slash.
Proof. unfold isSlash. apply Ascii.eqb_sym. Qed.

Lemma collapse_head s :
  collapseSlashes (String slash s) = String slash (collapseSlashes (dropWhile isSlash s)).
Proof.
  induction s as [|d s IH]; [reflexivity|].
  change (collapseSlashes (String slash (String d s)))
    with (if Ascii.eqb slash slash && Ascii.eqb d slash
          then collapseSlashes (String d s)
          else String slash (collapseSlashes (String d s))).
  rewrite Ascii.eqb_refl. simpl andb. simpl dropWhile. rewrite isSlash_eqb.
  destruct (Ascii.eqb d slash) eqn:E; [|reflexivity].
  apply Ascii.eqb_eq in E. subst d. exact IH.
Qed.

Lemma collapse_other c s :
  Ascii.eqb c slash = false -> collapseSlashes (String c s) = String c (collapseSlashes s).
Proof. intros H. destruct s; simpl; [reflexivity|]. rewrite H. reflexivity. Qed.

Lemma replaceAll_slashes s :
  Regex.replaceAll slashes (fun _ => "/") s = collapseSlashes s.
Proof.
  remember (String.length s) as n eqn:Hn.
  revert s Hn. induction n as [n IH] using lt_wf_ind. intros s Hn.
  destruct s as [|c s].
  - apply replaceAll_nil. reflexivity.
  - destruct (Ascii.eqb c slash) eqn:E.
    + apply Ascii.eqb_eq in E. subst c.
      rewrite (replaceAll_here slashes _ _ _ _ _ (matchHere_plus isSlash slash s (Ascii.eqb_refl _)))
        by discriminate.
      rewrite collapse_head.
      rewrite (IH (String.length (dropWhile isSlash s))); [reflexivity | | reflexivity].
      subst n. simpl. pose proof (dropWhile_length isSlash s). lia.
    + rewrite replaceAll_skip.
      * rewrite collapse_other by exact E. f_equal. eapply IH; [|reflexivity].
        subst n. simpl. lia.
      * apply matchHere_plus_fail. rewrite isSlash_eqb. exact E.
Qed.

(** ** Paths written from names *)

Lemma validName_inv k :
  validName k = true ->
  exists c k', k = String c k' /\ Ascii.eqb c slash = false /\ noSlash k' = true.
Proof.
  unfold validName. destruct k as [|c k']; simpl; [discriminate|].
  intros H. apply andb_true_iff in H as [Hc Hk]. apply negb_true_iff in Hc. eauto.
Qed.

Lemma validName_noSlash k : validName k = true -> noSlash k = true.
Proof. unfold validName. intros H. apply andb_true_iff in H. tauto. Qed.

Lemma validName_nonempty k : validName k = true -> k <> EmptyString.
Proof. intros H ->. discriminate. Qed.

Lemma rawPath_app a b : rawPath (a ++ b) = String.append (rawPath a) (rawPath b).
Proof.
  induction a as [|k a IH]; simpl; [reflexivity|]. rewrite IH, app_assoc_s. reflexivity.
Qed.

Lemma rawPath_snoc a k :
  rawPath (a ++ [k]) = String.append (rawPath a) (String slash k).
Proof. rewrite rawPath_app. simpl. rewrite app_nil_r_s. reflexivity. Qed.

Lemma rawPath_nonempty k r : rawPath (k :: r) <> EmptyString.
Proof. discriminate. Qed.

Lemma rawPath_not_root segs :
  forallb validName segs = true -> rawPath segs <> "/".
Proof.
  destruct segs as [|k r]; [discriminate|]. simpl. intros H E.
  apply andb_true_iff in H as [Hk _]. injection E as E.
  apply app_eq_nil_s in E as [-> _]. discriminate.
Qed.

Lemma pathOf_root_iff segs :
  forallb validName segs = true -> (pathOf segs = "/" <-> segs = []).
Proof.
  intros H. split; [|intros ->; reflexivity].
  destruct segs as [|k r]; [reflexivity|]. intros E. exfalso.
  exact (rawPath_not_root _ H E).
Qed.

Lemma collapse_noSlash k t :
  noSlash k = true ->
  collapseSlashes (String.append k t) = String.append k (collapseSlashes t).
Proof.
  induction k as [|c k IH]; intros H; [reflexivity|].
  simpl in H. apply andb_true_iff in H as [Hc Hk]. apply negb_true_iff in Hc.
  change (String.append (String c k) t) with (String c (String.append k t)).
  rewrite collapse_other by exact Hc. rewrite IH by exact Hk. reflexivity.
Qed.

Lemma collapse_raw segs :
  forallb validName segs = true -> collapseSlashes (rawPath segs) = rawPath segs.
Proof.
  induction segs as [|k r IH]; [reflexivity|]. intros H.
  simpl in H. apply andb_true_iff in H as [Hk Hr].
  simpl rawPath. rewrite collapse_head.
  destruct (validName_inv _ Hk) as (c & k' & -> & Hc & Hk').
  change (String.append (String c k') (rawPath r)) with (String c (String.append k' (rawPath r))).
  cbn [dropWhile]. rewrite isSlash_eqb, Hc.
  rewrite collapse_other by exact Hc.
  rewrite collapse_noSlash by exact Hk'. rewrite IH by exact Hr. reflexivity.
Qed.

Lemma endsWith_noSlash k : noSlash k = true -> JS.endsWith k "/" = false.
Proof.
  induction k as [|c k IH]; intros H; [reflexivity|].
  simpl in H. apply andb_true_iff in H as [Hc Hk]. apply negb_true_iff in Hc.
  rewrite endsWith_eq, (IH Hk), orb_false_r.
  apply String.eqb_neq. intros E. injection E as -> _. discriminate.
Qed.

Lemma endsWith_app_valid a k :
  validName k = true -> JS.endsWith (String.append a k) "/" = false.
Proof.
  intros Hk. induction a as [|x a IH].
  - apply endsWith_noSlash, validName_noSlash, Hk.
  - change (String.append (String x a) k) with (String x (String.append a k)).
    rewrite endsWith_eq, IH, orb_false_r. apply String.eqb_neq.
    intros E. injection E as _ E. apply app_eq_nil_s in E as [_ ->]. discriminate.
Qed.

Lemma endsWith_raw segs :
  forallb validName segs = true -> JS.endsWith (rawPath segs) "/" = false.
Proof.
  induction segs as [|k a _] using rev_ind; [reflexivity|].
  rewrite forallb_app. intros H. apply andb_true_iff in H as [_ H].
  simpl in H. rewrite andb_true_r in H.
  rewrite rawPath_snoc.
  change (String slash k) with (String.append "/" k). rewrite <- app_assoc_s.
  apply endsWith_app_valid, H.
Qed.

Lemma normalizePath_raw segs :
  forallb validName segs = true -> segs <> [] -> normalizePath (rawPath segs) = rawPath segs.
Proof.
  intros H Hne. unfold normalizePath.
  assert (Hs : JS.startsWith (rawPath segs) "/" = true).
  { destruct segs as [|k r]; [congruence|]. unfold JS.startsWith. simpl rawPath.
    rewrite prefix_cons, Ascii.eqb_refl, prefix_nil. reflexivity. }
  rewrite Hs. cbn [negb]. rewrite (endsWith_raw _ H), andb_false_r.
  rewrite replaceAll_slashes. apply collapse_raw, H.
Qed.

Lemma normalizePath_root : normalizePath "/" = "/".
Proof. reflexivity. Qed.

Lemma normalizePath_pathOf segs :
  forallb validName segs = true -> normalizePath (pathOf segs) = pathOf segs.
Proof.
  intros H. destruct segs as [|k r]; [reflexivity|].
  apply (normalizePath_raw (k :: r)); [exact H | discriminate].
Qed.

(** *** Splitting at the slashes *)

Lemma splitFrom_eq sep s skip cur :
  JS.splitFrom sep s skip cur =
  match s with
  | EmptyString => [cur]
  | String c s' =>
      match skip with
      | S k => JS.splitFrom sep s' k cur
      | O =>
          if String.prefix sep s
          then cur :: JS.splitFrom sep s' (String.length sep - 1) EmptyString
          else JS.splitFrom sep s' 0 (String.append cur (String c EmptyString))
      end
  end.
Proof. destruct s; reflexivity. Qed.

Lemma splitFrom_noSlash k t cur :
  noSlash k = true ->
  JS.splitFrom "/" (String.append k t) 0 cur = JS.splitFrom "/" t 0 (String.append cur k).
Proof.
  revert cur. induction k as [|c k IH]; intros cur H.
  - rewrite app_nil_r_s. reflexivity.
  - simpl in H. apply andb_true_iff in H as [Hc Hk]. apply negb_true_iff in Hc.
    change (String.append (String c k) t) with (String c (String.append k t)).
    rewrite splitFrom_eq.
    replace (String.prefix "/" (String c (String.append k t))) with false.
    + rewrite IH by exact Hk. rewrite app_assoc_s. reflexivity.
    + symmetry. change "/" with (String slash EmptyString).
      rewrite prefix_cons. rewrite Ascii.eqb_sym, Hc. reflexivity.
Qed.

Lemma splitFrom_raw segs cur :
  forallb noSlash segs = true ->
  JS.splitFrom "/" (rawPath segs) 0 cur = cur :: segs.
Proof.
  revert cur. induction segs as [|k r IH]; intros cur H; [reflexivity|].
  simpl in H. apply andb_true_iff in H as [Hk Hr].
  simpl rawPath. rewrite splitFrom_eq.
  change "/" with (String slash EmptyString) at 1.
  rewrite prefix_cons, Ascii.eqb_refl, prefix_nil. cbn [andb].
  simpl String.length. simpl Nat.sub.
  rewrite splitFrom_noSlash by exact Hk. rewrite IH by exact Hr. reflexivity.
Qed.

Lemma forallb_valid_noSlash segs :
  forallb validName segs = true -> forallb noSlash segs = true.
Proof.
  induction segs as [|k r IH]; [reflexivity|]. simpl. intros H.
  apply andb_true_iff in H as [Hk Hr]. rewrite (validName_noSlash _ Hk), (IH Hr). reflexivity.
Qed.

Lemma split_raw segs :
  forallb validName segs = true -> JS.split "/" (rawPath segs) = EmptyString :: segs.
Proof. intros H. apply splitFrom_raw, forallb_valid_noSlash, H. Qed.

Lemma filterBoolean_valid segs :
  forallb validName segs = true -> JS.filterBoolean segs = segs.
Proof.
  induction segs as [|k r IH]; [reflexivity|]. simpl. intros H.
  apply andb_true_iff in H as [Hk Hr]. unfold JS.filterBoolean in *. simpl.
  unfold validName in Hk. apply andb_true_iff in Hk as [Hk _]. rewrite Hk, (IH Hr). reflexivity.
Qed.

Lemma parts_raw segs :
  forallb validName segs = true ->
  JS.filterBoolean (JS.split "/" (rawPath segs)) = segs.
Proof.
  intros H. rewrite split_raw by exact H. unfold JS.filterBoolean. simpl.
  apply filterBoolean_valid, H.
Qed.

Lemma parts_pathOf segs :
  forallb validName segs = true ->
  JS.filterBoolean (JS.split "/" (pathOf segs)) = segs.
Proof.
  intros H. destruct segs as [|k r]; [reflexivity|]. apply (parts_raw (k :: r)), H.
Qed.

Lemma concat_raw segs :
  segs <> [] -> String.concat "/" (EmptyString :: segs) = rawPath segs.
Proof.
  induction segs as [|k r IH]; [congruence|]. intros _.
  destruct r as [|k' r'].
  - simpl. rewrite app_nil_r_s. reflexivity.
  - specialize (IH ltac:(discriminate)).
    change (String.concat "/" (EmptyString :: k :: k' :: r'))
      with (String.append EmptyString (String.append "/" (String.concat "/" (k :: k' :: r')))).
    change (String.concat "/" (k :: k' :: r'))
      with (String.append k (String.append "/" (String.concat "/" (k' :: r')))).
    change (String.concat "/" (EmptyString :: k' :: r'))
      with (String.append EmptyString (String.append "/" (String.concat "/" (k' :: r')))) in IH.
    simpl in IH. simpl. rewrite <- IH. reflexivity.
Qed.

Lemma removelast_snoc {A} (l : list A) x : List.removelast (l ++ [x]) = l.
Proof. apply removelast_last. Qed.

Lemma last_snoc {A} (l : list A) x d : List.last (l ++ [x]) d = x.
Proof. apply last_last. Qed.

Lemma valid_snoc segs k :
  forallb validName (segs ++ [k]) = true <->
  forallb validName segs = true /\ validName k = true.
Proof.
  rewrite forallb_app. simpl. rewrite andb_true_r. apply andb_true_iff.
Qed.

Lemma pathOf_snoc_raw segs k : pathOf (segs ++ [k]) = rawPath (segs ++ [k]).
Proof. destruct segs; reflexivity. Qed.

Lemma pathOf_snoc_not_root segs k :
  forallb validName (segs ++ [k]) = true -> pathOf (segs ++ [k]) <> "/".
Proof.
  intros H E. apply pathOf_root_iff in E; [|exact H]. destruct segs; discriminate.
Qed.

Lemma getParentPath_snoc segs k :
  forallb validName (segs ++ [k]) = true ->
  getParentPath (pathOf (segs ++ [k])) = pathOf segs.
Proof.
  intros H. unfold getParentPath. rewrite normalizePath_pathOf by exact H.
  pose proof (pathOf_snoc_not_root _ _ H) as Hne.
  apply String.eqb_neq in Hne. rewrite Hne.
  rewrite pathOf_snoc_raw, split_raw by exact H.
  change (EmptyString :: segs ++ [k]) with ((EmptyString :: segs) ++ [k]).
  rewrite removelast_snoc. simpl List.length.
  destruct segs as [|k0 r]; [reflexivity|].
  simpl Nat.eqb. unfold JS.join. rewrite concat_raw by discriminate. reflexivity.
Qed.

Lemma getFileName_snoc segs k :
  forallb validName (segs ++ [k]) = true ->
  getFileName (pathOf (segs ++ [k])) = k.
Proof.
  intros H. unfold getFileName. rewrite normalizePath_pathOf by exact H.
  pose proof (pathOf_snoc_not_root _ _ H) as Hne.
  apply String.eqb_neq in Hne. rewrite Hne.
  rewrite pathOf_snoc_raw, split_raw by exact H.
  change (EmptyString :: segs ++ [k]) with ((EmptyString :: segs) ++ [k]).
  apply last_snoc.
Qed.

Lemma joinPath_pathOf segs k :
  forallb validName segs = true ->
  joinPath (pathOf segs) k = pathOf (segs ++ [k]).
Proof.
  intros H. unfold joinPath. destruct segs as [|k0 r].
  - rewrite pathOf_snoc_raw, rawPath_snoc. reflexivity.
  - replace (String.eqb (pathOf (k0 :: r)) "/") with false.
    + rewrite pathOf_snoc_raw, rawPath_snoc. reflexivity.
    + symmetry. apply String.eqb_neq. apply (rawPath_not_root (k0 :: r)), H.
Qed.

Lemma pathOf_inj a b :
  forallb validName a = true -> forallb validName b = true ->
  pathOf a = pathOf b -> a = b.
Proof.
  intros Ha Hb E.
  rewrite <- (parts_pathOf a Ha), <- (parts_pathOf b Hb), E. reflexivity.
Qed.

(** *** Normal paths are the paths written from names *)

Lemma includes_suffix a u x : JS.includes u x = true -> JS.includes (String.append a u) x = true.
Proof.
  intros H. induction a as [|c a IH]; [exact H|].
  change (String.append (String c a) u) with (String c (String.append a u)).
  rewrite includes_eq, IH. apply orb_true_r.
Qed.

Lemma endsWith_suffix a u x : JS.endsWith u x = true -> JS.endsWith (String.append a u) x = true.
Proof.
  intros H. induction a as [|c a IH]; [exact H|].
  change (String.append (String c a) u) with (String c (String.append a u)).
  rewrite endsWith_eq, IH. apply orb_true_r.
Qed.

Lemma noSlash_takeWhile t : noSlash (takeWhile notSlashChar t) = true.
Proof.
  induction t as [|c t IH]; [reflexivity|]. simpl. unfold notSlashChar at 1.
  destruct (Ascii.eqb c slash) eqn:E; simpl; [reflexivity|]. rewrite E. exact IH.
Qed.

Lemma dropWhile_notSlash t :
  dropWhile notSlashChar t = EmptyString \/ exists u, dropWhile notSlashChar t = String slash u.
Proof.
  induction t as [|c t IH]; [left; reflexivity|]. simpl. unfold notSlashChar at 1 3.
  destruct (Ascii.eqb c slash) eqn:E; simpl; [|exact IH].
  right. apply Ascii.eqb_eq in E. subst. eauto.
Qed.

Lemma clean_raw : forall n s,
  String.length s <= n ->
  JS.startsWith s "/" = true -> JS.includes s "//" = false -> JS.endsWith s "/" = false ->
  exists segs, forallb validName segs = true /\ segs <> [] /\ s = rawPath segs.
Proof.
  induction n as [|n IH]; intros s Hlen Hs Hi He.
  - assert (s = EmptyString) as -> by (apply length_zero_s; lia). discriminate.
  - apply prefix_inv in Hs as [t ->].
    destruct t as [|c t']; [discriminate|].
    change (String.append "/" (String c t')) with (String slash (String c t')) in *.
    assert (Hc : Ascii.eqb c slash = false).
    { destruct (Ascii.eqb c slash) eqn:E; [|reflexivity].
      apply Ascii.eqb_eq in E. subst c. rewrite includes_eq in Hi.
      change "//" with (String slash (String slash EmptyString)) in Hi.
      rewrite !prefix_cons, !Ascii.eqb_refl, prefix_nil in Hi. discriminate. }
    set (t := String c t') in *.
    set (k := takeWhile notSlashChar t).
    set (u := dropWhile notSlashChar t).
    assert (Hk : validName k = true).
    { unfold validName. subst k. rewrite noSlash_takeWhile, andb_true_r.
      subst t. simpl. unfold notSlashChar. rewrite Hc. reflexivity. }
    assert (Ht : t = String.append k u) by (symmetry; apply take_drop).
    assert (Hlk : String.length k >= 1).
    { destruct (validName_inv _ Hk) as (? & ? & -> & _). simpl. lia. }
    destruct (dropWhile_notSlash t) as [Hu|[u' Hu]]; fold u in Hu.
    + exists [k]. repeat split; [simpl; rewrite Hk; reflexivity | discriminate |].
      rewrite Ht, Hu, app_nil_r_s. simpl. rewrite app_nil_r_s. reflexivity.
    + destruct (IH u) as (segs & Hv & Hne & Hr).
      * assert (String.length t = String.length k + String.length u)
          by (rewrite Ht; apply app_length_s).
        change (S (String.length t) <= S n) in Hlen. lia.
      * rewrite Hu. unfold JS.startsWith. change "/" with (String slash EmptyString).
        rewrite prefix_cons, Ascii.eqb_refl, prefix_nil. reflexivity.
      * destruct (JS.includes u "//") eqn:E; [|reflexivity].
        rewrite <- Hi. symmetry. rewrite Ht.
        change (String slash (String.append k u)) with (String.append (String slash k) u).
        apply includes_suffix, E.
      * destruct (JS.endsWith u "/") eqn:E; [|reflexivity].
        rewrite <- He. symmetry. rewrite Ht.
        change (String slash (String.append k u)) with (String.append (String slash k) u).
        apply endsWith_suffix, E.
      * exists (k :: segs). repeat split; [simpl; rewrite Hk, Hv; reflexivity | discriminate |].
        rewrite Ht, Hr. reflexivity.
Qed.

Lemma cleanPath_pathOf p :
  cleanPath p = true -> exists segs, forallb validName segs = true /\ p = pathOf segs.
Proof.
  unfold cleanPath. intros H.
  apply andb_true_iff in H as [H He]. apply andb_true_iff in H as [Hs Hi].
  apply negb_true_iff in Hi.
  destruct (String.eqb p "/") eqn:E.
  - apply String.eqb_eq in E. subst. exists []. split; reflexivity.
  - simpl in He. apply negb_true_iff in He.
    destruct (clean_raw _ p (le_n _) Hs Hi He) as (segs & Hv & Hne & ->).
    exists segs. split; [exact Hv|]. destruct segs; [congruence | reflexivity].
Qed.

Lemma cleanPath_normalize p : cleanPath p = true -> normalizePath p = p.
Proof.
  intros H. destruct (cleanPath_pathOf _ H) as (segs & Hv & ->).
  apply normalizePath_pathOf, Hv.
Qed.


(** ** [Map]: lookups after updates, and the live iterator *)

Section MapFacts.
Context {V : Type}.
Implicit Types (m : Map_.t V) (k : string) (v : V).

Lemma get_In m k v : Map_.get m k = Some v -> In (k, v) (Map_.entries m).
  Proof.
    induction m as [|[[k' v']|] m IH]; simpl; intros H.
    - discriminate.
    - destruct (String.eqb k' k) eqn:E.
      + apply String.eqb_eq in E. injection H as ->. subst. left. reflexivity.
      + right. auto.
    - auto.
  Qed.

Lemma get_None_not_In m k : Map_.get m k = None -> forall v, ~ In (k, v) (Map_.entries m).
  Proof.
    induction m as [|[[k' v']|] m IH]; simpl; intros H v Hin.
    - exact Hin.
    - destruct (String.eqb k' k) eqn:E; [discriminate|].
      destruct Hin as [Hin|Hin]; [|exact (IH H v Hin)].
      injection Hin as -> _. rewrite String.eqb_refl in E. discriminate.
    - exact (IH H v Hin).
  Qed.

Lemma In_get m k v : Map_.wf m -> In (k, v) (Map_.entries m) -> Map_.get m k = Some v.
  Proof.
    unfold Map_.wf. induction m as [|[[k' v']|] m IH]; simpl; intros Hwf Hin.
    - contradiction.
    - inversion Hwf as [|? ? Hnotin Hwf']; subst.
      destruct Hin as [Hin|Hin].
      + injection Hin as -> ->. rewrite String.eqb_refl. reflexivity.
      + destruct (String.eqb k' k) eqn:E; [|auto].
        apply String.eqb_eq in E. subst k'. exfalso. apply Hnotin.
        apply in_map_iff. exists (k, v). auto.
    - auto.
  Qed.

Lemma has_get m k : Map_.has m k = true <-> exists v, Map_.get m k = Some v.
  Proof.
    unfold Map_.has. destruct (Map_.get m k); split; try eauto; try discriminate.
    intros [? ?]; discriminate.
  Qed.

Lemma has_false m k : Map_.has m k = false <-> Map_.get m k = None.
  Proof. unfold Map_.has. destruct (Map_.get m k); split; congruence. Qed.

Lemma get_app m1 m2 k :
    Map_.get (m1 ++ m2) k =
    match Map_.get m1 k with Some v => Some v | None => Map_.get m2 k end.
  Proof.
    induction m1 as [|[[k' v']|] m1 IH]; simpl; [reflexivity| |exact IH].
    destruct (String.eqb k' k); [reflexivity | exact IH].
  Qed.

Lemma get_replaceValue_eq m k v :
    Map_.has m k = true -> Map_.get (Map_.replaceValue m k v) k = Some v.
  Proof.
    unfold Map_.has. induction m as [|[[k' v']|] m IH]; simpl; intros H.
    - discriminate.
    - destruct (String.eqb k' k) eqn:E; simpl; rewrite E; [reflexivity | auto].
    - auto.
  Qed.

Lemma get_replaceValue_ne m k v k' :
    k <> k' -> Map_.get (Map_.replaceValue m k v) k' = Map_.get m k'.
  Proof.
    intros Hne. induction m as [|[[k0 v0]|] m IH]; simpl; [reflexivity| |exact IH].
    destruct (String.eqb k0 k) eqn:E; simpl.
    - apply String.eqb_eq in E. subst k0.
      apply String.eqb_neq in Hne. rewrite Hne. reflexivity.
    - rewrite IH. reflexivity.
  Qed.

Lemma get_set_eq m k v : Map_.get (Map_.set m k v) k = Some v.
  Proof.
    unfold Map_.set. destruct (Map_.has m k) eqn:E.
    - apply get_replaceValue_eq, E.
    - rewrite get_app. apply has_false in E. rewrite E. simpl.
      rewrite String.eqb_refl. reflexivity.
  Qed.

Lemma get_set_ne m k v k' : k <> k' -> Map_.get (Map_.set m k v) k' = Map_.get m k'.
  Proof.
    intros Hne. unfold Map_.set. destruct (Map_.has m k).
    - apply get_replaceValue_ne, Hne.
    - rewrite get_app. destruct (Map_.get m k'); [reflexivity|]. simpl.
      apply String.eqb_neq in Hne. rewrite Hne. reflexivity.
  Qed.

Lemma get_set m k v k' :
    Map_.get (Map_.set m k v) k' = if String.eqb k k' then Some v else Map_.get m k'.
  Proof.
    destruct (String.eqb k k') eqn:E.
    - apply String.eqb_eq in E. subst. apply get_set_eq.
    - apply String.eqb_neq in E. apply get_set_ne, E.
  Qed.

Lemma keys_replaceValue m k v :
    List.map fst (Map_.entries (Map_.replaceValue m k v)) = List.map fst (Map_.entries m).
  Proof.
    induction m as [|[[k0 v0]|] m IH]; simpl; [reflexivity| |exact IH].
    destruct (String.eqb k0 k); simpl; [reflexivity|]. rewrite IH. reflexivity.
  Qed.

Lemma entries_app m1 m2 : Map_.entries (m1 ++ m2) = Map_.entries m1 ++ Map_.entries m2.
  Proof.
    induction m1 as [|[e|] m1 IH]; simpl; [reflexivity| |exact IH]. rewrite IH. reflexivity.
  Qed.

Lemma wf_empty : Map_.wf (@Map_.empty V).
  Proof. constructor. Qed.

Lemma wf_set m k v : Map_.wf m -> Map_.wf (Map_.set m k v).
  Proof.
    unfold Map_.wf, Map_.set. intros Hwf. destruct (Map_.has m k) eqn:E.
    - rewrite keys_replaceValue. exact Hwf.
    - rewrite entries_app, map_app. simpl.
      apply List.NoDup_app; [exact Hwf | repeat constructor; intros [] |].
      intros x Hin Hx. destruct Hx as [<-|[]].
      apply in_map_iff in Hin as [[k0 v0] [Hk Hin]]. simpl in Hk. subst k0.
      apply has_false in E. exact (get_None_not_In _ _ E _ Hin).
  Qed.

Lemma In_entries_delete m k k' v' :
    In (k', v') (Map_.entries (Map_.delete m k)) -> In (k', v') (Map_.entries m).
  Proof.
    induction m as [|[[k0 v0]|] m IH]; simpl; [tauto| |exact IH].
    destruct (String.eqb k0 k); simpl; [tauto|]. intros [H|H]; [left; exact H | right; auto].
  Qed.

Lemma wf_delete m k : Map_.wf m -> Map_.wf (Map_.delete m k).
  Proof.
    unfold Map_.wf. induction m as [|[[k0 v0]|] m IH]; simpl; intros Hwf; [exact Hwf| |auto].
    inversion Hwf as [|? ? Hnotin Hwf']; subst.
    destruct (String.eqb k0 k); simpl; [exact Hwf'|].
    constructor; [|auto]. intros Hin. apply Hnotin.
    apply in_map_iff in Hin as [[k1 v1] [Hk Hin]]. simpl in Hk. subst k1.
    apply in_map_iff. exists (k0, v1). split; [reflexivity|].
    eapply In_entries_delete, Hin.
  Qed.

Lemma get_delete_ne m k k' : k <> k' -> Map_.get (Map_.delete m k) k' = Map_.get m k'.
  Proof.
    intros Hne. induction m as [|[[k0 v0]|] m IH]; simpl; [reflexivity| |exact IH].
    destruct (String.eqb k0 k) eqn:E; simpl.
    - apply String.eqb_eq in E. subst k0. apply String.eqb_neq in Hne. rewrite Hne. reflexivity.
    - rewrite IH. reflexivity.
  Qed.

Lemma get_delete_eq m k : Map_.wf m -> Map_.get (Map_.delete m k) k = None.
  Proof.
    unfold Map_.wf. induction m as [|[[k0 v0]|] m IH]; simpl; intros Hwf; [reflexivity| |auto].
    inversion Hwf as [|? ? Hnotin Hwf']; subst.
    destruct (String.eqb k0 k) eqn:E; simpl.
    - apply String.eqb_eq in E. subst k0.
      destruct (Map_.get m k) eqn:G; [|reflexivity].
      exfalso. apply Hnotin. apply in_map_iff. exists (k, v). split; [reflexivity|].
      apply get_In, G.
    - rewrite E. auto.
  Qed.

Lemma get_delete m k k' :
    Map_.wf m ->
    Map_.get (Map_.delete m k) k' = if String.eqb k k' then None else Map_.get m k'.
  Proof.
    intros Hwf. destruct (String.eqb k k') eqn:E.
    - apply String.eqb_eq in E. subst. apply get_delete_eq, Hwf.
    - apply String.eqb_neq in E. apply get_delete_ne, E.
  Qed.

Lemma entries_clear m : Map_.entries (Map_.clear m) = [].
  Proof. induction m as [|e m IH]; simpl; [reflexivity | exact IH]. Qed.

Lemma get_clear m k : Map_.get (Map_.clear m) k = None.
  Proof. induction m as [|e m IH]; simpl; [reflexivity | exact IH]. Qed.

Lemma wf_clear m : Map_.wf (Map_.clear m).
  Proof. unfold Map_.wf. rewrite entries_clear. constructor. Qed.

Lemma get_empty k : Map_.get (@Map_.empty V) k = None.
  Proof. reflexivity. Qed.
End MapFacts.


(** ** [normalizePath]: what holds of every result, and what does not *)

Example normalizePath_folder_file : normalizePath "//folder//file.txt" = "/folder/file.txt".
Proof. reflexivity. Qed.

Example normalizePath_relative : normalizePath "test.txt" = "/test.txt".
Proof. reflexivity. Qed.

Example normalizePath_trailing : normalizePath "/trailing/" = "/trailing".
Proof. reflexivity. Qed.

Lemma collapse_no_double s : JS.includes (collapseSlashes s) "//" = false.
Proof.
  remember (String.length s) as n eqn:Hn. revert s Hn.
  induction n as [n IH] using lt_wf_ind. intros s Hn.
  destruct s as [|c s]; [reflexivity|].
  destruct (Ascii.eqb c slash) eqn:E.
  - apply Ascii.eqb_eq in E. subst c. rewrite collapse_head.
    assert (Hrec : JS.includes (collapseSlashes (dropWhile isSlash s)) "//" = false).
    { eapply IH; [|reflexivity]. subst n. simpl. pose proof (dropWhile_length isSlash s). lia. }
    rewrite includes_eq, Hrec, orb_false_r.
    change "//" with (String slash (String slash EmptyString)).
    rewrite prefix_cons, Ascii.eqb_refl. cbn [andb].
    destruct (dropWhile isSlash s) as [|d u] eqn:Ed; [reflexivity|].
    assert (Hd : isSlash d = false).
    { clear -Ed. induction s as [|x s IHs]; [discriminate|]. simpl in Ed.
      destruct (isSlash x) eqn:Ex; [auto|]. injection Ed as -> _. exact Ex. }
    rewrite isSlash_eqb in Hd. rewrite collapse_other by exact Hd.
    rewrite prefix_cons. unfold isSlash in *. rewrite Ascii.eqb_sym, Hd. reflexivity.
  - rewrite collapse_other by exact E.
    rewrite includes_eq. rewrite (IH (String.length s)); [| subst n; simpl; lia | reflexivity].
    rewrite orb_false_r. change "//" with (String slash (String slash EmptyString)).
    rewrite prefix_cons, Ascii.eqb_sym, E. reflexivity.
Qed.

Lemma collapse_starts s :
  JS.startsWith s "/" = true -> JS.startsWith (collapseSlashes s) "/" = true.
Proof.
  intros H. apply prefix_inv in H as [t ->].
  change (String.append "/" t) with (String slash t). rewrite collapse_head.
  apply startsWith_cons.
Qed.

Lemma sliceDropLast_starts c d s :
  JS.startsWith (JS.sliceDropLast (String c (String d s))) (String c EmptyString) = true.
Proof.
  change (JS.sliceDropLast (String c (String d s)))
    with (String c (JS.sliceDropLast (String d s))).
  apply startsWith_cons.
Qed.

(** Every result starts with a slash and has no two slashes in a row. *)
Lemma normalizePath_shape path :
  JS.startsWith (normalizePath path) "/" = true
  /\ JS.includes (normalizePath path) "//" = false.
Proof.
  unfold normalizePath. rewrite replaceAll_slashes. split; [|apply collapse_no_double].
  apply collapse_starts.
  set (p1 := if negb (JS.startsWith path "/") then JS.cat "/" path else path).
  assert (H1 : JS.startsWith p1 "/" = true).
  { subst p1. destruct (JS.startsWith path "/") eqn:E; [exact E | apply startsWith_cons]. }
  destruct (negb (String.eqb p1 "/") && JS.endsWith p1 "/") eqn:E; [|exact H1].
  apply andb_true_iff in E as [E _]. apply negb_true_iff, String.eqb_neq in E.
  apply prefix_inv in H1 as [t Ht]. rewrite Ht in *.
  destruct t as [|d t]; [exfalso; apply E; reflexivity|]. apply sliceDropLast_starts.
Qed.

(** C7.  The third part of the claim fails: only one slash is removed from
    the end, before the runs of slashes are collapsed, so a path that ends
    in two slashes or more keeps a slash at its end. *)
Theorem normalizePath_keeps_trailing_slash :
  normalizePath "/a//" = "/a/"
  /\ JS.endsWith (normalizePath "/a//") "/" = true
  /\ normalizePath "/a//" <> "/"
  /\ cleanPath (normalizePath "/a//") = false.
Proof. repeat split; try reflexivity. discriminate. Qed.

(** ** [rename]: the refusals *)

(** C3.  When one of the two normalized paths is the root, or the source
    is not in the tree, or the destination is, [rename] returns false and
    the instance is the one it was given, whatever the fuel. *)
Theorem rename_refused_unchanged (fuel : nat) (fs : VirtualFileSystem) (oldPath newPath : string) :
  normalizePath oldPath = "/" \/ normalizePath newPath = "/"
  \/ exists_ fs oldPath = false \/ exists_ fs newPath = true ->
  rename fuel fs oldPath newPath = Some (false, fs).
Proof.
  unfold rename, exists_, Map_.has. intros H.
  destruct (String.eqb (normalizePath oldPath) "/") eqn:Eo; [reflexivity|].
  destruct (String.eqb (normalizePath newPath) "/") eqn:En; [reflexivity|].
  cbn [orb].
  apply String.eqb_neq in Eo, En.
  destruct H as [H|[H|[H|H]]]; try contradiction.
  - destruct (Map_.get (files fs) (normalizePath oldPath)); [discriminate | reflexivity].
  - destruct (Map_.get (files fs) (normalizePath oldPath)); [|reflexivity].
    destruct (Map_.get (files fs) (normalizePath newPath)); [reflexivity | discriminate].
Qed.

Lemma rename_refused_unchanged_witness :
  rename 0 constructor "/missing.txt" "/" = Some (false, constructor).
Proof. apply rename_refused_unchanged. right. left. reflexivity. Defined.

(** ** [replaceInFile]: the empty search text *)

(** C10.  On an existing file, an empty [oldStr] is answered by the
    message of the text that is not found, and the instance is unchanged,
    although the content does include the empty text. *)
Theorem replaceInFile_empty_oldStr (fs : VirtualFileSystem) (path newStr : string) (file : ref) :
  getNode fs path = Some file -> isFile fs file = true ->
  replaceInFile fs path EmptyString newStr
  = Some (JS.cat "Error: String not found in file: " (JS.cat dquote dquote), fs)
  /\ forall content, readFile fs path = Some content -> JS.includes content EmptyString = true.
Proof.
  intros Hnode Hfile. split.
  - unfold replaceInFile. rewrite Hnode, Hfile. reflexivity.
  - intros content _. apply includes_nil.
Qed.

Lemma replaceInFile_empty_oldStr_witness :
  replaceInFile (snd (createFile constructor "/t.txt" "abc")) "/t.txt" EmptyString "x"
  = Some (JS.cat "Error: String not found in file: " (JS.cat dquote dquote),
          snd (createFile constructor "/t.txt" "abc")).
Proof.
  apply (replaceInFile_empty_oldStr (snd (createFile constructor "/t.txt" "abc"))
           "/t.txt" "x" 1); reflexivity.
Defined.


(** ** [replaceInFile]: every occurrence, and their number *)

Lemma cutAt_eq old s :
  cutAt old s =
  if String.prefix old s then Some (EmptyString, JS.substringFrom (String.length old) s)
  else
    match s with
    | EmptyString => None
    | String c s' =>
        match cutAt old s' with
        | Some (a, b) => Some (String c a, b)
        | None => None
        end
    end.
Proof. destruct s; reflexivity. Qed.

Lemma prefix_split old s :
  String.prefix old s = true ->
  s = String.append old (JS.substringFrom (String.length old) s).
Proof.
  intros H. apply prefix_inv in H as [t ->]. rewrite substringFrom_app. reflexivity.
Qed.

Lemma cutAt_sound old s a b :
  cutAt old s = Some (a, b) -> s = String.append a (String.append old b).
Proof.
  revert a b. induction s as [|c s IH]; intros a b; rewrite cutAt_eq.
  - destruct (String.prefix old EmptyString) eqn:E; [|discriminate].
    intros H. injection H as <- <-. apply (prefix_split _ _ E).
  - destruct (String.prefix old (String c s)) eqn:E.
    + intros H. injection H as <- <-. apply (prefix_split _ _ E).
    + destruct (cutAt old s) as [[a' b']|] eqn:Ec; [|discriminate].
      intros H. injection H as <- <-. rewrite (IH _ _ eq_refl) at 1. reflexivity.
Qed.

(** The cut is at the first occurrence: [old] starts nowhere earlier. *)
Lemma cutAt_first old s a b :
  cutAt old s = Some (a, b) ->
  forall a1 c a2, a = String.append a1 (String c a2) ->
    String.prefix old (String.append (String c a2) (String.append old b)) = false.
Proof.
  revert a b. induction s as [|c s IH]; intros a b; rewrite cutAt_eq.
  - destruct (String.prefix old EmptyString); [|discriminate].
    intros H. injection H as <- <-. intros [|] ? ? ?; discriminate.
  - destruct (String.prefix old (String c s)) eqn:E.
    + intros H. injection H as <- <-. intros [|] ? ? ?; discriminate.
    + destruct (cutAt old s) as [[a' b']|] eqn:Ec; [|discriminate].
      intros H. injection H as <- <-. intros [|x a1] c0 a2 Ha; simpl in Ha; injection Ha as -> Ha.
      * subst a'. rewrite <- E. f_equal. simpl. f_equal. symmetry. apply (cutAt_sound _ _ _ _ Ec).
      * eapply IH; [reflexivity | exact Ha].
Qed.

Lemma cutAt_none old s : cutAt old s = None -> JS.includes s old = false.
Proof.
  induction s as [|c s IH]; rewrite cutAt_eq, includes_eq.
  - destruct (String.prefix old EmptyString); [discriminate | reflexivity].
  - destruct (String.prefix old (String c s)); [discriminate|].
    destruct (cutAt old s) as [[a b]|]; [discriminate|]. intros _. simpl. apply IH. reflexivity.
Qed.

Lemma cutAt_shorter old s a b :
  old <> EmptyString -> cutAt old s = Some (a, b) -> String.length b < String.length s.
Proof.
  intros Hne H. apply cutAt_sound in H. subst s. rewrite !app_length_s.
  destruct old; [congruence | simpl; lia].
Qed.

Lemma cutAt_nil old : old <> EmptyString -> cutAt old EmptyString = None.
Proof. destruct old; [congruence | reflexivity]. Qed.

Lemma replaceEveryFuel_enough old new : old <> EmptyString -> forall n m s,
  String.length s <= n -> String.length s <= m ->
  replaceEveryFuel n old new s = replaceEveryFuel m old new s.
Proof.
  intros Hne. induction n as [|n IH]; intros m s Hn Hm.
  - assert (s = EmptyString) as -> by (apply length_zero_s; lia).
    destruct m; cbn [replaceEveryFuel]; [reflexivity|]. rewrite (cutAt_nil old Hne). reflexivity.
  - destruct m as [|m].
    + assert (s = EmptyString) as -> by (apply length_zero_s; lia).
      cbn [replaceEveryFuel]. rewrite (cutAt_nil old Hne). reflexivity.
    + cbn [replaceEveryFuel]. destruct (cutAt old s) as [[a b]|] eqn:E; [|reflexivity].
      pose proof (cutAt_shorter _ _ _ _ Hne E). rewrite (IH m b) by lia. reflexivity.
Qed.

Lemma countFuel_enough old : old <> EmptyString -> forall n m s,
  String.length s <= n -> String.length s <= m ->
  countFuel n old s = countFuel m old s.
Proof.
  intros Hne. induction n as [|n IH]; intros m s Hn Hm.
  - assert (s = EmptyString) as -> by (apply length_zero_s; lia).
    destruct m; cbn [countFuel]; [reflexivity|]. rewrite (cutAt_nil old Hne). reflexivity.
  - destruct m as [|m].
    + assert (s = EmptyString) as -> by (apply length_zero_s; lia).
      cbn [countFuel]. rewrite (cutAt_nil old Hne). reflexivity.
    + cbn [countFuel]. destruct (cutAt old s) as [[a b]|] eqn:E; [|reflexivity].
      pose proof (cutAt_shorter _ _ _ _ Hne E). rewrite (IH m b) by lia. reflexivity.
Qed.

Lemma replaceEvery_step old new s a b :
  old <> EmptyString -> cutAt old s = Some (a, b) ->
  replaceEvery old new s = String.append a (String.append new (replaceEvery old new b)).
Proof.
  intros Hne H. pose proof (cutAt_shorter _ _ _ _ Hne H) as Hlt.
  unfold replaceEvery. destruct (String.length s) as [|n] eqn:E; [lia|].
  cbn [replaceEveryFuel]. rewrite H. rewrite (replaceEveryFuel_enough old new Hne n (String.length b)) by lia.
  reflexivity.
Qed.

Lemma replaceEvery_none old new s : cutAt old s = None -> replaceEvery old new s = s.
Proof.
  intros H. unfold replaceEvery. destruct (String.length s); cbn [replaceEveryFuel]; [reflexivity|].
  rewrite H. reflexivity.
Qed.

Lemma countOccurrences_step old s a b :
  old <> EmptyString -> cutAt old s = Some (a, b) ->
  countOccurrences old s = S (countOccurrences old b).
Proof.
  intros Hne H. pose proof (cutAt_shorter _ _ _ _ Hne H) as Hlt.
  unfold countOccurrences. destruct (String.length s) as [|n] eqn:E; [lia|].
  cbn [countFuel]. rewrite H. rewrite (countFuel_enough old Hne n (String.length b)) by lia.
  reflexivity.
Qed.

Lemma countOccurrences_none old s : cutAt old s = None -> countOccurrences old s = 0.
Proof.
  intros H. unfold countOccurrences. destruct (String.length s); cbn [countFuel]; [reflexivity|].
  rewrite H. reflexivity.
Qed.

(** *** The pattern built from the escaped text *)

Lemma matchHere_cls p s :
  Regex.matchHere (Regex.Cls p) s =
  match s with
  | String c s' => if p c then Some (String c EmptyString, None, s') else None
  | EmptyString => None
  end.
Proof.
  unfold Regex.matchHere. rewrite run_cls. destruct s as [|c s]; [reflexivity|].
  destruct (p c); [|reflexivity].
  change (String c s) with (String.append (String c EmptyString) s).
  rewrite consumed_app. reflexivity.
Qed.

Lemma escapeRegExp_cons c s :
  escapeRegExp (String c s) =
  if isSyntaxChar c then String backslash (String c (escapeRegExp s))
  else String c (escapeRegExp s).
Proof.
  unfold escapeRegExp. destruct (isSyntaxChar c) eqn:E.
  - rewrite (replaceAll_here _ _ _ (String c EmptyString) None s).
    + reflexivity.
    + rewrite matchHere_cls, E. reflexivity.
    + discriminate.
  - apply replaceAll_skip. rewrite matchHere_cls, E. reflexivity.
Qed.

Lemma escapeRegExp_nil : escapeRegExp EmptyString = EmptyString.
Proof. reflexivity. Qed.

Lemma RegExp_escape s : RegExp (escapeRegExp s) = Some (Regex.Lit s).
Proof.
  induction s as [|c s IH]; [reflexivity|].
  rewrite escapeRegExp_cons. destruct (isSyntaxChar c) eqn:E.
  - cbn [RegExp]. rewrite Ascii.eqb_refl, E, IH. reflexivity.
  - cbn [RegExp]. rewrite E, IH.
    destruct (Ascii.eqb c backslash) eqn:Eb; [|reflexivity].
    apply Ascii.eqb_eq in Eb. subst c. discriminate.
Qed.

Lemma run_lit {R} old : forall s cap (k : string -> option string -> option R),
  Regex.run (Regex.Lit old) s cap k =
  if String.prefix old s then k (JS.substringFrom (String.length old) s) cap else None.
Proof.
  induction old as [|c old IH]; intros s cap k.
  - rewrite prefix_nil. reflexivity.
  - cbn [Regex.Lit]. rewrite run_seq. unfold Regex.Chr. rewrite run_cls.
    destruct s as [|d s]; [reflexivity|].
    rewrite prefix_cons. destruct (Ascii.eqb c d); [|reflexivity].
    rewrite IH. reflexivity.
Qed.

Lemma matchHere_lit old s :
  Regex.matchHere (Regex.Lit old) s =
  if String.prefix old s then Some (old, None, JS.substringFrom (String.length old) s)
  else None.
Proof.
  unfold Regex.matchHere. rewrite run_lit.
  destruct (String.prefix old s) eqn:E; [|reflexivity].
  apply prefix_inv in E as [t ->]. rewrite substringFrom_app, consumed_app. reflexivity.
Qed.

Lemma search_lit old s :
  Regex.search (Regex.Lit old) s =
  match cutAt old s with
  | Some (a, b) => Some (Regex.Found a old None, b)
  | None => None
  end.
Proof.
  induction s as [|c s IH]; rewrite search_eq, cutAt_eq, matchHere_lit.
  - destruct (String.prefix old EmptyString); reflexivity.
  - destruct (String.prefix old (String c s)); [reflexivity|].
    rewrite IH. destruct (cutAt old s) as [[a b]|]; reflexivity.
Qed.

Lemma matchAll_lit_count old : old <> EmptyString -> forall s,
  List.length (Regex.matchAll (Regex.Lit old) s) = countOccurrences old s.
Proof.
  intros Hne s. remember (String.length s) as n eqn:Hn. revert s Hn.
  induction n as [n IH] using lt_wf_ind. intros s Hn.
  destruct (cutAt old s) as [[a b]|] eqn:E.
  - rewrite (matchAll_step _ _ (Regex.Found a old None) b).
    + rewrite (countOccurrences_step _ _ _ _ Hne E). simpl. f_equal.
      eapply IH; [|reflexivity]. subst n. eapply cutAt_shorter; eassumption.
    + rewrite search_lit, E. reflexivity.
    + exact Hne.
  - rewrite matchAll_none by (rewrite search_lit, E; reflexivity).
    rewrite countOccurrences_none by exact E. reflexivity.
Qed.

(** *** [split] then [join] *)

Lemma splitFrom_skip sep t : forall b cur,
  JS.splitFrom sep (String.append t b) (String.length t) cur = JS.splitFrom sep b 0 cur.
Proof.
  induction t as [|c t IH]; intros b cur; [reflexivity|].
  change (String.append (String c t) b) with (String c (String.append t b)).
  rewrite splitFrom_eq. simpl String.length. apply IH.
Qed.

Lemma splitFrom_cut sep : sep <> EmptyString -> forall s cur,
  JS.splitFrom sep s 0 cur =
  match cutAt sep s with
  | Some (a, b) => String.append cur a :: JS.splitFrom sep b 0 EmptyString
  | None => [String.append cur s]
  end.
Proof.
  intros Hne. induction s as [|c s IH]; intros cur; rewrite splitFrom_eq, cutAt_eq.
  - destruct sep; [congruence|]. simpl. rewrite app_nil_r_s. reflexivity.
  - destruct (String.prefix sep (String c s)) eqn:E.
    + rewrite app_nil_r_s. f_equal.
      apply prefix_inv in E as [t Ht].
      destruct sep as [|x sep']; [congruence|].
      simpl in Ht. injection Ht as -> ->.
      replace (String.length (String x sep') - 1) with (String.length sep')
        by (simpl; lia).
      change (JS.substringFrom (String.length (String x sep')) (String x (String.append sep' t)))
        with (JS.substringFrom (String.length sep') (String.append sep' t)).
      rewrite substringFrom_app. apply splitFrom_skip.
    + rewrite IH. destruct (cutAt sep s) as [[a b]|].
      * rewrite app_assoc_s. reflexivity.
      * rewrite app_assoc_s. reflexivity.
Qed.

Lemma splitFrom_nonempty sep s skip cur : JS.splitFrom sep s skip cur <> [].
Proof.
  revert skip cur. induction s as [|c s IH]; intros skip cur; rewrite splitFrom_eq.
  - discriminate.
  - destruct skip; [|apply IH]. destruct (String.prefix sep (String c s)); [discriminate | apply IH].
Qed.

Lemma join_cons sep x l :
  l <> [] -> JS.join sep (x :: l) = String.append x (String.append sep (JS.join sep l)).
Proof. destruct l; [congruence | reflexivity]. Qed.

Lemma split_join_replace old new : old <> EmptyString -> forall s,
  JS.join new (JS.split old s) = replaceEvery old new s.
Proof.
  intros Hne s. remember (String.length s) as n eqn:Hn. revert s Hn.
  induction n as [n IH] using lt_wf_ind. intros s Hn.
  unfold JS.split. rewrite (splitFrom_cut old Hne).
  destruct (cutAt old s) as [[a b]|] eqn:E.
  - rewrite join_cons by apply splitFrom_nonempty.
    rewrite (replaceEvery_step _ _ _ _ _ Hne E). simpl String.append.
    f_equal. f_equal. apply (IH (String.length b)); [|reflexivity].
    subst n. eapply cutAt_shorter; eassumption.
  - rewrite (replaceEvery_none _ _ _ E). reflexivity.
Qed.

(** *** Reading back what [updateFile] wrote *)

Lemma deref_update_eq fs a f : deref (update fs a f) a = f (deref fs a).
Proof. unfold deref, update. simpl. rewrite lookup_insert_eq. reflexivity. Qed.

Lemma deref_update_ne fs a b f : a <> b -> deref (update fs a f) b = deref fs b.
Proof. intros H. unfold deref, update. simpl. rewrite lookup_insert_ne by exact H. reflexivity. Qed.

Lemma readFile_updateFile fs path file content :
  getNode fs path = Some file -> isFile fs file = true ->
  updateFile fs path content = (true, update fs file (fun n => FileNode.setContent n content))
  /\ readFile (update fs file (fun n => FileNode.setContent n content)) path = Some content.
Proof.
  unfold getNode, updateFile, readFile, isFile. intros Hn Hf. rewrite Hn, Hf. split; [reflexivity|].
  simpl files. rewrite Hn, deref_update_eq. simpl. rewrite Hf. simpl.
  unfold JS.truthy. destruct (String.eqb content EmptyString) eqn:E; [|reflexivity].
  apply String.eqb_eq in E. subst. reflexivity.
Qed.

(** C8.  On an existing file whose content includes the non-empty
    [oldStr], [replaceInFile] writes the content in which every occurrence
    of [oldStr], taken from left to right without overlap and character
    for character, is replaced by [newStr], and the message gives the
    number of these occurrences, which is at least one. *)
Theorem replaceInFile_every_occurrence
    (fs : VirtualFileSystem) (path oldStr newStr : string) (file : ref) (content : string) :
  getNode fs path = Some file -> isFile fs file = true ->
  readFile fs path = Some content ->
  oldStr <> EmptyString -> JS.includes content oldStr = true ->
  exists fs',
    replaceInFile fs path oldStr newStr
    = Some (JS.cat "Replaced "
              (JS.cat (JS.ofNat (countOccurrences oldStr content))
                 (JS.cat " occurrence(s) of the string in " path)), fs')
    /\ readFile fs' path = Some (replaceEvery oldStr newStr content)
    /\ 1 <= countOccurrences oldStr content.
Proof.
  intros Hnode Hfile Hread Hne Hinc.
  destruct (readFile_updateFile fs path file (replaceEvery oldStr newStr content) Hnode Hfile)
    as [Hupd Hback].
  exists (update fs file (fun n => FileNode.setContent n (replaceEvery oldStr newStr content))).
  split; [|split].
  - unfold replaceInFile. rewrite Hnode, Hfile, Hread. cbn [negb].
    assert (Ht : JS.truthy oldStr = true).
    { unfold JS.truthy. apply negb_true_iff, String.eqb_neq, Hne. }
    rewrite Ht, Hinc. cbn [negb orb]. rewrite RegExp_escape.
    rewrite (matchAll_lit_count oldStr Hne), (split_join_replace oldStr newStr Hne), Hupd.
    reflexivity.
  - exact Hback.
  - destruct (cutAt oldStr content) as [[a b]|] eqn:E.
    + rewrite (countOccurrences_step _ _ _ _ Hne E). lia.
    + apply cutAt_none in E. congruence.
Qed.

Lemma replaceInFile_every_occurrence_witness :
  exists fs',
    replaceInFile (snd (createFile constructor "/t.txt" "foo bar foo baz foo")) "/t.txt" "foo" "hello"
    = Some ("Replaced 3 occurrence(s) of the string in /t.txt", fs')
    /\ readFile fs' "/t.txt" = Some "hello bar hello baz hello"
    /\ 1 <= 3.
Proof.
  apply (replaceInFile_every_occurrence
           (snd (createFile constructor "/t.txt" "foo bar foo baz foo"))
           "/t.txt" "foo" "hello" 1 "foo bar foo baz foo");
    [reflexivity | reflexivity | reflexivity | discriminate | reflexivity].
Defined.

Example replaceInFile_special_characters :
  option_map fst (replaceInFile (snd (createFile constructor "/t.txt" "a.b.c axb")) "/t.txt" "." "[x]")
  = Some "Replaced 2 occurrence(s) of the string in /t.txt".
Proof. reflexivity. Qed.


(** ** Reading a match of a given pattern *)





(** ** [createPreviewHTML]: the two guarded sections *)


(** ** Occurrences of a text in a concatenation *)

Lemma includes_skip a s p : JS.includes s p = true -> JS.includes (String.append a s) p = true.
Proof.
  intros H. apply includes_inv in H as (x & y & ->).
  rewrite <- app_assoc_s. apply includes_app.
Qed.



Lemma includes_keep s b p : JS.includes s p = true -> JS.includes (String.append s b) p = true.
Proof.
  intros H. apply includes_inv in H as (x & y & ->).
  rewrite !app_assoc_s. apply includes_app.
Qed.

Lemma includes_trans s t p :
  JS.includes s t = true -> JS.includes t p = true -> JS.includes s p = true.
Proof.
  intros Hs Ht. apply includes_inv in Hs as (x & y & ->).
  apply includes_skip, includes_keep, Ht.
Qed.








(** ** Replacing every occurrence of one character *)







(** ** The message of an entry: [escapeAngles] and [JS.trim] *)







(** ** The document: what it contains *)














Example createPreviewHTML_two_errors :
  JS.includes
    (createPreviewHTML (fun _ _ => None) (fun s => s) "/App.jsx" "{}" EmptyString
       [ErrorEntry.Build "/Component.jsx" "Unexpected token (3:7)";
        ErrorEntry.Build "/Another.jsx" "Missing semicolon"])
    "Syntax Errors (2)" = true
  /\ JS.includes
       (createPreviewHTML (fun _ _ => None) (fun s => s) "/App.jsx" "{}" EmptyString
          [ErrorEntry.Build "/Component.jsx" "Unexpected token (3:7)";
           ErrorEntry.Build "/Another.jsx" "Missing semicolon"])
       "loadApp()" = false
  /\ JS.includes
       (createPreviewHTML (fun _ _ => None) (fun s => s) "/App.jsx" "{}" EmptyString [])
       "loadApp()" = true.
Proof. vm_compute. repeat split. Qed.


(** ** [createImportMap] *)

Lemma fold_left_invariant {A B : Type} (P : A -> Prop) (f : A -> B -> A) (l : list B) :
  (forall a x, In x l -> P a -> P (f a x)) -> forall a, P a -> P (List.fold_left f l a).
Proof.
  induction l as [|x l IH]; intros Hstep a Ha; [exact Ha|].
  simpl. apply IH.
  - intros a' y Hy. apply Hstep. right. exact Hy.
  - apply Hstep; [left; reflexivity | exact Ha].
Qed.

Lemma existsb_eqb_In x l : List.existsb (String.eqb x) l = true <-> In x l.
Proof.
  rewrite existsb_exists. split.
  - intros (y & Hy & E). apply String.eqb_eq in E. subst. exact Hy.
  - intros H. exists x. split; [exact H | apply String.eqb_refl].
Qed.

Lemma existsb_false {A} (f : A -> bool) l :
  List.existsb f l = false -> forall x, In x l -> f x = false.
Proof.
  induction l as [|y l IH]; simpl; intros H x Hx; [contradiction|].
  apply orb_false_iff in H as [Hy Hl]. destruct Hx as [<-|Hx]; auto.
Qed.

Lemma setAdd_keeps l x y : In x l -> In x (setAdd l y).
Proof. unfold setAdd. destruct (List.existsb _ l); [auto | intros; apply in_or_app; auto]. Qed.

Lemma setAdd_adds l y : In y (setAdd l y).
Proof.
  unfold setAdd. destruct (List.existsb (String.eqb y) l) eqn:E.
  - apply existsb_eqb_In, E.
  - apply in_or_app. right. left. reflexivity.
Qed.

Lemma setAdd_inv l x y : In x (setAdd l y) -> In x l \/ x = y.
Proof.
  unfold setAdd. destruct (List.existsb _ l); [auto|].
  intros H. apply in_app_or in H as [H|[H|[]]]; auto.
Qed.

(** *** Assignments to the import map *)

Lemma set_eq (o : gmap string string) k v :
  k <> "__proto__" -> Obj.set o k v !! k = Some v.
Proof.
  intros H. unfold Obj.set. apply String.eqb_neq in H. rewrite H. apply lookup_insert_eq.
Qed.

Lemma set_cases (o : gmap string string) k v k' w :
  Obj.set o k v !! k' = Some w -> w = v \/ o !! k' = Some w.
Proof.
  unfold Obj.set. destruct (String.eqb k "__proto__"); [auto|].
  rewrite lookup_insert. case_decide; [|auto]. intros Hv. injection Hv as <-. auto.
Qed.

Lemma set_mono (o : gmap string string) k v k' :
  is_Some (o !! k') -> is_Some (Obj.set o k v !! k').
Proof.
  unfold Obj.set. destruct (String.eqb k "__proto__"); [auto|].
  rewrite lookup_insert. case_decide; eauto.
Qed.

Lemma set_same (o : gmap string string) k v k' :
  o !! k' = Some v -> Obj.set o k v !! k' = Some v.
Proof.
  unfold Obj.set. destruct (String.eqb k "__proto__"); [auto|].
  rewrite lookup_insert. case_decide; auto.
Qed.

(** Nothing is ever stored under the key [__proto__]. *)
Lemma set_proto (o : gmap string string) k v :
  Obj.set o k v !! "__proto__" = o !! "__proto__".
Proof.
  unfold Obj.set. destruct (String.eqb k "__proto__") eqn:E; [reflexivity|].
  apply String.eqb_neq in E. apply lookup_insert_ne, E.
Qed.

(** *** The callback that sorts the collected specifiers *)

Lemma collectImport_spec missing : forall imps alls,
  let r := List.fold_left collectImport missing (imps, alls) in
  (forall k, is_Some (imps !! k) -> is_Some (fst r !! k))
  /\ (forall k v, fst r !! k = Some v -> imps !! k = Some v \/ isPackageUrl v)
  /\ (forall x, In x alls -> In x (snd r))
  /\ (forall x, In x missing -> isPackage x = false -> In x (snd r))
  /\ (forall x, In x (snd r) -> In x alls \/ (In x missing /\ isPackage x = false)).
Proof.
  induction missing as [|imp missing IH]; intros imps alls; cbv zeta.
  - simpl. repeat split; auto. intros x [].
  - cbn [List.fold_left].
    assert (Hc : collectImport (imps, alls) imp =
                 if isPackage imp
                 then (Obj.set imps imp (JS.cat "https://esm.sh/" imp), alls)
                 else (imps, setAdd alls imp)) by reflexivity.
    rewrite Hc. clear Hc.
    destruct (isPackage imp) eqn:E.
    + destruct (IH (Obj.set imps imp (JS.cat "https://esm.sh/" imp)) alls)
        as (H1 & H2 & H3 & H4 & H5).
      repeat split.
      * intros k Hk. apply H1, set_mono, Hk.
      * intros k v Hv. apply H2 in Hv as [Hv|Hv]; [|right; exact Hv].
        apply set_cases in Hv as [->|Hv]; [right; eexists; reflexivity | left; exact Hv].
      * exact H3.
      * intros x [->|Hx] Hp; [congruence | auto].
      * intros x Hx. apply H5 in Hx as [Hx|[Hx Hp]]; [left; exact Hx | right; split; [right|]; assumption].
    + destruct (IH imps (setAdd alls imp)) as (H1 & H2 & H3 & H4 & H5).
      repeat split.
      * exact H1.
      * exact H2.
      * intros x Hx. apply H3, setAdd_keeps, Hx.
      * intros x [->|Hx] Hp; [apply H3, setAdd_adds | auto].
      * intros x Hx. apply H5 in Hx as [Hx|[Hx Hp]].
        -- apply setAdd_inv in Hx as [Hx| ->]; [left; exact Hx | right; split; [left; reflexivity | exact E]].
        -- right. split; [right|]; assumption.
Qed.

(** *** The keys of a compiled file *)

Lemma registerFile_keys imps path url k :
  In k (specifierKeys path) -> k <> "__proto__" -> registerFile imps path url !! k = Some url.
Proof.
  unfold specifierKeys, registerFile.
  destruct (JS.startsWith path "/"); simpl; intros H Hk;
    repeat (destruct H as [<-|H];
            [repeat first [apply set_eq; exact Hk | apply set_same]|]);
    try contradiction.
Qed.

Lemma registerFile_other imps path url k v :
  registerFile imps path url !! k = Some v -> v = url \/ imps !! k = Some v.
Proof.
  unfold registerFile.
  destruct (JS.startsWith path "/"); simpl; intros H;
    repeat (apply set_cases in H as [->|H]; [left; reflexivity|]);
    right; exact H.
Qed.

Lemma registerFile_mono imps path url k :
  is_Some (imps !! k) -> is_Some (registerFile imps path url !! k).
Proof.
  unfold registerFile. intros H.
  destruct (JS.startsWith path "/"); simpl; repeat apply set_mono; exact H.
Qed.

(** *** The rounds of the first loop *)

Section FirstPass.
Variable B : string -> string -> bool -> BabelOutcome.
Variable U : nat -> string.
Variable files : Map_.t string.

Local Abbreviation ef := (List.map fst (Map_.entries files)).

Lemma firstPassStep_cases st p c :
  (isScriptPath p = true /\ failsToCompile B files p c = true
   /\ firstPassStep B U ef st (p, c) =
      Build_Pass (imports st) (transformedFiles st) (allImports st) (allCssImports st)
        (collectedStyles st)
        (passErrors st ++
           [ErrorEntry.Build p
              (match TransformResult.error (transformJSX B c p ef) with
               | Some e => e
               | None => EmptyString
               end)])
        (blobs st))
  \/ (isScriptPath p = true /\ failsToCompile B files p c = false
      /\ exists imps alls css,
           (imps, alls) =
             match TransformResult.missingImports (transformJSX B c p ef) with
             | Some missing => List.fold_left collectImport missing (imports st, allImports st)
             | None => (imports st, allImports st)
             end
           /\ firstPassStep B U ef st (p, c) =
              Build_Pass (registerFile imps p (U (List.length (blobs st))))
                (Map_.set (transformedFiles st) p (U (List.length (blobs st))))
                alls css (collectedStyles st) (passErrors st)
                (blobs st ++ [TransformResult.code (transformJSX B c p ef)]))
  \/ (isScriptPath p = false
      /\ imports (firstPassStep B U ef st (p, c)) = imports st
      /\ transformedFiles (firstPassStep B U ef st (p, c)) = transformedFiles st
      /\ allImports (firstPassStep B U ef st (p, c)) = allImports st
      /\ passErrors (firstPassStep B U ef st (p, c)) = passErrors st
      /\ blobs (firstPassStep B U ef st (p, c)) = blobs st).
Proof.
  unfold firstPassStep, failsToCompile.
  destruct (isScriptPath p) eqn:Es.
  - destruct (JS.truthyOpt (TransformResult.error (transformJSX B c p ef))) eqn:Et.
    + left. split; [reflexivity|]. split; reflexivity.
    + right. left. split; [reflexivity|]. split; [reflexivity|]. unfold createBlobURL.
      destruct (match TransformResult.missingImports (transformJSX B c p ef) with
                | Some missing => List.fold_left collectImport missing (imports st, allImports st)
                | None => (imports st, allImports st)
                end) as [imps alls] eqn:Ec.
      eexists imps, alls, _. split; reflexivity.
  - right. right. destruct (JS.endsWith p ".css"); simpl; repeat split; reflexivity.
Qed.

(** Entries of the map are never removed. *)
Lemma firstPassStep_mono st x k :
  is_Some (imports st !! k) -> is_Some (imports (firstPassStep B U ef st x) !! k).
Proof.
  destruct x as [p c]. intros H.
  destruct (firstPassStep_cases st p c)
    as [(_ & _ & ->)|[(_ & _ & imps & alls & css & Hc & ->)|(_ & -> & _)]]; simpl; try exact H.
  apply registerFile_mono.
  destruct (TransformResult.missingImports (transformJSX B c p ef)) as [missing|].
  - pose proof (collectImport_spec missing (imports st) (allImports st)) as (H1 & _).
    rewrite <- Hc in H1. apply H1, H.
  - injection Hc as -> _. exact H.
Qed.

Lemma firstPass_fold_mono l st k :
  is_Some (imports st !! k) ->
  is_Some (imports (List.fold_left (firstPassStep B U ef) l st) !! k).
Proof.
  revert st. induction l as [|x l IH]; intros st H; [exact H|].
  cbn [List.fold_left]. apply IH, firstPassStep_mono, H.
Qed.



(** The round of a file that compiles registers its keys and keeps its
    local specifiers. *)
Lemma firstPassStep_registers st p c :
  isScriptPath p = true -> failsToCompile B files p c = false ->
  (forall k, In k (specifierKeys p) -> k <> "__proto__" ->
     is_Some (imports (firstPassStep B U ef st (p, c)) !! k))
  /\ (forall imp missing,
        TransformResult.missingImports (transformJSX B c p ef) = Some missing ->
        In imp missing -> isPackage imp = false ->
        In imp (allImports (firstPassStep B U ef st (p, c)))).
Proof.
  intros Hs Hok.
  destruct (firstPassStep_cases st p c)
    as [(_ & Hf & _)|[(_ & _ & imps & alls & css & Hc & ->)|(Hn & _)]]; try congruence.
  simpl. split.
  - intros k Hk Hne. rewrite (registerFile_keys imps p _ k Hk Hne). eauto.
  - intros imp missing Hm Hin Hp. rewrite Hm in Hc.
    pose proof (collectImport_spec missing (imports st) (allImports st)) as (_ & _ & _ & H4 & _).
    rewrite <- Hc in H4. apply H4; assumption.
Qed.

(** The errors: one more for a file that fails, none for the others. *)
Lemma firstPass_fold_no_error l : forall st,
  (forall p c, In (p, c) l -> isScriptPath p = true -> failsToCompile B files p c = false) ->
  passErrors (List.fold_left (firstPassStep B U ef) l st) = passErrors st.
Proof.
  induction l as [|[p c] l IH]; intros st H; [reflexivity|].
  cbn [List.fold_left]. rewrite IH by (intros; apply H; [right|]; assumption).
  destruct (firstPassStep_cases st p c)
    as [(Hs & Hf & _)|[(_ & _ & imps & alls & css & Hc & ->)|(_ & _ & _ & _ & -> & _)]];
    try reflexivity.
  rewrite (H p c) in Hf; [discriminate | left; reflexivity | exact Hs].
Qed.

Lemma passSound_firstPassStep st p c :
  In (p, c) (Map_.entries files) ->
  passSound B U files st -> passSound B U files (firstPassStep B U ef st (p, c)).
Proof.
  intros Hin (Hv & Hb & Ht).
  destruct (firstPassStep_cases st p c)
    as [(_ & _ & ->)|[(Hs & Hok & imps & alls & css & Hc & ->)|(_ & Hi & Htf & _ & _ & Hbl)]].
  - split; [|split]; simpl; assumption.
  - split; [|split]; simpl.
    + intros k v Hk. rewrite length_app. simpl.
      apply registerFile_other in Hk as [->|Hk].
      * right. exists (List.length (blobs st)). split; [lia | reflexivity].
      * assert (Hold : imps !! k = Some v -> imports st !! k = Some v \/ isPackageUrl v).
        { destruct (TransformResult.missingImports (transformJSX B c p ef)) as [missing|].
          - pose proof (collectImport_spec missing (imports st) (allImports st)) as (_ & H2 & _).
            rewrite <- Hc in H2. apply H2.
          - injection Hc as -> _. auto. }
        destruct (Hold Hk) as [Hk'|Hk']; [|left; exact Hk'].
        destruct (Hv _ _ Hk') as [Hp|(i & Hi & ->)]; [left; exact Hp|].
        right. exists i. split; [lia | reflexivity].
    + intros b Hbin. apply in_app_or in Hbin as [Hbin|[<-|[]]]; [auto|].
      left. exists p, c. repeat split; assumption.
    + intros q u Hq. rewrite get_set in Hq.
      destruct (String.eqb p q) eqn:E; [|exact (Ht _ _ Hq)].
      apply String.eqb_eq in E. subst q. exists c. repeat split; assumption.
  - split; [|split].
    + rewrite Hi, Hbl. exact Hv.
    + rewrite Hbl. exact Hb.
    + rewrite Htf. exact Ht.
Qed.

Lemma passSound_firstPass : passSound B U files (firstPass B U files).
Proof.
  unfold firstPass.
  assert (Hgen : forall l st, (forall x, In x l -> In x (Map_.entries files)) ->
                 passSound B U files st ->
                 passSound B U files (List.fold_left (firstPassStep B U ef) l st)).
  { induction l as [|[p c] l IH]; intros st Hl Hst; [exact Hst|].
    cbn [List.fold_left]. apply IH; [intros; apply Hl; right; assumption|].
    apply passSound_firstPassStep; [apply Hl; left; reflexivity | exact Hst]. }
  apply Hgen; [auto|].
  split; [|split]; simpl.
  - intros k v Hk. left. unfold initialImports in Hk.
    repeat (rewrite lookup_insert in Hk; case_decide; [injection Hk as <-; eexists; reflexivity|]).
    rewrite lookup_empty in Hk. discriminate.
  - intros b [].
  - intros p u Hp. discriminate.
Qed.
End FirstPass.

(** *** The loop over the style sheet imports, and the second loop *)

Section LaterPasses.
Variable B : string -> string -> bool -> BabelOutcome.
Variable U : nat -> string.
Variable files : Map_.t string.

Lemma cssStep_fields st x :
  imports (cssStep files st x) = imports st
  /\ transformedFiles (cssStep files st x) = transformedFiles st
  /\ allImports (cssStep files st x) = allImports st
  /\ passErrors (cssStep files st x) = passErrors st
  /\ blobs (cssStep files st x) = blobs st.
Proof.
  destruct x as [from cssPath]. unfold cssStep.
  destruct (Map_.has files _); simpl; repeat split; reflexivity.
Qed.

Lemma cssPass_fields st :
  imports (cssPass files st) = imports st
  /\ transformedFiles (cssPass files st) = transformedFiles st
  /\ allImports (cssPass files st) = allImports st
  /\ passErrors (cssPass files st) = passErrors st
  /\ blobs (cssPass files st) = blobs st.
Proof.
  unfold cssPass.
  apply (fold_left_invariant
           (fun st' => imports st' = imports st
                       /\ transformedFiles st' = transformedFiles st
                       /\ allImports st' = allImports st
                       /\ passErrors st' = passErrors st
                       /\ blobs st' = blobs st)).
  - intros a x _ (H1 & H2 & H3 & H4 & H5).
    destruct (cssStep_fields a x) as (-> & -> & -> & -> & ->). auto.
  - auto.
Qed.










Lemma secondPassStep_cases st imp :
  (secondPassStep U files st imp = st
   /\ (Obj.truthyAt (imports st) imp = true \/ JS.startsWith imp "react" = true
       \/ (isPackage imp = false
           /\ exists v, In v (variations imp)
                /\ (Obj.truthyAt (imports st) v = true \/ Map_.has files v = true))))
  \/ (isPackage imp = true
      /\ secondPassStep U files st imp =
         Build_Pass (Obj.set (imports st) imp (JS.cat "https://esm.sh/" imp))
           (transformedFiles st) (allImports st) (allCssImports st) (collectedStyles st)
           (passErrors st) (blobs st))
  \/ (Obj.truthyAt (imports st) imp = false /\ isPackage imp = false
      /\ (forall v, In v (variations imp) ->
            Obj.truthyAt (imports st) v = false /\ Map_.has files v = false)
      /\ secondPassStep U files st imp =
         Build_Pass
           (if JS.startsWith imp "@/"
            then Obj.set
                   (Obj.set (Obj.set (imports st) imp (U (List.length (blobs st))))
                      (JS.replaceFirst "@/" "/" imp) (U (List.length (blobs st))))
                   (JS.replaceFirst "@/" EmptyString imp) (U (List.length (blobs st)))
            else Obj.set (imports st) imp (U (List.length (blobs st))))
           (transformedFiles st) (allImports st) (allCssImports st) (collectedStyles st)
           (passErrors st)
           (blobs st ++ [createPlaceholderModule (componentNameOf imp)])).
Proof.
  unfold secondPassStep.
  destruct (Obj.truthyAt (imports st) imp) eqn:Et; [left; auto|].
  destruct (JS.startsWith imp "react") eqn:Er; [left; auto|].
  cbn [orb]. destruct (isPackage imp) eqn:Ep; [right; left; auto|].
  destruct (List.existsb _ (variations imp)) eqn:Ef.
  - left. split; [reflexivity|]. right. right. split; [reflexivity|].
    apply existsb_exists in Ef as (v & Hv & Hf). exists v. split; [exact Hv|].
    apply orb_true_iff in Hf. exact Hf.
  - right. right. split; [reflexivity|]. split; [reflexivity|]. split; [|reflexivity].
    intros v Hv. pose proof (existsb_false _ _ Ef v Hv) as Hf.
    apply orb_false_iff in Hf. exact Hf.
Qed.

Lemma secondPassStep_mono st imp k :
  is_Some (imports st !! k) -> is_Some (imports (secondPassStep U files st imp) !! k).
Proof.
  intros H.
  destruct (secondPassStep_cases st imp) as [(-> & _)|[(_ & ->)|(_ & _ & _ & ->)]]; simpl.
  - exact H.
  - apply set_mono, H.
  - destruct (JS.startsWith imp "@/"); repeat apply set_mono; exact H.
Qed.

Lemma secondPass_fold_mono l st k :
  is_Some (imports st !! k) ->
  is_Some (imports (List.fold_left (secondPassStep U files) l st) !! k).
Proof.
  revert st. induction l as [|x l IH]; intros st H; [exact H|].
  cbn [List.fold_left]. apply IH, secondPassStep_mono, H.
Qed.

Lemma secondPassStep_fields st imp :
  transformedFiles (secondPassStep U files st imp) = transformedFiles st
  /\ passErrors (secondPassStep U files st imp) = passErrors st.
Proof.
  destruct (secondPassStep_cases st imp) as [(-> & _)|[(_ & ->)|(_ & _ & _ & ->)]];
    simpl; auto.
Qed.

Lemma secondPass_fields st :
  transformedFiles (secondPass U files st) = transformedFiles st
  /\ passErrors (secondPass U files st) = passErrors st.
Proof.
  unfold secondPass. generalize (allImports st) as l. intros l. revert st.
  induction l as [|x l IH]; intros st; [auto|].
  cbn [List.fold_left]. destruct (IH (secondPassStep U files st x)) as [-> ->].
  apply secondPassStep_fields.
Qed.

Lemma passSound_secondPassStep st imp :
  passSound B U files st -> passSound B U files (secondPassStep U files st imp).
Proof.
  intros (Hv & Hb & Ht).
  destruct (secondPassStep_cases st imp) as [(-> & _)|[(_ & ->)|(_ & _ & _ & ->)]].
  - split; [|split]; assumption.
  - split; [|split]; simpl; try assumption.
    intros k v Hk. apply set_cases in Hk as [->|Hk].
    + left. eexists. reflexivity.
    + exact (Hv _ _ Hk).
  - split; [|split]; simpl; try assumption.
    + intros k v Hk. rewrite length_app. simpl.
      assert (Hnew : v = U (List.length (blobs st)) \/ imports st !! k = Some v).
      { destruct (JS.startsWith imp "@/");
          repeat (apply set_cases in Hk as [->|Hk]; [left; reflexivity|]);
          right; exact Hk. }
      destruct Hnew as [->|Hk'].
      * right. exists (List.length (blobs st)). split; [lia | reflexivity].
      * destruct (Hv _ _ Hk') as [Hp|(i & Hi & ->)]; [left; exact Hp|].
        right. exists i. split; [lia | reflexivity].
    + intros b Hbin. apply in_app_or in Hbin as [Hbin|[<-|[]]]; [auto|].
      right. eexists. reflexivity.
Qed.

Lemma passSound_finalPass : passSound B U files (finalPass B U files).
Proof.
  unfold finalPass, secondPass.
  apply fold_left_invariant; [intros; apply passSound_secondPassStep; assumption|].
  pose proof (passSound_firstPass B U files) as (Hv & Hb & Ht).
  destruct (cssPass_fields (firstPass B U files)) as (Hi & Htf & _ & _ & Hbl).
  split; [|split].
  - rewrite Hi, Hbl. exact Hv.
  - rewrite Hbl. exact Hb.
  - rewrite Htf. exact Ht.
Qed.

End LaterPasses.

(** *** One file that fails among files that compile *)

Lemma NoDup_split_keys {V} (l : list (string * V)) k v :
  List.NoDup (List.map fst l) -> In (k, v) l ->
  exists l1 l2, l = l1 ++ (k, v) :: l2
    /\ (forall k' v', In (k', v') l1 -> k' <> k)
    /\ (forall k' v', In (k', v') l2 -> k' <> k).
Proof.
  intros Hnd Hin. apply in_split in Hin as (l1 & l2 & ->).
  exists l1, l2. split; [reflexivity|].
  rewrite map_app in Hnd. simpl in Hnd.
  pose proof (NoDup_remove_2 _ _ _ Hnd) as Hnot.
  split; intros k' v' Hin ->; apply Hnot, in_or_app; [left|right];
    apply in_map_iff; exists (k, v'); auto.
Qed.

Lemma truthyOpt_true_inv (o : option string) :
  JS.truthyOpt o = true -> exists msg, o = Some msg /\ msg <> EmptyString.
Proof.
  destruct o as [msg|]; [|discriminate]. simpl. unfold JS.truthy.
  intros H. apply negb_true_iff, String.eqb_neq in H. eauto.
Qed.

(** X26.  In a snapshot where one script file fails to compile and every
    other script file compiles, the errors returned are the one entry of the
    failing file with its message; every key of every other script file,
    the key [__proto__] apart, is in the resolution map; no compiled output
    is recorded for the failing file, and every value of the map is a
    package URL or the URL of a blob that is the compiled output of a file
    that compiles or a placeholder: no key, derived from the path of the
    failing file or not, maps to an output of that file. *)
Theorem createImportMap_one_failure
    (Babel_transform : string -> string -> bool -> BabelOutcome)
    (objectURL : nat -> string) (JSON_stringify_imports : gmap string string -> string)
    (files : Map_.t string) (bad badContent : string) :
  Map_.wf files ->
  In (bad, badContent) (Map_.entries files) -> isScriptPath bad = true ->
  failsToCompile Babel_transform files bad badContent = true ->
  (forall path content,
     In (path, content) (Map_.entries files) -> path <> bad -> isScriptPath path = true ->
     failsToCompile Babel_transform files path content = false) ->
  let result := createImportMap Babel_transform objectURL JSON_stringify_imports files in
  let st := finalPass Babel_transform objectURL files in
  importMap result = JSON_stringify_imports (imports st)
  /\ (exists message,
        TransformResult.error
          (transformJSX Babel_transform badContent bad (List.map fst (Map_.entries files)))
        = Some message
        /\ message <> EmptyString
        /\ errors result = [ErrorEntry.Build bad message])
  /\ (forall path content,
        In (path, content) (Map_.entries files) -> path <> bad -> isScriptPath path = true ->
        forall k, In k (specifierKeys path) -> k <> "__proto__" -> is_Some (imports st !! k))
  /\ Map_.get (transformedFiles st) bad = None
  /\ passSound Babel_transform objectURL files st.
Proof.
  intros Hwf Hbad Hscript Hfail Hothers. cbv zeta.
  assert (Hfields : forall st0,
            passErrors (secondPass objectURL files (cssPass files st0)) = passErrors st0).
  { intros st0. destruct (secondPass_fields objectURL files (cssPass files st0)) as [_ ->].
    destruct (cssPass_fields files st0) as (_ & _ & _ & -> & _). reflexivity. }
  split; [reflexivity|]. split; [|split; [|split]].
  - destruct (truthyOpt_true_inv _ Hfail) as (msg & Hmsg & Hne).
    exists msg. repeat split; [exact Hmsg | exact Hne |].
    unfold createImportMap, finalPass. simpl errors. rewrite Hfields.
    destruct (NoDup_split_keys _ _ _ Hwf Hbad) as (l1 & l2 & Hl & H1 & H2).
    unfold firstPass. set (F := firstPassStep Babel_transform objectURL _).
    rewrite Hl, fold_left_app. subst F. cbn [List.fold_left].
    assert (Hin1 : forall x, In x l1 -> In x (Map_.entries files))
      by (intros x Hx; rewrite Hl; apply in_or_app; left; exact Hx).
    assert (Hin2 : forall x, In x l2 -> In x (Map_.entries files))
      by (intros x Hx; rewrite Hl; apply in_or_app; right; right; exact Hx).
    rewrite firstPass_fold_no_error.
    + destruct (firstPassStep_cases Babel_transform objectURL files
                  (List.fold_left (firstPassStep Babel_transform objectURL (List.map fst (Map_.entries files))) l1
                     (Build_Pass initialImports Map_.empty [] [] EmptyString [] []))
                  bad badContent)
        as [(_ & _ & E)|[(_ & Hok & _)|(Hn & _)]]; try congruence.
      rewrite E. simpl passErrors.
      rewrite firstPass_fold_no_error.
      * rewrite Hmsg. reflexivity.
      * intros p c Hin Hs. apply Hothers; [apply Hin1, Hin | eapply H1; exact Hin | exact Hs].
    + intros p c Hin Hs. apply Hothers; [apply Hin2, Hin | eapply H2; exact Hin | exact Hs].
  - intros p c Hin Hne Hs k Hk Hkp.
    unfold finalPass, secondPass. apply secondPass_fold_mono.
    destruct (cssPass_fields files (firstPass Babel_transform objectURL files)) as (-> & _).
    unfold firstPass.
    destruct (in_split _ _ Hin) as (l1 & l2 & Hl).
    set (F := firstPassStep Babel_transform objectURL _). rewrite Hl, fold_left_app. subst F.
    cbn [List.fold_left]. apply firstPass_fold_mono.
    apply firstPassStep_registers; [exact Hs | apply Hothers; assumption | exact Hk | exact Hkp].
  - destruct (Map_.get (transformedFiles (finalPass Babel_transform objectURL files)) bad) as [u|] eqn:E; [|reflexivity].
    exfalso. pose proof (passSound_finalPass Babel_transform objectURL files) as (_ & _ & Ht).
    destruct (Ht _ _ E) as (c & Hc & _ & Hok).
    assert (c = badContent).
    { pose proof (In_get _ _ _ Hwf Hc) as G1. pose proof (In_get _ _ _ Hwf Hbad) as G2.
      congruence. }
    subst c. congruence.
  - apply passSound_finalPass.
Qed.

Lemma createImportMap_one_failure_witness :
  let files := snapshot [("/App.jsx", "export default function App() {}");
                         ("/BadComponent.jsx", "export default function (")] in
  let st := finalPass (toyBabel ["/BadComponent.jsx"]) toyURL files in
  errors (createImportMap (toyBabel ["/BadComponent.jsx"]) toyURL (fun _ => EmptyString) files)
  = [ErrorEntry.Build "/BadComponent.jsx" "/BadComponent.jsx: Unexpected token (1:5)"]
  /\ (forall k, In k (specifierKeys "/App.jsx") -> k <> "__proto__" -> is_Some (imports st !! k))
  /\ Map_.get (transformedFiles st) "/BadComponent.jsx" = None.
Proof.
  cbv zeta.
  pose proof (createImportMap_one_failure (toyBabel ["/BadComponent.jsx"]) toyURL
                (fun _ => EmptyString)
                (snapshot [("/App.jsx", "export default function App() {}");
                           ("/BadComponent.jsx", "export default function (")])
                "/BadComponent.jsx" "export default function (") as H.
  cbv zeta in H.
  destruct H as (_ & (msg & Hmsg & _ & Herr) & Hkeys & Hnone & _).
  - unfold Map_.wf. vm_compute. repeat constructor; simpl; intuition discriminate.
  - vm_compute. auto.
  - reflexivity.
  - reflexivity.
  - intros path content Hin Hne Hs. vm_compute in Hin.
    destruct Hin as [Hin|[Hin|[]]]; injection Hin as <- <-; [reflexivity | congruence].
  - split; [|split].
    + rewrite Herr. vm_compute in Hmsg. injection Hmsg as <-. reflexivity.
    + intros k Hk Hkp.
      eapply (Hkeys "/App.jsx"); [vm_compute; auto | discriminate | reflexivity | exact Hk | exact Hkp].
    + exact Hnone.
Defined.

(** C4, at a snapshot where the code departs from it.  The file
    [/__proto__.js] compiles and the file [/Bad.jsx] does not, so one error
    is returned.  The path of the first without its leading slash and its
    extension is [__proto__], one of the keys under which the first loop
    registers the file; the import map is an object literal, the
    assignment under that key stores nothing, and the map returned has no
    entry under it.  The other keys of the file are in the map. *)
Theorem createImportMap_drops_proto_key :
  let files := snapshot [("/__proto__.js", "export default 1;");
                         ("/Bad.jsx", "export default function (")] in
  let B := toyBabel ["/Bad.jsx"] in
  let st := finalPass B toyURL files in
  failsToCompile B files "/__proto__.js" "export default 1;" = false
  /\ failsToCompile B files "/Bad.jsx" "export default function (" = true
  /\ errors (createImportMap B toyURL (fun _ => EmptyString) files)
     = [ErrorEntry.Build "/Bad.jsx" "/Bad.jsx: Unexpected token (1:5)"]
  /\ specifierKeys "/__proto__.js"
     = ["/__proto__.js"; "__proto__.js"; "@/__proto__.js"; "@/__proto__.js";
        "/__proto__"; "__proto__"; "@/__proto__"; "@/__proto__"]
  /\ imports st !! "__proto__" = None
  /\ (forall k, In k (specifierKeys "/__proto__.js") -> k <> "__proto__" ->
        imports st !! k = Some "blob:0").
Proof.
  cbv zeta. repeat split; try (vm_compute; reflexivity).
  intros k Hk Hne. vm_compute in Hk.
  repeat (destruct Hk as [<-|Hk]; [first [vm_compute; reflexivity | congruence]|]).
  destruct Hk.
Qed.

(** ** Local imports *)

Lemma includes_head a b c :
  JS.includes (String.append a (String.append b c)) (String.append a b) = true.
Proof. rewrite <- app_assoc_s, includes_eq, prefix_app. reflexivity. Qed.







(** The same snapshot, evaluated: the placeholder is registered. *)
Example createImportMap_placeholder_example :
  imports (finalPass (toyBabel []) toyURL
             (snapshot [("/App.jsx", "import Button from './components/Button';")]))
    !! "./components/Button" = Some "blob:1".
Proof. vm_compute. reflexivity. Qed.



(** ** What a global scan finds *)




(** *** The two sets of [transformJSX] *)






(** *** The shape of the import statements that the patterns match *)













Example transformJSX_collects :
  let code := "import React from 'react'; import './styles.css'; import { u } from '../utils';" in
  scanCssImports code = ["./styles.css"]
  /\ removeCssImports code = "import React from 'react'; ; import { u } from '../utils';"
  /\ scanImports code = ["react"; "../utils"].
Proof. vm_compute. repeat split. Qed.


(** ** The store: reading after writing *)

Lemma heap_update fs a f b :
  heap (update fs a f) !! b = if decide (a = b) then Some (f (deref fs a)) else heap fs !! b.
Proof.
  unfold update. simpl. destruct (decide (a = b)) as [->|Hne];
    [rewrite lookup_insert_eq | rewrite lookup_insert_ne by exact Hne]; reflexivity.
Qed.

Lemma allocated_update fs a f b :
  is_Some (heap fs !! b) -> is_Some (heap (update fs a f) !! b).
Proof. intros H. rewrite heap_update. destruct (decide (a = b)); [eauto | exact H]. Qed.

Lemma deref_update fs a f b :
  deref (update fs a f) b = if decide (a = b) then f (deref fs a) else deref fs b.
Proof. unfold deref at 1. rewrite heap_update. destruct (decide (a = b)); reflexivity. Qed.

Lemma files_update fs a f : files (update fs a f) = files fs.
Proof. reflexivity. Qed.

Lemma root_update fs a f : root (update fs a f) = root fs.
Proof. reflexivity. Qed.

Lemma fresh_update fs a f : fresh (update fs a f) = fresh fs.
Proof. reflexivity. Qed.

Lemma deref_setFiles fs m a : deref (setFiles fs m) a = deref fs a.
Proof. reflexivity. Qed.

Lemma childrenOf_setFiles fs m a : childrenOf (setFiles fs m) a = childrenOf fs a.
Proof. reflexivity. Qed.

Lemma isDirectory_setFiles fs m a : isDirectory (setFiles fs m) a = isDirectory fs a.
Proof. reflexivity. Qed.

Lemma deref_alloc fs n b :
  deref (snd (alloc fs n)) b = if decide (fresh fs = b) then n else deref fs b.
Proof.
  unfold deref, alloc. simpl. destruct (decide (fresh fs = b)) as [->|Hne];
    [rewrite lookup_insert_eq | rewrite lookup_insert_ne by exact Hne]; reflexivity.
Qed.

Lemma heap_alloc fs n b :
  heap (snd (alloc fs n)) !! b = if decide (fresh fs = b) then Some n else heap fs !! b.
Proof.
  unfold alloc. simpl. destruct (decide (fresh fs = b)) as [->|Hne];
    [rewrite lookup_insert_eq | rewrite lookup_insert_ne by exact Hne]; reflexivity.
Qed.

Lemma childrenOf_update_children fs a g b :
  childrenOf (update fs a (fun n => FileNode.setChildren n (g (childrenOf fs a)))) b
  = if decide (a = b) then g (childrenOf fs a) else childrenOf fs b.
Proof. unfold childrenOf at 1. rewrite deref_update. destruct (decide (a = b)); reflexivity. Qed.

Lemma childrenOf_childrenSet fs a k c b :
  childrenOf (childrenSet fs a k c) b
  = if decide (a = b) then Map_.set (childrenOf fs a) k c else childrenOf fs b.
Proof.
  unfold childrenSet.
  apply (childrenOf_update_children fs a (fun m => Map_.set m k c) b).
Qed.

Lemma childrenOf_childrenDelete fs a k b :
  childrenOf (childrenDelete fs a k) b
  = if decide (a = b) then Map_.delete (childrenOf fs a) k else childrenOf fs b.
Proof.
  unfold childrenDelete.
  apply (childrenOf_update_children fs a (fun m => Map_.delete m k) b).
Qed.

Lemma type_setChildren_update fs a m b :
  FileNode.type (deref (update fs a (fun n => FileNode.setChildren n m)) b)
  = FileNode.type (deref fs b).
Proof. rewrite deref_update. destruct (decide (a = b)); [subst; reflexivity | reflexivity]. Qed.

Lemma name_setChildren_update fs a m b :
  FileNode.name (deref (update fs a (fun n => FileNode.setChildren n m)) b)
  = FileNode.name (deref fs b).
Proof. rewrite deref_update. destruct (decide (a = b)); [subst; reflexivity | reflexivity]. Qed.

Lemma path_setChildren_update fs a m b :
  FileNode.path (deref (update fs a (fun n => FileNode.setChildren n m)) b)
  = FileNode.path (deref fs b).
Proof. rewrite deref_update. destruct (decide (a = b)); [subst; reflexivity | reflexivity]. Qed.

Lemma isDirectory_setChildren_update fs a m b :
  isDirectory (update fs a (fun n => FileNode.setChildren n m)) b = isDirectory fs b.
Proof. unfold isDirectory. rewrite type_setChildren_update. reflexivity. Qed.

Lemma NodeType_eqb_dir t : NodeType_eqb t TDirectory = true <-> t = TDirectory.
Proof. destruct t; simpl; split; congruence. Qed.

Lemma isDirectory_type fs a : isDirectory fs a = true <-> FileNode.type (deref fs a) = TDirectory.
Proof. apply NodeType_eqb_dir. Qed.

Lemma isFile_not_directory fs a : isFile fs a = negb (isDirectory fs a).
Proof. unfold isFile, isDirectory. destruct (FileNode.type (deref fs a)); reflexivity. Qed.

(** ** Clean paths *)

Lemma cleanSegs_root : cleanSegs "/".
Proof. exists []. split; reflexivity. Qed.

Lemma cleanSegs_normalize p : cleanSegs p -> normalizePath p = p.
Proof. intros (segs & Hv & ->). apply normalizePath_pathOf, Hv. Qed.

Lemma cleanPath_cleanSegs p : cleanPath p = true -> cleanSegs p.
Proof. intros H. destruct (cleanPath_pathOf _ H) as (segs & Hv & ->). exists segs. auto. Qed.

(** A clean path other than the root is its parent joined with its name. *)
Lemma cleanSegs_split p :
  cleanSegs p -> p <> "/" ->
  exists segs k, List.forallb validName segs = true /\ validName k = true
    /\ p = pathOf (segs ++ [k])
    /\ getParentPath p = pathOf segs /\ getFileName p = k
    /\ joinPath (pathOf segs) k = p.
Proof.
  intros (segs & Hv & ->) Hne.
  induction segs as [|k0 r _] using rev_ind; [exfalso; apply Hne; reflexivity|].
  apply valid_snoc in Hv as Hv'. destruct Hv' as [Hr Hk].
  exists r, k0. repeat split; try assumption.
  - apply getParentPath_snoc, Hv.
  - apply getFileName_snoc, Hv.
  - apply joinPath_pathOf, Hr.
Qed.

Lemma joinPath_clean p k :
  cleanSegs p -> validName k = true ->
  cleanSegs (joinPath p k) /\ joinPath p k <> "/"
  /\ getParentPath (joinPath p k) = p /\ getFileName (joinPath p k) = k.
Proof.
  intros (segs & Hv & ->) Hk.
  assert (Hv' : List.forallb validName (segs ++ [k]) = true) by (apply valid_snoc; auto).
  rewrite joinPath_pathOf by exact Hv. repeat split.
  - exists (segs ++ [k]). auto.
  - apply pathOf_snoc_not_root, Hv'.
  - apply getParentPath_snoc, Hv'.
  - apply getFileName_snoc, Hv'.
Qed.

Lemma cleanSegs_parent p : cleanSegs p -> cleanSegs (getParentPath p).
Proof.
  intros Hc. destruct (String.eqb p "/") eqn:E.
  - apply String.eqb_eq in E. subst. exact cleanSegs_root.
  - apply String.eqb_neq in E.
    destruct (cleanSegs_split _ Hc E) as (segs & k & Hv & _ & _ & -> & _). exists segs. auto.
Qed.

Lemma joinPath_inj p k p' k' :
  cleanSegs p -> validName k = true -> cleanSegs p' -> validName k' = true ->
  joinPath p k = joinPath p' k' -> p = p' /\ k = k'.
Proof.
  intros Hp Hk Hp' Hk' E.
  destruct (joinPath_clean p k Hp Hk) as (_ & _ & H1 & H2).
  destruct (joinPath_clean p' k' Hp' Hk') as (_ & _ & H1' & H2').
  rewrite E in H1, H2. split; congruence.
Qed.

(** ** The invariant and the synchronization of the two indices *)

Lemma stored_inj fs q q' a :
  grounded fs -> stored fs q a -> stored fs q' a -> q = q'.
Proof. intros G H H'. rewrite <- (g_path _ G _ _ H), <- (g_path _ G _ _ H'). reflexivity. Qed.

Lemma kindOK_children_wf n :
  kindOK n -> Map_.wf (match FileNode.children n with Some m => m | None => Map_.empty end).
Proof.
  unfold kindOK. destruct (FileNode.type n).
  - intros ->. apply wf_empty.
  - intros (m & -> & Hm). exact Hm.
Qed.

Lemma childrenOf_wf tab fs q a : coherent tab fs -> tab q a -> Map_.wf (childrenOf fs a).
Proof.
  intros C H. destruct (c_node _ _ C _ _ H) as (_ & _ & Hk).
  apply kindOK_children_wf, Hk.
Qed.

Lemma wellFormed_reachable fs a :
  wellFormed fs -> reachable fs a -> exists q, stored fs q a.
Proof.
  intros [G C] H. induction H as [|pa k c Hpa [q Hq] Hin].
  - exists "/". apply (c_root _ _ C).
  - exists (joinPath q k).
    apply (c_down _ _ C q pa k c Hq).
    apply In_get; [eapply childrenOf_wf; eassumption | exact Hin].
Qed.

Lemma wellFormed_synchronized fs : wellFormed fs -> synchronized fs.
Proof.
  intros [G C]. split; [apply (c_root _ _ C)|]. split.
  - intros p a Hp Hne.
    destruct (c_up _ _ C p a Hp Hne) as (pa & Hpa & Hdir & Hget & Hname).
    destruct (c_node _ _ C _ _ Hp) as (_ & Hclean & _).
    destruct (cleanSegs_split _ Hclean Hne) as (segs & k & Hv & Hk & Hpeq & Hpp & Hfn & Hjoin).
    exists (getParentPath p), pa. split; [exact Hpa|]. split; [|split].
    + rewrite Hname. apply get_In, Hget.
    + rewrite (g_path _ G _ _ Hp), (g_path _ G _ _ Hpa), Hname, Hpp, Hfn. symmetry. exact Hjoin.
    + intros q' pa' k' Hq' Hin.
      assert (Hget' : Map_.get (childrenOf fs pa') k' = Some a)
        by (apply In_get; [eapply childrenOf_wf; eassumption | exact Hin]).
      destruct (c_down _ _ C q' pa' k' a Hq' Hget') as (Hst & Hk').
      pose proof (stored_inj _ _ _ _ G Hp Hst) as E.
      destruct (c_node _ _ C _ _ Hq') as (_ & Hclean' & _).
      destruct (joinPath_clean q' k' Hclean' Hk') as (_ & _ & H1 & H2).
      rewrite <- E in H1, H2. split.
      * apply (c_fun _ _ C (getParentPath p)); [|exact Hpa]. rewrite H1. exact Hq'.
      * congruence.
  - intros a Hr. destruct (wellFormed_reachable fs a (conj G C) Hr) as [q Hq].
    rewrite (g_path _ G _ _ Hq). exact Hq.
Qed.

Lemma lookup_singleton_is_Some (n : FileNode.t) a :
  is_Some (({[ 0 := n ]} : gmap nat FileNode.t) !! a) -> a = 0.
Proof.
  intros [x Hx]. destruct (decide (0 = a)) as [<-|Hne]; [reflexivity|].
  rewrite lookup_singleton_ne in Hx by exact Hne. discriminate.
Qed.

Lemma get_singleton_inv {V} (k0 : string) (v0 : V) q a :
  Map_.get (Map_.set Map_.empty k0 v0) q = Some a -> q = k0 /\ a = v0.
Proof.
  rewrite get_set. destruct (String.eqb k0 q) eqn:E.
  - apply String.eqb_eq in E. intros H. injection H as <-. auto.
  - discriminate.
Qed.

Lemma wellFormed_constructor : wellFormed constructor.
Proof.
  split.
  - split.
    + intros a Ha. apply lookup_singleton_is_Some in Ha. subst. simpl. lia.
    + apply wf_set, wf_empty.
    + intros q a H. apply get_singleton_inv in H as [-> ->]. reflexivity.
  - split.
    + reflexivity.
    + reflexivity.
    + unfold stored. intros q a a' H H'. congruence.
    + intros q a H. apply get_singleton_inv in H as [-> ->].
      split; [|split].
      * eexists. reflexivity.
      * apply cleanSegs_root.
      * exists Map_.empty. split; [reflexivity | apply wf_empty].
    + intros q a H Hne. apply get_singleton_inv in H as [-> ->]. congruence.
    + intros q pa k c H Hc. apply get_singleton_inv in H as [-> ->]. discriminate.
Qed.


(** ** Creating a node under an existing directory *)

Lemma attach_wellFormed fs segs k parent nd :
  wellFormed fs ->
  List.forallb validName (segs ++ [k]) = true ->
  Map_.get (files fs) (pathOf (segs ++ [k])) = None ->
  Map_.get (files fs) (pathOf segs) = Some parent ->
  isDirectory fs parent = true ->
  FileNode.name nd = k -> FileNode.path nd = pathOf (segs ++ [k]) ->
  kindOK nd ->
  (forall m, FileNode.children nd = Some m -> m = Map_.empty) ->
  wellFormed
    (childrenSet
       (setFiles (snd (alloc fs nd)) (Map_.set (files (snd (alloc fs nd))) (pathOf (segs ++ [k])) (fresh fs)))
       parent k (fresh fs)).
Proof.
  intros [G C] Hv Hnone Hparent Hdir Hname Hpath Hkind Hempty.
  set (P := pathOf (segs ++ [k])) in *.
  set (new := fresh fs).
  set (fs' := childrenSet _ parent k new).
  apply valid_snoc in Hv as Hv'. destruct Hv' as [Hvs Hk].
  assert (HPne : P <> "/") by (apply pathOf_snoc_not_root, Hv).
  assert (HPP : getParentPath P = pathOf segs) by (apply getParentPath_snoc, Hv).
  assert (HPF : getFileName P = k) by (apply getFileName_snoc, Hv).
  assert (Halloc : forall q a, stored fs q a -> is_Some (heap fs !! a) /\ a <> new).
  { intros q a Hq. destruct (c_node _ _ C _ _ Hq) as (Ha & _). split; [exact Ha|].
    pose proof (g_fresh _ G _ Ha). unfold new. lia. }
  assert (Hpn : parent <> new) by (apply (Halloc _ _ Hparent)).
  assert (Hderef : forall b, b <> new -> b <> parent -> deref fs' b = deref fs b).
  { intros b Hb Hb'. unfold fs', childrenSet. rewrite deref_update.
    destruct (decide (parent = b)); [congruence|]. rewrite deref_setFiles, deref_alloc.
    destruct (decide (fresh fs = b)); [unfold new in Hb; congruence | reflexivity]. }
  assert (Hnew : deref fs' new = nd).
  { unfold fs', childrenSet. rewrite deref_update.
    destruct (decide (parent = new)); [congruence|]. rewrite deref_setFiles, deref_alloc.
    destruct (decide (fresh fs = new)); [reflexivity | unfold new in *; congruence]. }
  assert (Hfields : forall b, b <> new ->
            FileNode.type (deref fs' b) = FileNode.type (deref fs b)
            /\ FileNode.name (deref fs' b) = FileNode.name (deref fs b)
            /\ FileNode.path (deref fs' b) = FileNode.path (deref fs b)).
  { intros b Hb. unfold fs', childrenSet.
    rewrite type_setChildren_update, name_setChildren_update, path_setChildren_update.
    rewrite !deref_setFiles, !deref_alloc.
    destruct (decide (fresh fs = b)); [unfold new in Hb; congruence | auto]. }
  assert (Hch : forall b, childrenOf fs' b =
            if decide (parent = b) then Map_.set (childrenOf fs parent) k new
            else if decide (new = b) then
                   match FileNode.children nd with Some m => m | None => Map_.empty end
                 else childrenOf fs b).
  { intros b. unfold fs'. rewrite childrenOf_childrenSet.
    assert (Hc1 : forall x, childrenOf (setFiles (snd (alloc fs nd))
                              (Map_.set (files (snd (alloc fs nd))) P (fresh fs))) x
                            = if decide (new = x)
                              then match FileNode.children nd with
                                   | Some m => m | None => Map_.empty end
                              else childrenOf fs x).
    { intros x. rewrite childrenOf_setFiles. unfold childrenOf. rewrite deref_alloc.
      unfold new. destruct (decide (fresh fs = x)); reflexivity. }
    rewrite !Hc1. destruct (decide (parent = b)) as [<-|].
    - destruct (decide (new = parent)); [congruence | reflexivity].
    - reflexivity. }
  assert (Hdirs : forall b, b <> new -> isDirectory fs' b = isDirectory fs b).
  { intros b Hb. unfold isDirectory. destruct (Hfields b Hb) as (-> & _). reflexivity. }
  assert (Hfiles : forall q a, stored fs' q a <-> (q = P /\ a = new) \/ (q <> P /\ stored fs q a)).
  { intros q a. unfold stored, fs'. simpl files. rewrite get_set.
    destruct (String.eqb P q) eqn:E.
    - apply String.eqb_eq in E. subst q. split.
      + intros H. injection H as <-. left. auto.
      + intros [[_ ->]|[Hne _]]; [reflexivity | congruence].
    - apply String.eqb_neq in E. split.
      + intros H. right. split; [congruence | exact H].
      + intros [[-> _]|[_ H]]; [congruence | exact H]. }
  assert (Hold : forall q a, stored fs q a -> stored fs' q a).
  { intros q a Hq. apply Hfiles. right. split; [|exact Hq].
    intros ->. unfold stored in Hq. congruence. }
  split.
  - split.
    + intros a [x Hx]. unfold fs', childrenSet in Hx. rewrite heap_update in Hx.
      simpl fresh. destruct (decide (parent = a)) as [<-|].
      * pose proof (g_fresh _ G parent (proj1 (Halloc _ _ Hparent))). lia.
      * simpl heap in Hx. change (heap (snd (alloc fs nd)) !! a = Some x) in Hx.
        rewrite heap_alloc in Hx. destruct (decide (fresh fs = a)); [lia|].
        pose proof (g_fresh _ G a ltac:(eauto)). lia.
    + apply wf_set, (g_files _ G).
    + intros q a Hq. apply Hfiles in Hq as [[-> ->]|[Hne Hq]].
      * rewrite Hnew. exact Hpath.
      * destruct (Hfields a (proj2 (Halloc _ _ Hq))) as (_ & _ & ->).
        apply (g_path _ G _ _ Hq).
  - split.
    + apply Hold, (c_root _ _ C).
    + rewrite Hdirs; [apply (c_root_dir _ _ C)|]. apply (Halloc _ _ (c_root _ _ C)).
    + unfold stored. intros q a a' H H'. congruence.
    + intros q a Hq. apply Hfiles in Hq as [[-> ->]|[Hne Hq]].
      * split; [|split].
        -- unfold fs', childrenSet. rewrite heap_update.
           destruct (decide (parent = new)); [eauto|]. simpl heap.
           change (is_Some (heap (snd (alloc fs nd)) !! new)). rewrite heap_alloc.
           destruct (decide (fresh fs = new)); [eauto | unfold new in *; congruence].
        -- exists (segs ++ [k]). auto.
        -- rewrite Hnew. exact Hkind.
      * destruct (c_node _ _ C _ _ Hq) as (Ha & Hclean & Hkd).
        split; [|split; [exact Hclean|]].
        -- unfold fs', childrenSet. apply allocated_update. simpl heap.
           change (is_Some (heap (snd (alloc fs nd)) !! a)). rewrite heap_alloc.
           destruct (decide (fresh fs = a)); [eauto | exact Ha].
        -- destruct (decide (a = parent)) as [->|Hap].
           ++ unfold kindOK. destruct (Hfields parent Hpn) as (-> & _).
              apply isDirectory_type in Hdir. rewrite Hdir.
              exists (childrenOf fs' parent). split.
              ** unfold fs', childrenSet. rewrite deref_update.
                 destruct (decide (parent = parent)); [|congruence]. simpl.
                 unfold childrenOf at 2. rewrite deref_update.
                 destruct (decide (parent = parent)); [|congruence]. reflexivity.
              ** rewrite Hch. destruct (decide (parent = parent)); [|congruence].
                 apply wf_set. eapply childrenOf_wf; eassumption.
           ++ rewrite Hderef; [exact Hkd | apply (Halloc _ _ Hq) | exact Hap].
    + intros q a Hq Hne. apply Hfiles in Hq as [[-> ->]|[HqP Hq]].
      * exists parent. rewrite HPP, HPF. split; [apply Hold, Hparent|].
        split; [rewrite Hdirs by exact Hpn; exact Hdir|]. split.
        -- rewrite Hch. destruct (decide (parent = parent)); [|congruence]. apply get_set_eq.
        -- rewrite Hnew. exact Hname.
      * destruct (c_up _ _ C q a Hq Hne) as (pa & Hpa & Hpdir & Hget & Hnm).
        exists pa. split; [apply Hold, Hpa|].
        split; [rewrite Hdirs by apply (Halloc _ _ Hpa); exact Hpdir|]. split.
        -- rewrite Hch. destruct (decide (parent = pa)) as [<-|Hpp].
           ++ rewrite get_set_ne; [exact Hget|]. intros Ek. apply HqP.
              pose proof (stored_inj _ _ _ _ G Hpa Hparent) as Epp.
              destruct (c_node _ _ C _ _ Hq) as (_ & Hclean & _).
              destruct (cleanSegs_split _ Hclean Hne) as (sg & k0 & _ & _ & _ & Hq1 & Hq2 & Hq3).
              rewrite <- Hq3. rewrite <- Hq1, Epp. rewrite <- Hq2, <- Ek.
              apply joinPath_pathOf, Hvs.
           ++ destruct (decide (new = pa)) as [<-|]; [|exact Hget].
              exfalso. apply (proj2 (Halloc _ _ Hpa)). reflexivity.
        -- destruct (Hfields a (proj2 (Halloc _ _ Hq))) as (_ & -> & _). exact Hnm.
    + intros q pa k' c Hq Hget. apply Hfiles in Hq as [[-> ->]|[HqP Hq]].
      * exfalso. rewrite Hch in Hget.
        destruct (decide (parent = new)); [congruence|].
        destruct (decide (new = new)); [|congruence].
        destruct (FileNode.children nd) as [m|] eqn:Em; [|discriminate].
        rewrite (Hempty m eq_refl) in Hget. discriminate.
      * rewrite Hch in Hget. destruct (decide (parent = pa)) as [<-|Hpp].
        -- pose proof (stored_inj _ _ _ _ G Hq Hparent) as ->.
           rewrite get_set in Hget. destruct (String.eqb k k') eqn:Ek.
           ++ apply String.eqb_eq in Ek. subst k'. injection Hget as <-.
              split; [|exact Hk]. apply Hfiles. left. split; [|reflexivity].
              apply joinPath_pathOf, Hvs.
           ++ destruct (c_down _ _ C _ _ _ _ Hq Hget) as [Hc Hk'].
              split; [apply Hold, Hc | exact Hk'].
        -- destruct (decide (new = pa)) as [<-|].
           ++ exfalso. apply (proj2 (Halloc _ _ Hq)). reflexivity.
           ++ destruct (c_down _ _ C _ _ _ _ Hq Hget) as [Hc Hk'].
              split; [apply Hold, Hc | exact Hk'].
Qed.

(** ** [createDirectory], [createAncestors], [createFile] *)

Lemma grows_refl new fs : grows new fs fs.
Proof.
  split; [auto|]. split; [auto|]. intros a Ha. repeat split; auto.
Qed.

Lemma grows_weaken (new new' : string -> Prop) fs fs' :
  (forall q, new q -> new' q) -> grows new fs fs' -> grows new' fs fs'.
Proof.
  intros Hn (H1 & H2 & H3). split; [exact H1|]. split; [|exact H3].
  intros q a Hq. destruct (H2 q a Hq) as [H|(Hq' & H)]; [left; exact H | right; split; auto].
Qed.

Lemma grows_trans (n1 n2 : string -> Prop) fs fs1 fs2 :
  grows n1 fs fs1 -> grows n2 fs1 fs2 -> grows (fun q => n1 q \/ n2 q) fs fs2.
Proof.
  intros (A1 & A2 & A3) (B1 & B2 & B3). split; [auto|]. split.
  - intros q a Hq. destruct (B2 q a Hq) as [H|(Hn & Hd & Ha & Hnone)].
    + destruct (A2 q a H) as [H'|(Hn & Hd & Ha & Hnone)]; [left; exact H'|].
      right. destruct (B3 a Ha) as (Ha2 & Ht & _).
      split; [left; exact Hn|]. split; [|split; [exact Ha2 | exact Hnone]].
      unfold isDirectory in *. rewrite Ht. exact Hd.
    + right. split; [right; exact Hn|]. split; [exact Hd|]. split; [exact Ha|].
      destruct (heap fs !! a) eqn:E; [|reflexivity].
      destruct (A3 a ltac:(eauto)) as ([x Hx] & _). congruence.
  - intros a Ha. destruct (A3 a Ha) as (Ha1 & T1 & C1 & N1 & P1).
    destruct (B3 a Ha1) as (Ha2 & T2 & C2 & N2 & P2).
    repeat split; congruence.
Qed.

Lemma splitFrom_pieces_noSlash s : forall cur,
  noSlash cur = true -> List.forallb noSlash (JS.splitFrom "/" s 0 cur) = true.
Proof.
  induction s as [|c s IH]; intros cur Hcur.
  - simpl. rewrite Hcur. reflexivity.
  - rewrite splitFrom_eq. destruct (String.prefix "/" (String c s)) eqn:E.
    + simpl. rewrite Hcur. simpl. apply IH. reflexivity.
    + apply IH. simpl in E. destruct (Ascii.eqb c slash) eqn:Ec.
      * apply Ascii.eqb_eq in Ec. subst c. unfold slash in E. simpl in E.
        destruct s; discriminate.
      * clear E. induction cur as [|d cur IHc]; simpl in *.
        -- rewrite Ec. reflexivity.
        -- apply andb_true_iff in Hcur as [Hd Hc]. rewrite Hd. simpl. apply IHc, Hc.
Qed.

Lemma parts_valid s : List.forallb validName (JS.filterBoolean (JS.split "/" s)) = true.
Proof.
  unfold JS.split. pose proof (splitFrom_pieces_noSlash s EmptyString eq_refl) as H.
  induction (JS.splitFrom "/" s 0 EmptyString) as [|x l IH]; [reflexivity|].
  simpl in H. apply andb_true_iff in H as [Hx Hl]. unfold JS.filterBoolean in *. simpl.
  destruct (String.eqb x EmptyString) eqn:E; simpl.
  - apply IH, Hl.
  - unfold validName. rewrite E, Hx. simpl. apply IH, Hl.
Qed.

Lemma removelast_valid segs :
  List.forallb validName segs = true -> List.forallb validName (List.removelast segs) = true.
Proof.
  induction segs as [|k r _] using rev_ind; [reflexivity|].
  rewrite removelast_snoc. intros H. apply valid_snoc in H. tauto.
Qed.

Lemma has_stored fs q : Map_.has (files fs) q = true <-> exists a, stored fs q a.
Proof.
  unfold Map_.has, stored. destruct (Map_.get (files fs) q); split; eauto; try discriminate.
  intros [a H]. discriminate.
Qed.

Lemma createDirectory_spec fs path :
  wellFormed fs -> cleanSegs (normalizePath path) ->
  wellFormed (snd (createDirectory fs path))
  /\ grows (fun q => q = normalizePath path) fs (snd (createDirectory fs path))
  /\ (Map_.has (files fs) (normalizePath path) = false ->
      forall parent, stored fs (getParentPath (normalizePath path)) parent ->
        isDirectory fs parent = true ->
        exists a, stored (snd (createDirectory fs path)) (normalizePath path) a
                  /\ isDirectory (snd (createDirectory fs path)) a = true).
Proof.
  intros WF Hclean. unfold createDirectory. set (N := normalizePath path) in *.
  destruct (Map_.has (files fs) N) eqn:Hhas.
  { simpl. split; [exact WF|]. split; [apply grows_refl | discriminate]. }
  unfold getParentNode. destruct (Map_.get (files fs) (getParentPath N)) as [parent|] eqn:Hpar.
  2:{ simpl. split; [exact WF|]. split; [apply grows_refl|]. intros _ p Hp.
      unfold stored in Hp. congruence. }
  destruct (isDirectory fs parent) eqn:Hdir.
  2:{ simpl. split; [exact WF|]. split; [apply grows_refl|]. intros _ p Hp.
      unfold stored in Hp. rewrite Hpar in Hp. injection Hp as <-. congruence. }
  assert (HN : N <> "/").
  { intros E. destruct WF as [_ C]. pose proof (c_root _ _ C) as Hr. unfold stored in Hr.
    unfold Map_.has in Hhas. rewrite E, Hr in Hhas. discriminate. }
  destruct (cleanSegs_split _ Hclean HN) as (segs & k & Hvs & Hk & HNeq & Hpp & Hfn & _).
  assert (Hv : List.forallb validName (segs ++ [k]) = true) by (apply valid_snoc; auto).
  assert (Hnone : Map_.get (files fs) N = None).
  { unfold Map_.has in Hhas. destruct (Map_.get (files fs) N); [discriminate | reflexivity]. }
  simpl negb. cbv iota.
  set (nd := FileNode.Build TDirectory (getFileName N) N None (Some Map_.empty)).
  change (snd (let '(directory, fs0) := alloc fs nd in
               (Some directory,
                childrenSet (setFiles fs0 (Map_.set (files fs0) N directory)) parent
                  (getFileName N) directory)))
    with (childrenSet (setFiles (snd (alloc fs nd))
                         (Map_.set (files (snd (alloc fs nd))) N (fresh fs)))
            parent (getFileName N) (fresh fs)).
  set (fs' := childrenSet _ parent (getFileName N) (fresh fs)).
  assert (WF' : wellFormed fs').
  { unfold fs'. rewrite Hfn. rewrite HNeq.
    apply (attach_wellFormed fs segs k parent nd WF Hv).
    - rewrite <- HNeq. exact Hnone.
    - rewrite <- Hpp. exact Hpar.
    - exact Hdir.
    - exact Hfn.
    - exact HNeq.
    - exists Map_.empty. split; [reflexivity | apply wf_empty].
    - intros m Hm. injection Hm as <-. reflexivity. }
  destruct WF as [G C].
  assert (Hfr : forall a, is_Some (heap fs !! a) -> a <> fresh fs).
  { intros a Ha. pose proof (g_fresh _ G a Ha). lia. }
  assert (Hnew : deref fs' (fresh fs) = nd).
  { unfold fs', childrenSet. rewrite deref_update.
    destruct (decide (parent = fresh fs)) as [E|_].
    - exfalso. destruct (c_node _ _ C _ _ Hpar) as (Ha & _). apply (Hfr _ Ha E).
    - rewrite deref_setFiles, deref_alloc. destruct (decide (fresh fs = fresh fs)); congruence. }
  split; [exact WF'|]. split.
  - split; [|split].
    + intros q a Hq. unfold stored, fs'. simpl files. rewrite get_set_ne; [exact Hq|].
      intros <-. unfold stored in Hq. congruence.
    + intros q a Hq. unfold stored, fs' in Hq. simpl files in Hq. rewrite get_set in Hq.
      destruct (String.eqb N q) eqn:E.
      * apply String.eqb_eq in E. subst q. injection Hq as <-. right.
        split; [reflexivity|]. split; [unfold isDirectory; rewrite Hnew; reflexivity|].
        split.
        -- destruct WF' as [_ C']. apply (c_node _ _ C' N (fresh fs)).
           unfold stored, fs'. simpl files. apply get_set_eq.
        -- destruct (heap fs !! fresh fs) eqn:Eh; [|first [reflexivity | exact Eh]].
           exfalso. apply (Hfr (fresh fs)); eauto.
      * left. exact Hq.
    + intros a Ha. split.
      * unfold fs', childrenSet. apply allocated_update. simpl heap.
        change (is_Some (heap (snd (alloc fs nd)) !! a)). rewrite heap_alloc.
        destruct (decide (fresh fs = a)); [eauto | exact Ha].
      * unfold fs', childrenSet. rewrite deref_update.
        destruct (decide (parent = a)) as [<-|].
        -- rewrite deref_setFiles, deref_alloc.
           destruct (decide (fresh fs = parent)) as [E|]; [exfalso; apply (Hfr _ Ha); auto|].
           repeat split; reflexivity.
        -- rewrite deref_setFiles, deref_alloc.
           destruct (decide (fresh fs = a)) as [E|]; [exfalso; apply (Hfr _ Ha); auto|].
           repeat split; reflexivity.
  - intros _ p Hp _. exists (fresh fs). split.
    + unfold stored, fs'. simpl files. apply get_set_eq.
    + unfold isDirectory. rewrite Hnew. reflexivity.
Qed.

Lemma grows_isDirectory new fs fs' q a :
  wellFormed fs -> grows new fs fs' -> stored fs q a ->
  isDirectory fs' a = isDirectory fs a.
Proof.
  intros [_ C] (_ & _ & H3) Hq. destruct (c_node _ _ C _ _ Hq) as (Ha & _).
  destruct (H3 a Ha) as (_ & Ht & _). unfold isDirectory. rewrite Ht. reflexivity.
Qed.

Lemma createAncestors_spec parts : forall fs pre,
  wellFormed fs -> List.forallb validName (pre ++ parts) = true ->
  wellFormed (createAncestors fs (rawPath pre) parts)
  /\ grows (fun q => exists i, 1 <= i <= List.length parts
                               /\ q = pathOf (pre ++ List.firstn i parts))
       fs (createAncestors fs (rawPath pre) parts)
  /\ ((exists b, stored fs (pathOf pre) b) ->
      (forall i a, i <= List.length parts ->
         stored fs (pathOf (pre ++ List.firstn i parts)) a -> isDirectory fs a = true) ->
      exists a, stored (createAncestors fs (rawPath pre) parts) (pathOf (pre ++ parts)) a
                /\ isDirectory (createAncestors fs (rawPath pre) parts) a = true).
Proof.
  induction parts as [|part rest IH]; intros fs pre WF Hv.
  - simpl. split; [exact WF|]. split; [apply grows_refl|].
    intros [b Hb] Hd. exists b. rewrite app_nil_r in *. split; [exact Hb|].
    apply (Hd 0 b); [lia|]. simpl. rewrite app_nil_r. exact Hb.
  - assert (Hv' : List.forallb validName ((pre ++ [part]) ++ rest) = true)
      by (rewrite <- app_assoc; exact Hv).
    assert (Hv1 : List.forallb validName (pre ++ [part]) = true).
    { rewrite forallb_app in Hv'. apply andb_true_iff in Hv'. tauto. }
    assert (Hcur : JS.cat (rawPath pre) (JS.cat "/" part) = pathOf (pre ++ [part])).
    { rewrite pathOf_snoc_raw, rawPath_snoc. reflexivity. }
    cbn [createAncestors]. rewrite Hcur. rewrite pathOf_snoc_raw at 2. rewrite <- pathOf_snoc_raw.
    set (cur := pathOf (pre ++ [part])) in *.
    assert (Hn : normalizePath cur = cur) by (apply normalizePath_pathOf, Hv1).
    set (fs1 := if negb (exists_ fs cur) then snd (createDirectory fs cur) else fs).
    assert (H1 : wellFormed fs1 /\ grows (fun q => q = cur) fs fs1
                 /\ ((exists b, stored fs (pathOf pre) b) ->
                     (forall a, stored fs (pathOf pre) a -> isDirectory fs a = true) ->
                     (forall a, stored fs cur a -> isDirectory fs a = true) ->
                     exists a, stored fs1 cur a /\ isDirectory fs1 a = true)).
    { unfold fs1, exists_. rewrite Hn. destruct (Map_.has (files fs) cur) eqn:Hhas; simpl negb; cbv iota.
      - split; [exact WF|]. split; [apply grows_refl|]. intros _ _ Hd.
        apply has_stored in Hhas as [a Ha]. exists a. split; [exact Ha | apply Hd, Ha].
      - destruct (createDirectory_spec fs cur WF) as (W1 & G1 & S1).
        { rewrite Hn. exists (pre ++ [part]). auto. }
        rewrite Hn in G1, S1. split; [exact W1|]. split; [exact G1|].
        intros [b Hb] Hdp _. apply (S1 Hhas b).
        + unfold cur. rewrite getParentPath_snoc by exact Hv1. exact Hb.
        + apply Hdp, Hb. }
    destruct H1 as (W1 & G1 & S1).
    assert (Hraw : cur = rawPath (pre ++ [part])) by apply pathOf_snoc_raw.
    rewrite Hraw. fold fs1.
    destruct (IH fs1 (pre ++ [part]) W1 Hv') as (W2 & G2 & S2).
    split; [exact W2|]. split.
    + eapply grows_weaken; [|exact (grows_trans _ _ _ _ _ G1 G2)].
      intros q [->|(i & Hi & ->)].
      * exists 1. split; [simpl; lia|]. reflexivity.
      * exists (S i). split; [simpl; lia|]. simpl. rewrite <- app_assoc. reflexivity.
    + intros Hb Hd.
      replace (pre ++ part :: rest) with ((pre ++ [part]) ++ rest) by (rewrite <- app_assoc; reflexivity).
      apply S2.
      * destruct S1 as (a & Ha & _); [exact Hb | | | eauto].
        -- intros a Ha. apply (Hd 0 a); [lia|]. simpl. rewrite app_nil_r. exact Ha.
        -- intros a Ha. apply (Hd 1 a); [simpl; lia|]. exact Ha.
      * intros i a Hi Ha. destruct G1 as (G11 & G12 & G13).
        destruct (G12 _ _ Ha) as [Hold|(_ & Hdir & _)]; [|exact Hdir].
        rewrite (grows_isDirectory _ fs fs1 _ a WF (conj G11 (conj G12 G13)) Hold).
        apply (Hd (S i) a); [simpl; lia|]. simpl. rewrite <- app_assoc in Hold. exact Hold.
Qed.

Lemma createFile_wellFormed fs path content :
  wellFormed fs -> cleanSegs (normalizePath path) ->
  wellFormed (snd (createFile fs path content)).
Proof.
  intros WF Hclean. unfold createFile. set (N := normalizePath path) in *.
  destruct (Map_.has (files fs) N) eqn:Hhas; [exact WF|].
  assert (HN : N <> "/").
  { intros E. destruct WF as [_ C]. pose proof (c_root _ _ C) as Hr. unfold stored in Hr.
    unfold Map_.has in Hhas. rewrite E, Hr in Hhas. discriminate. }
  destruct (cleanSegs_split _ Hclean HN) as (segs & k & Hvs & Hk & HNeq & Hpp & Hfn & _).
  assert (Hv : List.forallb validName (segs ++ [k]) = true) by (apply valid_snoc; auto).
  assert (Hparts : List.removelast (JS.filterBoolean (JS.split "/" N)) = segs).
  { rewrite HNeq, parts_pathOf by exact Hv. apply removelast_snoc. }
  rewrite Hparts.
  destruct (createAncestors_spec segs fs [] WF Hvs) as (W1 & G1 & _).
  change (rawPath []) with EmptyString in W1, G1.
  set (fs1 := createAncestors fs EmptyString segs) in *.
  unfold getParentNode.
  destruct (Map_.get (files fs1) (getParentPath N)) as [parent|] eqn:Hpar; [|exact W1].
  destruct (isDirectory fs1 parent) eqn:Hdir; [|exact W1].
  simpl negb. cbv iota.
  set (nd := FileNode.Build TFile (getFileName N) N (Some content) None).
  change (wellFormed (childrenSet (setFiles (snd (alloc fs1 nd))
                         (Map_.set (files (snd (alloc fs1 nd))) N (fresh fs1)))
            parent (getFileName N) (fresh fs1))).
  rewrite Hfn, HNeq.
  apply (attach_wellFormed fs1 segs k parent nd W1 Hv).
  - destruct (Map_.get (files fs1) (pathOf (segs ++ [k]))) as [a|] eqn:Ea; [|reflexivity].
    exfalso. destruct G1 as (_ & G12 & _).
    destruct (G12 _ _ Ea) as [Hold|((i & Hi & Hq) & _)].
    + unfold stored in Hold. rewrite <- HNeq in Hold. unfold Map_.has in Hhas.
      rewrite Hold in Hhas. discriminate.
    + simpl in Hq. apply pathOf_inj in Hq; [|exact Hv|].
      * apply (f_equal (@List.length string)) in Hq.
        rewrite length_app, length_firstn in Hq. simpl in Hq. lia.
      * rewrite <- (firstn_skipn i segs) in Hvs. rewrite forallb_app in Hvs.
        apply andb_true_iff in Hvs. tauto.
  - rewrite <- Hpp. exact Hpar.
  - exact Hdir.
  - exact Hfn.
  - exact HNeq.
  - reflexivity.
  - intros m Hm. discriminate.
Qed.

(** ** Updates of the store that keep the tree *)

Lemma coherent_ext (tab tab' : string -> ref -> Prop) fs fs' :
  (forall q a, tab' q a <-> tab q a) -> root fs' = root fs ->
  (forall q a, tab q a ->
     is_Some (heap fs' !! a)
     /\ FileNode.type (deref fs' a) = FileNode.type (deref fs a)
     /\ FileNode.name (deref fs' a) = FileNode.name (deref fs a)
     /\ FileNode.children (deref fs' a) = FileNode.children (deref fs a)) ->
  coherent tab fs -> coherent tab' fs'.
Proof.
  intros Htab Hroot Hsame C.
  assert (Hdir : forall q a, tab q a -> isDirectory fs' a = isDirectory fs a).
  { intros q a Hq. destruct (Hsame q a Hq) as (_ & Ht & _). unfold isDirectory. rewrite Ht. reflexivity. }
  assert (Hch : forall q a, tab q a -> childrenOf fs' a = childrenOf fs a).
  { intros q a Hq. destruct (Hsame q a Hq) as (_ & _ & _ & Hc). unfold childrenOf. rewrite Hc. reflexivity. }
  split.
  - apply Htab. rewrite Hroot. apply (c_root _ _ C).
  - rewrite Hroot. rewrite (Hdir _ _ (c_root _ _ C)). apply (c_root_dir _ _ C).
  - intros q a a' H H'. apply Htab in H, H'. apply (c_fun _ _ C q); assumption.
  - intros q a H. apply Htab in H. destruct (c_node _ _ C _ _ H) as (_ & Hcl & Hk).
    destruct (Hsame q a H) as (Ha & Ht & _ & Hc). split; [exact Ha|]. split; [exact Hcl|].
    unfold kindOK in *. rewrite Ht, Hc. exact Hk.
  - intros q a H Hne. apply Htab in H.
    destruct (c_up _ _ C q a H Hne) as (pa & Hpa & Hd & Hget & Hnm).
    exists pa. split; [apply Htab, Hpa|]. split; [rewrite (Hdir _ _ Hpa); exact Hd|].
    split; [rewrite (Hch _ _ Hpa); exact Hget|].
    destruct (Hsame q a H) as (_ & _ & -> & _). exact Hnm.
  - intros q pa k c H Hget. apply Htab in H. rewrite (Hch _ _ H) in Hget.
    destruct (c_down _ _ C _ _ _ _ H Hget) as [Hc Hk]. split; [apply Htab, Hc | exact Hk].
Qed.

Lemma wellFormed_update fs a f :
  wellFormed fs -> is_Some (heap fs !! a) ->
  (forall n, FileNode.type (f n) = FileNode.type n /\ FileNode.name (f n) = FileNode.name n
             /\ FileNode.path (f n) = FileNode.path n
             /\ FileNode.children (f n) = FileNode.children n) ->
  wellFormed (update fs a f).
Proof.
  intros [G C] Ha Hf. split.
  - split.
    + intros b Hb. rewrite heap_update in Hb. rewrite fresh_update.
      destruct (decide (a = b)) as [<-|]; apply (g_fresh _ G); assumption.
    + apply (g_files _ G).
    + intros q b Hq. rewrite files_update in Hq. rewrite deref_update.
      destruct (decide (a = b)) as [<-|]; [|apply (g_path _ G), Hq].
      destruct (Hf (deref fs a)) as (_ & _ & -> & _). apply (g_path _ G), Hq.
  - apply (coherent_ext (stored fs) _ fs); [reflexivity | reflexivity | | exact C].
    intros q b Hq. destruct (c_node _ _ C _ _ Hq) as (Hb & _).
    split; [apply allocated_update, Hb|]. rewrite deref_update.
    destruct (decide (a = b)) as [<-|]; [|auto].
    destruct (Hf (deref fs a)) as (-> & -> & _ & ->). auto.
Qed.

Lemma updateFile_wellFormed fs path content :
  wellFormed fs -> wellFormed (snd (updateFile fs path content)).
Proof.
  intros WF. unfold updateFile.
  destruct (Map_.get (files fs) (normalizePath path)) as [file|] eqn:E; [|exact WF].
  destruct (negb (isFile fs file)); [exact WF|]. simpl.
  apply wellFormed_update; [exact WF | | intros n; repeat split].
  destruct WF as [_ C]. apply (c_node _ _ C _ _ E).
Qed.

(** ** [clearAll], [reset], [deserialize] *)

Lemma get_singleton_stored {V} (m : Map_.t V) k (v : V) q a :
  Map_.get (Map_.set (Map_.clear m) k v) q = Some a -> q = k /\ a = v.
Proof.
  rewrite get_set. destruct (String.eqb k q) eqn:E.
  - apply String.eqb_eq in E. intros H. injection H as <-. auto.
  - rewrite get_clear. discriminate.
Qed.

Lemma clearAll_wellFormed fs : wellFormed fs -> wellFormed (clearAll fs).
Proof.
  intros [G C]. unfold clearAll.
  pose proof (c_root _ _ C) as Hr. pose proof (c_root_dir _ _ C) as Hrd.
  destruct (c_node _ _ C _ _ Hr) as (Ha & _ & Hk).
  unfold kindOK in Hk. apply isDirectory_type in Hrd. rewrite Hrd in Hk.
  destruct Hk as (m & Hm & Hwf).
  change (deref (setFiles fs (Map_.clear (files fs))) (root (setFiles fs (Map_.clear (files fs)))))
    with (deref fs (root fs)).
  rewrite Hm.
  set (fs1 := update (setFiles fs (Map_.clear (files fs))) _ _).
  assert (Hroot : deref fs1 (root fs) = FileNode.setChildren (deref fs (root fs)) (Map_.clear m)).
  { unfold fs1. rewrite deref_update. simpl root.
    destruct (decide (root fs = root fs)); [reflexivity | congruence]. }
  split.
  - split.
    + intros b Hb. simpl in Hb. simpl fresh.
      destruct (decide (root fs = b)) as [<-|Hne]; [apply (g_fresh _ G), Ha|].
      rewrite lookup_insert_ne in Hb by exact Hne. apply (g_fresh _ G), Hb.
    + simpl files. apply wf_set, wf_clear.
    + intros q a Hq. simpl files in Hq. apply get_singleton_stored in Hq as [-> ->].
      change (FileNode.path (deref fs1 (root fs)) = "/"). rewrite Hroot. simpl.
      apply (g_path _ G), Hr.
  - split.
    + unfold stored. simpl files. apply get_set_eq.
    + change (isDirectory fs1 (root fs) = true). unfold isDirectory. rewrite Hroot. simpl.
      rewrite Hrd. reflexivity.
    + unfold stored. intros q a a' H H'. congruence.
    + intros q a Hq. unfold stored in Hq. simpl files in Hq.
      apply get_singleton_stored in Hq as [-> ->]. split; [|split].
      * simpl. rewrite lookup_insert_eq. eauto.
      * apply cleanSegs_root.
      * change (kindOK (deref fs1 (root fs))). rewrite Hroot. unfold kindOK. simpl.
        rewrite Hrd. exists (Map_.clear m). split; [reflexivity | apply wf_clear].
    + intros q a Hq Hne. unfold stored in Hq. simpl files in Hq.
      apply get_singleton_stored in Hq as [-> ->]. congruence.
    + intros q pa k c Hq Hget. unfold stored in Hq. simpl files in Hq.
      apply get_singleton_stored in Hq as [-> ->].
      change (Map_.get (childrenOf fs1 (root fs)) k = Some c) in Hget.
      unfold childrenOf in Hget. rewrite Hroot in Hget. simpl in Hget.
      rewrite get_clear in Hget. discriminate.
Qed.

Lemma reset_wellFormed fs : wellFormed fs -> wellFormed (reset fs).
Proof.
  intros [G C].
  assert (Hh : heap (reset fs) = <[fresh fs := rootNode]> (heap fs)) by reflexivity.
  assert (Hf : fresh (reset fs) = S (fresh fs)) by reflexivity.
  assert (Ht : files (reset fs) = Map_.set (Map_.clear (files fs)) "/" (fresh fs)) by reflexivity.
  assert (Hr : root (reset fs) = fresh fs) by reflexivity.
  assert (Hroot : deref (reset fs) (fresh fs) = rootNode).
  { unfold deref. rewrite Hh, lookup_insert_eq. reflexivity. }
  split.
  - split.
    + intros b Hb. rewrite Hh in Hb. rewrite Hf.
      destruct (decide (fresh fs = b)) as [<-|Hne]; [lia|].
      rewrite lookup_insert_ne in Hb by exact Hne. pose proof (g_fresh _ G b Hb). lia.
    + rewrite Ht. apply wf_set, wf_clear.
    + intros q a Hq. rewrite Ht in Hq. apply get_singleton_stored in Hq as [-> ->].
      rewrite Hroot. reflexivity.
  - split.
    + unfold stored. rewrite Ht, Hr. apply get_set_eq.
    + rewrite Hr. unfold isDirectory. rewrite Hroot. reflexivity.
    + unfold stored. intros q a a' H H'. congruence.
    + intros q a Hq. unfold stored in Hq. rewrite Ht in Hq.
      apply get_singleton_stored in Hq as [-> ->]. split; [|split].
      * rewrite Hh, lookup_insert_eq. eauto.
      * apply cleanSegs_root.
      * rewrite Hroot. exists Map_.empty. split; [reflexivity | apply wf_empty].
    + intros q a Hq Hne. unfold stored in Hq. rewrite Ht in Hq.
      apply get_singleton_stored in Hq as [-> ->]. congruence.
    + intros q pa k c Hq Hget. unfold stored in Hq. rewrite Ht in Hq.
      apply get_singleton_stored in Hq as [-> ->].
      unfold childrenOf in Hget. rewrite Hroot in Hget. discriminate.
Qed.

Lemma In_insertSorted x y l : In x (insertSorted y l) -> x = y \/ In x l.
Proof.
  induction l as [|z l IH]; simpl.
  - intros [<-|[]]. auto.
  - destruct (String.leb y z); simpl.
    + intros [<-|H]; auto.
    + intros [<-|H]; [auto|]. destruct (IH H); auto.
Qed.

Lemma In_sortStrings x l : In x (sortStrings l) -> In x l.
Proof.
  induction l as [|y l IH]; simpl; [auto|].
  intros H. apply In_insertSorted in H as [->|H]; auto.
Qed.

Lemma deserialize_wellFormed fs data :
  wellFormed fs ->
  (forall path, In path (List.map fst data) -> cleanSegs (normalizePath path)) ->
  wellFormed (deserialize fs data).
Proof.
  intros WF Hc. unfold deserialize.
  assert (Hs : forall path, In path (sortStrings (List.map fst data)) ->
                            cleanSegs (normalizePath path))
    by (intros p Hp; apply Hc, In_sortStrings, Hp).
  apply clearAll_wellFormed in WF. revert Hs WF.
  generalize (sortStrings (List.map fst data)) as paths. generalize (clearAll fs) as fs0.
  intros fs0 paths. revert fs0. induction paths as [|p paths IH]; intros fs0 Hs WF; [exact WF|].
  simpl. apply IH; [intros q Hq; apply Hs; right; exact Hq|].
  apply createFile_wellFormed; [|apply Hs; left; reflexivity].
  apply (createAncestors_spec _ fs0 [] WF). simpl. apply removelast_valid, parts_valid.
Qed.


(** ** The slots of a map, and the iteration over a map that changes *)

Lemma next_Some {V} (m : Map_.t V) : forall i j kv,
  Map_.next m i = Some (j, kv) ->
  i <= j /\ nth_error m j = Some (Some kv)
  /\ forall l, i <= l -> l < j -> nth_error m l = Some None.
Proof.
  induction m as [|e m IH]; intros i j kv H; simpl in H; [discriminate|].
  destruct i as [|i].
  - destruct e as [kv'|].
    + injection H as <- <-. split; [lia|]. split; [reflexivity|]. intros l Hl Hl'. lia.
    + destruct (Map_.next m 0) as [[j' kv']|] eqn:E; [|discriminate].
      injection H as <- <-. destruct (IH 0 j' kv' E) as (_ & Hn & Hl).
      split; [lia|]. split; [exact Hn|]. intros [|l] H1 H2; [reflexivity|].
      simpl. apply Hl; lia.
  - destruct (Map_.next m i) as [[j' kv']|] eqn:E; [|discriminate].
    injection H as <- <-. destruct (IH i j' kv' E) as (Hi & Hn & Hl).
    split; [lia|]. split; [exact Hn|]. intros [|l] H1 H2; [lia|].
    simpl. apply Hl; lia.
Qed.

Lemma next_None {V} (m : Map_.t V) : forall i,
  Map_.next m i = None -> forall l kv, i <= l -> nth_error m l <> Some (Some kv).
Proof.
  induction m as [|e m IH]; intros i H l kv Hl.
  - destruct l; discriminate.
  - simpl in H. destruct i as [|i].
    + destruct e as [kv'|]; [discriminate|].
      destruct (Map_.next m 0) as [[j' kv']|] eqn:E; [discriminate|].
      destruct l as [|l]; [discriminate|]. simpl. apply (IH 0 E). lia.
    + destruct (Map_.next m i) as [[j' kv']|] eqn:E; [discriminate|].
      destruct l as [|l]; [lia|]. simpl. apply (IH i E). lia.
Qed.

Lemma nth_In_entries {V} (m : Map_.t V) : forall j e,
  nth_error m j = Some (Some e) -> In e (Map_.entries m).
Proof.
  induction m as [|x m IH]; intros j e H; [destruct j; discriminate|].
  destruct j as [|j]; simpl in H.
  - injection H as ->. left. reflexivity.
  - destruct x; simpl; [right|]; eapply IH; exact H.
Qed.

Lemma get_nth {V} (m : Map_.t V) j k v :
  Map_.wf m -> nth_error m j = Some (Some (k, v)) -> Map_.get m k = Some v.
Proof. intros Hwf H. apply In_get; [exact Hwf|]. eapply nth_In_entries, H. Qed.

Lemma no_live_get {V} (m : Map_.t V) :
  (forall l kv, nth_error m l <> Some (Some kv)) -> forall k, Map_.get m k = None.
Proof.
  induction m as [|x m IH]; intros H k; [reflexivity|].
  destruct x as [[k' v']|].
  - exfalso. apply (H 0 (k', v')). reflexivity.
  - simpl. apply IH. intros l kv. apply (H (S l) kv).
Qed.

Lemma length_delete {V} (m : Map_.t V) k : List.length (Map_.delete m k) = List.length m.
Proof.
  induction m as [|[[k' v']|] m IH]; simpl; [reflexivity| |].
  - destruct (String.eqb k' k); simpl; congruence.
  - congruence.
Qed.

Lemma delete_slot {V} (m : Map_.t V) : forall j k v,
  Map_.wf m -> nth_error m j = Some (Some (k, v)) ->
  forall l, nth_error (Map_.delete m k) l = if Nat.eqb l j then Some None else nth_error m l.
Proof.
  induction m as [|x m IH]; intros j k v Hwf H l; [destruct j; discriminate|].
  destruct x as [[k' v']|].
  - unfold Map_.wf in Hwf. simpl in Hwf. apply List.NoDup_cons_iff in Hwf as [Hnin Hwf].
    simpl. destruct (String.eqb k' k) eqn:E.
    + apply String.eqb_eq in E. subst k'. destruct j as [|j].
      * destruct l; reflexivity.
      * exfalso. apply Hnin. simpl in H. apply nth_In_entries in H.
        apply (in_map fst) in H. exact H.
    + destruct j as [|j].
      * simpl in H. injection H as -> _. rewrite String.eqb_refl in E. discriminate.
      * destruct l as [|l]; [reflexivity|]. simpl. apply (IH j k v Hwf H).
  - destruct j as [|j]; [discriminate|]. simpl.
    destruct l as [|l]; [reflexivity|]. simpl. apply (IH j k v Hwf H).
Qed.

(** ** Paths at or below a path *)

Lemma valid_app a b :
  List.forallb validName (a ++ b) = true <->
  List.forallb validName a = true /\ List.forallb validName b = true.
Proof. rewrite forallb_app. apply andb_true_iff. Qed.

Lemma under_refl s : under s (pathOf s).
Proof. exists []. split; [reflexivity|]. rewrite app_nil_r. reflexivity. Qed.

Lemma below_under s q : below s q -> under s q.
Proof. intros (t & Hv & _ & ->). exists t. auto. Qed.

Lemma under_snoc_below s k q : validName k = true -> under (s ++ [k]) q -> below s q.
Proof.
  intros Hk (t & Hv & ->). exists (k :: t). split; [simpl; rewrite Hk; exact Hv|].
  split; [discriminate|]. rewrite <- app_assoc. reflexivity.
Qed.

Lemma under_cases s q :
  List.forallb validName s = true -> under s q -> q = pathOf s \/ below s q.
Proof.
  intros Hs (t & Hv & ->). destruct t as [|k t].
  - left. rewrite app_nil_r. reflexivity.
  - right. exists (k :: t). split; [exact Hv|]. split; [discriminate | reflexivity].
Qed.

Lemma below_not_self s :
  List.forallb validName s = true -> ~ below s (pathOf s).
Proof.
  intros Hs (t & Hv & Hne & E). apply pathOf_inj in E; [|exact Hs | apply valid_app; auto].
  apply (f_equal (@List.length string)) in E. rewrite length_app in E.
  destruct t; [congruence | simpl in E; lia].
Qed.

Lemma below_snoc_cases s k q :
  List.forallb validName (s ++ [k]) = true -> List.forallb validName s = true ->
  below s q -> under (s ++ [k]) q \/ exists k' t, k' <> k /\ q = pathOf (s ++ k' :: t)
                                              /\ List.forallb validName (k' :: t) = true.
Proof.
  intros Hv Hs (t & Ht & Hne & ->). destruct t as [|k' t]; [congruence|].
  destruct (String.eqb k' k) eqn:E.
  - apply String.eqb_eq in E. subst k'. left. exists t. simpl in Ht.
    apply andb_true_iff in Ht as [_ Ht]. split; [exact Ht|]. rewrite <- app_assoc. reflexivity.
  - apply String.eqb_neq in E. right. exists k', t. auto.
Qed.

(** ** Ancestors *)

Lemma coherent_ancestor tab fs s t a :
  coherent tab fs -> List.forallb validName (s ++ t) = true ->
  tab (pathOf (s ++ t)) a -> exists b, tab (pathOf s) b.
Proof.
  intros C. revert a. induction t as [|k t IH] using rev_ind; intros a Hv Ha.
  - rewrite app_nil_r in Ha. eauto.
  - rewrite app_assoc in Hv, Ha.
    destruct (c_up _ _ C _ _ Ha (pathOf_snoc_not_root _ _ Hv)) as (pa & Hpa & _).
    rewrite getParentPath_snoc in Hpa by exact Hv.
    apply (IH pa); [|exact Hpa]. apply valid_snoc in Hv. tauto.
Qed.

Lemma coherent_child tab fs s k t a :
  coherent tab fs -> List.forallb validName (s ++ k :: t) = true ->
  tab (pathOf (s ++ k :: t)) a ->
  exists b c, tab (pathOf s) b /\ Map_.get (childrenOf fs b) k = Some c
              /\ tab (pathOf (s ++ [k])) c.
Proof.
  intros C Hv Ha.
  replace (s ++ k :: t) with ((s ++ [k]) ++ t) in * by (rewrite <- app_assoc; reflexivity).
  destruct (coherent_ancestor _ _ _ _ _ C Hv Ha) as [c Hc].
  assert (Hv1 : List.forallb validName (s ++ [k]) = true) by (apply valid_app in Hv; tauto).
  destruct (c_up _ _ C _ _ Hc (pathOf_snoc_not_root _ _ Hv1)) as (pa & Hpa & _ & Hget & _).
  rewrite getParentPath_snoc in Hpa by exact Hv1.
  rewrite getFileName_snoc in Hget by exact Hv1. eauto.
Qed.

(** Nothing of the table is below a node without children. *)
Lemma leaf_nothing_below fs s file q a :
  wellFormed fs -> List.forallb validName s = true ->
  stored fs (pathOf s) file ->
  (forall k, Map_.get (childrenOf fs file) k = None) ->
  stored fs q a -> ~ below s q.
Proof.
  intros [G C] Hs Hfile Hleaf Hq (t & Ht & Hne & ->). destruct t as [|k t]; [congruence|].
  destruct (coherent_child _ _ s k t a C) as (b & c & Hb & Hget & _);
    [apply valid_app; auto | exact Hq |].
  rewrite (c_fun _ _ C _ _ _ Hb Hfile) in Hget. rewrite Hleaf in Hget. discriminate.
Qed.

(** ** Removing a node without children *)

Lemma detach_wellFormed fs segs k file parent :
  wellFormed fs -> List.forallb validName (segs ++ [k]) = true ->
  stored fs (pathOf (segs ++ [k])) file -> stored fs (pathOf segs) parent ->
  (forall kk, Map_.get (childrenOf fs file) kk = None) ->
  wellFormed (setFiles (childrenDelete fs parent k)
                (Map_.delete (files fs) (pathOf (segs ++ [k]))))
  /\ (forall q a, stored (setFiles (childrenDelete fs parent k)
                            (Map_.delete (files fs) (pathOf (segs ++ [k])))) q a
                  <-> stored fs q a /\ q <> pathOf (segs ++ [k])).
Proof.
  intros [G C] Hv Hfile Hparent Hleaf.
  set (N := pathOf (segs ++ [k])) in *.
  set (fs' := setFiles _ _).
  apply valid_snoc in Hv as Hv'. destruct Hv' as [Hvs Hk].
  assert (HNne : N <> "/") by (apply pathOf_snoc_not_root, Hv).
  assert (Hst : forall q a, stored fs' q a <-> stored fs q a /\ q <> N).
  { intros q a. unfold stored, fs'. simpl files. rewrite get_delete by apply (g_files _ G).
    destruct (String.eqb N q) eqn:E.
    - apply String.eqb_eq in E. split; [discriminate | intros [_ H]; congruence].
    - apply String.eqb_neq in E. split; [intros H; split; [exact H | congruence] | tauto]. }
  assert (Hfields : forall b,
            FileNode.type (deref fs' b) = FileNode.type (deref fs b)
            /\ FileNode.name (deref fs' b) = FileNode.name (deref fs b)
            /\ FileNode.path (deref fs' b) = FileNode.path (deref fs b)).
  { intros b. unfold fs', childrenDelete. rewrite deref_setFiles.
    rewrite type_setChildren_update, name_setChildren_update, path_setChildren_update. auto. }
  assert (Hch : forall b, childrenOf fs' b =
            if decide (parent = b) then Map_.delete (childrenOf fs parent) k
            else childrenOf fs b).
  { intros b. unfold fs'. rewrite childrenOf_setFiles. apply childrenOf_childrenDelete. }
  assert (Hdirs : forall b, isDirectory fs' b = isDirectory fs b).
  { intros b. unfold isDirectory. destruct (Hfields b) as (-> & _). reflexivity. }
  assert (Hwfp : Map_.wf (childrenOf fs parent)) by (eapply childrenOf_wf; eassumption).
  split; [|exact Hst]. split.
  - split.
    + intros a Ha. unfold fs', childrenDelete in Ha. simpl heap in Ha.
      change (fresh fs' ) with (fresh fs).
      destruct (decide (parent = a)) as [<-|Hne].
      * apply (g_fresh _ G), (c_node _ _ C _ _ Hparent).
      * rewrite lookup_insert_ne in Ha by exact Hne. apply (g_fresh _ G), Ha.
    + apply wf_delete, (g_files _ G).
    + intros q a Hq. apply Hst in Hq as [Hq _].
      destruct (Hfields a) as (_ & _ & ->). apply (g_path _ G), Hq.
  - split.
    + apply Hst. split; [apply (c_root _ _ C) | congruence].
    + change (root fs') with (root fs). rewrite Hdirs. apply (c_root_dir _ _ C).
    + unfold stored. intros q a a' H H'. congruence.
    + intros q a Hq. apply Hst in Hq as [Hq _].
      destruct (c_node _ _ C _ _ Hq) as (Ha & Hcl & Hkd). split; [|split; [exact Hcl|]].
      * unfold fs', childrenDelete. apply allocated_update. exact Ha.
      * unfold kindOK. destruct (Hfields a) as (-> & _).
        unfold fs', childrenDelete. rewrite deref_setFiles, deref_update.
        destruct (decide (parent = a)) as [<-|]; [|exact Hkd].
        unfold kindOK in Hkd. destruct (FileNode.type (deref fs parent)).
        -- exfalso. destruct (c_up _ _ C _ _ Hfile HNne) as (pa & Hpa & Hd & _).
           unfold N in Hpa. rewrite getParentPath_snoc in Hpa by exact Hv.
           rewrite (c_fun _ _ C _ _ _ Hpa Hparent) in Hd.
           apply isDirectory_type in Hd. unfold kindOK in Hkd.
           destruct (c_node _ _ C _ _ Hparent) as (_ & _ & Hkp). unfold kindOK in Hkp.
           rewrite Hd in Hkp. destruct Hkp as (m & Hm & _). congruence.
        -- simpl. eexists. split; [reflexivity|]. apply wf_delete, Hwfp.
    + intros q a Hq Hne. apply Hst in Hq as [Hq HqN].
      destruct (c_up _ _ C q a Hq Hne) as (pa & Hpa & Hpdir & Hget & Hnm).
      destruct (c_node _ _ C _ _ Hq) as (_ & Hclean & _).
      destruct (cleanSegs_split _ Hclean Hne) as (sg & k0 & Hsg & Hk0 & Hqeq & Hq1 & Hq2 & Hq3).
      exists pa. split; [|split; [rewrite Hdirs; exact Hpdir|split]].
      * apply Hst. split; [exact Hpa|]. intros E. rewrite E in Hpa.
        rewrite (c_fun _ _ C _ _ _ Hpa Hfile) in Hget. rewrite Hleaf in Hget. discriminate.
      * rewrite Hch. destruct (decide (parent = pa)) as [<-|]; [|exact Hget].
        rewrite get_delete_ne; [exact Hget|]. intros Ek. apply HqN.
        pose proof (stored_inj _ _ _ _ G Hpa Hparent) as Epp.
        rewrite <- Hq3, <- Hq1, Epp, <- Hq2, <- Ek. apply joinPath_pathOf, Hvs.
      * destruct (Hfields a) as (_ & -> & _). exact Hnm.
    + intros q pa kk c Hq Hget. apply Hst in Hq as [Hq HqN].
      rewrite Hch in Hget.
      destruct (c_node _ _ C _ _ Hq) as (_ & Hclean & _).
      destruct (decide (parent = pa)) as [<-|Hpp].
      * pose proof (stored_inj _ _ _ _ G Hq Hparent) as ->.
        rewrite get_delete in Hget by exact Hwfp.
        destruct (String.eqb k kk) eqn:Ek; [discriminate|]. apply String.eqb_neq in Ek.
        destruct (c_down _ _ C _ _ _ _ Hq Hget) as [Hc Hkk]. split; [|exact Hkk].
        apply Hst. split; [exact Hc|]. unfold N. rewrite <- (joinPath_pathOf segs k Hvs).
        intros E. apply joinPath_inj in E; [|exact Hclean | exact Hkk | exact Hclean | exact Hk].
        destruct E as [_ E]. congruence.
      * destruct (c_down _ _ C _ _ _ _ Hq Hget) as [Hc Hkk]. split; [|exact Hkk].
        apply Hst. split; [exact Hc|]. unfold N. rewrite <- (joinPath_pathOf segs k Hvs).
        intros E. apply joinPath_inj in E;
          [|exact Hclean | exact Hkk | exists segs; auto | exact Hk].
        destruct E as [E _]. subst q. apply Hpp. apply (c_fun _ _ C _ _ _ Hparent Hq).
Qed.

(** ** [deleteFile] *)

Lemma deleteFile_eq fuel fs path :
  deleteFile (S fuel) fs path =
  let normalized := normalizePath path in
  match Map_.get (files fs) normalized with
  | None => Some (false, fs)
  | Some file =>
      if String.eqb normalized "/" then Some (false, fs)
      else
        match getParentNode fs normalized with
        | None => Some (false, fs)
        | Some parent =>
            if negb (isDirectory fs parent) then Some (false, fs)
            else
              match
                match FileNode.children (deref fs file) with
                | Some _ =>
                    if isDirectory fs file
                    then deleteLoop (deleteFile fuel) file fuel fs 0
                    else Some fs
                | None => Some fs
                end
              with
              | None => None
              | Some fs1 =>
                  Some (true,
                        setFiles (childrenDelete fs1 parent (FileNode.name (deref fs1 file)))
                          (Map_.delete (files fs1) normalized))
              end
        end
  end.
Proof. reflexivity. Qed.

Lemma length_pathOf_snoc s k :
  validName k = true -> String.length (pathOf s) < String.length (pathOf (s ++ [k])).
Proof.
  intros Hk. rewrite pathOf_snoc_raw, rawPath_snoc, app_length_s.
  destruct (validName_inv _ Hk) as (c & k' & -> & _).
  destruct s as [|x s]; simpl; lia.
Qed.

Lemma not_under_snoc_self s k :
  List.forallb validName (s ++ [k]) = true -> ~ under (s ++ [k]) (pathOf s).
Proof.
  intros Hv H. apply valid_snoc in Hv as [Hs Hk].
  apply (below_not_self s Hs). apply (under_snoc_below s k _ Hk H).
Qed.

Lemma removedAt_fits D W segs k fs fs' :
  wellFormed fs -> fits D W fs -> removedAt segs k fs fs' -> fits D W fs'.
Proof.
  intros [G C] Hfit (WF' & Ht & Hd & Hp) q a Hq.
  destruct (proj1 (Ht q a) Hq) as [Hq0 _]. destruct (Hfit q a Hq0) as [HD HW].
  split; [exact HD|]. destruct (String.eqb q (pathOf segs)) eqn:E.
  - apply String.eqb_eq in E. subst q. unfold childrenOf at 1. rewrite (Hp a Hq0). simpl.
    rewrite length_delete. exact HW.
  - apply String.eqb_neq in E. unfold childrenOf at 1. rewrite (Hd q a Hq E). exact HW.
Qed.

Lemma deleting_init fs sN file D W :
  wellFormed fs -> fits D W fs -> stored fs (pathOf sN) file ->
  deleting fs sN file D W 0 fs.
Proof.
  intros WF Hfit Hfile. split; [exact WF|]. split; [exact Hfit|]. split; [exact Hfile|].
  split; [intros l Hl; lia|]. auto.
Qed.

Section DeleteLoop.
Variables (fuel' D W : nat).
Hypothesis IH : forall fs segs k file,
    wellFormed fs -> fits D W fs -> List.forallb validName (segs ++ [k]) = true ->
    stored fs (pathOf (segs ++ [k])) file ->
    (D - String.length (pathOf (segs ++ [k]))) + W < fuel' ->
    exists fs', deleteFile fuel' fs (pathOf (segs ++ [k])) = Some (true, fs')
                /\ removedAt segs k fs fs'.
Variables (fs0 : VirtualFileSystem) (sN : list string) (file : ref).
Hypothesis HsN : List.forallb validName sN = true.
Hypothesis Hbound : (D - String.length (pathOf sN)) + W <= fuel'.

Lemma deleteLoop_spec : forall rounds fs i,
    deleting fs0 sN file D W i fs ->
    List.length (childrenOf fs file) < i + rounds ->
    exists fs_e i_e,
      deleteLoop (deleteFile fuel') file rounds fs i = Some fs_e
      /\ deleting fs0 sN file D W i_e fs_e
      /\ forall k, Map_.get (childrenOf fs_e file) k = None.
  Proof.
    induction rounds as [|rounds IHr]; intros fs i Inv Hlen.
    - exfalso. destruct Inv as (_ & _ & _ & Hslots & _).
      destruct i as [|i]; [lia|]. pose proof (Hslots i ltac:(lia)) as Hn.
      assert (i < List.length (childrenOf fs file))
        by (apply nth_error_Some; rewrite Hn; discriminate).
      lia.
    - cbn [deleteLoop].
      destruct (Map_.next (childrenOf fs file) i) as [[j [kj child]]|] eqn:Enext.
      + destruct Inv as (WF & Hfit & Hfile & Hslots & F1 & F2 & F3).
        pose proof WF as [G C].
        destruct (next_Some _ _ _ _ Enext) as (Hij & Hnth & Hbetween).
        assert (Hwf : Map_.wf (childrenOf fs file)) by (eapply childrenOf_wf; eassumption).
        pose proof (get_nth _ _ _ _ Hwf Hnth) as Hget.
        destruct (c_down _ _ C _ _ _ _ Hfile Hget) as [Hchild Hkj].
        rewrite joinPath_pathOf in Hchild by exact HsN.
        assert (Hv : List.forallb validName (sN ++ [kj]) = true) by (apply valid_snoc; auto).
        rewrite (g_path _ G _ _ Hchild).
        destruct (IH fs sN kj child WF Hfit Hv Hchild) as (fs2 & Hdel & Hrem).
        { pose proof (length_pathOf_snoc sN kj Hkj).
          destruct (Hfit _ _ Hchild) as [HD _]. lia. }
        rewrite Hdel.
        pose proof Hrem as (WF2 & Ht2 & Hd2 & Hp2).
        assert (Hch2 : childrenOf fs2 file = Map_.delete (childrenOf fs file) kj).
        { unfold childrenOf at 1. rewrite (Hp2 file Hfile). reflexivity. }
        apply (IHr fs2 (S j)).
        * split; [exact WF2|]. split; [apply (removedAt_fits D W sN kj fs fs2 WF Hfit Hrem)|].
          split; [apply Ht2; split; [exact Hfile | apply not_under_snoc_self, Hv]|].
          split.
          { intros l Hl. rewrite Hch2, (delete_slot _ _ _ _ Hwf Hnth).
            destruct (Nat.eqb l j) eqn:El; [reflexivity|]. apply Nat.eqb_neq in El.
            destruct (Nat.lt_ge_cases l i); [apply Hslots; assumption|].
            apply Hbetween; lia. }
          split; [intros q a Hq; apply F1, Ht2, Hq|].
          split.
          { intros q a Hq Hnb. apply Ht2. split; [apply F2; assumption|].
            intros Hu. apply Hnb. eapply under_snoc_below; eassumption. }
          { intros q a Hq Hnu. rewrite <- (F3 q a Hq Hnu). apply (Hd2 q).
            - apply Ht2. split.
              + apply F2; [exact Hq|]. intros Hb. apply Hnu, below_under, Hb.
              + intros Hu. apply Hnu, below_under. eapply under_snoc_below; eassumption.
            - intros ->. apply Hnu, under_refl. }
        * rewrite Hch2, length_delete.
          assert (j < List.length (childrenOf fs file))
            by (apply nth_error_Some; rewrite Hnth; discriminate).
          lia.
      + exists fs, i. split; [reflexivity|]. split; [exact Inv|].
        destruct Inv as (_ & _ & _ & Hslots & _).
        apply no_live_get. intros l kv Hn.
        destruct (Nat.lt_ge_cases l i) as [Hl|Hl].
        * rewrite (Hslots l Hl) in Hn. discriminate.
        * apply (next_None _ _ Enext l kv Hl Hn).
  Qed.
End DeleteLoop.

Lemma deleteFile_spec D W : forall fuel fs segs k file,
  wellFormed fs -> fits D W fs -> List.forallb validName (segs ++ [k]) = true ->
  stored fs (pathOf (segs ++ [k])) file ->
  (D - String.length (pathOf (segs ++ [k]))) + W < fuel ->
  exists fs', deleteFile fuel fs (pathOf (segs ++ [k])) = Some (true, fs')
              /\ removedAt segs k fs fs'.
Proof.
  induction fuel as [|fuel IH]; intros fs segs k file WF Hfit Hv Hfile Hfuel; [lia|].
  pose proof WF as [G C].
  set (N := pathOf (segs ++ [k])) in *.
  assert (HNne : N <> "/") by (apply pathOf_snoc_not_root, Hv).
  apply valid_snoc in Hv as Hv'. destruct Hv' as [Hvs Hk].
  destruct (c_up _ _ C _ _ Hfile HNne) as (parent & Hparent & Hpdir & Hpget & Hname).
  unfold N in Hparent, Hpget, Hname.
  rewrite getParentPath_snoc in Hparent by exact Hv.
  rewrite getFileName_snoc in Hpget, Hname by exact Hv. fold N in Hname.
  rewrite deleteFile_eq. cbv zeta.
  assert (Hnorm : normalizePath N = N) by (apply normalizePath_pathOf, Hv).
  rewrite Hnorm. unfold stored in Hfile. rewrite Hfile.
  apply String.eqb_neq in HNne as HNb. rewrite HNb.
  unfold getParentNode. unfold N at 1. rewrite getParentPath_snoc by exact Hv.
  unfold stored in Hparent. rewrite Hparent, Hpdir. simpl negb. cbv iota.
  assert (Hloop : exists fs_e i_e,
            match FileNode.children (deref fs file) with
            | Some _ =>
                if isDirectory fs file
                then deleteLoop (deleteFile fuel) file fuel fs 0
                else Some fs
            | None => Some fs
            end = Some fs_e
            /\ deleting fs (segs ++ [k]) file D W i_e fs_e
            /\ forall kk, Map_.get (childrenOf fs_e file) kk = None).
  { destruct (c_node _ _ C _ _ Hfile) as (_ & _ & Hkind). unfold kindOK in Hkind.
    destruct (isDirectory fs file) eqn:Hd.
    - apply isDirectory_type in Hd. rewrite Hd in Hkind. destruct Hkind as (m & Hm & Hwf).
      rewrite Hm.
      apply (deleteLoop_spec fuel D W IH fs (segs ++ [k]) file Hv).
      + fold N. lia.
      + apply deleting_init; assumption.
      + destruct (Hfit _ _ Hfile) as [_ HW]. simpl. fold N in Hfuel. lia.
    - assert (Ht : FileNode.type (deref fs file) = TFile).
      { unfold isDirectory in Hd. destruct (FileNode.type (deref fs file)); [reflexivity | discriminate]. }
      rewrite Ht in Hkind. rewrite Hkind. exists fs, 0. split; [reflexivity|].
      split; [apply deleting_init; assumption|].
      intros kk. unfold childrenOf. rewrite Hkind. reflexivity. }
  destruct Hloop as (fs_e & i_e & -> & Inv & Hleaf).
  destruct Inv as (WFe & _ & Hfile_e & _ & F1 & F2 & F3).
  pose proof WFe as [Ge Ce].
  assert (Hparent_e : stored fs_e (pathOf segs) parent).
  { apply F2; [exact Hparent|]. intros Hb. apply below_under in Hb.
    apply (not_under_snoc_self segs k Hv Hb). }
  assert (Hname_e : FileNode.name (deref fs_e file) = k).
  { destruct (c_up _ _ Ce _ _ Hfile_e HNne) as (pa & _ & _ & _ & Hn).
    fold N in Hn. rewrite Hn. apply getFileName_snoc, Hv. }
  rewrite Hname_e.
  destruct (detach_wellFormed fs_e segs k file parent WFe Hv Hfile_e Hparent_e Hleaf)
    as (WFf & Htf).
  fold N in WFf, Htf.
  eexists. split; [reflexivity|].
  set (fs_f := setFiles (childrenDelete fs_e parent k) (Map_.delete (files fs_e) N)) in *.
  split; [exact WFf|]. split; [|split].
  - intros q a. rewrite Htf. split.
    + intros [Hq HqN]. split; [apply F1, Hq|]. intros Hu.
      destruct (under_cases _ _ Hv Hu) as [E|Hb]; [apply HqN, E|].
      apply (leaf_nothing_below fs_e (segs ++ [k]) file q a WFe Hv Hfile_e Hleaf Hq Hb).
    + intros [Hq Hnu]. split.
      * apply F2; [exact Hq|]. intros Hb. apply Hnu, below_under, Hb.
      * intros ->. apply Hnu, under_refl.
  - intros q a Hq Hne. apply Htf in Hq as [Hq HqN].
    assert (Hap : parent <> a).
    { intros <-. apply Hne. apply (stored_inj _ _ _ _ Ge Hq Hparent_e). }
    unfold fs_f, childrenDelete. rewrite deref_setFiles, deref_update.
    destruct (decide (parent = a)); [congruence|].
    apply (F3 q a (F1 _ _ Hq)). intros Hu.
    destruct (under_cases _ _ Hv Hu) as [E|Hb]; [apply HqN, E|].
    apply (leaf_nothing_below fs_e (segs ++ [k]) file q a WFe Hv Hfile_e Hleaf Hq Hb).
  - intros pa Hpa. rewrite (c_fun _ _ C _ _ _ Hpa Hparent).
    unfold fs_f, childrenDelete. rewrite deref_setFiles, deref_update.
    destruct (decide (parent = parent)); [|congruence].
    unfold childrenOf.
    rewrite (F3 (pathOf segs) parent Hparent (not_under_snoc_self segs k Hv)). reflexivity.
Qed.

Lemma bound_exists {A} (f : A -> nat) (l : list A) : exists n, forall x, In x l -> f x <= n.
Proof.
  induction l as [|y l [n Hn]]; [exists 0; intros x []|].
  exists (Nat.max (f y) n). intros x [<-|Hx]; [lia|]. specialize (Hn x Hx). lia.
Qed.

Lemma fits_exists fs : exists D W, fits D W fs.
Proof.
  destruct (bound_exists (fun e : string * ref => String.length (fst e)) (Map_.entries (files fs)))
    as [D HD].
  destruct (bound_exists (fun e : string * ref => List.length (childrenOf fs (snd e)))
              (Map_.entries (files fs))) as [W HW].
  exists D, (S W). intros q a Hq. apply get_In in Hq.
  specialize (HD _ Hq). specialize (HW _ Hq). simpl in *. lia.
Qed.

(** More fuel does not change a result. *)
Lemma deleteLoop_mono (del del' : VirtualFileSystem -> string -> option (bool * VirtualFileSystem))
    file :
  (forall fs p r, del fs p = Some r -> del' fs p = Some r) ->
  forall rounds fs i x, deleteLoop del file rounds fs i = Some x ->
  forall rounds', rounds <= rounds' -> deleteLoop del' file rounds' fs i = Some x.
Proof.
  intros Hdel. induction rounds as [|rounds IH]; intros fs i x H rounds' Hle; [discriminate|].
  destruct rounds' as [|rounds']; [lia|]. cbn [deleteLoop] in *.
  destruct (Map_.next (childrenOf fs file) i) as [[j [kj child]]|]; [|exact H].
  destruct (del fs (FileNode.path (deref fs child))) as [[b fs2]|] eqn:E; [|discriminate].
  rewrite (Hdel _ _ _ E). apply (IH _ _ _ H). lia.
Qed.

Lemma deleteFile_mono : forall fuel fs path r,
  deleteFile fuel fs path = Some r ->
  forall fuel', fuel <= fuel' -> deleteFile fuel' fs path = Some r.
Proof.
  induction fuel as [|fuel IH]; intros fs path r H fuel' Hle; [discriminate|].
  destruct fuel' as [|fuel']; [lia|]. rewrite deleteFile_eq in *. cbv zeta in *.
  destruct (Map_.get (files fs) (normalizePath path)) as [file|]; [|exact H].
  destruct (String.eqb (normalizePath path) "/"); [exact H|].
  destruct (getParentNode fs (normalizePath path)) as [parent|]; [|exact H].
  destruct (negb (isDirectory fs parent)); [exact H|].
  destruct (FileNode.children (deref fs file)); [|exact H].
  destruct (isDirectory fs file); [|exact H].
  destruct (deleteLoop (deleteFile fuel) file fuel fs 0) as [fs1|] eqn:E; [|discriminate].
  rewrite (deleteLoop_mono (deleteFile fuel) (deleteFile fuel') file
             (fun fs p r Hr => IH fs p r Hr fuel' ltac:(lia)) fuel fs 0 fs1 E fuel' ltac:(lia)).
  exact H.
Qed.

Lemma deleteFile_total fs path :
  wellFormed fs ->
  exists fuel b fs', deleteFile fuel fs path = Some (b, fs') /\ wellFormed fs'.
Proof.
  intros WF. pose proof WF as [G C].
  destruct (Map_.get (files fs) (normalizePath path)) as [file|] eqn:Hfile.
  2:{ exists 1, false, fs. rewrite deleteFile_eq. cbv zeta. rewrite Hfile. auto. }
  destruct (String.eqb (normalizePath path) "/") eqn:HN.
  { exists 1, false, fs. rewrite deleteFile_eq. cbv zeta. rewrite Hfile, HN. auto. }
  apply String.eqb_neq in HN.
  destruct (c_node _ _ C _ _ Hfile) as (_ & Hclean & _).
  destruct (cleanSegs_split _ Hclean HN) as (segs & k & Hvs & Hk & HNeq & _).
  assert (Hv : List.forallb validName (segs ++ [k]) = true) by (apply valid_snoc; auto).
  destruct (fits_exists fs) as (D & W & Hfit).
  rewrite HNeq in Hfile.
  destruct (deleteFile_spec D W (S (D - String.length (pathOf (segs ++ [k])) + W))
              fs segs k file WF Hfit Hv Hfile ltac:(lia)) as (fs' & Hdel & WF' & _).
  exists (S (D - String.length (pathOf (segs ++ [k])) + W)), true, fs'. split; [|exact WF'].
  rewrite deleteFile_eq in *. cbv zeta in *.
  rewrite normalizePath_pathOf in Hdel by exact Hv. rewrite HNeq. exact Hdel.
Qed.

Lemma deleteFile_wellFormed fuel fs path b fs' :
  wellFormed fs -> deleteFile fuel fs path = Some (b, fs') -> wellFormed fs'.
Proof.
  intros WF H. destruct (deleteFile_total fs path WF) as (fuel0 & b0 & fs0 & H0 & WF0).
  pose proof (deleteFile_mono _ _ _ _ H (Nat.max fuel fuel0) ltac:(lia)) as H1.
  pose proof (deleteFile_mono _ _ _ _ H0 (Nat.max fuel fuel0) ltac:(lia)) as H2.
  rewrite H1 in H2. injection H2 as _ ->. exact WF0.
Qed.


(** ** [updateChildrenPaths] *)

Lemma updateChildrenPaths_eq fuel fs node :
  updateChildrenPaths (S fuel) fs node =
  match FileNode.children (deref fs node) with
  | None => Some fs
  | Some _ =>
      if negb (isDirectory fs node) then Some fs
      else updateLoop (updateChildrenPaths fuel) node fuel fs 0
  end.
Proof. reflexivity. Qed.

Lemma sameNodes_refl fs : sameNodes fs fs.
Proof. split; [reflexivity|]. split; [reflexivity|]. intros a. repeat split; auto. Qed.

Lemma sameNodes_trans fs1 fs2 fs3 : sameNodes fs1 fs2 -> sameNodes fs2 fs3 -> sameNodes fs1 fs3.
Proof.
  intros (R1 & F1 & H1) (R2 & F2 & H2). split; [congruence|]. split; [congruence|].
  intros a. destruct (H1 a) as (A1 & T1 & N1 & C1 & K1). destruct (H2 a) as (A2 & T2 & N2 & C2 & K2).
  split; [rewrite A2; exact A1|]. repeat split; congruence.
Qed.

Lemma sameNodes_childrenOf fs fs' a : sameNodes fs fs' -> childrenOf fs' a = childrenOf fs a.
Proof. intros (_ & _ & H). destruct (H a) as (_ & _ & _ & _ & Hc). unfold childrenOf. rewrite Hc. reflexivity. Qed.

Lemma sameNodes_isDirectory fs fs' a : sameNodes fs fs' -> isDirectory fs' a = isDirectory fs a.
Proof. intros (_ & _ & H). destruct (H a) as (_ & Ht & _). unfold isDirectory. rewrite Ht. reflexivity. Qed.

Lemma relabelled_refl so sn fs : grounded fs -> relabelled so sn fs fs.
Proof. intros G. split; [exact G|]. split; [apply sameNodes_refl|]. split; [reflexivity | auto]. Qed.

Lemma relabelled_trans so sn fs1 fs2 fs3 :
  relabelled so sn fs1 fs2 -> relabelled so sn fs2 fs3 -> relabelled so sn fs1 fs3.
Proof.
  intros (_ & S1 & T1 & K1) (G2 & S2 & T2 & K2). split; [exact G2|].
  split; [eapply sameNodes_trans; eassumption|]. split.
  - intros q a. rewrite T2. apply T1.
  - intros q a Hq Hnb. apply K2; [apply K1; assumption | exact Hnb].
Qed.

Lemma relabelled_coherent so sn fs fs' :
  relabelled so sn fs fs' -> coherent (movedTable so sn fs) fs ->
  coherent (movedTable so sn fs') fs'.
Proof.
  intros (_ & (R & _ & H) & T & _) C.
  apply (coherent_ext (movedTable so sn fs) _ fs fs' T R); [|exact C].
  intros q a Hq. destruct (H a) as (A & Ty & N & _ & K).
  split; [apply A, (c_node _ _ C _ _ Hq)|]. auto.
Qed.

Lemma relabelled_fits D W so sn fs fs' :
  relabelled so sn fs fs' -> fitsMoved D W so sn fs -> fitsMoved D W so sn fs'.
Proof.
  intros (_ & S & T & _) Hfit q a Hq. apply T in Hq.
  rewrite (sameNodes_childrenOf _ _ _ S). apply Hfit, Hq.
Qed.

Lemma coherent_child_dir tab fs s k t a :
  coherent tab fs -> List.forallb validName (s ++ k :: t) = true ->
  tab (pathOf (s ++ k :: t)) a ->
  exists b c, tab (pathOf s) b /\ isDirectory fs b = true
              /\ Map_.get (childrenOf fs b) k = Some c /\ tab (pathOf (s ++ [k])) c.
Proof.
  intros C Hv Ha.
  replace (s ++ k :: t) with ((s ++ [k]) ++ t) in * by (rewrite <- app_assoc; reflexivity).
  destruct (coherent_ancestor _ _ _ _ _ C Hv Ha) as [c Hc].
  assert (Hv1 : List.forallb validName (s ++ [k]) = true) by (apply valid_app in Hv; tauto).
  destruct (c_up _ _ C _ _ Hc (pathOf_snoc_not_root _ _ Hv1)) as (pa & Hpa & Hd & Hget & _).
  rewrite getParentPath_snoc in Hpa by exact Hv1.
  rewrite getFileName_snoc in Hget by exact Hv1. eauto 7.
Qed.

Lemma nothing_below_file tab fs s b q a :
  coherent tab fs -> List.forallb validName s = true ->
  tab (pathOf s) b -> isDirectory fs b = false -> tab q a -> ~ below s q.
Proof.
  intros C Hs Hb Hd Hq (t & Ht & Hne & ->). destruct t as [|k t]; [congruence|].
  destruct (coherent_child_dir _ _ s k t a C) as (b' & c & Hb' & Hd' & _);
    [apply valid_app; auto | exact Hq |].
  rewrite (c_fun _ _ C _ _ _ Hb' Hb) in Hd'. congruence.
Qed.

Lemma In_entries_nth {V} (m : Map_.t V) e :
  In e (Map_.entries m) -> exists j, nth_error m j = Some (Some e).
Proof.
  induction m as [|x m IH]; intros H; [destruct H|].
  destruct x as [e'|]; simpl in H.
  - destruct H as [->|H]; [exists 0; reflexivity|].
    destruct (IH H) as [j Hj]. exists (S j). exact Hj.
  - destruct (IH H) as [j Hj]. exists (S j). exact Hj.
Qed.

Section Relabel.
Variables so sn : list string.
Hypothesis Hso : List.forallb validName so = true.
Hypothesis Hsn : List.forallb validName sn = true.
Hypothesis Hsn_ne : sn <> [].
Hypothesis Hapart : apart so sn.

Lemma apart_not_below u :
    List.forallb validName u = true -> ~ below so (pathOf (sn ++ u)).
  Proof.
    intros Hu (t & Ht & _ & E). apply pathOf_inj in E; try (apply valid_app; auto).
    apply (Hapart t u). symmetry. exact E.
  Qed.

Lemma apart_pathOf t u :
    List.forallb validName t = true -> List.forallb validName u = true ->
    pathOf (so ++ t) <> pathOf (sn ++ u).
  Proof.
    intros Ht Hu E. apply pathOf_inj in E; try (apply valid_app; auto).
    apply (Hapart t u E).
  Qed.

Lemma movedTable_fresh fs u a :
    List.forallb validName u = true ->
    stored fs (pathOf (sn ++ u)) a -> movedTable so sn fs (pathOf (sn ++ u)) a.
  Proof. intros Hu H. left. split; [exact H | apply apart_not_below, Hu]. Qed.

  (** One round of the loop on the child named [kj] of the node at the
      new path followed by the names [u]. *)
Lemma relabel_step fs u node kj child :
    grounded fs -> coherent (movedTable so sn fs) fs ->
    List.forallb validName u = true ->
    stored fs (pathOf (sn ++ u)) node ->
    Map_.get (childrenOf fs node) kj = Some child ->
    forall fsa fsb fsc,
      fsa = update fs child (fun n =>
              FileNode.setPath n
                (JS.cat (FileNode.path (deref fs node))
                   (JS.cat "/" (FileNode.name (deref fs child))))) ->
      fsb = setFiles fsa (Map_.delete (files fsa) (FileNode.path (deref fs child))) ->
      fsc = setFiles fsb (Map_.set (files fsb) (FileNode.path (deref fsb child)) child) ->
      relabelled so sn fs fsc
      /\ stored fsc (pathOf (sn ++ u ++ [kj])) child
      /\ validName kj = true.
  Proof.
    intros G C Hu Hnode Hget fsa fsb fsc Ea Eb Ec.
    set (L := pathOf (sn ++ u)) in *. set (Lc := pathOf (sn ++ u ++ [kj])).
    assert (HTnode : movedTable so sn fs L node) by (apply movedTable_fresh; assumption).
    destruct (c_down _ _ C _ _ _ _ HTnode Hget) as [HTc Hkj].
    assert (Hvu : List.forallb validName (sn ++ u) = true) by (apply valid_app; auto).
    unfold L in HTc. rewrite joinPath_pathOf in HTc by exact Hvu.
    rewrite <- app_assoc in HTc. fold Lc in HTc.
    assert (Hvc : List.forallb validName (u ++ [kj]) = true) by (apply valid_snoc; auto).
    assert (Hvc' : List.forallb validName ((sn ++ u) ++ [kj]) = true) by (apply valid_snoc; auto).
    assert (HLc_ne : Lc <> "/").
    { unfold Lc. rewrite app_assoc. apply pathOf_snoc_not_root, Hvc'. }
    assert (Hname : FileNode.name (deref fs child) = kj).
    { destruct (c_up _ _ C _ _ HTc HLc_ne) as (_ & _ & _ & _ & Hn). rewrite Hn.
      unfold Lc. rewrite app_assoc. apply getFileName_snoc, Hvc'. }
    assert (HNP : JS.cat (FileNode.path (deref fs node))
                    (JS.cat "/" (FileNode.name (deref fs child))) = Lc).
    { rewrite (g_path _ G _ _ Hnode), Hname. unfold Lc, L. rewrite app_assoc.
      rewrite pathOf_snoc_raw, rawPath_snoc.
      destruct (sn ++ u) eqn:E; [|reflexivity].
      apply app_eq_nil in E. tauto. }
    rewrite HNP in Ea.
    set (K := FileNode.path (deref fs child)) in *.
    assert (HLc_nb : ~ below so Lc) by (apply apart_not_below, Hvc).
    assert (HK : stored fs K child /\ (K = Lc \/ K = pathOf (so ++ u ++ [kj]))).
    { destruct HTc as [[Hst _]|(t & Ht & Hne & E & Hst)].
      - unfold K. rewrite (g_path _ G _ _ Hst). auto.
      - unfold Lc in E. apply pathOf_inj in E; try (apply valid_app; auto).
        apply app_inv_head in E. subst t. unfold K. rewrite (g_path _ G _ _ Hst). auto. }
    destruct HK as [HKst HKcases].
    assert (Hchild_alloc : is_Some (heap fs !! child)) by apply (c_node _ _ C _ _ HTc).
    assert (Hderef : forall b, deref fsc b
              = if decide (child = b) then FileNode.setPath (deref fs child) Lc else deref fs b).
    { intros b. subst fsc fsb fsa. rewrite !deref_setFiles. apply deref_update. }
    assert (Hpathb : FileNode.path (deref fsb child) = Lc).
    { subst fsb fsa. rewrite deref_setFiles, deref_update.
      destruct (decide (child = child)); [reflexivity | congruence]. }
    assert (Hfiles : files fsc = Map_.set (Map_.delete (files fs) K) Lc child).
    { subst fsc. simpl files. rewrite Hpathb. subst fsb fsa. reflexivity. }
    assert (Hst : forall x a, stored fsc x a <->
              (x = Lc /\ a = child) \/ (x <> Lc /\ x <> K /\ stored fs x a)).
    { intros x a. unfold stored. rewrite Hfiles, get_set.
      destruct (String.eqb Lc x) eqn:E1.
      - apply String.eqb_eq in E1. subst x. split.
        + intros H. injection H as <-. auto.
        + intros [[_ ->]|[H _]]; [reflexivity | congruence].
      - apply String.eqb_neq in E1. rewrite get_delete by apply (g_files _ G).
        destruct (String.eqb K x) eqn:E2.
        + apply String.eqb_eq in E2. subst x. split; [discriminate|].
          intros [[H _]|(_ & H & _)]; congruence.
        + apply String.eqb_neq in E2. split.
          * intros H. right. repeat split; congruence.
          * intros [[H _]|(_ & _ & H)]; [congruence | exact H]. }
    assert (Hrel : relabelled so sn fs fsc).
    { split; [|split; [|split]].
      - split.
        + intros b Hb. subst fsc fsb fsa. simpl in Hb. simpl fresh.
          destruct (decide (child = b)) as [<-|Hne]; [apply (g_fresh _ G), Hchild_alloc|].
          rewrite lookup_insert_ne in Hb by exact Hne. apply (g_fresh _ G), Hb.
        + rewrite Hfiles. apply wf_set, wf_delete, (g_files _ G).
        + intros x a Hx. apply Hst in Hx as [[-> ->]|(H1 & H2 & Hx)].
          * rewrite Hderef. destruct (decide (child = child)); [reflexivity | congruence].
          * rewrite Hderef. destruct (decide (child = a)) as [<-|].
            -- exfalso. apply H2. symmetry. apply (g_path _ G _ _ Hx).
            -- apply (g_path _ G _ _ Hx).
      - split; [subst fsc fsb fsa; reflexivity|]. split; [subst fsc fsb fsa; reflexivity|].
        intros b. split.
        + subst fsc fsb fsa. simpl heap. destruct (decide (child = b)) as [<-|Hne].
          * rewrite lookup_insert_eq. split; eauto.
          * rewrite lookup_insert_ne by exact Hne. reflexivity.
        + rewrite Hderef. destruct (decide (child = b)) as [<-|]; repeat split; reflexivity.
      - intros q a. split.
        + intros [[Hq Hnb]|(t & Ht & Hne & Eq & Hq)].
          * apply Hst in Hq as [[-> ->]|(_ & _ & Hq)]; [exact HTc|]. left. auto.
          * apply Hst in Hq as [[E _]|(_ & _ & Hq)].
            -- exfalso. apply (apart_pathOf t (u ++ [kj]) Ht Hvc E).
            -- right. exists t. auto.
        + intros [[Hq Hnb]|(t & Ht & Hne & Eq & Hq)].
          * left. split; [|exact Hnb]. apply Hst.
            destruct (String.eqb q Lc) eqn:E.
            -- apply String.eqb_eq in E. subst q. left. split; [reflexivity|].
               apply (c_fun _ _ C Lc); [left; auto | exact HTc].
            -- apply String.eqb_neq in E. right. split; [exact E|]. split; [|exact Hq].
               intros ->. destruct HKcases as [HK|HK]; [congruence|].
               apply Hnb. exists (u ++ [kj]). split; [exact Hvc|].
               split; [destruct u; discriminate | exact HK].
          * destruct (String.eqb (pathOf (so ++ t)) K) eqn:E.
            -- apply String.eqb_eq in E. rewrite E in Hq.
               assert (a = child) by (unfold stored in *; congruence). subst a.
               destruct HKcases as [HK|HK].
               ++ exfalso. rewrite HK in E. apply (apart_pathOf t (u ++ [kj]) Ht Hvc E).
               ++ rewrite HK in E. apply pathOf_inj in E; try (apply valid_app; auto).
                  apply app_inv_head in E. subst t. left. split; [|rewrite Eq; exact HLc_nb].
                  apply Hst. left. split; [exact Eq | reflexivity].
            -- apply String.eqb_neq in E. right. exists t. repeat split; try assumption.
               apply Hst. right. split; [|split; [exact E | exact Hq]].
               apply (apart_pathOf t (u ++ [kj]) Ht Hvc).
      - intros q a Hq Hnb. apply Hst. destruct (String.eqb q Lc) eqn:E.
        + apply String.eqb_eq in E. subst q. left. split; [reflexivity|].
          apply (c_fun _ _ C Lc); [left; auto | exact HTc].
        + apply String.eqb_neq in E. right. split; [exact E|]. split; [|exact Hq].
          intros ->. destruct HKcases as [HK|HK]; [congruence|].
          apply Hnb. exists (u ++ [kj]). split; [exact Hvc|].
          split; [destruct u; discriminate | exact HK]. }
    split; [exact Hrel|]. split; [|exact Hkj]. apply Hst. left. auto.
  Qed.
End Relabel.

Section UpdateLoop.
Variables so sn : list string.
Hypothesis Hso : List.forallb validName so = true.
Hypothesis Hsn : List.forallb validName sn = true.
Hypothesis Hsn_ne : sn <> [].
Hypothesis Hapart : apart so sn.
Variables (fuel' D W : nat).
Hypothesis IH : forall fs u node,
    grounded fs -> coherent (movedTable so sn fs) fs -> fitsMoved D W so sn fs ->
    List.forallb validName u = true ->
    stored fs (pathOf (sn ++ u)) node -> isDirectory fs node = true ->
    (D - String.length (pathOf (sn ++ u))) + W < fuel' ->
    exists fs', updateChildrenPaths fuel' fs node = Some fs'
      /\ relabelled so sn fs fs'
      /\ (forall q a, movedTable so sn fs q a -> below (sn ++ u) q -> stored fs' q a).
Variables (fs0 : VirtualFileSystem) (u : list string) (node : ref).
Hypothesis G0 : grounded fs0.
Hypothesis C0 : coherent (movedTable so sn fs0) fs0.
Hypothesis Hfit0 : fitsMoved D W so sn fs0.
Hypothesis Hu : List.forallb validName u = true.
Hypothesis Hnode0 : stored fs0 (pathOf (sn ++ u)) node.
Hypothesis Hbound : (D - String.length (pathOf (sn ++ u))) + W <= fuel'.

Lemma updateLoop_spec : forall rounds fs i,
    relabelling so sn u (childrenOf fs0 node) fs0 i fs ->
    i <= List.length (childrenOf fs0 node) ->
    List.length (childrenOf fs0 node) < i + rounds ->
    exists fs_e,
      updateLoop (updateChildrenPaths fuel') node rounds fs i = Some fs_e
      /\ relabelled so sn fs0 fs_e
      /\ (forall q a, movedTable so sn fs0 q a -> below (sn ++ u) q -> stored fs_e q a).
  Proof.
    assert (HTnode0 : movedTable so sn fs0 (pathOf (sn ++ u)) node)
      by (apply movedTable_fresh; assumption).
    assert (Hvu : List.forallb validName (sn ++ u) = true) by (apply valid_app; auto).
    assert (Hwf : Map_.wf (childrenOf fs0 node)) by (eapply childrenOf_wf; eassumption).
    induction rounds as [|rounds IHr]; intros fs i Inv Hi Hlen; [lia|].
    destruct Inv as (Hrel & Hdone).
    pose proof Hrel as (G & Hsame & Htab & Hstay).
    assert (Hm : childrenOf fs node = childrenOf fs0 node) by (apply sameNodes_childrenOf, Hsame).
    cbn [updateLoop]. rewrite Hm.
    destruct (Map_.next (childrenOf fs0 node) i) as [[j [kj child]]|] eqn:Enext.
    - destruct (next_Some _ _ _ _ Enext) as (Hij & Hnth & Hbetween).
      pose proof (get_nth _ _ _ _ Hwf Hnth) as Hget.
      assert (C : coherent (movedTable so sn fs) fs) by (eapply relabelled_coherent; eassumption).
      assert (Hnode : stored fs (pathOf (sn ++ u)) node).
      { apply Hstay; [exact Hnode0 | apply apart_not_below; assumption]. }
      rewrite <- Hm in Hget.
      cbv zeta.
      set (fsa := update fs child _).
      set (fsb := setFiles fsa _).
      set (fsc := setFiles fsb _).
      destruct (relabel_step so sn Hso Hsn Hsn_ne Hapart fs u node kj child G C Hu Hnode Hget
                  fsa fsb fsc eq_refl eq_refl eq_refl) as (Hrel1 & Hchild & Hkj).
      assert (Hvc : List.forallb validName (u ++ [kj]) = true) by (apply valid_snoc; auto).
      assert (HTc0 : movedTable so sn fs0 (pathOf (sn ++ u ++ [kj])) child).
      { apply Htab. destruct Hrel1 as (_ & _ & T1 & _). apply T1.
        apply (movedTable_fresh so sn Hso Hsn Hapart fsc (u ++ [kj]) child Hvc Hchild). }
      assert (Hrel01 : relabelled so sn fs0 fsc) by (eapply relabelled_trans; eassumption).
      assert (Hjlen : j < List.length (childrenOf fs0 node))
        by (apply nth_error_Some; rewrite Hnth; discriminate).
      assert (Hnext : forall fsd,
                relabelled so sn fsc fsd ->
                (forall q a, movedTable so sn fs0 q a -> below (sn ++ u ++ [kj]) q -> stored fsd q a) ->
                relabelling so sn u (childrenOf fs0 node) fs0 (S j) fsd).
      { intros fsd Hrel2 Hsub. split; [eapply relabelled_trans; eassumption|].
        intros l k c Hl Hnl q a Hq Hunder.
        assert (Hnb : ~ below so q).
        { destruct Hunder as (t & Ht & ->). rewrite app_assoc, <- app_assoc.
          rewrite <- app_assoc.
          apply (apart_not_below so sn Hso Hsn Hapart (u ++ [k] ++ t)).
          destruct (c_down _ _ C0 _ _ _ _ HTnode0 (get_nth _ _ _ _ Hwf Hnl)) as [_ Hk].
          apply valid_app. split; [exact Hu|]. simpl. rewrite Hk. exact Ht. }
        destruct (Nat.eq_dec l j) as [->|Hlj].
        - rewrite Hnth in Hnl. injection Hnl as <- <-.
          assert (Hvs : List.forallb validName (sn ++ u ++ [kj]) = true)
            by (apply valid_app; auto).
          destruct (under_cases _ _ Hvs Hunder) as [->|Hb].
          + rewrite (c_fun _ _ C0 _ _ _ Hq HTc0).
            destruct Hrel2 as (_ & _ & _ & K2). apply K2; [exact Hchild|].
            apply (apart_not_below so sn Hso Hsn Hapart (u ++ [kj]) Hvc).
          + apply Hsub; assumption.
        - destruct (Nat.lt_ge_cases l i) as [Hli|Hli].
          + destruct Hrel2 as (_ & _ & _ & K2). destruct Hrel1 as (_ & _ & _ & K1).
            apply K2; [apply K1; [eapply Hdone; eassumption | exact Hnb] | exact Hnb].
          + rewrite (Hbetween l Hli ltac:(lia)) in Hnl. discriminate. }
      destruct (isDirectory fsc child) eqn:Hdir.
      + destruct (IH fsc (u ++ [kj]) child) as (fsd & Hupd & Hrel2 & Hsub).
        * apply Hrel1.
        * eapply relabelled_coherent; eassumption.
        * eapply relabelled_fits; eassumption.
        * exact Hvc.
        * exact Hchild.
        * exact Hdir.
        * destruct (Hfit0 _ _ HTc0) as [HD _].
          pose proof (length_pathOf_snoc (sn ++ u) kj Hkj) as Hlt.
          rewrite <- app_assoc in Hlt. lia.
        * rewrite Hupd. apply (IHr fsd (S j)); [|lia|lia].
          apply Hnext; [exact Hrel2|].
          intros q a Hq Hb. apply Hsub; [|exact Hb].
          destruct Hrel01 as (_ & _ & T01 & _). apply T01, Hq.
      + apply (IHr fsc (S j)); [|lia|lia].
        apply Hnext; [apply relabelled_refl, Hrel1|].
        intros q a Hq Hb. exfalso.
        assert (Hvs : List.forallb validName (sn ++ u ++ [kj]) = true)
          by (apply valid_app; auto).
        apply (nothing_below_file _ fs0 (sn ++ u ++ [kj]) child q a C0 Hvs HTc0); [|exact Hq|exact Hb].
        rewrite <- (sameNodes_isDirectory fs0 fsc child); [exact Hdir | apply Hrel01].
    - exists fs. split; [reflexivity|]. split; [exact Hrel|].
      intros q a Hq (t & Ht & Hne & ->). destruct t as [|k t]; [congruence|].
      destruct (coherent_child_dir _ _ (sn ++ u) k t a C0) as (b & c & Hb & _ & Hgetc & _);
        [apply valid_app; auto | exact Hq |].
      rewrite (c_fun _ _ C0 _ _ _ Hb HTnode0) in Hgetc.
      apply get_In, In_entries_nth in Hgetc as [l Hl].
      destruct (Nat.lt_ge_cases l i) as [Hli|Hli].
      + apply (Hdone l k c Hli Hl); [exact Hq|].
        exists t. simpl in Ht. apply andb_true_iff in Ht as [_ Ht]. split; [exact Ht|].
        f_equal. rewrite <- !app_assoc. reflexivity.
      + exfalso. apply (next_None _ _ Enext l (k, c) Hli Hl).
  Qed.
End UpdateLoop.

Lemma updateChildrenPaths_spec so sn D W :
  List.forallb validName so = true -> List.forallb validName sn = true ->
  sn <> [] -> apart so sn ->
  forall fuel fs u node,
    grounded fs -> coherent (movedTable so sn fs) fs -> fitsMoved D W so sn fs ->
    List.forallb validName u = true ->
    stored fs (pathOf (sn ++ u)) node -> isDirectory fs node = true ->
    (D - String.length (pathOf (sn ++ u))) + W < fuel ->
    exists fs', updateChildrenPaths fuel fs node = Some fs'
      /\ relabelled so sn fs fs'
      /\ (forall q a, movedTable so sn fs q a -> below (sn ++ u) q -> stored fs' q a).
Proof.
  intros Hso Hsn Hne Hapart.
  induction fuel as [|fuel IH]; intros fs u node G C Hfit Hu Hnode Hdir Hfuel; [lia|].
  rewrite updateChildrenPaths_eq.
  assert (HT : movedTable so sn fs (pathOf (sn ++ u)) node)
    by (apply movedTable_fresh; assumption).
  destruct (c_node _ _ C _ _ HT) as (_ & _ & Hkind). unfold kindOK in Hkind.
  apply isDirectory_type in Hdir as Hty. rewrite Hty in Hkind. destruct Hkind as (m & Hm & Hwf).
  rewrite Hm, Hdir. simpl negb. cbv iota.
  destruct (Hfit _ _ HT) as [_ HW].
  apply (updateLoop_spec so sn Hso Hsn Hne Hapart fuel D W IH fs u node); try assumption;
    try lia.
  split; [apply relabelled_refl, G|]. intros l k c Hl. lia.
Qed.

Lemma updateLoop_mono (upd upd' : VirtualFileSystem -> ref -> option VirtualFileSystem) node :
  (forall fs a r, upd fs a = Some r -> upd' fs a = Some r) ->
  forall rounds fs i x, updateLoop upd node rounds fs i = Some x ->
  forall rounds', rounds <= rounds' -> updateLoop upd' node rounds' fs i = Some x.
Proof.
  intros Hupd. induction rounds as [|rounds IH]; intros fs i x H rounds' Hle; [discriminate|].
  destruct rounds' as [|rounds']; [lia|]. cbn [updateLoop] in *.
  destruct (Map_.next (childrenOf fs node) i) as [[j [kj child]]|]; [|exact H].
  cbv zeta in *.
  match goal with |- context [isDirectory ?f child] => set (fsc := f) in * end.
  destruct (isDirectory fsc child).
  - destruct (upd fsc child) as [fs2|] eqn:E; [|discriminate].
    rewrite (Hupd _ _ _ E). apply (IH _ _ _ H). lia.
  - apply (IH _ _ _ H). lia.
Qed.

Lemma updateChildrenPaths_mono : forall fuel fs node r,
  updateChildrenPaths fuel fs node = Some r ->
  forall fuel', fuel <= fuel' -> updateChildrenPaths fuel' fs node = Some r.
Proof.
  induction fuel as [|fuel IH]; intros fs node r H fuel' Hle; [discriminate|].
  destruct fuel' as [|fuel']; [lia|]. rewrite updateChildrenPaths_eq in *.
  destruct (FileNode.children (deref fs node)); [|exact H].
  destruct (negb (isDirectory fs node)); [exact H|].
  apply (updateLoop_mono (updateChildrenPaths fuel) (updateChildrenPaths fuel') node
           (fun fs a r Hr => IH fs a r Hr fuel' ltac:(lia)) fuel fs 0 r H fuel' ltac:(lia)).
Qed.


(** ** [rename]: the move of the source node *)

Lemma under_parent so sq k :
  List.forallb validName so = true -> List.forallb validName (sq ++ [k]) = true ->
  under so (pathOf sq) -> under so (pathOf (sq ++ [k])).
Proof.
  intros Hso Hv (t & Ht & E). apply valid_snoc in Hv as [Hsq Hk].
  apply pathOf_inj in E; [|exact Hsq | apply valid_app; auto]. subst sq.
  exists (t ++ [k]). split; [apply valid_snoc; auto|]. rewrite app_assoc. reflexivity.
Qed.

Lemma under_snoc_inv so sq k :
  List.forallb validName so = true -> List.forallb validName (sq ++ [k]) = true ->
  under so (pathOf (sq ++ [k])) -> sq ++ [k] = so \/ under so (pathOf sq).
Proof.
  intros Hso Hv (t & Ht & E).
  apply pathOf_inj in E; [|exact Hv | apply valid_app; auto].
  destruct t as [|k' t _] using rev_ind.
  - left. rewrite app_nil_r in E. exact E.
  - right. rewrite app_assoc in E. apply app_inj_tail in E as [-> _].
    exists t. split; [|reflexivity]. apply valid_snoc in Ht. tauto.
Qed.

Lemma not_under_root so k :
  List.forallb validName (so ++ [k]) = true -> ~ under (so ++ [k]) "/".
Proof.
  intros Hv (t & Ht & E). symmetry in E.
  apply pathOf_root_iff in E; [|apply valid_app; auto].
  apply app_eq_nil in E as [E _]. apply app_eq_nil in E as [_ E]. discriminate.
Qed.

Section Move.
Variables (fs0 : VirtualFileSystem) (so' sn' : list string) (ko kn : string).
Variables (src oldParent newParent : ref).
Hypothesis WF0 : wellFormed fs0.
Hypothesis Hvo : List.forallb validName (so' ++ [ko]) = true.
Hypothesis Hvn : List.forallb validName (sn' ++ [kn]) = true.
Hypothesis Hapart : apart (so' ++ [ko]) (sn' ++ [kn]).
Hypothesis Hsrc : stored fs0 (pathOf (so' ++ [ko])) src.
Hypothesis HoldParent : stored fs0 (pathOf so') oldParent.
Hypothesis HnewParent : stored fs0 (pathOf sn') newParent.
Hypothesis HnewDir : isDirectory fs0 newParent = true.
Hypothesis Hnone : Map_.get (files fs0) (pathOf (sn' ++ [kn])) = None.
Variables fsA fsB fsC fsD fsE fs1 : VirtualFileSystem.
Hypothesis EA : fsA = childrenDelete fs0 oldParent ko.
Hypothesis EB : fsB = update fsA src (fun n => FileNode.setName n kn).
Hypothesis EC : fsC = update fsB src (fun n => FileNode.setPath n (pathOf (sn' ++ [kn]))).
Hypothesis ED : fsD = childrenSet fsC newParent kn src.
Hypothesis EE : fsE = setFiles fsD (Map_.delete (files fsD) (pathOf (so' ++ [ko]))).
Hypothesis E1 : fs1 = setFiles fsE (Map_.set (files fsE) (pathOf (sn' ++ [kn])) src).

Lemma move_facts :
    (forall x a, stored fs1 x a <->
       (x = pathOf (sn' ++ [kn]) /\ a = src)
       \/ (x <> pathOf (so' ++ [ko]) /\ stored fs0 x a))
    /\ (forall b, FileNode.type (deref fs1 b) = FileNode.type (deref fs0 b)
                 /\ FileNode.content (deref fs1 b) = FileNode.content (deref fs0 b))
    /\ (forall b, b <> src ->
          FileNode.name (deref fs1 b) = FileNode.name (deref fs0 b)
          /\ FileNode.path (deref fs1 b) = FileNode.path (deref fs0 b))
    /\ FileNode.name (deref fs1 src) = kn
    /\ FileNode.path (deref fs1 src) = pathOf (sn' ++ [kn])
    /\ (forall b, childrenOf fs1 b =
          if decide (newParent = b)
          then Map_.set (if decide (oldParent = newParent)
                         then Map_.delete (childrenOf fs0 oldParent) ko
                         else childrenOf fs0 newParent) kn src
          else if decide (oldParent = b)
               then Map_.delete (childrenOf fs0 oldParent) ko
               else childrenOf fs0 b)
    /\ (forall b, b <> newParent -> b <> oldParent ->
          FileNode.children (deref fs1 b) = FileNode.children (deref fs0 b))
    /\ (forall b, b = newParent \/ b = oldParent ->
          FileNode.children (deref fs1 b) = Some (childrenOf fs1 b))
    /\ (forall b, is_Some (heap fs1 !! b) <-> is_Some (heap fs0 !! b))
    /\ src <> oldParent /\ src <> newParent.
  Proof.
    destruct WF0 as [G C].
    set (Po := pathOf (so' ++ [ko])) in *. set (Pn := pathOf (sn' ++ [kn])) in *.
    assert (Hso : src <> oldParent).
    { intros E. subst oldParent. pose proof (stored_inj _ _ _ _ G Hsrc HoldParent) as E.
      unfold Po in E. apply pathOf_inj in E; [|exact Hvo | apply valid_snoc in Hvo; tauto].
      apply (f_equal (@List.length string)) in E. rewrite length_app in E. simpl in E. lia. }
    assert (Hsn : src <> newParent).
    { intros E. subst newParent. pose proof (stored_inj _ _ _ _ G Hsrc HnewParent) as E.
      unfold Po in E. apply pathOf_inj in E; [|exact Hvo | apply valid_snoc in Hvo; apply valid_snoc in Hvn; tauto].
      apply (Hapart [kn] []). rewrite E, app_nil_r. reflexivity. }
    assert (HdA : forall b, deref fsA b =
              if decide (oldParent = b)
              then FileNode.setChildren (deref fs0 oldParent) (Map_.delete (childrenOf fs0 oldParent) ko)
              else deref fs0 b).
    { intros b. subst fsA. unfold childrenDelete. apply deref_update. }
    assert (HdC : forall b, deref fsC b =
              if decide (src = b)
              then FileNode.setPath (FileNode.setName (deref fs0 src) kn) Pn
              else deref fsA b).
    { intros b. subst fsC fsB. rewrite !deref_update.
      destruct (decide (src = b)) as [<-|]; [|reflexivity].
      destruct (decide (src = src)); [|congruence].
      rewrite HdA. destruct (decide (oldParent = src)); [congruence | reflexivity]. }
    assert (HcC : forall b, childrenOf fsC b =
              if decide (oldParent = b) then Map_.delete (childrenOf fs0 oldParent) ko
              else childrenOf fs0 b).
    { intros b. unfold childrenOf at 1. rewrite HdC.
      destruct (decide (src = b)) as [<-|].
      - simpl. destruct (decide (oldParent = src)); [congruence | reflexivity].
      - rewrite HdA. destruct (decide (oldParent = b)); reflexivity. }
    assert (Hd1 : forall b, deref fs1 b =
              if decide (newParent = b)
              then FileNode.setChildren (deref fsC newParent)
                     (Map_.set (childrenOf fsC newParent) kn src)
              else deref fsC b).
    { intros b. subst fs1 fsE fsD. rewrite !deref_setFiles. unfold childrenSet.
      apply deref_update. }
    assert (Hf1 : files fs1 = Map_.set (Map_.delete (files fs0) Po) Pn src).
    { subst fs1 fsE fsD fsC fsB fsA. reflexivity. }
    assert (Hch : forall b, childrenOf fs1 b =
              if decide (newParent = b)
              then Map_.set (if decide (oldParent = newParent)
                             then Map_.delete (childrenOf fs0 oldParent) ko
                             else childrenOf fs0 newParent) kn src
              else if decide (oldParent = b)
                   then Map_.delete (childrenOf fs0 oldParent) ko
                   else childrenOf fs0 b).
    { intros b. unfold childrenOf at 1. rewrite Hd1.
      destruct (decide (newParent = b)) as [<-|].
      - simpl. rewrite HcC. reflexivity.
      - fold (childrenOf fsC b). apply HcC. }
    split; [|split; [|split; [|split; [|split; [|split; [|split; [|split; [|split]]]]]]]].
    - intros x a. unfold stored. rewrite Hf1, get_set.
      destruct (String.eqb Pn x) eqn:E.
      + apply String.eqb_eq in E. subst x. split.
        * intros H. injection H as <-. auto.
        * intros [[_ ->]|[_ H]]; [reflexivity | congruence].
      + apply String.eqb_neq in E. rewrite get_delete by apply (g_files _ G).
        destruct (String.eqb Po x) eqn:E2.
        * apply String.eqb_eq in E2. subst x. split; [discriminate|].
          intros [[H _]|[H _]]; congruence.
        * apply String.eqb_neq in E2. split.
          -- intros H. right. split; congruence.
          -- intros [[H _]|[_ H]]; [congruence | exact H].
    - intros b. rewrite Hd1. destruct (decide (newParent = b)) as [<-|].
      + simpl. rewrite HdC. destruct (decide (src = newParent)); [congruence|].
        rewrite HdA. destruct (decide (oldParent = newParent)) as [->|]; auto.
      + rewrite HdC. destruct (decide (src = b)) as [<-|]; [auto|].
        rewrite HdA. destruct (decide (oldParent = b)) as [<-|]; auto.
    - intros b Hb. rewrite Hd1. destruct (decide (newParent = b)) as [<-|].
      + simpl. rewrite HdC. destruct (decide (src = newParent)); [congruence|].
        rewrite HdA. destruct (decide (oldParent = newParent)) as [->|]; auto.
      + rewrite HdC. destruct (decide (src = b)) as [<-|]; [congruence|].
        rewrite HdA. destruct (decide (oldParent = b)) as [<-|]; auto.
    - rewrite Hd1. destruct (decide (newParent = src)); [congruence|].
      rewrite HdC. destruct (decide (src = src)); [reflexivity | congruence].
    - rewrite Hd1. destruct (decide (newParent = src)); [congruence|].
      rewrite HdC. destruct (decide (src = src)); [reflexivity | congruence].
    - exact Hch.
    - intros b H1 H2. rewrite Hd1. destruct (decide (newParent = b)); [congruence|].
      rewrite HdC. destruct (decide (src = b)) as [<-|]; [reflexivity|].
      rewrite HdA. destruct (decide (oldParent = b)); [congruence | reflexivity].
    - intros b Hb. unfold childrenOf. rewrite Hd1.
      destruct (decide (newParent = b)) as [<-|Hnb]; [reflexivity|].
      destruct Hb as [-> | ->]; [congruence|].
      rewrite HdC. destruct (decide (src = oldParent)); [congruence|].
      rewrite HdA. destruct (decide (oldParent = oldParent)); [reflexivity | congruence].
    - assert (Hao : is_Some (heap fs0 !! oldParent)) by apply (c_node _ _ C _ _ HoldParent).
      assert (Has : is_Some (heap fs0 !! src)) by apply (c_node _ _ C _ _ Hsrc).
      assert (Han : is_Some (heap fs0 !! newParent)) by apply (c_node _ _ C _ _ HnewParent).
      intros b. subst fs1 fsE fsD fsC fsB fsA. unfold childrenSet, childrenDelete. simpl heap.
      destruct (decide (newParent = b)) as [<-|N1]; [rewrite lookup_insert_eq; split; eauto|].
      rewrite lookup_insert_ne by exact N1.
      destruct (decide (src = b)) as [<-|N2]; [rewrite lookup_insert_eq; split; eauto|].
      rewrite lookup_insert_ne by exact N2. rewrite lookup_insert_ne by exact N2.
      destruct (decide (oldParent = b)) as [<-|N3]; [rewrite lookup_insert_eq; split; eauto|].
      rewrite lookup_insert_ne by exact N3. reflexivity.
    - auto.
  Qed.

Lemma move_spec :
    grounded fs1
    /\ coherent (movedFrom (so' ++ [ko]) (sn' ++ [kn]) fs0) fs1
    /\ (forall q a, movedTable (so' ++ [ko]) (sn' ++ [kn]) fs1 q a
                    <-> movedFrom (so' ++ [ko]) (sn' ++ [kn]) fs0 q a).
  Proof.
    destruct move_facts as (Hst & Htc & Hnp & Hname & Hpath & Hch & Hkeep & Hkids & Halloc & Hso & Hsn).
    pose proof WF0 as [G C].
    set (so := so' ++ [ko]) in *. set (sn := sn' ++ [kn]) in *.
    set (Po := pathOf so) in *. set (Pn := pathOf sn) in *.
    apply valid_snoc in Hvo as Hvo'. destruct Hvo' as [Hvso' Hko].
    apply valid_snoc in Hvn as Hvn'. destruct Hvn' as [Hvsn' Hkn].
    assert (Hdir : forall b, isDirectory fs1 b = isDirectory fs0 b).
    { intros b. unfold isDirectory. destruct (Htc b) as [-> _]. reflexivity. }
    assert (HPo_ne : Po <> "/") by (apply pathOf_snoc_not_root, Hvo).
    assert (HoldDir : isDirectory fs0 oldParent = true).
    { destruct (c_up _ _ C _ _ Hsrc HPo_ne) as (pa & Hpa & Hd & _).
      unfold Po, so in Hpa. rewrite getParentPath_snoc in Hpa by exact Hvo.
      rewrite <- (c_fun _ _ C _ _ _ Hpa HoldParent). exact Hd. }
    assert (Hnu_so' : ~ under so (pathOf so')) by (apply not_under_snoc_self, Hvo).
    assert (Hnu_sn' : ~ under so (pathOf sn')).
    { intros (t & Ht & E). apply pathOf_inj in E; [|exact Hvsn' | apply valid_app; auto].
      apply (Hapart (t ++ [kn]) []). rewrite app_nil_r, app_assoc, <- E. reflexivity. }
    assert (Hunder_inj : forall t b, List.forallb validName t = true ->
              stored fs0 (pathOf (so ++ t)) b -> b <> oldParent /\ b <> newParent).
    { intros t b Ht Hb. split; intros ->.
      - apply Hnu_so'. rewrite (stored_inj _ _ _ _ G HoldParent Hb). exists t. auto.
      - apply Hnu_sn'. rewrite (stored_inj _ _ _ _ G HnewParent Hb). exists t. auto. }
    assert (Hpn_none : forall t b, List.forallb validName t = true ->
              ~ stored fs0 (pathOf (sn ++ t)) b).
    { intros t b Ht Hb. destruct (coherent_ancestor _ _ sn t b C) as [x Hx];
        [apply valid_app; auto | exact Hb |].
      unfold stored in Hx. fold Pn in Hx. congruence. }
    assert (Hwf0 : forall q b, stored fs0 q b -> Map_.wf (childrenOf fs0 b)).
    { intros q b Hb. eapply childrenOf_wf; eassumption. }
    assert (Hwf1 : forall q b, stored fs0 q b -> Map_.wf (childrenOf fs1 b)).
    { intros q b Hb. rewrite Hch. destruct (decide (newParent = b)).
      - apply wf_set. destruct (decide (oldParent = newParent)).
        + apply wf_delete. eapply Hwf0, HoldParent.
        + eapply Hwf0, HnewParent.
      - destruct (decide (oldParent = b)).
        + apply wf_delete. eapply Hwf0, HoldParent.
        + eapply Hwf0, Hb. }
    assert (Hsubtree_ch : forall t b, List.forallb validName t = true ->
              stored fs0 (pathOf (so ++ t)) b -> childrenOf fs1 b = childrenOf fs0 b).
    { intros t b Ht Hb. destruct (Hunder_inj t b Ht Hb) as [N1 N2]. rewrite Hch.
      destruct (decide (newParent = b)); [congruence|].
      destruct (decide (oldParent = b)); [congruence | reflexivity]. }
    assert (Hsrc_only : forall q b, stored fs0 q b -> ~ under so q -> b <> src).
    { intros q b Hb Hnu ->. apply Hnu. rewrite (stored_inj _ _ _ _ G Hb Hsrc). apply under_refl. }
    split; [|split].
    - (* the store *)
      split.
      + intros b Hb. apply Halloc in Hb. subst fs1 fsE fsD fsC fsB fsA.
        apply (g_fresh _ G), Hb.
      + subst fs1 fsE fsD fsC fsB fsA. simpl files. apply wf_set, wf_delete, (g_files _ G).
      + intros x a Hx. apply Hst in Hx as [[-> ->]|[Hne Hx]]; [exact Hpath|].
        assert (a <> src).
        { intros ->. apply Hne. apply (stored_inj _ _ _ _ G Hx Hsrc). }
        destruct (Hnp a H) as [_ ->]. apply (g_path _ G _ _ Hx).
    - (* the tree *)
      split.
      + left. replace (root fs1) with (root fs0) by (subst fs1 fsE fsD fsC fsB fsA; reflexivity).
        split; [apply (c_root _ _ C) | apply not_under_root, Hvo].
      + replace (root fs1) with (root fs0) by (subst fs1 fsE fsD fsC fsB fsA; reflexivity).
        rewrite Hdir. apply (c_root_dir _ _ C).
      + intros q a a' [[H Hnu]|(t & Ht & -> & H)] [[H' Hnu']|(t' & Ht' & E' & H')].
        * apply (c_fun _ _ C q); assumption.
        * exfalso. subst q. apply (Hpn_none t' a Ht' H).
        * exfalso. apply (Hpn_none t a' Ht H').
        * apply pathOf_inj in E'; try (apply valid_app; auto).
          apply app_inv_head in E'. subst t'. apply (c_fun _ _ C _ _ _ H H').
      + intros q a Hq.
        assert (Hq0 : exists q0, stored fs0 q0 a /\ cleanSegs q).
        { destruct Hq as [[H _]|(t & Ht & -> & H)].
          - exists q. split; [exact H | apply (c_node _ _ C _ _ H)].
          - exists (pathOf (so ++ t)). split; [exact H|]. exists (sn ++ t).
            split; [apply valid_app; auto | reflexivity]. }
        destruct Hq0 as (q0 & Hq0 & Hclean).
        destruct (c_node _ _ C _ _ Hq0) as (Ha & _ & Hkind).
        split; [apply Halloc, Ha|]. split; [exact Hclean|].
        unfold kindOK in *. destruct (Htc a) as [-> _].
        destruct (FileNode.type (deref fs0 a)) eqn:Ety.
        * rewrite Hkeep; [exact Hkind| |].
          -- intros ->. apply isDirectory_type in HnewDir. congruence.
          -- intros ->. apply isDirectory_type in HoldDir. congruence.
        * destruct (decide (a = newParent)) as [->|N1].
          { exists (childrenOf fs1 newParent). split; [apply Hkids; auto | eapply Hwf1, Hq0]. }
          destruct (decide (a = oldParent)) as [->|N2].
          { exists (childrenOf fs1 oldParent). split; [apply Hkids; auto | eapply Hwf1, Hq0]. }
          rewrite Hkeep by assumption. exact Hkind.
      + intros q a Hq Hne. destruct Hq as [[H Hnu]|(t & Ht & -> & H)].
        * destruct (c_up _ _ C q a H Hne) as (pa & Hpa & Hpd & Hget & Hnm).
          destruct (c_node _ _ C _ _ H) as (_ & Hclean & _).
          destruct (cleanSegs_split _ Hclean Hne) as (sq & k & Hsq & Hk & -> & Hq1 & Hq2 & Hq3).
          assert (Hvq : List.forallb validName (sq ++ [k]) = true) by (apply valid_snoc; auto).
          rewrite Hq1 in *. rewrite Hq2 in *.
          assert (Hnup : ~ under so (pathOf sq)).
          { intros Hu. apply Hnu. apply under_parent; assumption. }
          exists pa. split; [left; auto|]. split; [rewrite Hdir; exact Hpd|]. split.
          -- rewrite Hch. destruct (decide (newParent = pa)) as [<-|N1].
             ++ pose proof (stored_inj _ _ _ _ G Hpa HnewParent) as E.
                apply pathOf_inj in E; [|exact Hsq | exact Hvsn']. subst sq.
                rewrite get_set_ne.
                ** destruct (decide (oldParent = newParent)) as [->|]; [|exact Hget].
                   rewrite get_delete_ne; [exact Hget|]. intros <-.
                   pose proof (stored_inj _ _ _ _ G HoldParent HnewParent) as E.
                   apply pathOf_inj in E; [|exact Hvso' | exact Hvsn']. subst sn'.
                   apply Hnu, under_refl.
                ** intros <-. unfold stored in H. fold sn in H. fold Pn in H. congruence.
             ++ destruct (decide (oldParent = pa)) as [<-|N2]; [|exact Hget].
                rewrite get_delete_ne; [exact Hget|]. intros <-.
                pose proof (stored_inj _ _ _ _ G Hpa HoldParent) as E.
                apply pathOf_inj in E; [|exact Hsq | exact Hvso']. subst sq.
                apply Hnu, under_refl.
          -- destruct (Hnp a (Hsrc_only _ _ H Hnu)) as [-> _]. exact Hnm.
        * destruct t as [|k t _] using rev_ind.
          -- rewrite app_nil_r in *. fold Po in H.
             pose proof (c_fun _ _ C _ _ _ H Hsrc) as ->.
             unfold sn. rewrite getParentPath_snoc, getFileName_snoc by exact Hvn.
             exists newParent. split; [left; auto|]. split; [rewrite Hdir; exact HnewDir|].
             split; [|exact Hname]. rewrite Hch.
             destruct (decide (newParent = newParent)); [|congruence]. apply get_set_eq.
          -- apply valid_snoc in Ht as Ht'. destruct Ht' as [Hvt Hk].
             assert (Hv1 : List.forallb validName ((so ++ t) ++ [k]) = true)
               by (apply valid_snoc; split; [apply valid_app; auto | exact Hk]).
             assert (Hv2 : List.forallb validName ((sn ++ t) ++ [k]) = true)
               by (apply valid_snoc; split; [apply valid_app; auto | exact Hk]).
             rewrite app_assoc in H. rewrite app_assoc.
             rewrite getParentPath_snoc, getFileName_snoc by exact Hv2.
             destruct (c_up _ _ C _ _ H (pathOf_snoc_not_root _ _ Hv1))
               as (pa & Hpa & Hpd & Hget & Hnm).
             rewrite getParentPath_snoc in Hpa by exact Hv1.
             rewrite getFileName_snoc in Hget, Hnm by exact Hv1.
             exists pa. split; [right; exists t; auto|]. split; [rewrite Hdir; exact Hpd|].
             split; [rewrite (Hsubtree_ch t pa Hvt Hpa); exact Hget|].
             assert (a <> src).
             { intros ->. pose proof (stored_inj _ _ _ _ G H Hsrc) as E.
               apply pathOf_inj in E; [|exact Hv1 | exact Hvo].
               apply (f_equal (@List.length string)) in E. rewrite !length_app in E.
               simpl in E. lia. }
             destruct (Hnp a H0) as [-> _]. exact Hnm.
      + intros q pa k c Hq Hget. destruct Hq as [[H Hnu]|(t & Ht & -> & H)].
        * destruct (c_node _ _ C _ _ H) as (_ & (sq & Hsq & ->) & _).
          rewrite Hch in Hget.
          assert (Hold : forall m, Map_.get m k = Some c ->
                    m = (if decide (oldParent = pa)
                         then Map_.delete (childrenOf fs0 oldParent) ko
                         else childrenOf fs0 pa) ->
                    movedFrom so sn fs0 (joinPath (pathOf sq) k) c /\ validName k = true).
          { intros m Hm ->. destruct (decide (oldParent = pa)) as [<-|N2].
            - rewrite get_delete in Hm by (eapply Hwf0, HoldParent).
              destruct (String.eqb ko k) eqn:Ek; [discriminate|]. apply String.eqb_neq in Ek.
              destruct (c_down _ _ C _ _ _ _ H Hm) as [Hc Hk]. split; [|exact Hk].
              left. split; [exact Hc|]. rewrite joinPath_pathOf by exact Hsq.
              pose proof (stored_inj _ _ _ _ G H HoldParent) as E.
              apply pathOf_inj in E; [|exact Hsq | exact Hvso']. subst sq.
              intros Hu. apply under_snoc_inv in Hu; [|exact Hvo | apply valid_snoc; auto].
              destruct Hu as [E|Hu]; [|exact (Hnu Hu)].
              apply app_inj_tail in E as [_ E]. congruence.
            - destruct (c_down _ _ C _ _ _ _ H Hm) as [Hc Hk]. split; [|exact Hk].
              left. split; [exact Hc|]. rewrite joinPath_pathOf by exact Hsq.
              intros Hu. apply under_snoc_inv in Hu; [|exact Hvo | apply valid_snoc; auto].
              destruct Hu as [E|Hu]; [|exact (Hnu Hu)].
              apply app_inj_tail in E as [-> _]. apply N2.
              apply (c_fun _ _ C _ _ _ HoldParent H). }
          destruct (decide (newParent = pa)) as [<-|N1].
          -- rewrite get_set in Hget. destruct (String.eqb kn k) eqn:Ek.
             ++ apply String.eqb_eq in Ek. subst k. injection Hget as <-.
                split; [|exact Hkn]. right. exists []. split; [reflexivity|].
                rewrite !app_nil_r. split; [|exact Hsrc].
                pose proof (stored_inj _ _ _ _ G H HnewParent) as E. rewrite E.
                apply joinPath_pathOf, Hvsn'.
             ++ apply (Hold _ Hget).
                destruct (decide (oldParent = newParent)) as [->|]; reflexivity.
          -- apply (Hold _ Hget). reflexivity.
        * rewrite (Hsubtree_ch t pa Ht H) in Hget.
          destruct (c_down _ _ C _ _ _ _ H Hget) as [Hc Hk]. split; [|exact Hk].
          rewrite joinPath_pathOf in Hc by (apply valid_app; auto).
          rewrite joinPath_pathOf by (apply valid_app; auto).
          right. exists (t ++ [k]). split; [apply valid_snoc; auto|].
          rewrite !app_assoc. auto.
    - (* the table read through the move *)
      intros q a. split.
      + intros [[Hq Hnb]|(t & Ht & Hne & -> & Hq)].
        * apply Hst in Hq as [[-> ->]|[Hne Hq]].
          -- right. exists []. rewrite !app_nil_r. auto.
          -- left. split; [exact Hq|]. intros Hu.
             destruct (under_cases _ _ Hvo Hu) as [E|Hb]; [exact (Hne E) | exact (Hnb Hb)].
        * apply Hst in Hq as [[E _]|[_ Hq]].
          -- exfalso. apply pathOf_inj in E; [|apply valid_app; auto | exact Hvn].
             apply (Hapart t []). rewrite app_nil_r. exact E.
          -- right. exists t. auto.
      + intros [[Hq Hnu]|(t & Ht & -> & Hq)].
        * left. split.
          -- apply Hst. right. split; [|exact Hq]. intros ->. apply Hnu, under_refl.
          -- intros Hb. apply Hnu, below_under, Hb.
        * destruct t as [|k t].
          -- rewrite app_nil_r in *. fold Po in Hq. rewrite (c_fun _ _ C _ _ _ Hq Hsrc).
             left. split; [apply Hst; left; auto|].
             intros (t & Ht' & _ & E). apply pathOf_inj in E; [|exact Hvn | apply valid_app; auto].
             apply (Hapart t []). rewrite app_nil_r. symmetry. exact E.
          -- right. exists (k :: t). split; [exact Ht|]. split; [discriminate|].
             split; [reflexivity|]. apply Hst. right. split; [|exact Hq].
             intros E. apply pathOf_inj in E; [|apply valid_app; auto | exact Hvo].
             apply (f_equal (@List.length string)) in E. rewrite length_app in E.
             simpl in E. lia.
  Qed.
End Move.


(** ** Paths below a path, as texts *)

Lemma name_prefix : forall a b X Y,
  noSlash a = true -> noSlash b = true ->
  (X = EmptyString \/ exists X', X = String slash X') ->
  String.prefix (String.append a (String slash Y)) (String.append b X) = true ->
  a = b /\ String.prefix (String slash Y) X = true.
Proof.
  induction a as [|c a IH]; intros b X Y Ha Hb HX H.
  - destruct b as [|d b]; [split; [reflexivity | exact H]|].
    exfalso. change (String.append EmptyString (String slash Y)) with (String slash Y) in H.
    change (String.append (String d b) X) with (String d (String.append b X)) in H.
    rewrite prefix_cons in H. apply andb_true_iff in H as [H _].
    apply Ascii.eqb_eq in H. subst d. simpl in Hb. try rewrite Ascii.eqb_refl in Hb. discriminate.
  - change (String.append (String c a) (String slash Y))
      with (String c (String.append a (String slash Y))) in H.
    simpl in Ha. apply andb_true_iff in Ha as [Hc Ha]. apply negb_true_iff in Hc.
    destruct b as [|d b].
    + exfalso. change (String.append EmptyString X) with X in H.
      destruct HX as [->|[X' ->]]; [simpl in H; discriminate|].
      rewrite prefix_cons in H. apply andb_true_iff in H as [H _]. congruence.
    + change (String.append (String d b) X) with (String d (String.append b X)) in H.
      rewrite prefix_cons in H. apply andb_true_iff in H as [Hcd H].
      apply Ascii.eqb_eq in Hcd. subst d.
      simpl in Hb. apply andb_true_iff in Hb as [_ Hb].
      destruct (IH b X Y Ha Hb HX H) as [-> HP]. auto.
Qed.

Lemma rawPath_shape s : rawPath s = EmptyString \/ exists X, rawPath s = String slash X.
Proof. destruct s; simpl; eauto. Qed.

Lemma rawPath_prefix_inv : forall so sq,
  List.forallb validName so = true -> List.forallb validName sq = true ->
  String.prefix (String.append (rawPath so) "/") (rawPath sq) = true ->
  exists t, t <> [] /\ sq = so ++ t.
Proof.
  induction so as [|a so IH]; intros sq Hso Hsq H.
  - destruct sq as [|b sq]; [simpl in H; discriminate|]. exists (b :: sq). split; [discriminate | reflexivity].
  - destruct sq as [|b sq]; [simpl in H; discriminate|].
    simpl in Hso, Hsq. apply andb_true_iff in Hso as [Ha Hso]. apply andb_true_iff in Hsq as [Hb Hsq].
    change (String.append (rawPath (a :: so)) "/")
      with (String slash (String.append (String.append a (rawPath so)) "/")) in H.
    change (rawPath (b :: sq)) with (String slash (String.append b (rawPath sq))) in H.
    rewrite prefix_cons in H. apply andb_true_iff in H as [_ H].
    rewrite app_assoc_s in H.
    assert (HY : exists Y, String.append (rawPath so) "/" = String slash Y).
    { destruct so; simpl; eauto. }
    destruct HY as [Y HY]. rewrite HY in H.
    destruct (name_prefix a b (rawPath sq) Y (validName_noSlash _ Ha) (validName_noSlash _ Hb)
                (rawPath_shape sq) H) as [-> HP].
    rewrite <- HY in HP. destruct (IH sq Hso Hsq HP) as (t & Hne & ->).
    exists t. auto.
Qed.

Lemma startsWith_below so q :
  List.forallb validName so = true -> so <> [] -> cleanSegs q ->
  (JS.startsWith q (JS.cat (pathOf so) "/") = true <-> below so q).
Proof.
  intros Hso Hne (sq & Hsq & ->). unfold JS.startsWith, JS.cat.
  assert (Epo : pathOf so = rawPath so) by (destruct so; [congruence | reflexivity]).
  rewrite Epo. split.
  - intros H. destruct sq as [|b sq].
    + exfalso. destruct so as [|a so]; [congruence|].
      simpl in Hso. apply andb_true_iff in Hso as [Ha _].
      destruct (validName_inv _ Ha) as (c & a' & -> & _). simpl in H.
      destruct (ascii_dec "/" "/"); discriminate.
    + change (pathOf (b :: sq)) with (rawPath (b :: sq)) in H.
      destruct (rawPath_prefix_inv so (b :: sq) Hso Hsq H) as (t & Ht & E).
      exists t. rewrite E in *. apply valid_app in Hsq as [_ Hvt]. auto.
  - intros (t & Ht & Htne & E). apply pathOf_inj in E; [|exact Hsq | apply valid_app; auto].
    subst sq. destruct t as [|k t]; [congruence|].
    assert (Ep : pathOf (so ++ k :: t) = rawPath (so ++ k :: t))
      by (destruct so; [congruence | reflexivity]).
    rewrite Ep, rawPath_app.
    change (rawPath (k :: t)) with (String.append "/" (String.append k (rawPath t))).
    rewrite <- app_assoc_s. apply prefix_app.
Qed.

(** ** [rename] *)

Lemma rename_eq fuel fs oldPath newPath :
  rename fuel fs oldPath newPath =
  let normalizedOld := normalizePath oldPath in
  let normalizedNew := normalizePath newPath in
  if String.eqb normalizedOld "/" || String.eqb normalizedNew "/" then Some (false, fs)
  else
    match Map_.get (files fs) normalizedOld with
    | None => Some (false, fs)
    | Some sourceNode =>
        if Map_.has (files fs) normalizedNew then Some (false, fs)
        else
          match getParentNode fs normalizedOld with
          | None => Some (false, fs)
          | Some oldParent =>
              if negb (isDirectory fs oldParent) then Some (false, fs)
              else
                match getParentNode (ancestorsFor fs normalizedNew) normalizedNew with
                | None => Some (false, ancestorsFor fs normalizedNew)
                | Some newParent =>
                    if negb (isDirectory (ancestorsFor fs normalizedNew) newParent)
                    then Some (false, ancestorsFor fs normalizedNew)
                    else renameTail fuel
                           (moveNode (ancestorsFor fs normalizedNew) oldParent sourceNode
                              newParent normalizedOld normalizedNew)
                           sourceNode
                end
          end
    end.
Proof. reflexivity. Qed.

Lemma ancestorsFor_spec fs sn' kn :
  wellFormed fs -> List.forallb validName (sn' ++ [kn]) = true ->
  wellFormed (ancestorsFor fs (pathOf (sn' ++ [kn])))
  /\ grows (fun q => exists i, 1 <= i <= List.length sn' /\ q = pathOf (List.firstn i sn'))
       fs (ancestorsFor fs (pathOf (sn' ++ [kn])))
  /\ ((forall i a, i <= List.length sn' ->
         stored fs (pathOf (List.firstn i sn')) a -> isDirectory fs a = true) ->
      exists a, stored (ancestorsFor fs (pathOf (sn' ++ [kn]))) (pathOf sn') a
                /\ isDirectory (ancestorsFor fs (pathOf (sn' ++ [kn]))) a = true).
Proof.
  intros WF Hv. apply valid_snoc in Hv as Hv'. destruct Hv' as [Hvs Hk].
  unfold ancestorsFor. rewrite getParentPath_snoc by exact Hv.
  unfold exists_. rewrite normalizePath_pathOf by exact Hvs.
  destruct (Map_.has (files fs) (pathOf sn')) eqn:Hhas; simpl negb; cbv iota.
  - split; [exact WF|]. split; [apply grows_refl|]. intros Hd.
    apply has_stored in Hhas as [a Ha]. exists a. split; [exact Ha|].
    apply (Hd (List.length sn') a); [lia|]. rewrite firstn_all. exact Ha.
  - rewrite parts_pathOf by exact Hvs.
    destruct (createAncestors_spec sn' fs [] WF Hvs) as (W1 & G1 & S1).
    change (rawPath []) with EmptyString in *. simpl app in *.
    split; [exact W1|]. split; [exact G1|]. intros Hd. apply S1; [|exact Hd].
    exists (root fs). destruct WF as [_ C]. apply (c_root _ _ C).
Qed.

Lemma settled so sn fs :
  List.forallb validName so = true -> List.forallb validName sn = true ->
  apart so sn ->
  grounded fs -> coherent (movedTable so sn fs) fs ->
  (forall q a, movedTable so sn fs q a -> stored fs q a) ->
  wellFormed fs /\ (forall q a, stored fs q a <-> movedTable so sn fs q a).
Proof.
  intros Hso Hsn Hapart G C Hall.
  assert (Heq : forall q a, stored fs q a <-> movedTable so sn fs q a).
  { intros q a. split; [|apply Hall]. intros Hq. left. split; [exact Hq|].
    intros (t & Ht & Hne & ->).
    assert (Hm : movedTable so sn fs (pathOf (sn ++ t)) a) by (right; exists t; auto).
    apply Hall in Hm. pose proof (stored_inj _ _ _ _ G Hq Hm) as E.
    apply pathOf_inj in E; try (apply valid_app; auto). apply (Hapart t t E). }
  split; [|exact Heq]. split; [exact G|].
  apply (coherent_ext (movedTable so sn fs) _ fs fs Heq eq_refl); [|exact C].
  intros q a Hq. split; [apply (c_node _ _ C _ _ Hq) | auto].
Qed.

Lemma length_rawPath_app a b :
  String.length (rawPath (a ++ b)) = String.length (rawPath a) + String.length (rawPath b).
Proof. rewrite rawPath_app. apply app_length_s. Qed.

Lemma fitsMoved_exists so sn fs :
  sn <> [] -> so <> [] -> exists D W, fitsMoved D W so sn fs.
Proof.
  intros Hsn Hso. destruct (fits_exists fs) as (D & W & Hfit).
  exists (D + String.length (rawPath sn)), W. intros q a [[Hq _]|(t & Ht & Hne & -> & Hq)].
  - destruct (Hfit q a Hq). split; [lia | assumption].
  - destruct (Hfit _ a Hq) as [HD HW]. split; [|exact HW].
    assert (E1 : pathOf (sn ++ t) = rawPath (sn ++ t)) by (destruct sn; [congruence | reflexivity]).
    assert (E2 : pathOf (so ++ t) = rawPath (so ++ t)) by (destruct so; [congruence | reflexivity]).
    rewrite E1. rewrite E2 in HD. rewrite length_rawPath_app in *. lia.
Qed.

Lemma renameTail_spec fs0 so' ko sn' kn src oldParent newParent :
  wellFormed fs0 ->
  List.forallb validName (so' ++ [ko]) = true ->
  List.forallb validName (sn' ++ [kn]) = true ->
  apart (so' ++ [ko]) (sn' ++ [kn]) ->
  stored fs0 (pathOf (so' ++ [ko])) src ->
  stored fs0 (pathOf so') oldParent ->
  stored fs0 (pathOf sn') newParent ->
  isDirectory fs0 newParent = true ->
  Map_.get (files fs0) (pathOf (sn' ++ [kn])) = None ->
  exists fs' fuel0,
    (forall fuel, fuel0 <= fuel ->
       renameTail fuel
         (moveNode fs0 oldParent src newParent (pathOf (so' ++ [ko])) (pathOf (sn' ++ [kn])))
         src = Some (true, fs'))
    /\ wellFormed fs'
    /\ (forall q a, stored fs' q a <-> movedFrom (so' ++ [ko]) (sn' ++ [kn]) fs0 q a)
    /\ (forall b, FileNode.type (deref fs' b) = FileNode.type (deref fs0 b)
                  /\ FileNode.content (deref fs' b) = FileNode.content (deref fs0 b)).
Proof.
  intros WF0 Hvo Hvn Hapart Hsrc HoldParent HnewParent HnewDir Hnone.
  pose proof WF0 as [G0 C0].
  assert (Hname0 : FileNode.name (deref fs0 src) = ko).
  { destruct (c_up _ _ C0 _ _ Hsrc (pathOf_snoc_not_root _ _ Hvo)) as (_ & _ & _ & _ & Hn).
    rewrite Hn. apply getFileName_snoc, Hvo. }
  unfold moveNode. rewrite Hname0, (getFileName_snoc _ _ Hvn). cbv zeta.
  set (fsA := childrenDelete fs0 oldParent ko).
  set (fsB := update fsA src (fun n => FileNode.setName n kn)).
  set (fsC := update fsB src (fun n => FileNode.setPath n (pathOf (sn' ++ [kn])))).
  set (fsD := childrenSet fsC newParent kn src).
  set (fsE := setFiles fsD (Map_.delete (files fsD) (pathOf (so' ++ [ko])))).
  set (fs1 := setFiles fsE (Map_.set (files fsE) (pathOf (sn' ++ [kn])) src)).
  destruct (move_facts fs0 so' sn' ko kn src oldParent newParent WF0 Hvo Hvn Hapart Hsrc
              HoldParent HnewParent HnewDir Hnone fsA fsB fsC fsD fsE fs1
              eq_refl eq_refl eq_refl eq_refl eq_refl eq_refl)
    as (Hst & Htc & _ & _ & _ & _ & _ & _ & _ & _ & _).
  destruct (move_spec fs0 so' sn' ko kn src oldParent newParent WF0 Hvo Hvn Hapart Hsrc
              HoldParent HnewParent HnewDir Hnone fsA fsB fsC fsD fsE fs1
              eq_refl eq_refl eq_refl eq_refl eq_refl eq_refl)
    as (G1 & C1 & Heq1).
  set (so := so' ++ [ko]) in *. set (sn := sn' ++ [kn]) in *.
  assert (Hso_ne : so <> []) by (unfold so; destruct so'; discriminate).
  assert (Hsn_ne : sn <> []) by (unfold sn; destruct sn'; discriminate).
  assert (C1' : coherent (movedTable so sn fs1) fs1).
  { apply (coherent_ext (movedFrom so sn fs0) _ fs1 fs1 Heq1 eq_refl); [|exact C1].
    intros q a Hq. split; [apply (c_node _ _ C1 _ _ Hq) | auto]. }
  assert (Hsrc1 : stored fs1 (pathOf sn) src) by (apply Hst; left; auto).
  assert (Hdir1 : isDirectory fs1 src = isDirectory fs0 src).
  { unfold isDirectory. destruct (Htc src) as [-> _]. reflexivity. }
  unfold renameTail.
  destruct (isDirectory fs1 src) eqn:Hd.
  - (* a directory: the paths of the subtree are rewritten *)
    assert (HTsrc : movedTable so sn fs1 (pathOf sn) src).
    { left. split; [exact Hsrc1|]. intros (t & Ht & _ & E).
      apply pathOf_inj in E; [|exact Hvn | apply valid_app; auto].
      apply (Hapart t []). rewrite app_nil_r. symmetry. exact E. }
    destruct (c_node _ _ C1' _ _ HTsrc) as (_ & _ & Hkind). unfold kindOK in Hkind.
    apply isDirectory_type in Hd as Hty. rewrite Hty in Hkind.
    destruct Hkind as (m & Hm & _). rewrite Hm.
    destruct (fitsMoved_exists so sn fs1 Hsn_ne Hso_ne) as (D & W & Hfit).
    set (fuel0 := S (D - String.length (pathOf (sn ++ [])) + W)).
    assert (Hsrc1' : stored fs1 (pathOf (sn ++ [])) src) by (rewrite app_nil_r; exact Hsrc1).
    destruct (updateChildrenPaths_spec so sn D W Hvo Hvn Hsn_ne Hapart fuel0 fs1 [] src
                G1 C1' Hfit eq_refl Hsrc1' Hd ltac:(unfold fuel0; lia))
      as (fs' & Hupd & Hrel & Hfresh).
    exists fs', fuel0. split.
    { intros fuel Hle. rewrite (updateChildrenPaths_mono _ _ _ _ Hupd fuel Hle). reflexivity. }
    pose proof Hrel as (G' & Hsame & Htab & Hstay).
    destruct (settled so sn fs' Hvo Hvn Hapart G' (relabelled_coherent _ _ _ _ Hrel C1'))
      as (WF' & Heq').
    { intros q a Hq. apply Htab in Hq. destruct Hq as [[Hq Hnb]|(t & Ht & Hne & -> & Hq)].
      - apply Hstay; assumption.
      - apply Hfresh; [right; exists t; auto|]. exists t. rewrite app_nil_r. auto. }
    split; [exact WF'|]. split.
    + intros q a. rewrite Heq', Htab. apply Heq1.
    + intros b. destruct Hsame as (_ & _ & Hs). destruct (Hs b) as (_ & Ht & _ & Hc & _).
      destruct (Htc b) as [Ht0 Hc0]. split; congruence.
  - (* a file: nothing is below it *)
    exists fs1, 0. split.
    { intros fuel _. destruct (FileNode.children (deref fs1 src)); reflexivity. }
    destruct (settled so sn fs1 Hvo Hvn Hapart G1 C1') as (WF' & Heq').
    { intros q a [[Hq _]|(t & Ht & Hne & -> & Hq)]; [exact Hq|]. exfalso.
      apply Hst in Hq as [[E _]|[_ Hq]].
      - apply pathOf_inj in E; [|apply valid_app; auto | exact Hvn].
        apply (Hapart t []). rewrite app_nil_r. exact E.
      - apply (nothing_below_file _ fs0 so src (pathOf (so ++ t)) a C0 Hvo Hsrc);
          [congruence | exact Hq|].
        exists t. auto. }
    split; [exact WF'|]. split; [|exact Htc].
    intros q a. rewrite Heq'. apply Heq1.
Qed.


(** ** [rename]: the outcomes *)

Lemma rename_outcome fs oldPath newPath :
  wellFormed fs -> cleanSegs (normalizePath newPath) ->
  ~ intoOwnSubtree fs oldPath newPath ->
  (exists fs',
      wellFormed fs'
      /\ (forall fuel, rename fuel fs oldPath newPath = Some (false, fs'))
      /\ (normalizePath oldPath = "/" \/ normalizePath newPath = "/"
          \/ Map_.get (files fs) (normalizePath oldPath) = None
          \/ Map_.has (files fs) (normalizePath newPath) = true
          \/ (forall p,
                getParentNode (ancestorsFor fs (normalizePath newPath)) (normalizePath newPath)
                = Some p ->
                isDirectory (ancestorsFor fs (normalizePath newPath)) p = false)))
  \/ (exists so' ko sn' kn fs' fuel0,
        normalizePath oldPath = pathOf (so' ++ [ko])
        /\ normalizePath newPath = pathOf (sn' ++ [kn])
        /\ List.forallb validName (so' ++ [ko]) = true
        /\ List.forallb validName (sn' ++ [kn]) = true
        /\ apart (so' ++ [ko]) (sn' ++ [kn])
        /\ (forall fuel, fuel0 <= fuel -> rename fuel fs oldPath newPath = Some (true, fs'))
        /\ wellFormed fs'
        /\ (forall q a, stored fs' q a <->
              movedFrom (so' ++ [ko]) (sn' ++ [kn])
                (ancestorsFor fs (normalizePath newPath)) q a)
        /\ (forall b,
              FileNode.type (deref fs' b)
              = FileNode.type (deref (ancestorsFor fs (normalizePath newPath)) b)
              /\ FileNode.content (deref fs' b)
                 = FileNode.content (deref (ancestorsFor fs (normalizePath newPath)) b))).
Proof.
  intros WF Hclean Hnot. pose proof WF as [G C].
  set (No := normalizePath oldPath) in *. set (Nn := normalizePath newPath) in *.
  assert (Heq : forall fuel, rename fuel fs oldPath newPath = _) by (intros; apply rename_eq).
  cbv zeta in Heq. fold No Nn in Heq.
  destruct (String.eqb No "/") eqn:ENo.
  { left. exists fs. split; [exact WF|]. split; [intros; rewrite Heq; reflexivity|].
    left. apply String.eqb_eq, ENo. }
  destruct (String.eqb Nn "/") eqn:ENn.
  { left. exists fs. split; [exact WF|]. split; [intros; rewrite Heq; reflexivity|].
    right; left. apply String.eqb_eq, ENn. }
  simpl orb in Heq. cbv iota in Heq.
  apply String.eqb_neq in ENo, ENn.
  destruct (Map_.get (files fs) No) as [src|] eqn:Hsrc.
  2:{ left. exists fs. split; [exact WF|]. split; [intros; rewrite Heq; reflexivity|]. auto. }
  destruct (Map_.has (files fs) Nn) eqn:Hhas.
  { left. exists fs. split; [exact WF|]. split; [intros; rewrite Heq; reflexivity|]. auto 6. }
  destruct (c_node _ _ C _ _ Hsrc) as (_ & HcleanO & _).
  destruct (cleanSegs_split _ HcleanO ENo) as (so' & ko & Hvso' & Hko & HNo & HNoP & _).
  destruct (cleanSegs_split _ Hclean ENn) as (sn' & kn & Hvsn' & Hkn & HNn & HNnP & _).
  assert (Hvo : List.forallb validName (so' ++ [ko]) = true) by (apply valid_snoc; auto).
  assert (Hvn : List.forallb validName (sn' ++ [kn]) = true) by (apply valid_snoc; auto).
  destruct (c_up _ _ C _ _ Hsrc ENo) as (oldParent & HoldParent & HoldDir & _).
  unfold getParentNode at 1 in Heq. unfold stored in HoldParent.
  rewrite HoldParent, HoldDir in Heq. simpl negb in Heq. cbv iota in Heq.
  destruct (ancestorsFor_spec fs sn' kn WF Hvn) as (WF0 & Hgrows & _).
  rewrite <- HNn in WF0, Hgrows.
  set (fs0 := ancestorsFor fs Nn) in *.
  pose proof WF0 as [G0 C0]. pose proof Hgrows as (Gr1 & Gr2 & Gr3).
  destruct (getParentNode fs0 Nn) as [newParent|] eqn:HnewParent.
  2:{ left. exists fs0. split; [exact WF0|]. split; [intros; rewrite Heq; reflexivity|].
      do 4 right. intros p Hp. discriminate. }
  destruct (isDirectory fs0 newParent) eqn:HnewDir.
  2:{ left. exists fs0. split; [exact WF0|]. split; [intros; rewrite Heq; reflexivity|].
      do 4 right. intros p Hp. injection Hp as <-. exact HnewDir. }
  simpl negb in Heq. cbv iota in Heq.
  unfold getParentNode in HnewParent. rewrite HNnP in HnewParent.
  rewrite HNoP in HoldParent.
  assert (Hsrc0 : stored fs0 (pathOf (so' ++ [ko])) src) by (apply Gr1; rewrite <- HNo; exact Hsrc).
  assert (Hnone0 : Map_.get (files fs0) (pathOf (sn' ++ [kn])) = None).
  { destruct (Map_.get (files fs0) (pathOf (sn' ++ [kn]))) as [a|] eqn:Ea; [|reflexivity].
    exfalso. destruct (Gr2 _ _ Ea) as [Hold|((i & Hi & Hq) & _)].
    - unfold stored in Hold. rewrite <- HNn in Hold. unfold Map_.has in Hhas.
      rewrite Hold in Hhas. discriminate.
    - apply pathOf_inj in Hq; [|exact Hvn|].
      + apply (f_equal (@List.length string)) in Hq.
        rewrite length_app, length_firstn in Hq. simpl in Hq. lia.
      + rewrite <- (firstn_skipn i sn') in Hvsn'. apply valid_app in Hvsn'. tauto. }
  assert (Hnb : ~ below (so' ++ [ko]) (pathOf (sn' ++ [kn]))).
  { intros Hb. destruct (isDirectory fs src) eqn:Hd.
    - apply Hnot. exists src. split; [exact Hsrc|]. split; [exact Hd|].
      fold No Nn. rewrite HNo. apply startsWith_below; [exact Hvo | destruct so'; discriminate | exact Hclean |].
      rewrite HNn. exact Hb.
    - assert (Hd0 : isDirectory fs0 src = false).
      { rewrite (grows_isDirectory _ fs fs0 No src WF Hgrows Hsrc). exact Hd. }
      destruct Hb as (t & Ht & Hne & E).
      apply pathOf_inj in E; [|exact Hvn | apply valid_app; auto].
      destruct t as [|k' t _] using rev_ind; [congruence|].
      rewrite app_assoc in E. apply app_inj_tail in E as [E _]. subst sn'.
      apply valid_snoc in Ht as [Ht _].
      destruct t as [|k t].
      + rewrite app_nil_r in HnewParent.
        rewrite (c_fun _ _ C0 _ _ _ HnewParent Hsrc0) in HnewDir. congruence.
      + apply (nothing_below_file _ fs0 (so' ++ [ko]) src _ newParent C0 Hvo Hsrc0 Hd0 HnewParent).
        exists (k :: t). split; [exact Ht|]. split; [discriminate | reflexivity]. }
  assert (Hapart : apart (so' ++ [ko]) (sn' ++ [kn])).
  { intros t t' E. apply app_eq_app in E as [l [[E1 E2]|[E1 E2]]].
    - rewrite E1 in Hsrc0, Hvo.
      destruct (coherent_ancestor _ _ _ _ _ C0 Hvo Hsrc0) as [b Hb].
      unfold stored in Hb. congruence.
    - destruct l as [|k l].
      + rewrite app_nil_r in E1. rewrite E1 in Hnone0. unfold stored in Hsrc0. congruence.
      + apply Hnb. exists (k :: l). rewrite E1 in Hvn. apply valid_app in Hvn as [_ Hl].
        split; [exact Hl|]. split; [discriminate|]. rewrite E1. reflexivity. }
  destruct (renameTail_spec fs0 so' ko sn' kn src oldParent newParent WF0 Hvo Hvn Hapart
              Hsrc0 (Gr1 _ _ HoldParent) HnewParent HnewDir Hnone0)
    as (fs' & fuel0 & Hrun & WF' & Htab & Htc).
  right. exists so', ko, sn', kn, fs', fuel0.
  split; [exact HNo|]. split; [exact HNn|]. split; [exact Hvo|]. split; [exact Hvn|].
  split; [exact Hapart|]. split; [|auto].
  intros fuel Hle. rewrite Heq, HNo, HNn. apply Hrun, Hle.
Qed.

Lemma rename_mono fuel fs oldPath newPath r :
  rename fuel fs oldPath newPath = Some r ->
  forall fuel', fuel <= fuel' -> rename fuel' fs oldPath newPath = Some r.
Proof.
  intros H fuel' Hle. rewrite rename_eq in *. cbv zeta in *.
  destruct (String.eqb (normalizePath oldPath) "/" || String.eqb (normalizePath newPath) "/");
    [exact H|].
  destruct (Map_.get (files fs) (normalizePath oldPath)) as [src|]; [|exact H].
  destruct (Map_.has (files fs) (normalizePath newPath)); [exact H|].
  destruct (getParentNode fs (normalizePath oldPath)) as [oldParent|]; [|exact H].
  destruct (negb (isDirectory fs oldParent)); [exact H|].
  destruct (getParentNode (ancestorsFor fs (normalizePath newPath)) (normalizePath newPath))
    as [newParent|]; [|exact H].
  destruct (negb (isDirectory (ancestorsFor fs (normalizePath newPath)) newParent)); [exact H|].
  unfold renameTail in *.
  match goal with |- context [isDirectory ?f src] => set (fs1 := f) in * end.
  destruct (FileNode.children (deref fs1 src)); [|exact H].
  destruct (isDirectory fs1 src); [|exact H].
  destruct (updateChildrenPaths fuel fs1 src) as [fs2|] eqn:E; [|discriminate].
  rewrite (updateChildrenPaths_mono _ _ _ _ E fuel' Hle). exact H.
Qed.

Lemma rename_wellFormed fuel fs oldPath newPath b fs' :
  wellFormed fs -> cleanSegs (normalizePath newPath) ->
  ~ intoOwnSubtree fs oldPath newPath ->
  rename fuel fs oldPath newPath = Some (b, fs') -> wellFormed fs'.
Proof.
  intros WF Hclean Hnot H.
  destruct (rename_outcome fs oldPath newPath WF Hclean Hnot)
    as [(fs1 & WF1 & Hrun & _)|(so' & ko & sn' & kn & fs1 & fuel0 & _ & _ & _ & _ & _ & Hrun & WF1 & _)].
  - rewrite Hrun in H. injection H as _ <-. exact WF1.
  - pose proof (rename_mono _ _ _ _ _ H (Nat.max fuel fuel0) ltac:(lia)) as H1.
    rewrite (Hrun (Nat.max fuel fuel0) ltac:(lia)) in H1. injection H1 as _ <-. exact WF1.
Qed.

Lemma rename_total fs oldPath newPath :
  wellFormed fs -> cleanSegs (normalizePath newPath) ->
  ~ intoOwnSubtree fs oldPath newPath ->
  exists fuel r, rename fuel fs oldPath newPath = Some r.
Proof.
  intros WF Hclean Hnot.
  destruct (rename_outcome fs oldPath newPath WF Hclean Hnot)
    as [(fs1 & _ & Hrun & _)|(so' & ko & sn' & kn & fs1 & fuel0 & _ & _ & _ & _ & _ & Hrun & _)].
  - exists 0. eexists. apply Hrun.
  - exists fuel0. eexists. apply Hrun. lia.
Qed.

(** ** Sequences of mutations *)

Lemma mutate_wellFormed fuel fs m fs' :
  wellFormed fs -> covered fs m -> mutate fuel fs m = Some fs' -> wellFormed fs'.
Proof.
  intros WF Hc H. destruct m as [p c|p|p c|p|o n|data|]; simpl in H, Hc.
  - injection H as <-. apply createFile_wellFormed; [exact WF | apply cleanPath_cleanSegs, Hc].
  - injection H as <-. apply createDirectory_spec; [exact WF | apply cleanPath_cleanSegs, Hc].
  - injection H as <-. apply updateFile_wellFormed, WF.
  - destruct (deleteFile fuel fs p) as [[b fs1]|] eqn:E; [|discriminate].
    injection H as <-. eapply deleteFile_wellFormed; eassumption.
  - destruct (rename fuel fs o n) as [[b fs1]|] eqn:E; [|discriminate].
    injection H as <-. destruct Hc as [Hc Hnot].
    eapply rename_wellFormed; [exact WF | apply cleanPath_cleanSegs, Hc | exact Hnot | exact E].
  - injection H as <-. apply deserialize_wellFormed; [exact WF|].
    intros p Hp. apply cleanPath_cleanSegs, Hc, Hp.
  - injection H as <-. apply reset_wellFormed, WF.
Qed.

Lemma mutate_total fs m :
  wellFormed fs -> covered fs m -> exists fuel fs', mutate fuel fs m = Some fs'.
Proof.
  intros WF Hc. destruct m as [p c|p|p c|p|o n|data|]; simpl; try (exists 0; eauto; fail).
  - destruct (deleteFile_total fs p WF) as (fuel & b & fs' & H & _).
    exists fuel, fs'. rewrite H. reflexivity.
  - destruct Hc as [Hc Hnot].
    destruct (rename_total fs o n WF (cleanPath_cleanSegs _ Hc) Hnot) as (fuel & [b fs'] & H).
    exists fuel, fs'. rewrite H. reflexivity.
Qed.

Lemma reaches_wellFormed fs ms fs' : wellFormed fs -> reaches fs ms fs' -> wellFormed fs'.
Proof.
  intros WF H. induction H as [|fs m fuel fs1 ms fs2 Hc Hm _ IH]; [exact WF|].
  apply IH. eapply mutate_wellFormed; eassumption.
Qed.


(** ** The two indices, over every sequence of mutations *)

(** C1, as the code has it.  From a new instance, after any sequence of
    mutations each of which is covered (a path that may be created
    normalizes to a normal path, and no directory is renamed into its own
    subtree), the two indices are synchronized, with the path of a child
    of the root written as the slash followed by its name; and every
    covered mutation returns, given enough fuel. *)
Theorem mutations_keep_indices_synchronized (ms : list Mutation) (fs : VirtualFileSystem) :
  reaches constructor ms fs ->
  synchronized fs
  /\ (forall m, covered fs m -> exists fuel fs', mutate fuel fs m = Some fs').
Proof.
  intros H. pose proof (reaches_wellFormed _ _ _ wellFormed_constructor H) as WF.
  split; [apply wellFormed_synchronized, WF|].
  intros m Hc. apply mutate_total; assumption.
Qed.

Lemma mutations_keep_indices_synchronized_witness :
  let fs1 := snd (createFile constructor "/src/index.ts" "x") in
  let fs2 := match rename 3 fs1 "/src" "/app" with Some (_, fs) => fs | None => fs1 end in
  synchronized fs2.
Proof.
  intros fs1 fs2.
  apply (mutations_keep_indices_synchronized
           [MCreateFile "/src/index.ts" "x"; MRename "/src" "/app"] fs2).
  apply (reaches_cons constructor _ 0 fs1); [vm_compute; reflexivity | reflexivity |].
  apply (reaches_cons fs1 _ 3 fs2); [| vm_compute; reflexivity | apply reaches_nil].
  split; [vm_compute; reflexivity|].
  intros (a & _ & _ & Hs). vm_compute in Hs. discriminate.
Defined.

(** C1, as it is stated, fails: after [createFile("/a.txt", "")] on a new
    instance, the file is a child of the root, whose path is the slash,
    and its path is not the path of the root followed by a slash and its
    name, which has two slashes. *)
Lemma stated_join_fails_under_root :
  let fs := snd (createFile constructor "/a.txt" "") in
  reaches constructor [MCreateFile "/a.txt" ""] fs /\ ~ synchronizedAsStated fs.
Proof.
  intros fs. split.
  - apply (reaches_cons constructor _ 0 fs); [vm_compute; reflexivity | reflexivity |].
    apply reaches_nil.
  - intros (_ & H & _).
    destruct (H "/a.txt" 1 eq_refl ltac:(discriminate)) as (q & pa & Hq & Hin & Hpath & _).
    assert (Hpa : pa = 0 \/ pa = 1).
    { vm_compute in Hq. destruct q as [|c q]; [discriminate|].
      repeat match type of Hq with
             | (if ?b then _ else _) = _ => destruct b
             | Some _ = Some _ => injection Hq as <-
             | None = _ => discriminate
             | _ => idtac
             end; auto. }
    destruct Hpa as [-> | ->].
    + vm_compute in Hpath. discriminate.
    + vm_compute in Hin. exact Hin.
Qed.

(** Why the paths are to normalize to normal paths: [normalizePath]
    leaves one slash of a run of slashes at the end, and [createFile]
    then stores the file, a child of the root named [a], under a path
    that ends with a slash. *)
Example createFile_trailing_slashes :
  let fs := snd (createFile constructor "/a//" "x") in
  Map_.get (files fs) "/a/" = Some 1
  /\ FileNode.name (deref fs 1) = "a" /\ FileNode.path (deref fs 1) = "/a/"
  /\ Map_.get (childrenOf fs (root fs)) "a" = Some 1.
Proof. vm_compute. repeat split. Qed.

(** ** [rename] of a directory *)

Lemma startsWith_suffix_below so suffix :
  List.forallb validName so = true -> so <> [] ->
  cleanSegs (JS.cat (pathOf so) suffix) ->
  suffix = EmptyString \/ JS.startsWith suffix "/" = true ->
  exists t, List.forallb validName t = true /\ suffix = rawPath t
            /\ JS.cat (pathOf so) suffix = pathOf (so ++ t).
Proof.
  intros Hso Hne Hclean [->|Hs].
  - exists []. split; [reflexivity|]. split; [reflexivity|].
    unfold JS.cat. rewrite app_nil_r_s, app_nil_r. reflexivity.
  - assert (Hb : below so (JS.cat (pathOf so) suffix)).
    { apply startsWith_below; [exact Hso | exact Hne | exact Hclean |].
      unfold JS.startsWith in *. apply prefix_inv in Hs as [r ->].
      unfold JS.cat. rewrite <- app_assoc_s. apply prefix_app. }
    destruct Hb as (t & Ht & Htne & E). exists t. split; [exact Ht|]. split; [|exact E].
    assert (Ep : pathOf so = rawPath so) by (destruct so; [congruence | reflexivity]).
    assert (Ep' : pathOf (so ++ t) = rawPath (so ++ t))
      by (destruct so; [congruence | reflexivity]).
    rewrite Ep', rawPath_app, Ep in E. unfold JS.cat in E.
    apply app_inv_head_s in E. exact E.
Qed.

(** C2, as the code has it.  In a tree built from a new instance by
    covered mutations, let a directory other than the root be at
    [oldPath], and let [newPath] normalize to a normal path that is not
    in the tree and not inside the subtree of the source; let every node
    of the tree at a path above the destination be a directory.  Then,
    given enough fuel, [rename] returns true; afterwards no path at or
    below the old one is in the table, and every node that was at the
    old path followed by a suffix is at the new path followed by the same
    suffix, with its type and its content. *)
Theorem rename_directory_moves_subtree
    (ms : list Mutation) (fs : VirtualFileSystem) (oldPath newPath : string) (src : ref) :
  reaches constructor ms fs ->
  getNode fs oldPath = Some src -> isDirectory fs src = true ->
  normalizePath oldPath <> "/" ->
  cleanPath (normalizePath newPath) = true ->
  exists_ fs newPath = false ->
  JS.startsWith (normalizePath newPath) (JS.cat (normalizePath oldPath) "/") = false ->
  (forall q a, Map_.get (files fs) q = Some a ->
     JS.startsWith (normalizePath newPath) (JS.cat q "/") = true ->
     isDirectory fs a = true) ->
  exists fs' fuel0,
    (forall fuel, fuel0 <= fuel -> rename fuel fs oldPath newPath = Some (true, fs'))
    /\ (forall q,
          q = normalizePath oldPath
          \/ JS.startsWith q (JS.cat (normalizePath oldPath) "/") = true ->
          Map_.get (files fs') q = None)
    /\ (forall suffix a,
          suffix = EmptyString \/ JS.startsWith suffix "/" = true ->
          Map_.get (files fs) (JS.cat (normalizePath oldPath) suffix) = Some a ->
          exists a',
            Map_.get (files fs') (JS.cat (normalizePath newPath) suffix) = Some a'
            /\ FileNode.type (deref fs' a') = FileNode.type (deref fs a)
            /\ FileNode.content (deref fs' a') = FileNode.content (deref fs a)).
Proof.
  intros Hreach Hsrc Hdir HNo Hcp Hex Hout Hanc.
  pose proof (reaches_wellFormed _ _ _ wellFormed_constructor Hreach) as WF.
  pose proof WF as [G C].
  pose proof (cleanPath_cleanSegs _ Hcp) as Hclean.
  assert (Hnot : ~ intoOwnSubtree fs oldPath newPath).
  { intros (a & _ & _ & Hs). congruence. }
  unfold getNode in Hsrc. unfold exists_ in Hex.
  remember (normalizePath oldPath) as No eqn:ENo0.
  remember (normalizePath newPath) as Nn eqn:ENn0.
  assert (HNn : Nn <> "/").
  { intros E. pose proof (c_root _ _ C) as Hr. unfold stored in Hr. unfold Map_.has in Hex.
    rewrite E, Hr in Hex. discriminate. }
  destruct (cleanSegs_split _ Hclean HNn) as (sn0 & kn0 & Hvsn0 & Hkn0 & HNn0 & HNnP & _).
  assert (Hvn0 : List.forallb validName (sn0 ++ [kn0]) = true) by (apply valid_snoc; auto).
  destruct (ancestorsFor_spec fs sn0 kn0 WF Hvn0) as (WF0 & Hgrows & Hparent).
  rewrite <- HNn0 in WF0, Hgrows, Hparent.
  set (fs0 := ancestorsFor fs Nn) in *.
  pose proof WF0 as [G0 C0]. pose proof Hgrows as (Gr1 & Gr2 & Gr3).
  destruct (rename_outcome fs oldPath newPath WF ltac:(rewrite <- ENn0; exact Hclean) Hnot)
    as [(fs1 & _ & _ & Hwhy)
       |(so' & ko & sn' & kn & fs' & fuel0 & EO & EN & Hvo & Hvn & Hapart & Hrun & WF' & Htab & Htc)];
    rewrite <- ?ENo0, <- ?ENn0 in *.
  - fold fs0 in Hwhy. exfalso. destruct Hwhy as [E|[E|[E|[E|Hno]]]]; try congruence.
    destruct Hparent as (p & Hp & Hpd).
    + intros i a Hi Ha. destruct i as [|i].
      * simpl in Ha. rewrite (c_fun _ _ C _ _ _ Ha (c_root _ _ C)). apply (c_root_dir _ _ C).
      * apply (Hanc _ a Ha). apply startsWith_below.
        -- rewrite <- (firstn_skipn (S i) sn0) in Hvsn0. apply valid_app in Hvsn0. tauto.
        -- destruct sn0; [simpl in Hi; lia | discriminate].
        -- exact Hclean.
        -- exists (List.skipn (S i) sn0 ++ [kn0]). split; [|split].
           ++ apply valid_snoc. split; [|exact Hkn0].
              rewrite <- (firstn_skipn (S i) sn0) in Hvsn0. apply valid_app in Hvsn0. tauto.
           ++ destruct (List.skipn (S i) sn0); discriminate.
           ++ rewrite app_assoc, firstn_skipn. exact HNn0.
    + rewrite (Hno p) in Hpd; [discriminate|].
      unfold getParentNode. rewrite HNnP. exact Hp.
  - fold fs0 in Htab, Htc.
    set (so := so' ++ [ko]) in *. set (sn := sn' ++ [kn]) in *.
    assert (Hso_ne : so <> []) by (unfold so; destruct so'; discriminate).
    assert (Hsn_ne : sn <> []) by (unfold sn; destruct sn'; discriminate).
    exists fs', fuel0. split; [exact Hrun|]. split.
    + intros q Hq. destruct (Map_.get (files fs') q) as [a|] eqn:Ea; [|reflexivity].
      exfalso. pose proof WF' as [_ C'].
      destruct (c_node _ _ C' _ _ Ea) as (_ & Hcq & _).
      assert (Hu : under so q).
      { destruct Hq as [->|Hq]; [rewrite EO; apply under_refl|].
        rewrite EO in Hq. apply below_under. apply startsWith_below; assumption. }
      apply Htab in Ea as [[_ Hnu]|(t & Ht & -> & _)]; [exact (Hnu Hu)|].
      destruct Hu as (t' & Ht' & E).
      apply pathOf_inj in E; try (apply valid_app; auto).
      apply (Hapart t' t). symmetry. exact E.
    + intros suffix a Hsuf Ha.
      destruct (c_node _ _ C _ _ Ha) as (Halloc & Hca & _).
      rewrite EO in Ha, Hca.
      destruct (startsWith_suffix_below so suffix Hvo Hso_ne Hca Hsuf) as (t & Ht & -> & E).
      rewrite E in Ha. exists a. split; [|].
      * apply Htab. right. exists t. split; [exact Ht|]. split; [|apply Gr1, Ha].
        rewrite EN. unfold JS.cat.
        assert (Ep : pathOf sn = rawPath sn) by (destruct sn; [congruence | reflexivity]).
        assert (Ep' : pathOf (sn ++ t) = rawPath (sn ++ t))
          by (destruct sn; [congruence | reflexivity]).
        rewrite Ep, Ep', rawPath_app. reflexivity.
      * destruct (Htc a) as [-> ->]. destruct (Gr3 a Halloc) as (_ & -> & -> & _). auto.
Qed.

Lemma rename_directory_moves_subtree_witness :
  let fs := snd (createFile (snd (createFile constructor "/src/index.ts" "a"))
                   "/src/components/Button.tsx" "b") in
  exists fs' fuel0,
    (forall fuel, fuel0 <= fuel -> rename fuel fs "/src" "/app" = Some (true, fs'))
    /\ (forall q,
          q = normalizePath "/src" \/ JS.startsWith q (JS.cat (normalizePath "/src") "/") = true ->
          Map_.get (files fs') q = None)
    /\ (forall suffix a,
          suffix = EmptyString \/ JS.startsWith suffix "/" = true ->
          Map_.get (files fs) (JS.cat (normalizePath "/src") suffix) = Some a ->
          exists a',
            Map_.get (files fs') (JS.cat (normalizePath "/app") suffix) = Some a'
            /\ FileNode.type (deref fs' a') = FileNode.type (deref fs a)
            /\ FileNode.content (deref fs' a') = FileNode.content (deref fs a)).
Proof.
  intros fs.
  apply (rename_directory_moves_subtree
           [MCreateFile "/src/index.ts" "a"; MCreateFile "/src/components/Button.tsx" "b"]
           fs "/src" "/app" 1).
  - apply (reaches_cons constructor _ 0 (snd (createFile constructor "/src/index.ts" "a")));
      [vm_compute; reflexivity | reflexivity |].
    apply (reaches_cons _ _ 0 fs); [vm_compute; reflexivity | reflexivity | apply reaches_nil].
  - vm_compute. reflexivity.
  - vm_compute. reflexivity.
  - vm_compute. discriminate.
  - vm_compute. reflexivity.
  - vm_compute. reflexivity.
  - vm_compute. reflexivity.
  - intros q a Hget Hs. exfalso.
    assert (E : normalizePath "/app" = "/app") by (vm_compute; reflexivity).
    rewrite E in Hs. unfold JS.startsWith, JS.cat in Hs. apply prefix_inv in Hs as [t Ht].
    destruct q as [|c q]; [vm_compute in Hget; discriminate|].
    simpl in Ht. injection Ht as _ Ht.
    repeat (destruct q as [|? q]; simpl in Ht; [discriminate | injection Ht as _ Ht]).
    destruct q; discriminate.
Defined.

(** C2, as it is stated, fails: below, [/src] is a directory, and the
    destination is not in the tree, is not the root and is not inside the
    subtree of [/src]; its parent is a file, and [rename] returns false
    and leaves the tree as it is. *)
Lemma rename_directory_refused_under_file :
  let fs := snd (createFile (snd (createDirectory constructor "/src")) "/f" "x") in
  reaches constructor [MCreateDirectory "/src"; MCreateFile "/f" "x"] fs
  /\ getNode fs "/src" = Some 1 /\ isDirectory fs 1 = true
  /\ exists_ fs "/f/x" = false /\ normalizePath "/f/x" <> "/"
  /\ JS.startsWith (normalizePath "/f/x") (JS.cat (normalizePath "/src") "/") = false
  /\ forall fuel, rename fuel fs "/src" "/f/x" = Some (false, fs).
Proof.
  intros fs. split.
  { apply (reaches_cons constructor _ 0 (snd (createDirectory constructor "/src")));
      [vm_compute; reflexivity | reflexivity |].
    apply (reaches_cons _ _ 0 fs); [vm_compute; reflexivity | reflexivity | apply reaches_nil]. }
  split; [vm_compute; reflexivity|]. split; [vm_compute; reflexivity|].
  split; [vm_compute; reflexivity|]. split; [vm_compute; discriminate|].
  split; [vm_compute; reflexivity|].
  intros fuel. vm_compute. reflexivity.
Qed.

(** The example of the specification: after [rename("/src", "/app")] the
    two files are read at their new paths, and nothing is at [/src]. *)
Example rename_src_app :
  let fs := snd (createFile (snd (createFile constructor "/src/index.ts" "a"))
                   "/src/components/Button.tsx" "b") in
  exists fs', rename 4 fs "/src" "/app" = Some (true, fs')
    /\ exists_ fs' "/src" = false
    /\ readFile fs' "/app/index.ts" = Some "a"
    /\ readFile fs' "/app/components/Button.tsx" = Some "b".
Proof. eexists. vm_compute. repeat split. Qed.


(** * The other methods of the file system *)

(** ** The trees built by the methods are well formed *)

Lemma In_insertSorted_intro x y l : x = y \/ In x l -> In x (insertSorted y l).
Proof.
  induction l as [|z l IH]; simpl.
  - intros [->|[]]. auto.
  - destruct (String.leb y z); simpl.
    + intros [->|[->|H]]; auto.
    + intros [->|[->|H]]; auto.
Qed.

Lemma In_sortStrings_iff x l : In x (sortStrings l) <-> In x l.
Proof.
  split; [apply In_sortStrings|].
  induction l as [|y l IH]; simpl; [auto|].
  intros [->|H]; apply In_insertSorted_intro; auto.
Qed.

Lemma In_keys_gmap {V} (data : gmap string V) path :
  In path (List.map fst (map_to_list data)) <-> is_Some (data !! path).
Proof.
  split.
  - intros H. apply in_map_iff in H as ([k v] & <- & Hin).
    apply list_elem_of_In, elem_of_map_to_list in Hin. simpl. eauto.
  - intros [v Hv]. apply in_map_iff. exists (path, v). split; [reflexivity|].
    apply list_elem_of_In, elem_of_map_to_list, Hv.
Qed.

Lemma createAncestors_raw_wellFormed fs path :
  wellFormed fs ->
  wellFormed (createAncestors fs EmptyString
                (List.removelast (JS.filterBoolean (JS.split "/" path)))).
Proof.
  intros WF. apply (createAncestors_spec _ fs [] WF). simpl.
  apply removelast_valid, parts_valid.
Qed.

Lemma createFileWithParents_wellFormed fs path content :
  wellFormed fs -> cleanSegs (normalizePath path) ->
  wellFormed (snd (createFileWithParents fs path content)).
Proof.
  intros WF Hc. unfold createFileWithParents. destruct (exists_ fs path); [exact WF|].
  simpl. apply createFile_wellFormed; [|exact Hc]. apply createAncestors_raw_wellFormed, WF.
Qed.

Lemma replaceInFile_wellFormed fs path oldStr newStr msg fs' :
  wellFormed fs -> replaceInFile fs path oldStr newStr = Some (msg, fs') -> wellFormed fs'.
Proof.
  intros WF. unfold replaceInFile.
  destruct (getNode fs path) as [file|]; [|intros H; injection H as _ <-; exact WF].
  destruct (negb (isFile fs file)); [intros H; injection H as _ <-; exact WF|].
  destruct (negb (JS.truthy oldStr) || negb (JS.includes _ oldStr));
    [intros H; injection H as _ <-; exact WF|].
  destruct (RegExp (escapeRegExp oldStr)); [|discriminate].
  intros H. injection H as _ <-. apply updateFile_wellFormed, WF.
Qed.

Lemma insertInFile_wellFormed fs path insertLine text :
  wellFormed fs -> wellFormed (snd (insertInFile fs path insertLine text)).
Proof.
  intros WF. unfold insertInFile.
  destruct (getNode fs path) as [file|]; [|exact WF].
  destruct (negb (isFile fs file)); [exact WF|].
  destruct insertLine as [n|]; [|exact WF].
  destruct (Z.ltb n 0 || Z.ltb _ n); [exact WF|].
  simpl. apply updateFile_wellFormed, WF.
Qed.

Lemma deserializeFromNodes_wellFormed fs data :
  wellFormed fs ->
  (forall path, is_Some (data !! path) -> cleanSegs (normalizePath path)) ->
  wellFormed (deserializeFromNodes fs data).
Proof.
  intros WF Hc. unfold deserializeFromNodes.
  apply clearAll_wellFormed in WF. revert WF.
  generalize (clearAll fs) as fs0.
  generalize (sortStrings (List.map fst (map_to_list data))) as paths.
  induction paths as [|p paths IH]; intros fs0 WF; [exact WF|].
  simpl. apply IH. destruct (String.eqb p "/"); [exact WF|].
  destruct (data !! p) as [node|] eqn:E; [|exact WF].
  assert (Hp : cleanSegs (normalizePath p)) by (apply Hc; eauto).
  destruct (SerialNode.type node).
  - apply createFile_wellFormed; [apply createAncestors_raw_wellFormed, WF | exact Hp].
  - apply createDirectory_spec; [apply createAncestors_raw_wellFormed, WF | exact Hp].
Qed.

Lemma operate_wellFormed fuel fs op fs' :
  wellFormed fs -> coveredOp fs op -> operate fuel fs op = Some fs' -> wellFormed fs'.
Proof.
  intros WF Hc H. destruct op as [m|p c|p o n|p l t|data]; simpl in H, Hc.
  - eapply mutate_wellFormed; eassumption.
  - injection H as <-. apply createFileWithParents_wellFormed;
      [exact WF | apply cleanPath_cleanSegs, Hc].
  - destruct (replaceInFile fs p o n) as [[msg fs1]|] eqn:E; [|discriminate].
    injection H as <-. eapply replaceInFile_wellFormed; eassumption.
  - injection H as <-. apply insertInFile_wellFormed, WF.
  - injection H as <-. apply deserializeFromNodes_wellFormed; [exact WF|].
    intros p Hp. apply cleanPath_cleanSegs, Hc, Hp.
Qed.

Lemma built_wellFormed fs : built fs -> wellFormed fs.
Proof.
  induction 1 as [|fs op fuel fs' _ IH Hc Hop]; [apply wellFormed_constructor|].
  eapply operate_wellFormed; eassumption.
Qed.

Lemma reaches_built fs ms fs' : built fs -> reaches fs ms fs' -> built fs'.
Proof.
  intros B H. induction H as [|fs m fuel fs1 ms fs2 Hc Hm _ IH]; [exact B|].
  apply IH. apply (built_step fs (OMutation m) fuel fs1 B Hc Hm).
Qed.


(** ** Reading *)

Lemma readFile_stored fs q :
  readFile fs q =
  match Map_.get (files fs) (normalizePath q) with
  | Some a => if isFile fs a then Some (contentOrEmpty (deref fs a)) else None
  | None => None
  end.
Proof.
  unfold readFile, contentOrEmpty. destruct (Map_.get (files fs) (normalizePath q)) as [a|]; [|reflexivity].
  destruct (isFile fs a); [|reflexivity]. simpl.
  destruct (FileNode.content (deref fs a)) as [c|]; [|reflexivity].
  destruct (JS.truthy c); reflexivity.
Qed.

Lemma exists_stored fs q : exists_ fs q = true <-> exists a, stored fs (normalizePath q) a.
Proof. unfold exists_. apply has_stored. Qed.

Lemma exists_false fs q : exists_ fs q = false <-> Map_.get (files fs) (normalizePath q) = None.
Proof. unfold exists_. apply has_false. Qed.

Lemma isFile_type fs a fs' a' :
  FileNode.type (deref fs' a') = FileNode.type (deref fs a) ->
  isFile fs' a' = isFile fs a /\ isDirectory fs' a' = isDirectory fs a.
Proof. unfold isFile, isDirectory. intros ->. auto. Qed.

Lemma contentOrEmpty_content n n' :
  FileNode.content n' = FileNode.content n -> contentOrEmpty n' = contentOrEmpty n.
Proof. unfold contentOrEmpty. intros ->. reflexivity. Qed.

(** Reading gives the same when the entry of the path and, there, the
    type and the content of the node are the same. *)
Lemma readFile_same fs fs' q :
  Map_.get (files fs') (normalizePath q) = Map_.get (files fs) (normalizePath q) ->
  (forall a, Map_.get (files fs) (normalizePath q) = Some a ->
     FileNode.type (deref fs' a) = FileNode.type (deref fs a)
     /\ FileNode.content (deref fs' a) = FileNode.content (deref fs a)) ->
  readFile fs' q = readFile fs q.
Proof.
  intros Hget Hsame. rewrite !readFile_stored, Hget.
  destruct (Map_.get (files fs) (normalizePath q)) as [a|]; [|reflexivity].
  destruct (Hsame a eq_refl) as [Ht Hc].
  destruct (isFile_type fs a fs' a Ht) as [-> _].
  rewrite (contentOrEmpty_content _ _ Hc). reflexivity.
Qed.

Lemma grows_readFile new fs fs' q :
  wellFormed fs -> grows new fs fs' -> readFile fs' q = readFile fs q.
Proof.
  intros [G C] (G1 & G2 & G3). rewrite !readFile_stored.
  destruct (Map_.get (files fs) (normalizePath q)) as [a|] eqn:E.
  - rewrite (G1 _ _ E). destruct (c_node _ _ C _ _ E) as (Ha & _).
    destruct (G3 a Ha) as (_ & Ht & Hc & _).
    destruct (isFile_type fs a fs' a Ht) as [-> _].
    rewrite (contentOrEmpty_content _ _ Hc). reflexivity.
  - destruct (Map_.get (files fs') (normalizePath q)) as [a|] eqn:E'; [|reflexivity].
    destruct (G2 _ _ E') as [H|(_ & Hd & _)]; [unfold stored in H; congruence|].
    rewrite isFile_not_directory, Hd. reflexivity.
Qed.

Lemma grows_exists new fs fs' q : grows new fs fs' -> exists_ fs q = true -> exists_ fs' q = true.
Proof.
  intros (G1 & _) H. apply exists_stored in H as [a Ha]. apply exists_stored. exists a. auto.
Qed.

(** ** [createDirectory] and [createAncestors]: all or nothing *)

Lemma createDirectory_cases fs path :
  createDirectory fs path = (None, fs)
  /\ (Map_.has (files fs) (normalizePath path) = true
      \/ (forall p, stored fs (getParentPath (normalizePath path)) p ->
            isDirectory fs p = false))
  \/ Map_.has (files fs) (normalizePath path) = false
     /\ fst (createDirectory fs path) = Some (fresh fs)
     /\ exists p, stored fs (getParentPath (normalizePath path)) p /\ isDirectory fs p = true.
Proof.
  unfold createDirectory, getParentNode, stored.
  destruct (Map_.has (files fs) (normalizePath path)); [left; auto|].
  destruct (Map_.get (files fs) (getParentPath (normalizePath path))) as [p|] eqn:E.
  - destruct (isDirectory fs p) eqn:Ed; simpl.
    + right. split; [reflexivity|]. split; [reflexivity|]. eauto.
    + left. split; [reflexivity|]. right. intros p' Hp'. congruence.
  - left. split; [reflexivity|]. right. intros p' Hp'. discriminate.
Qed.

Lemma createAncestors_blocked parts : forall fs pre,
  wellFormed fs -> List.forallb validName (pre ++ parts) = true ->
  (exists a, stored (createAncestors fs (rawPath pre) parts) (pathOf (pre ++ parts)) a
             /\ isDirectory (createAncestors fs (rawPath pre) parts) a = true)
  \/ createAncestors fs (rawPath pre) parts = fs.
Proof.
  induction parts as [|part rest IH]; intros fs pre WF Hv; [right; reflexivity|].
  assert (Hv' : List.forallb validName ((pre ++ [part]) ++ rest) = true)
    by (rewrite <- app_assoc; exact Hv).
  assert (Hv1 : List.forallb validName (pre ++ [part]) = true)
    by (apply valid_app in Hv'; tauto).
  assert (Hcur : JS.cat (rawPath pre) (JS.cat "/" part) = rawPath (pre ++ [part]))
    by (rewrite rawPath_snoc; reflexivity).
  assert (Hraw : pathOf (pre ++ [part]) = rawPath (pre ++ [part])) by apply pathOf_snoc_raw.
  assert (Hn : normalizePath (rawPath (pre ++ [part])) = pathOf (pre ++ [part])).
  { rewrite <- Hraw. apply normalizePath_pathOf, Hv1. }
  assert (Happ : pre ++ part :: rest = (pre ++ [part]) ++ rest)
    by (rewrite <- app_assoc; reflexivity).
  assert (Hstep : createAncestors fs (rawPath pre) (part :: rest)
                  = createAncestors
                      (if negb (Map_.has (files fs) (pathOf (pre ++ [part])))
                       then snd (createDirectory fs (rawPath (pre ++ [part]))) else fs)
                      (rawPath (pre ++ [part])) rest).
  { cbn [createAncestors]. rewrite Hcur. unfold exists_. rewrite Hn. reflexivity. }
  rewrite Hstep. clear Hstep.
  destruct (Map_.has (files fs) (pathOf (pre ++ [part]))) eqn:Hhas; simpl negb; cbv iota.
  - rewrite Happ. apply (IH fs (pre ++ [part]) WF Hv').
  - destruct (createDirectory_cases fs (rawPath (pre ++ [part])))
      as [[E _]|(_ & _ & p & Hp & Hpd)].
    + rewrite E. simpl snd. rewrite Happ. apply (IH fs (pre ++ [part]) WF Hv').
    + left. rewrite Hn in Hp. rewrite getParentPath_snoc in Hp by exact Hv1.
      destruct (createDirectory_spec fs (rawPath (pre ++ [part])) WF) as (W1 & G1 & S1).
      { rewrite Hn. exists (pre ++ [part]). auto. }
      rewrite Hn in G1, S1.
      set (fs1 := snd (createDirectory fs (rawPath (pre ++ [part])))) in *.
      destruct (S1 Hhas p) as (a & Ha & Had);
        [rewrite getParentPath_snoc by exact Hv1; exact Hp | exact Hpd |].
      rewrite Happ.
      apply (createAncestors_spec rest fs1 (pre ++ [part]) W1 Hv'); [eauto|].
      intros i b Hi Hb. destruct G1 as (_ & G12 & _).
      destruct (G12 _ _ Hb) as [Hold|(_ & Hd & _)]; [|exact Hd].
      exfalso. destruct WF as [_ C].
      destruct (coherent_ancestor _ _ (pre ++ [part]) (List.firstn i rest) b C) as [x Hx].
      * apply valid_app. split; [exact Hv1|].
        apply valid_app in Hv' as [_ Hr]. rewrite <- (firstn_skipn i rest) in Hr.
        apply valid_app in Hr. tauto.
      * exact Hold.
      * apply has_false in Hhas. unfold stored in Hx. congruence.
Qed.

(** ** [createFile] *)

Lemma createFile_facts fs path content segs k :
  wellFormed fs -> List.forallb validName (segs ++ [k]) = true ->
  normalizePath path = pathOf (segs ++ [k]) ->
  Map_.has (files fs) (pathOf (segs ++ [k])) = false ->
  createFile fs path content = (None, fs)
  /\ (forall p, stored (createAncestors fs EmptyString segs) (pathOf segs) p ->
        isDirectory (createAncestors fs EmptyString segs) p = false)
  \/ exists fs1 parent,
       grows (fun q => exists i, 1 <= i <= List.length segs /\ q = pathOf (List.firstn i segs))
         fs fs1
       /\ wellFormed fs1
       /\ stored fs1 (pathOf segs) parent /\ isDirectory fs1 parent = true
       /\ Map_.get (files fs1) (pathOf (segs ++ [k])) = None
       /\ fst (createFile fs path content) = Some (fresh fs1)
       /\ files (snd (createFile fs path content))
          = Map_.set (files fs1) (pathOf (segs ++ [k])) (fresh fs1)
       /\ deref (snd (createFile fs path content)) (fresh fs1)
          = FileNode.Build TFile k (pathOf (segs ++ [k])) (Some content) None
       /\ (forall a, is_Some (heap fs1 !! a) ->
             FileNode.type (deref (snd (createFile fs path content)) a)
             = FileNode.type (deref fs1 a)
             /\ FileNode.content (deref (snd (createFile fs path content)) a)
                = FileNode.content (deref fs1 a)).
Proof.
  intros WF Hv HN Hhas. apply valid_snoc in Hv as Hv'. destruct Hv' as [Hvs Hk].
  assert (Hparts : List.removelast (JS.filterBoolean (JS.split "/" (pathOf (segs ++ [k])))) = segs).
  { rewrite parts_pathOf by exact Hv. apply removelast_snoc. }
  destruct (createAncestors_spec segs fs [] WF Hvs) as (W1 & G1 & _).
  change (rawPath []) with EmptyString in W1, G1. simpl app in G1.
  set (fs1 := createAncestors fs EmptyString segs) in *.
  set (nd := FileNode.Build TFile k (pathOf (segs ++ [k])) (Some content) None).
  assert (Hcf : createFile fs path content =
            match Map_.get (files fs1) (pathOf segs) with
            | Some parent =>
                if negb (isDirectory fs1 parent) then (None, fs1)
                else (Some (fresh fs1),
                      childrenSet
                        (setFiles (snd (alloc fs1 nd))
                           (Map_.set (files fs1) (pathOf (segs ++ [k])) (fresh fs1)))
                        parent k (fresh fs1))
            | None => (None, fs1)
            end).
  { unfold createFile. rewrite HN, Hhas, Hparts. fold fs1. unfold getParentNode.
    rewrite getParentPath_snoc, getFileName_snoc by exact Hv. reflexivity. }
  rewrite Hcf. clear Hcf.
  destruct (Map_.get (files fs1) (pathOf segs)) as [p|] eqn:Hp.
  2:{ left. split; [|intros p' Hp'; unfold stored in Hp'; congruence].
      destruct (createAncestors_blocked segs fs [] WF Hvs) as [(a & Ha & _)|Hsame].
      - simpl app in Ha. change (rawPath []) with EmptyString in Ha. fold fs1 in Ha.
        unfold stored in Ha. congruence.
      - change (rawPath []) with EmptyString in Hsame. fold fs1 in Hsame.
        rewrite Hsame. reflexivity. }
  destruct (isDirectory fs1 p) eqn:Hpd.
  2:{ left. simpl negb. cbv iota.
      split; [|intros p' Hp'; unfold stored in Hp'; congruence].
      destruct (createAncestors_blocked segs fs [] WF Hvs) as [(a & Ha & Had)|Hsame].
      - simpl app in Ha. change (rawPath []) with EmptyString in Ha, Had. fold fs1 in Ha, Had.
        unfold stored in Ha. rewrite Hp in Ha. injection Ha as <-. congruence.
      - change (rawPath []) with EmptyString in Hsame. fold fs1 in Hsame.
        rewrite Hsame. reflexivity. }
  simpl negb. cbv iota.
  right. exists fs1, p.
  assert (Hnone : Map_.get (files fs1) (pathOf (segs ++ [k])) = None).
  { destruct (Map_.get (files fs1) (pathOf (segs ++ [k]))) as [a|] eqn:Ea; [|reflexivity].
    exfalso. destruct G1 as (_ & G12 & _).
    destruct (G12 _ _ Ea) as [Hold|((i & Hi & Hq) & _)].
    - apply has_false in Hhas. unfold stored in Hold. congruence.
    - apply pathOf_inj in Hq; [|exact Hv|].
      + apply (f_equal (@List.length string)) in Hq.
        rewrite length_app, length_firstn in Hq. simpl in Hq. lia.
      + rewrite <- (firstn_skipn i segs) in Hvs. apply valid_app in Hvs. tauto. }
  assert (Hfr : forall a, is_Some (heap fs1 !! a) -> a <> fresh fs1).
  { intros a Ha. destruct W1 as [G _]. pose proof (g_fresh _ G a Ha). lia. }
  assert (Hpa : is_Some (heap fs1 !! p)).
  { destruct W1 as [_ C1]. apply (c_node _ _ C1 _ _ Hp). }
  split; [exact G1|]. split; [exact W1|]. split; [exact Hp|]. split; [exact Hpd|].
  split; [exact Hnone|]. split; [reflexivity|]. split; [reflexivity|]. split.
  - cbn [snd]. unfold childrenSet. rewrite deref_update.
    destruct (decide (p = fresh fs1)) as [E|_]; [exfalso; apply (Hfr _ Hpa E)|].
    rewrite deref_setFiles, deref_alloc.
    destruct (decide (fresh fs1 = fresh fs1)); [reflexivity | congruence].
  - intros a Ha. cbn [snd]. unfold childrenSet. rewrite deref_update.
    destruct (decide (p = a)) as [<-|].
    + rewrite deref_setFiles, deref_alloc.
      destruct (decide (fresh fs1 = p)) as [E|]; [exfalso; apply (Hfr _ Hpa); auto|].
      split; reflexivity.
    + rewrite deref_setFiles, deref_alloc.
      destruct (decide (fresh fs1 = a)) as [E|]; [exfalso; apply (Hfr _ Ha); auto|].
      split; reflexivity.
Qed.

Lemma ancestors_directories fs segs k :
  wellFormed fs -> List.forallb validName (segs ++ [k]) = true ->
  (forall q a, Map_.get (files fs) q = Some a ->
     JS.startsWith (pathOf (segs ++ [k])) (JS.cat q "/") = true -> isDirectory fs a = true) ->
  forall i a, i <= List.length segs ->
    stored fs (pathOf (List.firstn i segs)) a -> isDirectory fs a = true.
Proof.
  intros [G C] Hv Hanc i a Hi Ha. apply valid_snoc in Hv as Hv'. destruct Hv' as [Hvs Hk].
  destruct i as [|i].
  - simpl in Ha. rewrite (c_fun _ _ C _ _ _ Ha (c_root _ _ C)). apply (c_root_dir _ _ C).
  - apply (Hanc _ a Ha). apply startsWith_below.
    + rewrite <- (firstn_skipn (S i) segs) in Hvs. apply valid_app in Hvs. tauto.
    + destruct segs; [simpl in Hi; lia | discriminate].
    + exists (segs ++ [k]). auto.
    + exists (List.skipn (S i) segs ++ [k]). split; [|split].
      * apply valid_snoc. split; [|exact Hk].
        rewrite <- (firstn_skipn (S i) segs) in Hvs. apply valid_app in Hvs. tauto.
      * destruct (List.skipn (S i) segs); discriminate.
      * rewrite app_assoc, firstn_skipn. reflexivity.
Qed.

Lemma above_is_directory fs segs k a q :
  wellFormed fs -> List.forallb validName (segs ++ [k]) = true ->
  stored fs (pathOf (segs ++ [k])) a ->
  cleanPath q = true -> JS.startsWith (pathOf (segs ++ [k])) (JS.cat q "/") = true ->
  exists b, Map_.get (files fs) q = Some b /\ isDirectory fs b = true.
Proof.
  intros [G C] Hv Ha Hq Hs.
  destruct (cleanPath_pathOf _ Hq) as (sq & Hsq & ->).
  destruct sq as [|x sq].
  - exists (root fs). split; [apply (c_root _ _ C) | apply (c_root_dir _ _ C)].
  - apply startsWith_below in Hs; [|exact Hsq | discriminate | exists (segs ++ [k]); auto].
    destruct Hs as (t & Ht & Hne & E). destruct t as [|y t]; [congruence|].
    rewrite E in Ha.
    destruct (coherent_child_dir _ _ (x :: sq) y t a C) as (b & c & Hb & Hbd & _);
      [apply valid_app; auto | exact Ha |].
    exists b. auto.
Qed.

(** ** [createFile]: what it creates, and when it refuses *)

(** X1. In a tree that [built] admits (built from a new instance by the
    methods, each path to create normalizing to a normal path and no
    directory being renamed into its own subtree), let [path] normalize to a
    normal path that is not in the tree, and let every node of the tree
    above it be a directory. Then [createFile] returns a node; afterwards
    the file is read with the content given, every path above it is a
    directory of the tree, every other path is read as before, and what
    existed still exists. *)
Theorem createFile_creates_file_and_parents
    (fs : VirtualFileSystem) (path content : string) :
  built fs ->
  cleanPath (normalizePath path) = true ->
  exists_ fs path = false ->
  (forall q a, Map_.get (files fs) q = Some a ->
     JS.startsWith (normalizePath path) (JS.cat q "/") = true -> isDirectory fs a = true) ->
  is_Some (fst (createFile fs path content))
  /\ readFile (snd (createFile fs path content)) path = Some content
  /\ (forall q, cleanPath q = true ->
        JS.startsWith (normalizePath path) (JS.cat q "/") = true ->
        exists b, Map_.get (files (snd (createFile fs path content))) q = Some b
                  /\ isDirectory (snd (createFile fs path content)) b = true)
  /\ (forall q, normalizePath q <> normalizePath path ->
        readFile (snd (createFile fs path content)) q = readFile fs q)
  /\ (forall q, exists_ fs q = true -> exists_ (snd (createFile fs path content)) q = true).
Proof.
  intros B Hcp Hex Hanc. pose proof (built_wellFormed _ B) as WF. pose proof WF as [G C].
  pose proof (cleanPath_cleanSegs _ Hcp) as Hclean.
  assert (HN : normalizePath path <> "/").
  { intros E. apply exists_false in Hex. rewrite E in Hex.
    pose proof (c_root _ _ C) as Hr. unfold stored in Hr. congruence. }
  destruct (cleanSegs_split _ Hclean HN) as (segs & k & Hvs & Hk & HNeq & _).
  assert (Hv : List.forallb validName (segs ++ [k]) = true) by (apply valid_snoc; auto).
  pose proof (createFile_wellFormed fs path content WF Hclean) as WF'.
  unfold exists_ in Hex. rewrite HNeq in Hex, Hanc.
  destruct (createFile_facts fs path content segs k WF Hv HNeq Hex)
    as [[_ Hno]|(fs1 & parent & G1 & W1 & Hp & Hpd & Hnone & Hfst & Hfiles & Hnew & Hold)].
  { exfalso. destruct (createAncestors_spec segs fs [] WF Hvs) as (_ & _ & S1).
    change (rawPath []) with EmptyString in S1. simpl app in S1.
    destruct S1 as (a & Ha & Had).
    - exists (root fs). apply (c_root _ _ C).
    - apply (ancestors_directories fs segs k WF Hv Hanc).
    - rewrite (Hno a Ha) in Had. discriminate. }
  set (fs' := snd (createFile fs path content)) in *.
  assert (Hst : stored fs' (pathOf (segs ++ [k])) (fresh fs1)).
  { unfold stored. rewrite Hfiles. apply get_set_eq. }
  split; [rewrite Hfst; eauto|]. split; [|split; [|split]].
  - rewrite readFile_stored, HNeq. unfold stored in Hst. rewrite Hst.
    unfold isFile, contentOrEmpty. rewrite Hnew. simpl.
    unfold JS.truthy. destruct (String.eqb content EmptyString) eqn:E; [|reflexivity].
    apply String.eqb_eq in E. subst. reflexivity.
  - intros q Hq Hs. rewrite HNeq in Hs.
    apply (above_is_directory fs' segs k (fresh fs1) q WF' Hv Hst Hq Hs).
  - intros q Hq. rewrite <- (grows_readFile _ fs fs1 q WF G1).
    apply readFile_same.
    + rewrite Hfiles. apply get_set_ne. rewrite <- HNeq. congruence.
    + intros a Ha. destruct W1 as [_ C1]. apply Hold, (c_node _ _ C1 _ _ Ha).
  - intros q Hq. apply (grows_exists _ fs fs1 q G1) in Hq.
    apply exists_stored in Hq as [a Ha]. apply exists_stored. exists a.
    unfold stored. rewrite Hfiles. rewrite get_set_ne; [exact Ha|].
    intros E. unfold stored in Ha. rewrite <- E in Ha. congruence.
Qed.

Lemma createFile_creates_file_and_parents_witness :
  let fs' := snd (createFile constructor "/src/lib/a.ts" "x") in
  is_Some (fst (createFile constructor "/src/lib/a.ts" "x"))
  /\ readFile fs' "/src/lib/a.ts" = Some "x"
  /\ (forall q, cleanPath q = true ->
        JS.startsWith (normalizePath "/src/lib/a.ts") (JS.cat q "/") = true ->
        exists b, Map_.get (files fs') q = Some b /\ isDirectory fs' b = true)
  /\ (forall q, normalizePath q <> normalizePath "/src/lib/a.ts" ->
        readFile fs' q = readFile constructor q)
  /\ (forall q, exists_ constructor q = true -> exists_ fs' q = true).
Proof.
  apply (createFile_creates_file_and_parents constructor "/src/lib/a.ts" "x").
  - apply built_new.
  - vm_compute. reflexivity.
  - vm_compute. reflexivity.
  - intros q a Hq _. apply get_singleton_inv in Hq as [_ ->]. reflexivity.
Defined.

Lemma createFile_refusal fs path content :
  wellFormed fs -> cleanSegs (normalizePath path) ->
  (exists_ fs path = true
   \/ (exists q a, Map_.get (files fs) q = Some a
         /\ JS.startsWith (normalizePath path) (JS.cat q "/") = true
         /\ isDirectory fs a = false) ->
   fst (createFile fs path content) = None)
  /\ (fst (createFile fs path content) = None -> snd (createFile fs path content) = fs).
Proof.
  intros WF Hclean. pose proof WF as [G C].
  destruct (exists_ fs path) eqn:Hex.
  { unfold exists_ in Hex. unfold createFile. rewrite Hex. split; reflexivity. }
  assert (HN : normalizePath path <> "/").
  { intros E. apply exists_false in Hex. rewrite E in Hex.
    pose proof (c_root _ _ C) as Hr. unfold stored in Hr. congruence. }
  destruct (cleanSegs_split _ Hclean HN) as (segs & k & Hvs & Hk & HNeq & _).
  assert (Hv : List.forallb validName (segs ++ [k]) = true) by (apply valid_snoc; auto).
  pose proof (createFile_wellFormed fs path content WF Hclean) as WF'.
  unfold exists_ in Hex. rewrite HNeq in Hex.
  destruct (createFile_facts fs path content segs k WF Hv HNeq Hex)
    as [[E _]|(fs1 & parent & G1 & W1 & Hp & Hpd & Hnone & Hfst & Hfiles & Hnew & Hold)].
  { rewrite E. split; reflexivity. }
  split; [|rewrite Hfst; discriminate].
  intros [H|(q & a & Hq & Hs & Hd)]; [discriminate|]. exfalso.
  set (fs' := snd (createFile fs path content)) in *.
  assert (Hst : stored fs' (pathOf (segs ++ [k])) (fresh fs1)).
  { unfold stored. rewrite Hfiles. apply get_set_eq. }
  destruct (c_node _ _ C _ _ Hq) as (Ha & (sq & Hsq & ->) & _).
  rewrite HNeq in Hs.
  assert (Hq1 : stored fs1 (pathOf sq) a) by (apply G1, Hq).
  assert (Hq' : stored fs' (pathOf sq) a).
  { unfold stored. rewrite Hfiles, get_set_ne; [exact Hq1|].
    intros E. unfold stored in Hq1. rewrite <- E in Hq1. congruence. }
  assert (Hd' : isDirectory fs' a = false).
  { destruct G1 as (_ & _ & G13). destruct (G13 a Ha) as (Ha1 & Ht1 & _).
    destruct (Hold a Ha1) as [Ht _]. unfold isDirectory in *. rewrite Ht, Ht1. exact Hd. }
  destruct WF' as [_ C'].
  destruct sq as [|x sq].
  - rewrite (c_fun _ _ C' _ _ _ Hq' (c_root _ _ C')) in Hd'.
    rewrite (c_root_dir _ _ C') in Hd'. discriminate.
  - apply (nothing_below_file _ fs' (x :: sq) a _ (fresh fs1) C' Hsq Hq' Hd' Hst).
    apply startsWith_below in Hs; [exact Hs | exact Hsq | discriminate | exists (segs ++ [k]); auto].
Qed.

(** X2. In a tree that [built] admits (built from a new instance by the
    methods, each path to create normalizing to a normal path and no
    directory being renamed into its own subtree), [createFile] on a path
    that normalizes to a normal path returns no node when the path is in the
    tree, and when a node of the tree above the path is a file; and whenever
    it returns no node, the instance is as it was: no directory has been
    created on the way. *)
Theorem createFile_refused_changes_nothing
    (fs : VirtualFileSystem) (path content : string) :
  built fs ->
  cleanPath (normalizePath path) = true ->
  (exists_ fs path = true
   \/ (exists q a, Map_.get (files fs) q = Some a
         /\ JS.startsWith (normalizePath path) (JS.cat q "/") = true
         /\ isDirectory fs a = false) ->
   fst (createFile fs path content) = None)
  /\ (fst (createFile fs path content) = None -> snd (createFile fs path content) = fs).
Proof.
  intros B Hcp.
  apply createFile_refusal; [apply built_wellFormed, B | apply cleanPath_cleanSegs, Hcp].
Qed.

Lemma createFile_refused_changes_nothing_witness :
  let fs := snd (createFile constructor "/f" "x") in
  (exists_ fs "/f/a/b.ts" = true
   \/ (exists q a, Map_.get (files fs) q = Some a
         /\ JS.startsWith (normalizePath "/f/a/b.ts") (JS.cat q "/") = true
         /\ isDirectory fs a = false) ->
   fst (createFile fs "/f/a/b.ts" "y") = None)
  /\ (fst (createFile fs "/f/a/b.ts" "y") = None -> snd (createFile fs "/f/a/b.ts" "y") = fs).
Proof.
  intros fs. apply (createFile_refused_changes_nothing fs "/f/a/b.ts" "y").
  - apply (built_step constructor (OMutation (MCreateFile "/f" "x")) 0 fs built_new);
      [vm_compute; reflexivity | reflexivity].
  - vm_compute. reflexivity.
Defined.

(** ** [createDirectory] *)

Lemma createDirectory_success fs path p :
  Map_.has (files fs) (normalizePath path) = false ->
  stored fs (getParentPath (normalizePath path)) p -> isDirectory fs p = true ->
  createDirectory fs path
  = (Some (fresh fs),
     childrenSet
       (setFiles
          (snd (alloc fs (FileNode.Build TDirectory (getFileName (normalizePath path))
                            (normalizePath path) None (Some Map_.empty))))
          (Map_.set (files fs) (normalizePath path) (fresh fs)))
       p (getFileName (normalizePath path)) (fresh fs)).
Proof.
  intros Hhas Hp Hd. unfold createDirectory, getParentNode. unfold stored in Hp.
  rewrite Hhas, Hp, Hd. reflexivity.
Qed.

(** X3. In a tree that [built] admits (built from a new instance by the
    methods, each path to create normalizing to a normal path and no
    directory being renamed into its own subtree), [createDirectory] on a
    path that normalizes to a normal path creates the directory exactly when
    the path is not in the tree and its parent path is a directory of the
    tree: missing parents are not created. When it returns no node the
    instance is as it was; when it returns one, the new directory lists no
    child, the path exists, and every other path exists and is read as
    before. *)
Theorem createDirectory_needs_parent (fs : VirtualFileSystem) (path : string) :
  built fs ->
  cleanPath (normalizePath path) = true ->
  (is_Some (fst (createDirectory fs path)) <->
     exists_ fs path = false
     /\ exists p, Map_.get (files fs) (getParentPath (normalizePath path)) = Some p
                  /\ isDirectory fs p = true)
  /\ (fst (createDirectory fs path) = None -> snd (createDirectory fs path) = fs)
  /\ (is_Some (fst (createDirectory fs path)) ->
      listDirectory (snd (createDirectory fs path)) path = Some []
      /\ (forall q, readFile (snd (createDirectory fs path)) q = readFile fs q)
      /\ (forall q, exists_ (snd (createDirectory fs path)) q
                    = exists_ fs q || String.eqb (normalizePath q) (normalizePath path))).
Proof.
  intros B Hcp. pose proof (built_wellFormed _ B) as WF. pose proof WF as [G C].
  pose proof (cleanPath_cleanSegs _ Hcp) as Hclean.
  destruct (createDirectory_cases fs path) as [[E Hwhy]|(Hhas & Hfst & p & Hp & Hpd)].
  - rewrite E. simpl. split; [|split; [reflexivity|]].
    + split; [intros [x Hx]; discriminate|]. intros (Hex & p & Hp & Hpd). exfalso.
      destruct Hwhy as [Hhas|Hno].
      * unfold exists_ in Hex. congruence.
      * rewrite (Hno p Hp) in Hpd. discriminate.
    + intros [x Hx]. discriminate.
  - rewrite Hfst. split; [|split; [discriminate|]].
    + split; [|eauto]. intros _. split; [exact Hhas | eauto].
    + intros _. rewrite (createDirectory_success fs path p Hhas Hp Hpd). cbn [snd].
      set (N := normalizePath path) in *.
      set (nd := FileNode.Build TDirectory (getFileName N) N None (Some Map_.empty)).
      set (fs' := childrenSet _ p (getFileName N) (fresh fs)).
      assert (Hpa : p <> fresh fs).
      { destruct (c_node _ _ C _ _ Hp) as (Ha & _). pose proof (g_fresh _ G _ Ha). lia. }
      assert (Hnew : deref fs' (fresh fs) = nd).
      { unfold fs', childrenSet. rewrite deref_update.
        destruct (decide (p = fresh fs)); [congruence|].
        rewrite deref_setFiles, deref_alloc.
        destruct (decide (fresh fs = fresh fs)); [reflexivity | congruence]. }
      assert (Hfiles : files fs' = Map_.set (files fs) N (fresh fs)) by reflexivity.
      split; [|split].
      * unfold listDirectory. fold N. rewrite Hfiles, get_set_eq.
        unfold isDirectory. rewrite Hnew. reflexivity.
      * intros q. destruct (createDirectory_spec fs path WF Hclean) as (_ & Gr & _).
        rewrite (createDirectory_success fs path p Hhas Hp Hpd) in Gr. cbn [snd] in Gr.
        apply (grows_readFile _ fs fs' q WF Gr).
      * intros q. unfold exists_, Map_.has. rewrite Hfiles, get_set.
        rewrite String.eqb_sym.
        destruct (String.eqb (normalizePath q) N); [|rewrite orb_false_r; reflexivity].
        rewrite orb_true_r. reflexivity.
Qed.

Lemma createDirectory_needs_parent_witness :
  (is_Some (fst (createDirectory constructor "/a/b")) <->
     exists_ constructor "/a/b" = false
     /\ exists p, Map_.get (files constructor) (getParentPath (normalizePath "/a/b")) = Some p
                  /\ isDirectory constructor p = true)
  /\ (fst (createDirectory constructor "/a/b") = None ->
      snd (createDirectory constructor "/a/b") = constructor)
  /\ (is_Some (fst (createDirectory constructor "/a/b")) ->
      listDirectory (snd (createDirectory constructor "/a/b")) "/a/b" = Some []
      /\ (forall q, readFile (snd (createDirectory constructor "/a/b")) q
                    = readFile constructor q)
      /\ (forall q, exists_ (snd (createDirectory constructor "/a/b")) q
                    = exists_ constructor q
                      || String.eqb (normalizePath q) (normalizePath "/a/b"))).
Proof.
  apply (createDirectory_needs_parent constructor "/a/b");
    [apply built_new | vm_compute; reflexivity].
Defined.


(** ** [updateFile] *)

Lemma readFile_is_file fs q :
  (exists c, readFile fs q = Some c)
  <-> exists a, Map_.get (files fs) (normalizePath q) = Some a /\ isFile fs a = true.
Proof.
  rewrite readFile_stored. destruct (Map_.get (files fs) (normalizePath q)) as [a|].
  - destruct (isFile fs a) eqn:E.
    + split; eauto.
    + split; [intros [c Hc]; discriminate|]. intros (a' & Ha' & Hf). congruence.
  - split; [intros [c Hc]; discriminate|]. intros (a' & Ha' & _). discriminate.
Qed.

Lemma updateFile_cases fs path content :
  updateFile fs path content = (false, fs) /\ readFile fs path = None
  \/ exists file,
       Map_.get (files fs) (normalizePath path) = Some file /\ isFile fs file = true
       /\ updateFile fs path content
          = (true, update fs file (fun n => FileNode.setContent n content)).
Proof.
  unfold updateFile. rewrite readFile_stored.
  destruct (Map_.get (files fs) (normalizePath path)) as [file|]; [|left; auto].
  destruct (isFile fs file) eqn:E; simpl; [right; eauto | left; auto].
Qed.

Lemma updateFile_frame fs path content q :
  wellFormed fs -> normalizePath q <> normalizePath path ->
  readFile (snd (updateFile fs path content)) q = readFile fs q.
Proof.
  intros [G C] Hne.
  destruct (updateFile_cases fs path content) as [[-> _]|(file & Hf & _ & ->)]; [reflexivity|].
  cbn [snd]. apply readFile_same; [reflexivity|].
  intros a Ha. rewrite deref_update.
  destruct (decide (file = a)) as [<-|]; [|auto].
  exfalso. apply Hne. apply (stored_inj _ _ _ _ G Ha Hf).
Qed.

Lemma updateFile_exists fs path content q :
  exists_ (snd (updateFile fs path content)) q = exists_ fs q.
Proof.
  destruct (updateFile_cases fs path content) as [[-> _]|(file & _ & _ & ->)]; reflexivity.
Qed.

(** X4. In a tree that [built] admits (built from a new instance by the
    methods, each path to create normalizing to a normal path and no
    directory being renamed into its own subtree), [updateFile] returns true
    exactly when the path is a file; then the file is read with the new
    content and every other path is read as before; when it returns false
    the instance is as it was. The paths that exist are the same in both
    cases. *)
Theorem updateFile_changes_one_file (fs : VirtualFileSystem) (path content : string) :
  built fs ->
  (fst (updateFile fs path content) = true <-> exists c, readFile fs path = Some c)
  /\ (fst (updateFile fs path content) = false -> snd (updateFile fs path content) = fs)
  /\ (fst (updateFile fs path content) = true ->
      readFile (snd (updateFile fs path content)) path = Some content)
  /\ (forall q, normalizePath q <> normalizePath path ->
        readFile (snd (updateFile fs path content)) q = readFile fs q)
  /\ (forall q, exists_ (snd (updateFile fs path content)) q = exists_ fs q).
Proof.
  intros B. pose proof (built_wellFormed _ B) as WF.
  split; [|split; [|split; [|split]]].
  - destruct (updateFile_cases fs path content) as [[-> Hr]|(file & Hf & Hfile & ->)]; simpl.
    + rewrite Hr. split; [discriminate | intros [c Hc]; discriminate].
    + split; [|reflexivity]. intros _. apply readFile_is_file. eauto.
  - destruct (updateFile_cases fs path content) as [[-> _]|(file & _ & _ & ->)];
      [reflexivity | discriminate].
  - destruct (updateFile_cases fs path content) as [[-> _]|(file & Hf & Hfile & ->)];
      [discriminate|].
    intros _. apply (readFile_updateFile fs path file content Hf Hfile).
  - intros q Hq. apply updateFile_frame; assumption.
  - apply updateFile_exists.
Qed.

Lemma updateFile_changes_one_file_witness :
  let fs := snd (createFile constructor "/a.txt" "old") in
  (fst (updateFile fs "/a.txt" "new") = true <-> exists c, readFile fs "/a.txt" = Some c)
  /\ (fst (updateFile fs "/a.txt" "new") = false -> snd (updateFile fs "/a.txt" "new") = fs)
  /\ (fst (updateFile fs "/a.txt" "new") = true ->
      readFile (snd (updateFile fs "/a.txt" "new")) "/a.txt" = Some "new")
  /\ (forall q, normalizePath q <> normalizePath "/a.txt" ->
        readFile (snd (updateFile fs "/a.txt" "new")) q = readFile fs q)
  /\ (forall q, exists_ (snd (updateFile fs "/a.txt" "new")) q = exists_ fs q).
Proof.
  intros fs. apply (updateFile_changes_one_file fs "/a.txt" "new").
  apply (built_step constructor (OMutation (MCreateFile "/a.txt" "old")) 0 fs built_new);
    [vm_compute; reflexivity | reflexivity].
Defined.

(** ** [replaceInFile]: what it leaves alone *)

(** X5. In a tree that [built] admits (built from a new instance by the
    methods, each path to create normalizing to a normal path and no
    directory being renamed into its own subtree), whatever [replaceInFile]
    answers, every path other than the one given is read as before and the
    paths that exist are the same; and when the path is not a file, or the
    text searched is empty or does not occur in the file, the instance is as
    it was. *)
Theorem replaceInFile_touches_one_file
    (fs : VirtualFileSystem) (path oldStr newStr msg : string) (fs' : VirtualFileSystem) :
  built fs ->
  replaceInFile fs path oldStr newStr = Some (msg, fs') ->
  (forall q, normalizePath q <> normalizePath path -> readFile fs' q = readFile fs q)
  /\ (forall q, exists_ fs' q = exists_ fs q)
  /\ (readFile fs path = None \/ oldStr = EmptyString
      \/ (exists c, readFile fs path = Some c /\ JS.includes c oldStr = false) ->
      fs' = fs).
Proof.
  intros B H. pose proof (built_wellFormed _ B) as WF.
  unfold replaceInFile in H. unfold getNode in H.
  destruct (Map_.get (files fs) (normalizePath path)) as [file|] eqn:Hf.
  2:{ injection H as _ <-. auto. }
  destruct (isFile fs file) eqn:Hfile; simpl in H.
  2:{ injection H as _ <-. auto. }
  assert (Hr : readFile fs path = Some (contentOrEmpty (deref fs file))).
  { rewrite readFile_stored, Hf, Hfile. reflexivity. }
  rewrite Hr in H.
  destruct (negb (JS.truthy oldStr) || negb (JS.includes (contentOrEmpty (deref fs file)) oldStr))
    eqn:Hno.
  { injection H as _ <-. auto. }
  destruct (RegExp (escapeRegExp oldStr)) as [re|]; [|discriminate].
  injection H as _ <-. split; [|split].
  - intros q Hq. apply updateFile_frame; assumption.
  - apply updateFile_exists.
  - apply orb_false_iff in Hno as [H1 H2]. apply negb_false_iff in H1, H2.
    intros [E|[->|(c & Hc & Hi)]]; [congruence | discriminate | congruence].
Qed.

Lemma replaceInFile_touches_one_file_witness :
  let fs := snd (createFile constructor "/a.txt" "foo bar") in
  (forall q, normalizePath q <> normalizePath "/a.txt" ->
     readFile (snd (updateFile fs "/a.txt" "baz bar")) q = readFile fs q)
  /\ (forall q, exists_ (snd (updateFile fs "/a.txt" "baz bar")) q = exists_ fs q)
  /\ (readFile fs "/a.txt" = None \/ "foo" = EmptyString
      \/ (exists c, readFile fs "/a.txt" = Some c /\ JS.includes c "foo" = false) ->
      snd (updateFile fs "/a.txt" "baz bar") = fs).
Proof.
  intros fs.
  apply (replaceInFile_touches_one_file fs "/a.txt" "foo" "baz"
           "Replaced 1 occurrence(s) of the string in /a.txt").
  - apply (built_step constructor (OMutation (MCreateFile "/a.txt" "foo bar")) 0 fs built_new);
      [vm_compute; reflexivity | reflexivity].
  - vm_compute. reflexivity.
Defined.


(** ** Paths at or below a path, as texts *)

Lemma under_atOrBelow so q :
  List.forallb validName so = true -> so <> [] -> under so q ->
  atOrBelow (pathOf so) q = true.
Proof.
  intros Hso Hne Hu. unfold atOrBelow.
  destruct (under_cases _ _ Hso Hu) as [->|Hb]; [rewrite String.eqb_refl; reflexivity|].
  apply orb_true_iff. right. apply startsWith_below; try assumption.
  destruct Hb as (t & Ht & _ & ->). exists (so ++ t). split; [apply valid_app; auto | reflexivity].
Qed.

Lemma atOrBelow_under so q :
  List.forallb validName so = true -> so <> [] -> cleanSegs q ->
  atOrBelow (pathOf so) q = true -> under so q.
Proof.
  intros Hso Hne Hq H. unfold atOrBelow in H. apply orb_true_iff in H as [H|H].
  - apply String.eqb_eq in H. subst q. apply under_refl.
  - apply below_under. apply startsWith_below; assumption.
Qed.

(** ** [deleteFile] *)

Lemma deleteFile_refused fuel fs path :
  Map_.get (files fs) (normalizePath path) = None \/ normalizePath path = "/" ->
  deleteFile (S fuel) fs path = Some (false, fs).
Proof.
  intros H. rewrite deleteFile_eq. cbv zeta.
  destruct (Map_.get (files fs) (normalizePath path)) as [file|]; [|reflexivity].
  destruct H as [H|H]; [discriminate|]. rewrite H. reflexivity.
Qed.

Lemma deleteFile_removes fs path file :
  wellFormed fs -> Map_.get (files fs) (normalizePath path) = Some file ->
  normalizePath path <> "/" ->
  exists segs k fs' fuel0,
    normalizePath path = pathOf (segs ++ [k])
    /\ List.forallb validName (segs ++ [k]) = true
    /\ (forall fuel, fuel0 <= fuel -> deleteFile fuel fs path = Some (true, fs'))
    /\ removedAt segs k fs fs'.
Proof.
  intros WF Hfile HN. pose proof WF as [G C].
  destruct (c_node _ _ C _ _ Hfile) as (_ & Hclean & _).
  destruct (cleanSegs_split _ Hclean HN) as (segs & k & Hvs & Hk & HNeq & _).
  assert (Hv : List.forallb validName (segs ++ [k]) = true) by (apply valid_snoc; auto).
  destruct (fits_exists fs) as (D & W & Hfit).
  rewrite HNeq in Hfile.
  set (fuel0 := S (D - String.length (pathOf (segs ++ [k])) + W)).
  destruct (deleteFile_spec D W fuel0 fs segs k file WF Hfit Hv Hfile ltac:(unfold fuel0; lia))
    as (fs' & Hdel & Hrem).
  exists segs, k, fs', fuel0. split; [exact HNeq|]. split; [exact Hv|]. split; [|exact Hrem].
  intros fuel Hle.
  assert (Hsame : forall f, deleteFile f fs path = deleteFile f fs (pathOf (segs ++ [k]))).
  { intros [|f]; [reflexivity|]. rewrite !deleteFile_eq. cbv zeta.
    rewrite normalizePath_pathOf by exact Hv. rewrite HNeq. reflexivity. }
  rewrite Hsame. apply (deleteFile_mono _ _ _ _ Hdel fuel Hle).
Qed.

(** X6. In a tree that [built] admits (built from a new instance by the
    methods, each path to create normalizing to a normal path and no
    directory being renamed into its own subtree), [deleteFile] on a path of
    the tree other than the root returns true, given enough fuel; afterwards
    the paths that exist are those that existed and are not the path or
    below it, and every path that is not the path or below it is read as
    before. *)
Theorem deleteFile_removes_subtree (fs : VirtualFileSystem) (path : string) :
  built fs ->
  exists_ fs path = true -> normalizePath path <> "/" ->
  exists fs' fuel0,
    (forall fuel, fuel0 <= fuel -> deleteFile fuel fs path = Some (true, fs'))
    /\ (forall q, exists_ fs' q
                  = exists_ fs q && negb (atOrBelow (normalizePath path) (normalizePath q)))
    /\ (forall q, atOrBelow (normalizePath path) (normalizePath q) = false ->
          readFile fs' q = readFile fs q).
Proof.
  intros B Hex HN. pose proof (built_wellFormed _ B) as WF. pose proof WF as [G C].
  apply exists_stored in Hex as [file Hfile].
  destruct (deleteFile_removes fs path file WF Hfile HN)
    as (segs & k & fs' & fuel0 & HNeq & Hv & Hrun & WF' & Htab & Hd & Hpar).
  exists fs', fuel0. split; [exact Hrun|].
  assert (Hne : segs ++ [k] <> []) by (destruct segs; discriminate).
  rewrite HNeq.
  assert (Hiff : forall q a, stored fs q a ->
            (atOrBelow (pathOf (segs ++ [k])) q = true <-> under (segs ++ [k]) q)).
  { intros q a Hq. destruct (c_node _ _ C _ _ Hq) as (_ & Hcq & _). split.
    - apply atOrBelow_under; assumption.
    - apply under_atOrBelow; assumption. }
  split.
  - intros q. unfold exists_, Map_.has.
    destruct (Map_.get (files fs) (normalizePath q)) as [a|] eqn:Ea.
    + destruct (atOrBelow (pathOf (segs ++ [k])) (normalizePath q)) eqn:Eb; simpl.
      * destruct (Map_.get (files fs') (normalizePath q)) as [a'|] eqn:Ea'; [|reflexivity].
        exfalso. apply Htab in Ea' as [_ Hnu]. apply Hnu. apply (Hiff _ a Ea), Eb.
      * assert (Hst : stored fs' (normalizePath q) a).
        { apply Htab. split; [exact Ea|]. intros Hu. apply (Hiff _ a Ea) in Hu. congruence. }
        unfold stored in Hst. rewrite Hst. reflexivity.
    + simpl. destruct (Map_.get (files fs') (normalizePath q)) as [a'|] eqn:Ea'; [|reflexivity].
      apply Htab in Ea' as [Hq _]. unfold stored in Hq. congruence.
  - intros q Hq. rewrite !readFile_stored.
    destruct (Map_.get (files fs) (normalizePath q)) as [a|] eqn:Ea.
    + assert (Hst : stored fs' (normalizePath q) a).
      { apply Htab. split; [exact Ea|]. intros Hu. apply (Hiff _ a Ea) in Hu. congruence. }
      unfold stored in Hst. rewrite Hst.
      assert (Hsame : FileNode.type (deref fs' a) = FileNode.type (deref fs a)
                      /\ FileNode.content (deref fs' a) = FileNode.content (deref fs a)).
      { destruct (String.eqb (normalizePath q) (pathOf segs)) eqn:E.
        - apply String.eqb_eq in E. rewrite E in Ea. rewrite (Hpar a Ea). auto.
        - apply String.eqb_neq in E. rewrite (Hd _ a Hst E). auto. }
      destruct Hsame as [Ht Hc]. destruct (isFile_type fs a fs' a Ht) as [-> _].
      rewrite (contentOrEmpty_content _ _ Hc). reflexivity.
    + destruct (Map_.get (files fs') (normalizePath q)) as [a'|] eqn:Ea'; [|reflexivity].
      apply Htab in Ea' as [Hq' _]. unfold stored in Hq'. congruence.
Qed.

Lemma deleteFile_removes_subtree_witness :
  let fs := snd (createFile (snd (createFile constructor "/src/a.ts" "a")) "/b.ts" "b") in
  exists fs' fuel0,
    (forall fuel, fuel0 <= fuel -> deleteFile fuel fs "/src" = Some (true, fs'))
    /\ (forall q, exists_ fs' q
                  = exists_ fs q && negb (atOrBelow (normalizePath "/src") (normalizePath q)))
    /\ (forall q, atOrBelow (normalizePath "/src") (normalizePath q) = false ->
          readFile fs' q = readFile fs q).
Proof.
  intros fs. apply (deleteFile_removes_subtree fs "/src").
  - apply (built_step (snd (createFile constructor "/src/a.ts" "a"))
             (OMutation (MCreateFile "/b.ts" "b")) 0 fs);
      [|vm_compute; reflexivity | reflexivity].
    apply (built_step constructor (OMutation (MCreateFile "/src/a.ts" "a")) 0 _ built_new);
      [vm_compute; reflexivity | reflexivity].
  - vm_compute. reflexivity.
  - vm_compute. discriminate.
Defined.

(** X7. In a tree that [built] admits (built from a new instance by the
    methods, each path to create normalizing to a normal path and no
    directory being renamed into its own subtree), whenever [deleteFile]
    returns, it returns false exactly when the path is not in the tree or is
    the root, and then the instance is as it was. *)
Theorem deleteFile_refuses_missing_and_root
    (fuel : nat) (fs : VirtualFileSystem) (path : string) (b : bool) (fs' : VirtualFileSystem) :
  built fs ->
  deleteFile fuel fs path = Some (b, fs') ->
  (b = false <-> exists_ fs path = false \/ normalizePath path = "/")
  /\ (b = false -> fs' = fs).
Proof.
  intros B H. pose proof (built_wellFormed _ B) as WF.
  destruct fuel as [|fuel]; [discriminate|].
  destruct (Map_.get (files fs) (normalizePath path)) as [file|] eqn:Hfile.
  - destruct (String.eqb (normalizePath path) "/") eqn:HN.
    + apply String.eqb_eq in HN. rewrite (deleteFile_refused fuel fs path) in H by auto.
      injection H as <- <-. split; [|reflexivity]. split; auto.
    + apply String.eqb_neq in HN.
      destruct (deleteFile_removes fs path file WF Hfile HN)
        as (segs & k & fs1 & fuel0 & _ & _ & Hrun & _).
      pose proof (deleteFile_mono _ _ _ _ H (Nat.max (S fuel) fuel0) ltac:(lia)) as H1.
      rewrite (Hrun (Nat.max (S fuel) fuel0) ltac:(lia)) in H1. injection H1 as <- <-.
      split; [|discriminate]. split; [discriminate|].
      intros [E|E]; [|congruence]. apply exists_false in E. congruence.
  - rewrite (deleteFile_refused fuel fs path) in H by auto. injection H as <- <-.
    split; [|reflexivity]. split; [|reflexivity]. intros _. left. apply exists_false, Hfile.
Qed.

Lemma deleteFile_refuses_missing_and_root_witness :
  (false = false <-> exists_ constructor "/nowhere" = false \/ normalizePath "/nowhere" = "/")
  /\ (false = false -> constructor = constructor).
Proof.
  apply (deleteFile_refuses_missing_and_root 1 constructor "/nowhere" false constructor);
    [apply built_new | vm_compute; reflexivity].
Defined.


(** ** [rename]: when it refuses, and what it leaves alone *)

Lemma ancestorsFor_blocked fs sn' kn :
  wellFormed fs -> List.forallb validName (sn' ++ [kn]) = true ->
  (exists a, stored (ancestorsFor fs (pathOf (sn' ++ [kn]))) (pathOf sn') a
             /\ isDirectory (ancestorsFor fs (pathOf (sn' ++ [kn]))) a = true)
  \/ ancestorsFor fs (pathOf (sn' ++ [kn])) = fs.
Proof.
  intros WF Hv. apply valid_snoc in Hv as Hv'. destruct Hv' as [Hvs Hk].
  unfold ancestorsFor. rewrite getParentPath_snoc by exact Hv.
  destruct (exists_ fs (pathOf sn')); simpl negb; cbv iota; [right; reflexivity|].
  rewrite parts_pathOf by exact Hvs.
  apply (createAncestors_blocked sn' fs [] WF Hvs).
Qed.

Lemma renameTail_true fuel fs src b fs' : renameTail fuel fs src = Some (b, fs') -> b = true.
Proof.
  unfold renameTail. intros H.
  destruct (FileNode.children (deref fs src)); [|injection H as <- _; reflexivity].
  destruct (isDirectory fs src); [|injection H as <- _; reflexivity].
  destruct (updateChildrenPaths fuel fs src); [|discriminate]. injection H as <- _. reflexivity.
Qed.

Lemma prefixes_directories_dec fs (segs : list string) : forall n,
  (forall i a, i <= n -> stored fs (pathOf (List.firstn i segs)) a -> isDirectory fs a = true)
  \/ (exists i a, i <= n /\ stored fs (pathOf (List.firstn i segs)) a /\ isDirectory fs a = false).
Proof.
  induction n as [|n [IH|(i & a & Hi & Ha & Hf)]].
  - destruct (Map_.get (files fs) (pathOf (List.firstn 0 segs))) as [a|] eqn:E.
    + destruct (isDirectory fs a) eqn:Ed.
      * left. intros i a' Hi Ha'. assert (i = 0) by lia. subst i. unfold stored in Ha'. congruence.
      * right. exists 0, a. auto.
    + left. intros i a' Hi Ha'. assert (i = 0) by lia. subst i. unfold stored in Ha'. congruence.
  - destruct (Map_.get (files fs) (pathOf (List.firstn (S n) segs))) as [a|] eqn:E.
    + destruct (isDirectory fs a) eqn:Ed.
      * left. intros i a' Hi Ha'. destruct (Nat.eq_dec i (S n)) as [->|Hne].
        -- unfold stored in Ha'. congruence.
        -- apply (IH i a'); [lia | exact Ha'].
      * right. exists (S n), a. auto.
    + left. intros i a' Hi Ha'. destruct (Nat.eq_dec i (S n)) as [->|Hne].
      * unfold stored in Ha'. congruence.
      * apply (IH i a'); [lia | exact Ha'].
  - right. exists i, a. split; [lia | auto].
Qed.

Lemma file_above_blocks fs s t a p :
  coherent (stored fs) fs -> List.forallb validName (s ++ t) = true ->
  stored fs (pathOf s) a -> isDirectory fs a = false ->
  stored fs (pathOf (s ++ t)) p -> isDirectory fs p = false.
Proof.
  intros C Hv Ha Hd Hp. apply valid_app in Hv as Hv'. destruct Hv' as [Hs Ht].
  destruct t as [|k t].
  - rewrite app_nil_r in Hp. rewrite (c_fun _ _ C _ _ _ Hp Ha). exact Hd.
  - exfalso. apply (nothing_below_file _ _ s a (pathOf (s ++ k :: t)) p C Hs Ha Hd Hp).
    exists (k :: t). split; [exact Ht|]. split; [discriminate | reflexivity].
Qed.

Lemma firstn_length_app {A} (l t : list A) : List.firstn (List.length l) (l ++ t) = l.
Proof. induction l as [|x l IH]; [destruct t; reflexivity|]. simpl. rewrite IH. reflexivity. Qed.

Lemma prefix_of_snoc {A} (s : list A) k sq t :
  s ++ [k] = sq ++ t -> t <> [] ->
  sq = List.firstn (List.length sq) s /\ List.length sq <= List.length s.
Proof.
  intros E Hne. destruct t as [|x t] using rev_ind; [congruence|].
  rewrite app_assoc in E. apply app_inj_tail in E as [-> _].
  rewrite firstn_length_app, length_app. split; [reflexivity | lia].
Qed.

Lemma rename_refusal fs oldPath newPath :
  wellFormed fs -> cleanSegs (normalizePath newPath) ->
  (renameRefused fs oldPath newPath
   /\ forall fuel, rename fuel fs oldPath newPath = Some (false, fs))
  \/ (~ renameRefused fs oldPath newPath
      /\ forall fuel b fs', rename fuel fs oldPath newPath = Some (b, fs') -> b = true).
Proof.
  intros WF Hclean. pose proof WF as [G C]. unfold renameRefused, exists_.
  destruct (String.eqb (normalizePath oldPath) "/") eqn:ENo.
  { left. split; [left; apply String.eqb_eq, ENo|]. intros fuel. rewrite rename_eq. cbv zeta.
    rewrite ENo. reflexivity. }
  destruct (String.eqb (normalizePath newPath) "/") eqn:ENn.
  { left. split; [right; left; apply String.eqb_eq, ENn|]. intros fuel. rewrite rename_eq.
    cbv zeta. rewrite ENo, ENn. reflexivity. }
  destruct (Map_.get (files fs) (normalizePath oldPath)) as [src|] eqn:Hsrc.
  2:{ left. split; [do 2 right; left; unfold Map_.has; rewrite Hsrc; reflexivity|].
      intros fuel. rewrite rename_eq. cbv zeta. rewrite ENo, ENn, Hsrc. reflexivity. }
  destruct (Map_.has (files fs) (normalizePath newPath)) eqn:Hhas.
  { left. split; [do 3 right; left; reflexivity|].
    intros fuel. rewrite rename_eq. cbv zeta. rewrite ENo, ENn, Hsrc, Hhas. reflexivity. }
  apply String.eqb_neq in ENo as HNo0. apply String.eqb_neq in ENn as HNn0.
  destruct (c_up _ _ C _ _ Hsrc HNo0) as (oldParent & HoldParent & HoldDir & _).
  destruct (cleanSegs_split _ Hclean HNn0) as (sn' & kn & Hvs & Hk & HNn & HNnP & _).
  assert (Hvn : List.forallb validName (sn' ++ [kn]) = true) by (apply valid_snoc; auto).
  destruct (ancestorsFor_spec fs sn' kn WF Hvn) as (WF0 & Hgrows & Hparent).
  pose proof (ancestorsFor_blocked fs sn' kn WF Hvn) as Hblocked.
  rewrite <- HNn in WF0, Hgrows, Hparent, Hblocked.
  assert (Heq : forall fuel, rename fuel fs oldPath newPath =
            match Map_.get (files (ancestorsFor fs (normalizePath newPath))) (pathOf sn') with
            | None => Some (false, ancestorsFor fs (normalizePath newPath))
            | Some newParent =>
                if negb (isDirectory (ancestorsFor fs (normalizePath newPath)) newParent)
                then Some (false, ancestorsFor fs (normalizePath newPath))
                else renameTail fuel
                       (moveNode (ancestorsFor fs (normalizePath newPath)) oldParent src
                          newParent (normalizePath oldPath) (normalizePath newPath))
                       src
            end).
  { intros fuel. rewrite rename_eq. cbv zeta. rewrite ENo, ENn, Hsrc, Hhas.
    unfold getParentNode at 1. unfold stored in HoldParent. rewrite HoldParent, HoldDir.
    unfold getParentNode. rewrite HNnP. reflexivity. }
  set (fs0 := ancestorsFor fs (normalizePath newPath)) in *.
  pose proof WF0 as [G0 C0]. pose proof Hgrows as (Gr1 & Gr2 & Gr3).
  destruct (prefixes_directories_dec fs sn' (List.length sn')) as [Hall|(i & a & Hi & Ha & Hfile)].
  - right. destruct (Hparent Hall) as (p & Hp & Hpd). unfold stored in Hp. split.
    + intros [E|[E|[E|[E|(q & a & Hq & Hs & Hf)]]]]; try congruence.
      * unfold Map_.has in E. rewrite Hsrc in E. discriminate.
      * destruct (c_node _ _ C _ _ Hq) as (_ & (sq & Hsq & ->) & _).
        destruct sq as [|x sq].
        { rewrite (c_fun _ _ C _ _ _ Hq (c_root _ _ C)) in Hf.
          rewrite (c_root_dir _ _ C) in Hf. discriminate. }
        apply startsWith_below in Hs; [|exact Hsq | discriminate | exact Hclean].
        destruct Hs as (t & Ht & Hne & E). rewrite HNn in E.
        apply pathOf_inj in E; [|exact Hvn | apply valid_app; auto].
        destruct (prefix_of_snoc _ _ _ _ E Hne) as [Epre Hlen].
        rewrite Epre in Hq. rewrite (Hall _ a Hlen Hq) in Hf. discriminate.
    + intros fuel b fs' H. rewrite Heq, Hp, Hpd in H. simpl negb in H. cbv iota in H.
      apply renameTail_true in H. exact H.
  - left.
    assert (Hi0 : i <> 0).
    { intros ->. simpl in Ha. rewrite (c_fun _ _ C _ _ _ Ha (c_root _ _ C)) in Hfile.
      rewrite (c_root_dir _ _ C) in Hfile. discriminate. }
    assert (Hvi : List.forallb validName (List.firstn i sn') = true).
    { rewrite <- (firstn_skipn i sn') in Hvs. apply valid_app in Hvs. tauto. }
    assert (Hsplit : List.firstn i sn' ++ List.skipn i sn' = sn') by apply firstn_skipn.
    split.
    + do 4 right. exists (pathOf (List.firstn i sn')), a. split; [exact Ha|]. split; [|exact Hfile].
      apply startsWith_below; [exact Hvi | | exact Hclean |].
      * destruct sn' as [|x r]; [simpl in Hi; lia|]. destruct i; [congruence | discriminate].
      * exists (List.skipn i sn' ++ [kn]). split; [|split].
        -- apply valid_snoc. split; [|exact Hk].
           rewrite <- (firstn_skipn i sn') in Hvs. apply valid_app in Hvs. tauto.
        -- destruct (List.skipn i sn'); discriminate.
        -- rewrite app_assoc, Hsplit. exact HNn.
    + assert (Hblock : forall g p, coherent (stored g) g ->
                stored g (pathOf (List.firstn i sn')) a -> isDirectory g a = false ->
                stored g (pathOf sn') p -> isDirectory g p = false).
      { intros g p Cg Hga Hgf Hgp. rewrite <- Hsplit in Hgp.
        apply (file_above_blocks g (List.firstn i sn') (List.skipn i sn') a p Cg);
          [rewrite Hsplit; exact Hvs | exact Hga | exact Hgf | exact Hgp]. }
      intros fuel. rewrite Heq. destruct Hblocked as [(p & Hp & Hpd)|E].
      * exfalso.
        assert (Hf0 : isDirectory fs0 a = false).
        { destruct (c_node _ _ C _ _ Ha) as (Hheap & _).
          destruct (Gr3 a Hheap) as (_ & Ht & _).
          destruct (isFile_type fs a fs0 a Ht) as [_ ->]. exact Hfile. }
        rewrite (Hblock fs0 p C0 (Gr1 _ _ Ha) Hf0 Hp) in Hpd. discriminate.
      * fold fs0 in E. rewrite E.
        destruct (Map_.get (files fs) (pathOf sn')) as [p|] eqn:Hp; [|reflexivity].
        rewrite (Hblock fs p C Ha Hfile Hp). reflexivity.
Qed.

(** X8. In a tree that [built] admits (built from a new instance by the
    methods, each path to create normalizing to a normal path and no
    directory being renamed into its own subtree), whenever [rename] to a
    path that normalizes to a normal path returns, it returns false exactly
    when the old or the new path is the root, the old path is not in the
    tree, the new path is in the tree, or a node of the tree above the new
    path is a file; and when it returns false the instance is as it was: no
    directory has been created for the destination. *)
Theorem rename_refuses_and_changes_nothing
    (fuel : nat) (fs : VirtualFileSystem) (oldPath newPath : string)
    (b : bool) (fs' : VirtualFileSystem) :
  built fs ->
  cleanPath (normalizePath newPath) = true ->
  rename fuel fs oldPath newPath = Some (b, fs') ->
  (b = false <->
     normalizePath oldPath = "/" \/ normalizePath newPath = "/"
     \/ exists_ fs oldPath = false \/ exists_ fs newPath = true
     \/ exists q a, Map_.get (files fs) q = Some a
          /\ JS.startsWith (normalizePath newPath) (JS.cat q "/") = true
          /\ isDirectory fs a = false)
  /\ (b = false -> fs' = fs).
Proof.
  intros B Hcp H. pose proof (built_wellFormed _ B) as WF.
  destruct (rename_refusal fs oldPath newPath WF (cleanPath_cleanSegs _ Hcp))
    as [[R Hrun]|[NR Hrun]].
  - rewrite Hrun in H. injection H as <- <-. split; [|reflexivity]. split; [intros _; exact R | reflexivity].
  - rewrite (Hrun _ _ _ H). split; [|discriminate]. split; [discriminate|].
    intros R. exfalso. apply NR, R.
Qed.

Lemma rename_refuses_and_changes_nothing_witness :
  let fs := snd (createFile constructor "/a.txt" "x") in
  (false = false <->
     normalizePath "/a.txt" = "/" \/ normalizePath "/a.txt/b/c.txt" = "/"
     \/ exists_ fs "/a.txt" = false \/ exists_ fs "/a.txt/b/c.txt" = true
     \/ exists q a, Map_.get (files fs) q = Some a
          /\ JS.startsWith (normalizePath "/a.txt/b/c.txt") (JS.cat q "/") = true
          /\ isDirectory fs a = false)
  /\ (false = false -> fs = fs).
Proof.
  intros fs. apply (rename_refuses_and_changes_nothing 0 fs "/a.txt" "/a.txt/b/c.txt" false fs).
  - apply (built_step constructor (OMutation (MCreateFile "/a.txt" "x")) 0 fs built_new);
      [vm_compute; reflexivity | reflexivity].
  - vm_compute. reflexivity.
  - vm_compute. reflexivity.
Defined.

(** X9. In a tree that [built] admits (built from a new instance by the
    methods, each path to create normalizing to a normal path and no
    directory being renamed into its own subtree), when [rename] to a path
    that normalizes to a normal path and does not lie below the old path
    returns true, the old path is no longer in the tree, the new path is,
    and it is read as the old path was; every path that is neither at or
    below the old path nor at or below the new one is read as before, and is
    still in the tree when it was. *)
Theorem rename_moves_and_keeps_the_rest
    (fuel : nat) (fs : VirtualFileSystem) (oldPath newPath : string) (fs' : VirtualFileSystem) :
  built fs ->
  cleanPath (normalizePath newPath) = true ->
  JS.startsWith (normalizePath newPath) (JS.cat (normalizePath oldPath) "/") = false ->
  rename fuel fs oldPath newPath = Some (true, fs') ->
  exists_ fs' oldPath = false
  /\ exists_ fs' newPath = true
  /\ readFile fs' newPath = readFile fs oldPath
  /\ (forall q,
        atOrBelow (normalizePath oldPath) (normalizePath q) = false ->
        atOrBelow (normalizePath newPath) (normalizePath q) = false ->
        readFile fs' q = readFile fs q
        /\ (exists_ fs q = true -> exists_ fs' q = true)).
Proof.
  intros B Hcp Hout H. pose proof (built_wellFormed _ B) as WF. pose proof WF as [G C].
  pose proof (cleanPath_cleanSegs _ Hcp) as Hclean.
  assert (Hnot : ~ intoOwnSubtree fs oldPath newPath).
  { intros (a & _ & _ & Hs). congruence. }
  destruct (rename_outcome fs oldPath newPath WF Hclean Hnot)
    as [(fs1 & _ & Hrun & _)
       |(so' & ko & sn' & kn & fs1 & fuel0 & HNo & HNn & Hvo & Hvn & Hapart & Hrun & WF1 & Htab & Hsame)].
  { rewrite Hrun in H. discriminate. }
  pose proof (rename_mono _ _ _ _ _ H (Nat.max fuel fuel0) ltac:(lia)) as H1.
  rewrite (Hrun (Nat.max fuel fuel0) ltac:(lia)) in H1. injection H1 as <-.
  destruct (ancestorsFor_spec fs sn' kn WF Hvn) as (WF0 & Hgrows & _).
  rewrite <- HNn in WF0, Hgrows.
  set (fs0 := ancestorsFor fs (normalizePath newPath)) in *.
  pose proof Hgrows as (Gr1 & Gr2 & Gr3).
  assert (Hneo : so' ++ [ko] <> []) by (destruct so'; discriminate).
  assert (Hnen : sn' ++ [kn] <> []) by (destruct sn'; discriminate).
  assert (Hsrc : exists src, stored fs (pathOf (so' ++ [ko])) src).
  { destruct (Map_.get (files fs) (pathOf (so' ++ [ko]))) as [src|] eqn:E; [eauto|].
    exfalso. pose proof (Hrun fuel0 (le_n _)) as Hr. rewrite rename_eq in Hr. cbv zeta in Hr.
    rewrite HNo, E in Hr.
    destruct (String.eqb (pathOf (so' ++ [ko])) "/" || String.eqb (normalizePath newPath) "/");
      discriminate. }
  destruct Hsrc as [src Hsrc].
  assert (Hnew : stored fs1 (pathOf (sn' ++ [kn])) src).
  { apply Htab. right. exists []. rewrite !app_nil_r. split; [reflexivity|]. split; [reflexivity|].
    apply Gr1, Hsrc. }
  assert (Hkeep : forall a, is_Some (heap fs !! a) ->
            FileNode.type (deref fs1 a) = FileNode.type (deref fs a)
            /\ FileNode.content (deref fs1 a) = FileNode.content (deref fs a)).
  { intros a Ha. destruct (Hsame a) as [Ht Hc]. destruct (Gr3 a Ha) as (_ & Ht0 & Hc0 & _).
    split; congruence. }
  split; [|split; [|split]].
  - apply exists_false. rewrite HNo.
    destruct (Map_.get (files fs1) (pathOf (so' ++ [ko]))) as [a|] eqn:E; [|reflexivity].
    exfalso. apply Htab in E as [[_ Hnu]|(t & Ht & E & _)].
    + apply Hnu, under_refl.
    + apply pathOf_inj in E; [|exact Hvo | apply valid_app; auto].
      apply (Hapart [] t). rewrite app_nil_r. exact E.
  - apply exists_stored. exists src. rewrite HNn. exact Hnew.
  - rewrite !readFile_stored, HNo, HNn. unfold stored in Hnew, Hsrc. rewrite Hnew, Hsrc.
    destruct (c_node _ _ C _ _ Hsrc) as (Hheap & _). destruct (Hkeep src Hheap) as [Ht Hc].
    destruct (isFile_type fs src fs1 src Ht) as [-> _].
    rewrite (contentOrEmpty_content _ _ Hc). reflexivity.
  - intros q Hqo Hqn. rewrite HNo in Hqo. rewrite HNn in Hqn.
    assert (Hget : Map_.get (files fs1) (normalizePath q) = Map_.get (files fs0) (normalizePath q)).
    { destruct (Map_.get (files fs0) (normalizePath q)) as [a|] eqn:E.
      - apply Htab. left. split; [exact E|]. intros Hu.
        rewrite (under_atOrBelow _ _ Hvo Hneo Hu) in Hqo. discriminate.
      - destruct (Map_.get (files fs1) (normalizePath q)) as [a|] eqn:E1; [|reflexivity].
        exfalso. apply Htab in E1 as [[E1 _]|(t & Ht & Eq & _)].
        + unfold stored in E1. congruence.
        + assert (Hu : under (sn' ++ [kn]) (normalizePath q)) by (exists t; auto).
          rewrite (under_atOrBelow _ _ Hvn Hnen Hu) in Hqn. discriminate. }
    split.
    + rewrite <- (grows_readFile _ fs fs0 q WF Hgrows).
      apply readFile_same; [exact Hget|]. intros a _. apply Hsame.
    + intros Hex. apply exists_stored in Hex as [a Ha]. apply exists_stored. exists a.
      unfold stored. rewrite Hget. apply Gr1, Ha.
Qed.

Lemma rename_moves_and_keeps_the_rest_witness :
  let fs := snd (createFile constructor "/a.txt" "x") in
  exists fs',
    rename 0 fs "/a.txt" "/lib/b.txt" = Some (true, fs')
    /\ exists_ fs' "/a.txt" = false
    /\ exists_ fs' "/lib/b.txt" = true
    /\ readFile fs' "/lib/b.txt" = readFile fs "/a.txt"
    /\ (forall q,
          atOrBelow (normalizePath "/a.txt") (normalizePath q) = false ->
          atOrBelow (normalizePath "/lib/b.txt") (normalizePath q) = false ->
          readFile fs' q = readFile fs q
          /\ (exists_ fs q = true -> exists_ fs' q = true)).
Proof.
  intros fs. eexists. split; [vm_compute; reflexivity|].
  apply (rename_moves_and_keeps_the_rest 0 fs "/a.txt" "/lib/b.txt").
  - apply (built_step constructor (OMutation (MCreateFile "/a.txt" "x")) 0 fs built_new);
      [vm_compute; reflexivity | reflexivity].
  - vm_compute. reflexivity.
  - vm_compute. reflexivity.
  - vm_compute. reflexivity.
Defined.


(** ** [listDirectory] *)

Lemma NoDup_values {A B} (l : list (A * B)) :
  (forall k1 k2 v, In (k1, v) l -> In (k2, v) l -> k1 = k2) ->
  List.NoDup (List.map fst l) -> List.NoDup (List.map snd l).
Proof.
  induction l as [|[k v] l IH]; intros Hinj Hnd; [constructor|].
  simpl in *. inversion Hnd as [|? ? Hnotin Hnd']. subst. constructor.
  - intros Hin. apply in_map_iff in Hin as ([k' v'] & Hv & Hin). simpl in Hv. subst v'.
    assert (k = k') by (apply (Hinj k k' v); auto). subst k'.
    apply Hnotin. apply in_map_iff. exists (k, v). auto.
  - apply IH; [|exact Hnd']. intros k1 k2 v0 H1 H2. apply (Hinj k1 k2 v0); auto.
Qed.

Lemma listDirectory_stored fs path :
  listDirectory fs path =
  match Map_.get (files fs) (normalizePath path) with
  | Some d => if isDirectory fs d then Some (List.map snd (Map_.entries (childrenOf fs d))) else None
  | None => None
  end.
Proof.
  unfold listDirectory, childrenOf. destruct (Map_.get (files fs) (normalizePath path)) as [d|]; [|reflexivity].
  destruct (isDirectory fs d); [|reflexivity]. simpl.
  destruct (FileNode.children (deref fs d)); reflexivity.
Qed.

(** X10. In a tree that [built] admits (built from a new instance by the
    methods, each path to create normalizing to a normal path and no
    directory being renamed into its own subtree), [listDirectory] answers
    for the directories of the tree and for nothing else; its answer holds
    each node once, and holds exactly the nodes of the tree whose parent
    path is the directory. *)
Theorem listDirectory_lists_the_children (fs : VirtualFileSystem) (path : string) :
  built fs ->
  (is_Some (listDirectory fs path) <->
     exists d, getNode fs path = Some d /\ isDirectory fs d = true)
  /\ (forall l, listDirectory fs path = Some l ->
        List.NoDup l
        /\ forall a, In a l <->
             exists q, Map_.get (files fs) q = Some a /\ q <> "/"
                       /\ getParentPath q = normalizePath path).
Proof.
  intros B. pose proof (built_wellFormed _ B) as [G C].
  rewrite listDirectory_stored. unfold getNode.
  destruct (Map_.get (files fs) (normalizePath path)) as [d|] eqn:Hd.
  2:{ split; [|intros l H; discriminate].
      split; [intros [x Hx]; discriminate | intros (d & H & _); discriminate]. }
  destruct (isDirectory fs d) eqn:Hdir.
  2:{ split; [|intros l H; discriminate].
      split; [intros [x Hx]; discriminate | intros (d' & H & H'); congruence]. }
  split; [split; eauto|].
  intros l Hl. injection Hl as <-.
  destruct (c_node _ _ C _ _ Hd) as (_ & Hclean & _).
  pose proof (childrenOf_wf _ _ _ _ C Hd) as Hwf.
  assert (Hdown : forall k a, In (k, a) (Map_.entries (childrenOf fs d)) ->
            stored fs (joinPath (normalizePath path) k) a /\ validName k = true).
  { intros k a Hin. apply (c_down _ _ C _ d k a Hd). apply In_get; assumption. }
  split.
  - apply NoDup_values; [|exact Hwf]. intros k1 k2 a H1 H2.
    destruct (Hdown _ _ H1) as [S1 V1]. destruct (Hdown _ _ H2) as [S2 V2].
    destruct (joinPath_clean _ k1 Hclean V1) as (_ & N1 & _ & F1).
    destruct (joinPath_clean _ k2 Hclean V2) as (_ & N2 & _ & F2).
    destruct (c_up _ _ C _ _ S1 N1) as (_ & _ & _ & _ & E1).
    destruct (c_up _ _ C _ _ S2 N2) as (_ & _ & _ & _ & E2).
    congruence.
  - intros a. split.
    + intros Hin. apply in_map_iff in Hin as ([k a'] & E & Hin). simpl in E. subst a'.
      destruct (Hdown _ _ Hin) as [S1 V1].
      destruct (joinPath_clean _ k Hclean V1) as (_ & N1 & P1 & _).
      exists (joinPath (normalizePath path) k). auto.
    + intros (q & Hq & Hne & Hpar).
      destruct (c_up _ _ C _ _ Hq Hne) as (pa & Hpa & _ & Hget & _).
      rewrite Hpar in Hpa. rewrite (c_fun _ _ C _ _ _ Hpa Hd) in Hget.
      apply in_map_iff. exists (getFileName q, a). split; [reflexivity|].
      apply get_In, Hget.
Qed.

Lemma listDirectory_lists_the_children_witness :
  let fs := snd (createFile constructor "/src/a.ts" "a") in
  (is_Some (listDirectory fs "/src") <->
     exists d, getNode fs "/src" = Some d /\ isDirectory fs d = true)
  /\ (forall l, listDirectory fs "/src" = Some l ->
        List.NoDup l
        /\ forall a, In a l <->
             exists q, Map_.get (files fs) q = Some a /\ q <> "/"
                       /\ getParentPath q = normalizePath "/src").
Proof.
  intros fs. apply (listDirectory_lists_the_children fs "/src").
  apply (built_step constructor (OMutation (MCreateFile "/src/a.ts" "a")) 0 fs built_new);
    [vm_compute; reflexivity | reflexivity].
Defined.

(** ** [getAllFiles] and [serialize]: one entry per path *)

Lemma get_entries {V} (m : Map_.t V) k :
  Map_.get (List.map Some (Map_.entries m)) k = Map_.get m k.
Proof.
  induction m as [|[[k' v]|] m IH]; simpl; [reflexivity | | exact IH].
  rewrite IH. reflexivity.
Qed.

Lemma getAllFiles_fold fs (l : list (string * ref)) : forall acc k,
  List.NoDup (List.map fst l) ->
  Map_.get
    (List.fold_left
       (fun fileMap '(path, node) =>
          if isFile fs node then Map_.set fileMap path (contentOrEmpty (deref fs node))
          else fileMap) l acc) k
  = match Map_.get (List.map Some l) k with
    | Some node => if isFile fs node then Some (contentOrEmpty (deref fs node))
                   else Map_.get acc k
    | None => Map_.get acc k
    end.
Proof.
  induction l as [|[k0 n0] l IH]; intros acc k Hnd; [reflexivity|].
  inversion Hnd as [|? ? Hnotin Hnd']. subst. simpl. rewrite IH by exact Hnd'.
  destruct (String.eqb k0 k) eqn:E.
  - apply String.eqb_eq in E. subst k0.
    assert (Hnone : Map_.get (List.map Some l) k = None).
    { destruct (Map_.get (List.map Some l) k) as [v|] eqn:Ev; [|reflexivity].
      exfalso. apply Hnotin. apply get_In in Ev.
      assert (Hent : forall l0 : list (string * ref), Map_.entries (List.map Some l0) = l0).
      { induction l0 as [|x l0 IH0]; [reflexivity|]. simpl. rewrite IH0. reflexivity. }
      rewrite Hent in Ev. apply in_map_iff. exists (k, v). auto. }
    rewrite Hnone. destruct (isFile fs n0); [|reflexivity]. apply get_set_eq.
  - apply String.eqb_neq in E.
    assert (Hacc : Map_.get (if isFile fs n0
                             then Map_.set acc k0 (contentOrEmpty (deref fs n0)) else acc) k
                   = Map_.get acc k).
    { destruct (isFile fs n0); [|reflexivity]. apply get_set_ne, E. }
    rewrite Hacc. reflexivity.
Qed.

Lemma getAllFiles_get fs k :
  Map_.wf (files fs) ->
  Map_.get (getAllFiles fs) k
  = match Map_.get (files fs) k with
    | Some node => if isFile fs node then Some (contentOrEmpty (deref fs node)) else None
    | None => None
    end.
Proof.
  intros Hwf. unfold getAllFiles. rewrite getAllFiles_fold by exact Hwf.
  rewrite get_entries. reflexivity.
Qed.

(** X11. In a tree that [built] admits (built from a new instance by the
    methods, each path to create normalizing to a normal path and no
    directory being renamed into its own subtree), the map of [getAllFiles]
    gives at the normalized form of a path what [readFile] gives at the
    path: the content for a file, nothing for a directory or a path out of
    the tree; and each of its keys is a path that [normalizePath] leaves as
    it is. *)
Theorem getAllFiles_agrees_with_readFile (fs : VirtualFileSystem) :
  built fs ->
  (forall path, Map_.get (getAllFiles fs) (normalizePath path) = readFile fs path)
  /\ (forall k, Map_.has (getAllFiles fs) k = true -> normalizePath k = k).
Proof.
  intros B. pose proof (built_wellFormed _ B) as [G C]. split.
  - intros path. rewrite getAllFiles_get by apply (g_files _ G).
    rewrite readFile_stored. reflexivity.
  - intros k Hk. apply has_get in Hk as [c Hc].
    rewrite getAllFiles_get in Hc by apply (g_files _ G).
    destruct (Map_.get (files fs) k) as [a|] eqn:Ea; [|discriminate].
    destruct (c_node _ _ C _ _ Ea) as (_ & Hclean & _). apply cleanSegs_normalize, Hclean.
Qed.

Lemma getAllFiles_agrees_with_readFile_witness :
  let fs := snd (createFile constructor "/src/a.ts" "a") in
  (forall path, Map_.get (getAllFiles fs) (normalizePath path) = readFile fs path)
  /\ (forall k, Map_.has (getAllFiles fs) k = true -> normalizePath k = k).
Proof.
  intros fs. apply (getAllFiles_agrees_with_readFile fs).
  apply (built_step constructor (OMutation (MCreateFile "/src/a.ts" "a")) 0 fs built_new);
    [vm_compute; reflexivity | reflexivity].
Defined.


(** ** Rebuilding a tree: [deserialize] and [deserializeFromNodes] *)

Section Rebuild.
Variable dirWanted : string -> Prop.
Variable fileWanted : string -> string -> Prop.
Hypothesis excl : forall q c, dirWanted q -> fileWanted q c -> False.

Lemma rebuilding_grows (new : string -> Prop) fs fs' :
    rebuilding dirWanted fileWanted fs -> grows new fs fs' -> wellFormed fs' ->
    (forall q, new q -> dirWanted q) ->
    rebuilding dirWanted fileWanted fs'.
  Proof.
    intros [[G C] Hinv] (G1 & G2 & G3) WF' Hnew. split; [exact WF'|].
    intros q a Hq. destruct (G2 _ _ Hq) as [Hold|(Hn & Hd & _)].
    - destruct (c_node _ _ C _ _ Hold) as (Ha & _).
      destruct (G3 a Ha) as (_ & Ht & Hc & _).
      destruct (isFile_type fs a fs' a Ht) as [Ef Ed].
      destruct (Hinv _ _ Hold) as [E|[[Hw Hdir]|(c & Hw & Hf & Hcont)]].
      + left. exact E.
      + right. left. split; [exact Hw | congruence].
      + right. right. exists c. split; [exact Hw|]. split; congruence.
    - right. left. split; [apply Hnew, Hn | exact Hd].
  Qed.

Lemma rebuilding_prefix_directories fs (segs : list string) :
    rebuilding dirWanted fileWanted fs ->
    (forall i, 1 <= i <= List.length segs -> dirWanted (pathOf (List.firstn i segs))) ->
    forall i a, i <= List.length segs ->
      stored fs (pathOf (List.firstn i segs)) a -> isDirectory fs a = true.
  Proof.
    intros [[G C] Hinv] Hanc i a Hi Ha.
    destruct i as [|i].
    { simpl in Ha. rewrite (c_fun _ _ C _ _ _ Ha (c_root _ _ C)). apply (c_root_dir _ _ C). }
    destruct (Hinv _ _ Ha) as [E|[[_ Hdir]|(c & Hw & _)]].
    - rewrite E in Ha. rewrite (c_fun _ _ C _ _ _ Ha (c_root _ _ C)). apply (c_root_dir _ _ C).
    - exact Hdir.
    - exfalso. apply (excl (pathOf (List.firstn (S i) segs)) c); [apply Hanc; lia | exact Hw].
  Qed.

Lemma rebuilding_ancestors fs (segs : list string) :
    rebuilding dirWanted fileWanted fs -> List.forallb validName segs = true ->
    (forall i, 1 <= i <= List.length segs -> dirWanted (pathOf (List.firstn i segs))) ->
    rebuilding dirWanted fileWanted (createAncestors fs EmptyString segs)
    /\ (forall q a, stored fs q a -> stored (createAncestors fs EmptyString segs) q a)
    /\ exists pa, stored (createAncestors fs EmptyString segs) (pathOf segs) pa
                  /\ isDirectory (createAncestors fs EmptyString segs) pa = true.
  Proof.
    intros R Hv Hanc. pose proof R as [WF Hinv]. pose proof WF as [G C].
    destruct (createAncestors_spec segs fs [] WF Hv) as (W1 & G1 & Hpar).
    change (rawPath []) with EmptyString in W1, G1, Hpar. simpl app in G1, Hpar.
    split; [|split].
    - apply (rebuilding_grows _ fs _ R G1 W1). intros q (i & Hi & ->). apply Hanc, Hi.
    - apply G1.
    - apply Hpar; [exists (root fs); apply (c_root _ _ C)|].
      apply rebuilding_prefix_directories; assumption.
  Qed.

Lemma rebuilding_createFile fs c (segs : list string) k :
    rebuilding dirWanted fileWanted fs ->
    List.forallb validName (segs ++ [k]) = true ->
    (forall i, 1 <= i <= List.length segs -> dirWanted (pathOf (List.firstn i segs))) ->
    fileWanted (pathOf (segs ++ [k])) c ->
    rebuilding dirWanted fileWanted
      (snd (createFile (createAncestors fs EmptyString segs) (pathOf (segs ++ [k])) c))
    /\ (forall q a, stored fs q a ->
          stored (snd (createFile (createAncestors fs EmptyString segs) (pathOf (segs ++ [k])) c))
            q a)
    /\ exists a,
         stored (snd (createFile (createAncestors fs EmptyString segs) (pathOf (segs ++ [k])) c))
           (pathOf (segs ++ [k])) a.
  Proof.
    intros R Hv Hanc Hw. apply valid_snoc in Hv as Hv'. destruct Hv' as [Hvs Hk].
    destruct (rebuilding_ancestors fs segs R Hvs Hanc) as (R1 & Hkeep1 & _).
    set (fs1 := createAncestors fs EmptyString segs) in *.
    pose proof R1 as [WF1 Hinv1].
    assert (HN : normalizePath (pathOf (segs ++ [k])) = pathOf (segs ++ [k]))
      by (apply normalizePath_pathOf, Hv).
    destruct (Map_.has (files fs1) (pathOf (segs ++ [k]))) eqn:Hhas.
    { assert (E : createFile fs1 (pathOf (segs ++ [k])) c = (None, fs1)).
      { unfold createFile. rewrite HN, Hhas. reflexivity. }
      rewrite E. simpl. split; [exact R1|]. split; [exact Hkeep1|].
      apply has_stored, Hhas. }
    destruct (rebuilding_ancestors fs1 segs R1 Hvs Hanc) as (R2 & Hkeep2 & pa & Hpa & Hpad).
    destruct (createFile_facts fs1 (pathOf (segs ++ [k])) c segs k WF1 Hv HN Hhas)
      as [(_ & Hno)|(fs2 & parent & G2 & W2 & _ & _ & Hnone & _ & Hfiles & Hnew & Hsame)].
    { rewrite (Hno pa Hpa) in Hpad. discriminate. }
    set (fs' := snd (createFile fs1 (pathOf (segs ++ [k])) c)) in *.
    assert (R2' : rebuilding dirWanted fileWanted fs2).
    { apply (rebuilding_grows _ fs1 _ R1 G2 W2). intros q (i & Hi & ->). apply Hanc, Hi. }
    destruct R2' as [_ Hinv2]. destruct W2 as [Gd2 C2].
    split; [|split].
    - split; [apply createFile_wellFormed; [exact WF1 | rewrite HN; exists (segs ++ [k]); auto]|].
      intros q a Hq. unfold stored in Hq. rewrite Hfiles, get_set in Hq.
      destruct (String.eqb (pathOf (segs ++ [k])) q) eqn:E.
      + apply String.eqb_eq in E. subst q. injection Hq as <-.
        right. right. exists c. split; [exact Hw|].
        unfold isFile. rewrite Hnew. split; reflexivity.
      + destruct (c_node _ _ C2 _ _ Hq) as (Ha & _). destruct (Hsame a Ha) as [Ht Hc].
        destruct (isFile_type fs2 a fs' a Ht) as [Ef Ed].
        destruct (Hinv2 _ _ Hq) as [E0|[[Hw0 Hdir]|(c0 & Hw0 & Hf & Hcont)]].
        * left. exact E0.
        * right. left. split; [exact Hw0 | congruence].
        * right. right. exists c0. split; [exact Hw0|]. split; congruence.
    - intros q a Hq. unfold stored. rewrite Hfiles, get_set.
      assert (Hq2 : stored fs2 q a) by (apply G2, Hkeep1, Hq).
      destruct (String.eqb (pathOf (segs ++ [k])) q) eqn:E; [|exact Hq2].
      apply String.eqb_eq in E. subst q. unfold stored in Hq2. congruence.
    - exists (fresh fs2). unfold stored. rewrite Hfiles. apply get_set_eq.
  Qed.

Lemma rebuilding_createDirectory fs (segs : list string) k :
    rebuilding dirWanted fileWanted fs ->
    List.forallb validName (segs ++ [k]) = true ->
    (forall i, 1 <= i <= List.length segs -> dirWanted (pathOf (List.firstn i segs))) ->
    dirWanted (pathOf (segs ++ [k])) ->
    rebuilding dirWanted fileWanted
      (snd (createDirectory (createAncestors fs EmptyString segs) (pathOf (segs ++ [k]))))
    /\ (forall q a, stored fs q a ->
          stored (snd (createDirectory (createAncestors fs EmptyString segs) (pathOf (segs ++ [k]))))
            q a)
    /\ exists a,
         stored (snd (createDirectory (createAncestors fs EmptyString segs) (pathOf (segs ++ [k]))))
           (pathOf (segs ++ [k])) a.
  Proof.
    intros R Hv Hanc Hw. apply valid_snoc in Hv as Hv'. destruct Hv' as [Hvs Hk].
    destruct (rebuilding_ancestors fs segs R Hvs Hanc) as (R1 & Hkeep1 & pa & Hpa & Hpad).
    set (fs1 := createAncestors fs EmptyString segs) in *.
    pose proof R1 as [WF1 Hinv1].
    assert (HN : normalizePath (pathOf (segs ++ [k])) = pathOf (segs ++ [k]))
      by (apply normalizePath_pathOf, Hv).
    assert (Hclean : cleanSegs (normalizePath (pathOf (segs ++ [k]))))
      by (rewrite HN; exists (segs ++ [k]); auto).
    destruct (createDirectory_spec fs1 (pathOf (segs ++ [k])) WF1 Hclean) as (W2 & G2 & Hdone).
    rewrite HN in G2, Hdone.
    split; [|split].
    - apply (rebuilding_grows _ fs1 _ R1 G2 W2). intros q ->. exact Hw.
    - intros q a Hq. apply G2, Hkeep1, Hq.
    - destruct (Map_.has (files fs1) (pathOf (segs ++ [k]))) eqn:Hhas.
      + apply has_stored in Hhas as [a Ha]. exists a. apply G2, Ha.
      + rewrite getParentPath_snoc in Hdone by exact Hv.
        destruct (Hdone eq_refl pa Hpa Hpad) as (a & Ha & _). eauto.
  Qed.
End Rebuild.

Lemma rebuilding_clearAll dirWanted fileWanted fs :
  wellFormed fs -> rebuilding dirWanted fileWanted (clearAll fs).
Proof.
  intros WF. split; [apply clearAll_wellFormed, WF|].
  intros q a Hq. left. unfold stored, clearAll in Hq.
  destruct (FileNode.children (deref (setFiles fs (Map_.clear (files fs)))
                                 (root (setFiles fs (Map_.clear (files fs))))));
    simpl in Hq; apply get_singleton_stored in Hq; tauto.
Qed.

Lemma firstn_snoc_le {A} (s : list A) x i : i <= List.length s -> List.firstn i (s ++ [x]) = List.firstn i s.
Proof.
  intros Hi. rewrite firstn_app. replace (i - List.length s) with 0 by lia.
  simpl. apply app_nil_r.
Qed.

(** *** [serialize], then [deserializeFromNodes] *)

Lemma serialize_fold fs (l : list (string * ref)) : forall (acc : gmap string SerialNode.t) k,
  List.NoDup (List.map fst l) ->
  List.fold_left
    (fun result '(path, node) =>
       let n := deref fs node in
       if isDirectory fs node
       then <[path := SerialNode.Build (FileNode.type n) (FileNode.name n) (FileNode.path n)
                        None]> result
       else <[path := SerialNode.Build (FileNode.type n) (FileNode.name n) (FileNode.path n)
                        (FileNode.content n)]> result) l acc !! k
  = match Map_.get (List.map Some l) k with
    | Some node =>
        Some (SerialNode.Build (FileNode.type (deref fs node)) (FileNode.name (deref fs node))
                (FileNode.path (deref fs node))
                (if isDirectory fs node then None else FileNode.content (deref fs node)))
    | None => acc !! k
    end.
Proof.
  induction l as [|[k0 n0] l IH]; intros acc k Hnd; [reflexivity|].
  inversion Hnd as [|? ? Hnotin Hnd']. subst. simpl. rewrite IH by exact Hnd'.
  destruct (String.eqb k0 k) eqn:E.
  - apply String.eqb_eq in E. subst k0.
    assert (Hnone : Map_.get (List.map Some l) k = None).
    { destruct (Map_.get (List.map Some l) k) as [v|] eqn:Ev; [|reflexivity].
      exfalso. apply Hnotin. apply get_In in Ev.
      assert (Hent : forall l0 : list (string * ref), Map_.entries (List.map Some l0) = l0).
      { induction l0 as [|x l0 IH0]; [reflexivity|]. simpl. rewrite IH0. reflexivity. }
      rewrite Hent in Ev. apply in_map_iff. exists (k, v). auto. }
    rewrite Hnone. destruct (isDirectory fs n0); apply lookup_insert_eq.
  - apply String.eqb_neq in E.
    destruct (Map_.get (List.map Some l) k); [reflexivity|].
    destruct (isDirectory fs n0); apply lookup_insert_ne, E.
Qed.

Lemma serialize_lookup fs k :
  Map_.wf (files fs) ->
  serialize fs !! k
  = match Map_.get (files fs) k with
    | Some node =>
        Some (SerialNode.Build (FileNode.type (deref fs node)) (FileNode.name (deref fs node))
                (FileNode.path (deref fs node))
                (if isDirectory fs node then None else FileNode.content (deref fs node)))
    | None => None
    end.
Proof.
  intros Hwf. unfold serialize. rewrite serialize_fold by exact Hwf.
  rewrite get_entries. destruct (Map_.get (files fs) k); [reflexivity | apply lookup_empty].
Qed.

Lemma nodes_ancestors (data : gmap string SerialNode.t) :
  (forall p n, data !! p = Some n -> p <> "/" ->
     getParentPath p = "/"
     \/ exists m, data !! getParentPath p = Some m /\ SerialNode.type m = TDirectory) ->
  forall segs k n, List.forallb validName (segs ++ [k]) = true ->
    data !! pathOf (segs ++ [k]) = Some n ->
    forall i, 1 <= i <= List.length segs ->
      exists m, data !! pathOf (List.firstn i segs) = Some m /\ SerialNode.type m = TDirectory.
Proof.
  intros Hcl segs. induction segs as [|x s IH] using rev_ind; intros k n Hv Hn i Hi.
  { simpl in Hi. lia. }
  apply valid_snoc in Hv as Hv'. destruct Hv' as [Hvs Hk].
  destruct (Hcl _ _ Hn (pathOf_snoc_not_root _ _ Hv)) as [E|(m & Hm & Hmt)];
    rewrite getParentPath_snoc in * by exact Hv.
  { exfalso. apply (pathOf_snoc_not_root _ _ Hvs E). }
  rewrite length_app in Hi. simpl in Hi.
  destruct (Nat.eq_dec i (S (List.length s))) as [->|Hne].
  - replace (S (List.length s)) with (List.length (s ++ [x])) by (rewrite length_app; simpl; lia).
    rewrite firstn_all. eauto.
  - rewrite firstn_snoc_le by lia. apply (IH x m Hvs Hm). lia.
Qed.

Lemma deserializeFromNodes_rebuilds (data : gmap string SerialNode.t) fs :
  wellFormed fs ->
  (forall p n, data !! p = Some n -> cleanSegs p) ->
  (forall p n, data !! p = Some n -> p <> "/" ->
     getParentPath p = "/"
     \/ exists m, data !! getParentPath p = Some m /\ SerialNode.type m = TDirectory) ->
  rebuilding
    (fun q => exists n, data !! q = Some n /\ SerialNode.type n = TDirectory)
    (fun q c => exists n, data !! q = Some n /\ SerialNode.type n = TFile
                          /\ c = match SerialNode.content n with
                                 | Some c => if JS.truthy c then c else EmptyString
                                 | None => EmptyString
                                 end)
    (deserializeFromNodes fs data)
  /\ forall p n, data !! p = Some n -> p <> "/" ->
       exists a, stored (deserializeFromNodes fs data) p a.
Proof.
  intros WF Hclean Hcl.
  set (dW := fun q => exists n, data !! q = Some n /\ SerialNode.type n = TDirectory).
  set (fW := fun q c => exists n, data !! q = Some n /\ SerialNode.type n = TFile
                          /\ c = match SerialNode.content n with
                                 | Some c => if JS.truthy c then c else EmptyString
                                 | None => EmptyString
                                 end).
  assert (excl : forall q c, dW q -> fW q c -> False).
  { intros q c (n & Hn & Ht) (n' & Hn' & Ht' & _). congruence. }
  unfold deserializeFromNodes.
  match goal with |- context [List.fold_left ?f _ _] => set (step := f) end.
  assert (Hstep : forall fs0 p,
            rebuilding dW fW fs0 -> is_Some (data !! p) ->
            rebuilding dW fW (step fs0 p)
            /\ (forall q a, stored fs0 q a -> stored (step fs0 p) q a)
            /\ (p <> "/" -> exists a, stored (step fs0 p) p a)).
  { intros fs0 p R0 [node Hnode]. unfold step. destruct (String.eqb p "/") eqn:Ep.
    { apply String.eqb_eq in Ep. split; [exact R0|]. split; [auto|]. congruence. }
    apply String.eqb_neq in Ep. rewrite Hnode.
    destruct (cleanSegs_split _ (Hclean _ _ Hnode) Ep) as (segs & k & Hvs & Hk & HN & _).
    assert (Hv : List.forallb validName (segs ++ [k]) = true) by (apply valid_snoc; auto).
    assert (Hparts : List.removelast (JS.filterBoolean (JS.split "/" p)) = segs).
    { rewrite HN, parts_pathOf by exact Hv. apply removelast_snoc. }
    cbv zeta. rewrite Hparts.
    assert (Hanc : forall i, 1 <= i <= List.length segs -> dW (pathOf (List.firstn i segs))).
    { intros i Hi. rewrite HN in Hnode. apply (nodes_ancestors data Hcl segs k node Hv Hnode i Hi). }
    set (cont := match SerialNode.content node with
                 | Some c => if JS.truthy c then c else EmptyString
                 | None => EmptyString
                 end).
    destruct (SerialNode.type node) eqn:Et.
    - rewrite HN.
      destruct (rebuilding_createFile dW fW excl fs0 cont segs k R0 Hv Hanc) as (R1 & K1 & S1).
      { exists node. rewrite <- HN. auto. }
      split; [exact R1|]. split; [exact K1|]. intros _. exact S1.
    - rewrite HN.
      destruct (rebuilding_createDirectory dW fW excl fs0 segs k R0 Hv Hanc) as (R1 & K1 & S1).
      { exists node. rewrite <- HN. auto. }
      split; [exact R1|]. split; [exact K1|]. intros _. exact S1. }
  assert (Hfold : forall l fs0,
            rebuilding dW fW fs0 ->
            (forall p, In p l -> is_Some (data !! p)) ->
            rebuilding dW fW (List.fold_left step l fs0)
            /\ (forall q a, stored fs0 q a -> stored (List.fold_left step l fs0) q a)
            /\ (forall p, In p l -> p <> "/" ->
                  exists a, stored (List.fold_left step l fs0) p a)).
  { induction l as [|p l IH]; intros fs0 R0 Hl.
    { simpl. split; [exact R0|]. split; [auto|]. intros p []. }
    simpl fold_left.
    destruct (Hstep fs0 p R0 (Hl p (or_introl eq_refl))) as (R1 & K1 & S1).
    destruct (IH (step fs0 p) R1 (fun q Hq => Hl q (or_intror Hq))) as (R2 & K2 & S2).
    split; [exact R2|]. split; [intros q a Hq; apply K2, K1, Hq|].
    intros q [->|Hq] Hne.
    - destruct (S1 Hne) as [a Ha]. exists a. apply K2, Ha.
    - apply S2; assumption. }
  destruct (Hfold (sortStrings (List.map fst (map_to_list data))) (clearAll fs)
              (rebuilding_clearAll dW fW fs WF)) as (R & _ & S).
  { intros p Hp. apply In_sortStrings in Hp. apply In_keys_gmap in Hp. exact Hp. }
  split; [exact R|]. intros p n Hn Hne. apply S; [|exact Hne].
  apply In_sortStrings_iff. apply In_keys_gmap. eauto.
Qed.

Lemma truthy_or_empty c : (if JS.truthy c then c else EmptyString) = c.
Proof.
  unfold JS.truthy. destruct (String.eqb c EmptyString) eqn:E; [|reflexivity].
  apply String.eqb_eq in E. subst. reflexivity.
Qed.

Lemma round_trip_nodes fs other N :
  wellFormed fs -> wellFormed other ->
  match Map_.get (files fs) N with
  | Some a =>
      exists a', Map_.get (files (deserializeFromNodes other (serialize fs))) N = Some a'
        /\ isDirectory (deserializeFromNodes other (serialize fs)) a' = isDirectory fs a
        /\ (isDirectory fs a = false ->
            contentOrEmpty (deref (deserializeFromNodes other (serialize fs)) a')
            = contentOrEmpty (deref fs a))
  | None => Map_.get (files (deserializeFromNodes other (serialize fs))) N = None
  end.
Proof.
  intros WF WFo. pose proof WF as [G C].
  assert (Hlook : forall k, serialize fs !! k = _) by (intros k; apply serialize_lookup, (g_files _ G)).
  assert (Hclean : forall p n, serialize fs !! p = Some n -> cleanSegs p).
  { intros p n Hn. rewrite Hlook in Hn.
    destruct (Map_.get (files fs) p) as [a|] eqn:Ea; [|discriminate].
    apply (c_node _ _ C _ _ Ea). }
  assert (Hcl : forall p n, serialize fs !! p = Some n -> p <> "/" ->
            getParentPath p = "/"
            \/ exists m, serialize fs !! getParentPath p = Some m
                         /\ SerialNode.type m = TDirectory).
  { intros p n Hn Hne. rewrite Hlook in Hn.
    destruct (Map_.get (files fs) p) as [a|] eqn:Ea; [|discriminate].
    destruct (c_up _ _ C _ _ Ea Hne) as (pa & Hpa & Hpd & _).
    right. rewrite Hlook. unfold stored in Hpa. rewrite Hpa. eexists. split; [reflexivity|].
    simpl. apply isDirectory_type, Hpd. }
  destruct (deserializeFromNodes_rebuilds (serialize fs) other WFo Hclean Hcl)
    as ([[G' C'] Hinv] & Hall).
  set (fs' := deserializeFromNodes other (serialize fs)) in *.
  destruct (Map_.get (files fs) N) as [a|] eqn:Ea.
  - destruct (String.eqb N "/") eqn:EN.
    + apply String.eqb_eq in EN. subst N.
      rewrite (c_fun _ _ C _ _ _ Ea (c_root _ _ C)).
      exists (root fs'). split; [apply (c_root _ _ C')|].
      rewrite (c_root_dir _ _ C), (c_root_dir _ _ C'). split; [reflexivity | discriminate].
    + apply String.eqb_neq in EN.
      pose proof (Hlook N) as HN. rewrite Ea in HN.
      destruct (Hall _ _ HN EN) as [a' Ha']. exists a'. split; [exact Ha'|].
      destruct (Hinv _ _ Ha') as [E|[[(n & Hn & Ht) Hdir]|(c & (n & Hn & Ht & Hc) & Hf & Hcont)]];
        [congruence | |].
      * rewrite HN in Hn. injection Hn as <-. simpl in Ht.
        apply isDirectory_type in Ht. rewrite Hdir, Ht. split; [reflexivity | discriminate].
      * rewrite HN in Hn. injection Hn as <-. simpl in Ht, Hc.
        assert (Hd : isDirectory fs a = false) by (unfold isDirectory; rewrite Ht; reflexivity).
        rewrite Hd in Hc. rewrite isFile_not_directory in Hf. apply negb_true_iff in Hf.
        split; [congruence|]. intros _. unfold contentOrEmpty at 1. rewrite Hcont.
        rewrite truthy_or_empty. exact Hc.
  - destruct (Map_.get (files fs') N) as [a'|] eqn:Ea'; [|reflexivity]. exfalso.
    destruct (Hinv _ _ Ea') as [E|[[(n & Hn & _) _]|(c & (n & Hn & _) & _)]].
    + subst N. pose proof (c_root _ _ C) as Hr. unfold stored in Hr. congruence.
    + rewrite Hlook, Ea in Hn. discriminate.
    + rewrite Hlook, Ea in Hn. discriminate.
Qed.

(** X12. Round trip. Let two instances be as [built] admits (built from a
    new instance by the methods, each path to create normalizing to a normal
    path and no directory being renamed into its own subtree). From the
    copies that [serialize] makes of the tree of the first,
    [deserializeFromNodes], on the second, rebuilds a tree with the same
    paths: each path exists in the one when it exists in the other, is a
    directory in the one when it is in the other, and is read with the same
    content. *)
Theorem serialize_deserializeFromNodes_round_trip
    (fs other : VirtualFileSystem) (q : string) :
  built fs -> built other ->
  exists_ (deserializeFromNodes other (serialize fs)) q = exists_ fs q
  /\ readFile (deserializeFromNodes other (serialize fs)) q = readFile fs q
  /\ (is_Some (listDirectory (deserializeFromNodes other (serialize fs)) q)
      <-> is_Some (listDirectory fs q)).
Proof.
  intros B Bo.
  pose proof (round_trip_nodes fs other (normalizePath q)
                (built_wellFormed _ B) (built_wellFormed _ Bo)) as H.
  rewrite !readFile_stored, !listDirectory_stored. unfold exists_, Map_.has.
  destruct (Map_.get (files fs) (normalizePath q)) as [a|].
  - destruct H as (a' & -> & Hd & Hc). rewrite !isFile_not_directory, Hd.
    split; [reflexivity|]. destruct (isDirectory fs a) eqn:E; simpl.
    + split; [reflexivity|]. split; eauto.
    + rewrite (Hc eq_refl). split; [reflexivity|]. split; intros [x Hx]; discriminate.
  - rewrite H. split; [reflexivity|]. split; [reflexivity|]. split; intros [x Hx]; discriminate.
Qed.

Lemma serialize_deserializeFromNodes_round_trip_witness :
  let fs := snd (createFile constructor "/src/a.ts" "a") in
  exists_ (deserializeFromNodes constructor (serialize fs)) "/src/a.ts" = exists_ fs "/src/a.ts"
  /\ readFile (deserializeFromNodes constructor (serialize fs)) "/src/a.ts"
     = readFile fs "/src/a.ts"
  /\ (is_Some (listDirectory (deserializeFromNodes constructor (serialize fs)) "/src/a.ts")
      <-> is_Some (listDirectory fs "/src/a.ts")).
Proof.
  intros fs. apply (serialize_deserializeFromNodes_round_trip fs constructor "/src/a.ts").
  - apply (built_step constructor (OMutation (MCreateFile "/src/a.ts" "a")) 0 fs built_new);
      [vm_compute; reflexivity | reflexivity].
  - apply built_new.
Defined.

(** *** [deserialize], then [getAllFiles] *)

Lemma recordGet_In {V} (data : list (string * V)) k :
  In k (List.map fst data) <-> exists v, recordGet data k = Some v.
Proof.
  induction data as [|[k' v'] data IH]; simpl.
  - split; [intros [] | intros [v Hv]; discriminate].
  - destruct (String.eqb k' k) eqn:E.
    + apply String.eqb_eq in E. split; eauto.
    + apply String.eqb_neq in E. rewrite <- IH. split; [intros [H|H]; [congruence | exact H] | auto].
Qed.

Lemma deserialize_rebuilds (data : list (string * string)) fs :
  wellFormed fs ->
  (forall p, In p (List.map fst data) -> cleanPath p = true) ->
  (forall p q, In p (List.map fst data) -> In q (List.map fst data) ->
     JS.startsWith p (JS.cat q "/") = false) ->
  rebuilding
    (fun q => exists p, In p (List.map fst data) /\ JS.startsWith p (JS.cat q "/") = true)
    (fun q c => recordGet data q = Some c)
    (deserialize fs data)
  /\ forall p, In p (List.map fst data) -> p <> "/" ->
       exists a, stored (deserialize fs data) p a.
Proof.
  intros WF Hclean Hanti.
  set (dW := fun q => exists p, In p (List.map fst data)
                                /\ JS.startsWith p (JS.cat q "/") = true).
  set (fW := fun q c => recordGet data q = Some c).
  assert (excl : forall q c, dW q -> fW q c -> False).
  { intros q c (p & Hp & Hs) Hq.
    assert (Hin : In q (List.map fst data)) by (apply recordGet_In; eauto).
    rewrite (Hanti p q Hp Hin) in Hs. discriminate. }
  unfold deserialize.
  match goal with |- context [List.fold_left ?f _ _] => set (step := f) end.
  assert (Hstep : forall fs0 p,
            rebuilding dW fW fs0 -> In p (List.map fst data) ->
            rebuilding dW fW (step fs0 p)
            /\ (forall q a, stored fs0 q a -> stored (step fs0 p) q a)
            /\ (p <> "/" -> exists a, stored (step fs0 p) p a)).
  { intros fs0 p R0 Hp. unfold step. cbv zeta.
    destruct (String.eqb p "/") eqn:Ep.
    { apply String.eqb_eq in Ep. subst p. pose proof R0 as [[G0 C0] _].
      assert (E : forall c, createFile (createAncestors fs0 EmptyString
                     (List.removelast (JS.filterBoolean (JS.split "/" "/")))) "/" c = (None, fs0)).
      { intros c. change (List.removelast (JS.filterBoolean (JS.split "/" "/"))) with (@nil string).
        simpl createAncestors. unfold createFile.
        change (normalizePath "/") with "/".
        pose proof (c_root _ _ C0) as Hr. unfold stored in Hr. unfold Map_.has. rewrite Hr.
        reflexivity. }
      rewrite E. simpl. split; [exact R0|]. split; [auto|]. congruence. }
    apply String.eqb_neq in Ep.
    pose proof (cleanPath_cleanSegs _ (Hclean p Hp)) as Hcp.
    destruct (cleanSegs_split _ Hcp Ep) as (segs & k & Hvs & Hk & HN & _).
    assert (Hv : List.forallb validName (segs ++ [k]) = true) by (apply valid_snoc; auto).
    assert (Hparts : List.removelast (JS.filterBoolean (JS.split "/" p)) = segs).
    { rewrite HN, parts_pathOf by exact Hv. apply removelast_snoc. }
    rewrite Hparts.
    assert (Hanc : forall i, 1 <= i <= List.length segs -> dW (pathOf (List.firstn i segs))).
    { intros i Hi. exists p. split; [exact Hp|].
      assert (Hvi : List.forallb validName (List.firstn i segs) = true).
      { rewrite <- (firstn_skipn i segs) in Hvs. apply valid_app in Hvs. tauto. }
      apply startsWith_below; [exact Hvi | | exact Hcp |].
      - destruct segs as [|x r]; [simpl in Hi; lia|]. destruct i; [lia | discriminate].
      - exists (List.skipn i segs ++ [k]). split; [|split].
        + apply valid_snoc. split; [|exact Hk].
          rewrite <- (firstn_skipn i segs) in Hvs. apply valid_app in Hvs. tauto.
        + destruct (List.skipn i segs); discriminate.
        + rewrite app_assoc, firstn_skipn. exact HN. }
    destruct (proj1 (recordGet_In data p) Hp) as [c Hc]. rewrite Hc. rewrite HN.
    destruct (rebuilding_createFile dW fW excl fs0 c segs k R0 Hv Hanc) as (R1 & K1 & S1).
    { unfold fW. rewrite <- HN. exact Hc. }
    split; [exact R1|]. split; [exact K1|]. intros _. exact S1. }
  assert (Hfold : forall l fs0,
            rebuilding dW fW fs0 ->
            (forall p, In p l -> In p (List.map fst data)) ->
            rebuilding dW fW (List.fold_left step l fs0)
            /\ (forall q a, stored fs0 q a -> stored (List.fold_left step l fs0) q a)
            /\ (forall p, In p l -> p <> "/" ->
                  exists a, stored (List.fold_left step l fs0) p a)).
  { induction l as [|p l IH]; intros fs0 R0 Hl.
    { simpl. split; [exact R0|]. split; [auto|]. intros p []. }
    simpl fold_left.
    destruct (Hstep fs0 p R0 (Hl p (or_introl eq_refl))) as (R1 & K1 & S1).
    destruct (IH (step fs0 p) R1 (fun q Hq => Hl q (or_intror Hq))) as (R2 & K2 & S2).
    split; [exact R2|]. split; [intros q a Hq; apply K2, K1, Hq|].
    intros q [->|Hq] Hne.
    - destruct (S1 Hne) as [a Ha]. exists a. apply K2, Ha.
    - apply S2; assumption. }
  destruct (Hfold (sortStrings (List.map fst data)) (clearAll fs)
              (rebuilding_clearAll dW fW fs WF)) as (R & _ & S).
  { intros p Hp. apply In_sortStrings, Hp. }
  split; [exact R|]. intros p Hp Hne. apply S; [|exact Hne].
  apply In_sortStrings_iff, Hp.
Qed.

(** X13.  Round trip.  Let the keys of a record of contents be normal
    paths other than the root, none of them below another.  After
    [deserialize], on an instance built by the methods, [getAllFiles]
    gives the record back: at each key the content of the record, and
    nothing at any other path. *)
Theorem deserialize_then_getAllFiles
    (other : VirtualFileSystem) (data : list (string * string)) (q : string) :
  built other ->
  (forall p, In p (List.map fst data) -> cleanPath p = true /\ p <> "/") ->
  (forall p p', In p (List.map fst data) -> In p' (List.map fst data) ->
     JS.startsWith p (JS.cat p' "/") = false) ->
  Map_.get (getAllFiles (deserialize other data)) q = recordGet data q.
Proof.
  intros B Hkeys Hanti. pose proof (built_wellFormed _ B) as WF.
  destruct (deserialize_rebuilds data other WF (fun p Hp => proj1 (Hkeys p Hp)) Hanti)
    as ([[G' C'] Hinv] & Hall).
  rewrite getAllFiles_get by apply (g_files _ G').
  destruct (recordGet data q) as [c|] eqn:Ec.
  - assert (Hin : In q (List.map fst data)) by (apply recordGet_In; eauto).
    destruct (Hall q Hin (proj2 (Hkeys q Hin))) as [a Ha]. unfold stored in Ha. rewrite Ha.
    destruct (Hinv _ _ Ha) as [E|[[(p & Hp & Hs) _]|(c' & Hc' & Hf & Hcont)]].
    + destruct (Hkeys q Hin) as [_ Hne]. congruence.
    + rewrite (Hanti p q Hp Hin) in Hs. discriminate.
    + rewrite Hf. unfold contentOrEmpty. rewrite Hcont, truthy_or_empty. congruence.
  - destruct (Map_.get (files (deserialize other data)) q) as [a|] eqn:Ea; [|reflexivity].
    destruct (Hinv _ _ Ea) as [E|[[_ Hd]|(c' & Hc' & _)]].
    + subst q. rewrite (c_fun _ _ C' _ _ _ Ea (c_root _ _ C')).
      rewrite isFile_not_directory, (c_root_dir _ _ C'). reflexivity.
    + rewrite isFile_not_directory, Hd. reflexivity.
    + congruence.
Qed.

Lemma deserialize_then_getAllFiles_witness :
  Map_.get (getAllFiles (deserialize constructor [("/a.ts", "x"); ("/lib/b.ts", "y")]))
    "/lib/b.ts"
  = recordGet [("/a.ts", "x"); ("/lib/b.ts", "y")] "/lib/b.ts".
Proof.
  apply (deserialize_then_getAllFiles constructor [("/a.ts", "x"); ("/lib/b.ts", "y")] "/lib/b.ts").
  - apply built_new.
  - intros p [<-|[<-|[]]]; (split; [vm_compute; reflexivity | discriminate]).
  - intros p p' [<-|[<-|[]]] [<-|[<-|[]]]; vm_compute; reflexivity.
Defined.


(** ** [createFileWithParents] *)

Lemma createAncestors_noop parts : forall fs pre,
  List.forallb validName (pre ++ parts) = true ->
  (forall i, 1 <= i <= List.length parts ->
     Map_.has (files fs) (pathOf (pre ++ List.firstn i parts)) = true) ->
  createAncestors fs (rawPath pre) parts = fs.
Proof.
  induction parts as [|part rest IH]; intros fs pre Hv Hall; [reflexivity|].
  assert (Hv' : List.forallb validName ((pre ++ [part]) ++ rest) = true)
    by (rewrite <- app_assoc; exact Hv).
  assert (Hv1 : List.forallb validName (pre ++ [part]) = true)
    by (apply valid_app in Hv'; tauto).
  assert (Hcur : JS.cat (rawPath pre) (JS.cat "/" part) = rawPath (pre ++ [part]))
    by (rewrite rawPath_snoc; reflexivity).
  assert (Hn : normalizePath (rawPath (pre ++ [part])) = pathOf (pre ++ [part])).
  { rewrite <- pathOf_snoc_raw. apply normalizePath_pathOf, Hv1. }
  assert (Hstep : createAncestors fs (rawPath pre) (part :: rest)
                  = createAncestors
                      (if negb (Map_.has (files fs) (pathOf (pre ++ [part])))
                       then snd (createDirectory fs (rawPath (pre ++ [part]))) else fs)
                      (rawPath (pre ++ [part])) rest).
  { cbn [createAncestors]. rewrite Hcur. unfold exists_. rewrite Hn. reflexivity. }
  rewrite Hstep. clear Hstep.
  pose proof (Hall 1 ltac:(simpl; lia)) as H1.
  change (List.firstn 1 (part :: rest)) with [part] in H1.
  rewrite H1. simpl negb. cbv iota.
  apply (IH fs (pre ++ [part]) Hv'). intros i Hi.
  rewrite <- app_assoc. apply (Hall (S i)). simpl. lia.
Qed.

Lemma createAncestors_again fs segs :
  wellFormed fs -> List.forallb validName segs = true ->
  createAncestors (createAncestors fs EmptyString segs) EmptyString segs
  = createAncestors fs EmptyString segs.
Proof.
  intros WF Hv.
  destruct (createAncestors_spec segs fs [] WF Hv) as ([_ C1] & _ & _).
  destruct (createAncestors_blocked segs fs [] WF Hv) as [(a & Ha & _)|E].
  - change (rawPath []) with EmptyString in *. simpl app in Ha.
    apply (createAncestors_noop segs _ [] Hv). intros i Hi. simpl app.
    apply has_stored.
    apply (coherent_ancestor _ _ (List.firstn i segs) (List.skipn i segs) a C1);
      rewrite firstn_skipn; [exact Hv | exact Ha].
  - change (rawPath []) with EmptyString in E. rewrite E. exact E.
Qed.

(** X14. In a tree that [built] admits (built from a new instance by the
    methods, each path to create normalizing to a normal path and no
    directory being renamed into its own subtree), [createFileWithParents]
    on a path that is itself normal leaves the tree that [createFile]
    leaves. When the path is not in the tree it answers that the file was
    created, also when a node of the tree above the path is a file; then
    nothing was created, and the instance is as it was. *)
Theorem createFileWithParents_like_createFile
    (fs : VirtualFileSystem) (path content : string) :
  built fs ->
  cleanPath path = true ->
  snd (createFileWithParents fs path content) = snd (createFile fs path content)
  /\ (exists_ fs path = false ->
      fst (createFileWithParents fs path content) = JS.cat "File created: " path
      /\ ((exists q a, Map_.get (files fs) q = Some a
             /\ JS.startsWith path (JS.cat q "/") = true
             /\ isDirectory fs a = false) ->
          snd (createFileWithParents fs path content) = fs
          /\ readFile (snd (createFileWithParents fs path content)) path = None)).
Proof.
  intros B Hcp. pose proof (built_wellFormed _ B) as WF. pose proof WF as [G C].
  pose proof (cleanPath_normalize _ Hcp) as HN.
  pose proof (cleanPath_cleanSegs _ Hcp) as Hclean.
  assert (Hsame : snd (createFileWithParents fs path content) = snd (createFile fs path content)).
  { unfold createFileWithParents. destruct (exists_ fs path) eqn:Hex.
    { unfold exists_ in Hex. unfold createFile. rewrite Hex. reflexivity. }
    assert (Hne : path <> "/").
    { intros E. apply exists_false in Hex. rewrite HN, E in Hex.
      pose proof (c_root _ _ C) as Hr. unfold stored in Hr. congruence. }
    destruct (cleanSegs_split _ Hclean Hne) as (segs & k & Hvs & Hk & Hp & _).
    assert (Hv : List.forallb validName (segs ++ [k]) = true) by (apply valid_snoc; auto).
    assert (Hparts : List.removelast (JS.filterBoolean (JS.split "/" path)) = segs).
    { rewrite Hp, parts_pathOf by exact Hv. apply removelast_snoc. }
    cbv zeta. rewrite Hparts. simpl snd.
    destruct (createAncestors_spec segs fs [] WF Hvs) as (W1 & (_ & G12 & _) & _).
    change (rawPath []) with EmptyString in W1, G12. simpl app in G12.
    unfold exists_ in Hex. rewrite HN in Hex.
    assert (Hhas1 : Map_.has (files (createAncestors fs EmptyString segs)) path = false).
    { apply has_false.
      destruct (Map_.get (files (createAncestors fs EmptyString segs)) path) as [a|] eqn:Ea;
        [|reflexivity].
      exfalso. destruct (G12 _ _ Ea) as [Hold|((i & Hi & Hq) & _)].
      - apply has_false in Hex. unfold stored in Hold. congruence.
      - rewrite Hp in Hq. apply pathOf_inj in Hq; [|exact Hv|].
        + apply (f_equal (@List.length string)) in Hq.
          rewrite length_app, length_firstn in Hq. simpl in Hq. lia.
        + rewrite <- (firstn_skipn i segs) in Hvs. apply valid_app in Hvs. tauto. }
    unfold createFile. rewrite HN, Hhas1, Hex. cbv zeta. rewrite Hparts.
    rewrite (createAncestors_again fs segs WF Hvs). reflexivity. }
  split; [exact Hsame|]. intros Hex.
  split; [unfold createFileWithParents; rewrite Hex; reflexivity|].
  intros Hfile. rewrite Hsame.
  destruct (createFile_refusal fs path content WF) as [Hrefuse Hnothing];
    [rewrite HN; exact Hclean|].
  assert (Hfst : fst (createFile fs path content) = None).
  { apply Hrefuse. right. rewrite HN. exact Hfile. }
  rewrite (Hnothing Hfst). split; [reflexivity|].
  rewrite readFile_stored. apply exists_false in Hex. rewrite Hex. reflexivity.
Qed.

Lemma createFileWithParents_like_createFile_witness :
  let fs := snd (createFile constructor "/f" "x") in
  snd (createFileWithParents fs "/f/a/b.ts" "y") = snd (createFile fs "/f/a/b.ts" "y")
  /\ (exists_ fs "/f/a/b.ts" = false ->
      fst (createFileWithParents fs "/f/a/b.ts" "y") = JS.cat "File created: " "/f/a/b.ts"
      /\ ((exists q a, Map_.get (files fs) q = Some a
             /\ JS.startsWith "/f/a/b.ts" (JS.cat q "/") = true
             /\ isDirectory fs a = false) ->
          snd (createFileWithParents fs "/f/a/b.ts" "y") = fs
          /\ readFile (snd (createFileWithParents fs "/f/a/b.ts" "y")) "/f/a/b.ts" = None)).
Proof.
  intros fs. apply (createFileWithParents_like_createFile fs "/f/a/b.ts" "y").
  - apply (built_step constructor (OMutation (MCreateFile "/f" "x")) 0 fs built_new);
      [vm_compute; reflexivity | reflexivity].
  - vm_compute. reflexivity.
Defined.


(** ** Lines: [split] and [join] at the line feed *)

Lemma prefix_nl x s : String.prefix nl (String x s) = Ascii.eqb (ascii_of_nat 10) x.
Proof.
  change nl with (String (ascii_of_nat 10) EmptyString).
  rewrite prefix_cons, prefix_nil. apply andb_true_r.
Qed.

Lemma splitFrom_app_nl a b : forall cur,
  JS.splitFrom nl (String.append a (String.append nl b)) 0 cur
  = JS.splitFrom nl a 0 cur ++ JS.split nl b.
Proof.
  induction a as [|x a IH]; intros cur.
  - change (String.append EmptyString (String.append nl b))
      with (String (ascii_of_nat 10) b).
    rewrite splitFrom_eq, prefix_nl, Ascii.eqb_refl. reflexivity.
  - change (String.append (String x a) (String.append nl b))
      with (String x (String.append a (String.append nl b))).
    rewrite (splitFrom_eq nl (String x a)), splitFrom_eq, !prefix_nl.
    destruct (Ascii.eqb (ascii_of_nat 10) x).
    + change (String.length nl - 1) with 0. rewrite IH. reflexivity.
    + apply IH.
Qed.

Lemma split_join_nl (l : list string) :
  l <> [] -> JS.split nl (JS.join nl l) = List.concat (List.map (JS.split nl) l).
Proof.
  induction l as [|x l IH]; [congruence|]. intros _.
  destruct l as [|y l].
  - simpl. rewrite app_nil_r. reflexivity.
  - rewrite join_cons by discriminate. unfold JS.split at 1.
    rewrite splitFrom_app_nl. rewrite IH by discriminate. reflexivity.
Qed.

Lemma split_piece_nl : forall n s x,
  String.length s <= n -> In x (JS.split nl s) -> JS.split nl x = [x].
Proof.
  assert (Hnl : nl <> EmptyString) by discriminate.
  induction n as [n IH] using lt_wf_ind. intros s x Hn Hin.
  unfold JS.split in Hin. rewrite (splitFrom_cut nl Hnl) in Hin.
  destruct (cutAt nl s) as [[a b]|] eqn:E.
  - destruct Hin as [<-|Hin].
    + simpl String.append. unfold JS.split. rewrite (splitFrom_cut nl Hnl).
      destruct (cutAt nl a) as [[a1 b1]|] eqn:Ea; [|reflexivity].
      exfalso. apply cutAt_sound in Ea.
      change (String.append nl b1) with (String (ascii_of_nat 10) b1) in Ea.
      pose proof (cutAt_first _ _ _ _ E a1 (ascii_of_nat 10) b1 Ea) as Hf.
      change (String.append (String (ascii_of_nat 10) b1) (String.append nl b))
        with (String (ascii_of_nat 10) (String.append b1 (String.append nl b))) in Hf.
      rewrite prefix_nl, Ascii.eqb_refl in Hf. discriminate.
    + pose proof (cutAt_shorter _ _ _ _ Hnl E) as Hlt.
      apply (IH (String.length b) ltac:(lia) b x (le_n _) Hin).
  - destruct Hin as [<-|[]]. simpl String.append. unfold JS.split.
    rewrite (splitFrom_cut nl Hnl), E. reflexivity.
Qed.

Lemma concat_pieces (l : list string) :
  (forall x, In x l -> JS.split nl x = [x]) ->
  List.concat (List.map (JS.split nl) l) = l.
Proof.
  induction l as [|x l IH]; intros H; [reflexivity|].
  simpl. rewrite (H x (or_introl eq_refl)), IH; [reflexivity|].
  intros y Hy. apply H. right. exact Hy.
Qed.

(** The lines after the insertion of a text between the lines of a
    content. *)
Lemma split_insert c n text :
  JS.split nl (JS.join nl (List.firstn n (JS.split nl c) ++ text :: List.skipn n (JS.split nl c)))
  = List.firstn n (JS.split nl c) ++ JS.split nl text ++ List.skipn n (JS.split nl c).
Proof.
  assert (Hpiece : forall x, In x (JS.split nl c) -> JS.split nl x = [x])
    by (intros x Hx; apply (split_piece_nl (String.length c) c x (le_n _) Hx)).
  rewrite split_join_nl by (destruct (List.firstn n (JS.split nl c)); discriminate).
  rewrite map_app, concat_app. simpl. rewrite !concat_pieces; [reflexivity| |].
  - intros x Hx. apply Hpiece. rewrite <- (firstn_skipn n (JS.split nl c)).
    apply in_or_app. right. exact Hx.
  - intros x Hx. apply Hpiece. rewrite <- (firstn_skipn n (JS.split nl c)).
    apply in_or_app. left. exact Hx.
Qed.

(** ** [insertInFile] *)

(** X15. In a tree that [built] admits (built from a new instance by the
    methods, each path to create normalizing to a normal path and no
    directory being renamed into its own subtree), let [path] be a file.
    With an integer line number from zero to the number of lines of the
    file, [insertInFile] answers that the text was inserted; afterwards the
    lines of the file are the lines that were before the number, the lines
    of the text, and the lines that were after; every other path is read as
    before. With any other integer the instance is as it was. *)
Theorem insertInFile_inserts_between_lines
    (fs : VirtualFileSystem) (path : string) (n : Z) (text c : string) :
  built fs ->
  readFile fs path = Some c ->
  ((0 <= n <= Z.of_nat (List.length (JS.split nl c)))%Z ->
     fst (insertInFile fs path (Some n) text)
     = JS.cat "Text inserted at line " (JS.cat (numberToString n) (JS.cat " in " path))
     /\ (exists c', readFile (snd (insertInFile fs path (Some n) text)) path = Some c'
           /\ JS.split nl c'
              = List.firstn (Z.to_nat n) (JS.split nl c) ++ JS.split nl text
                ++ List.skipn (Z.to_nat n) (JS.split nl c))
     /\ (forall q, normalizePath q <> normalizePath path ->
           readFile (snd (insertInFile fs path (Some n) text)) q = readFile fs q))
  /\ (~ (0 <= n <= Z.of_nat (List.length (JS.split nl c)))%Z ->
      snd (insertInFile fs path (Some n) text) = fs).
Proof.
  intros B Hc. pose proof (built_wellFormed _ B) as WF.
  destruct (proj1 (readFile_is_file fs path) (ex_intro _ c Hc)) as (file & Hfile & Hisf).
  unfold insertInFile, getNode. rewrite Hfile, Hisf, Hc. simpl negb. cbv iota zeta.
  split.
  - intros Hn.
    assert (Htest : Z.ltb n 0 || Z.ltb (Z.of_nat (List.length (JS.split nl c))) n = false).
    { apply orb_false_iff. split; apply Z.ltb_ge; lia. }
    rewrite Htest. cbn [fst snd]. split; [reflexivity|]. split.
    + destruct (readFile_updateFile fs path file
                  (JS.join nl (List.firstn (Z.to_nat n) (JS.split nl c)
                               ++ text :: List.skipn (Z.to_nat n) (JS.split nl c)))
                  Hfile Hisf) as [Hup Hread].
      rewrite Hup. cbn [snd]. eexists. split; [exact Hread|]. apply split_insert.
    + intros q Hq. apply updateFile_frame; assumption.
  - intros Hn.
    assert (Htest : Z.ltb n 0 || Z.ltb (Z.of_nat (List.length (JS.split nl c))) n = true).
    { apply orb_true_iff. destruct (Z.ltb n 0) eqn:E; [left; reflexivity|].
      right. apply Z.ltb_lt. apply Z.ltb_ge in E. lia. }
    rewrite Htest. reflexivity.
Qed.

Lemma insertInFile_inserts_between_lines_witness :
  let fs := snd (createFile constructor "/a.txt" (JS.cat "x" (JS.cat nl "y"))) in
  ((0 <= 1 <= Z.of_nat (List.length (JS.split nl (JS.cat "x" (JS.cat nl "y")))))%Z ->
     fst (insertInFile fs "/a.txt" (Some 1%Z) "new")
     = JS.cat "Text inserted at line " (JS.cat (numberToString 1) (JS.cat " in " "/a.txt"))
     /\ (exists c', readFile (snd (insertInFile fs "/a.txt" (Some 1%Z) "new")) "/a.txt" = Some c'
           /\ JS.split nl c'
              = List.firstn (Z.to_nat 1) (JS.split nl (JS.cat "x" (JS.cat nl "y")))
                ++ JS.split nl "new"
                ++ List.skipn (Z.to_nat 1) (JS.split nl (JS.cat "x" (JS.cat nl "y"))))
     /\ (forall q, normalizePath q <> normalizePath "/a.txt" ->
           readFile (snd (insertInFile fs "/a.txt" (Some 1%Z) "new")) q = readFile fs q))
  /\ (~ (0 <= 1 <= Z.of_nat (List.length (JS.split nl (JS.cat "x" (JS.cat nl "y")))))%Z ->
      snd (insertInFile fs "/a.txt" (Some 1%Z) "new") = fs).
Proof.
  intros fs.
  apply (insertInFile_inserts_between_lines fs "/a.txt" 1%Z "new" (JS.cat "x" (JS.cat nl "y"))).
  - apply (built_step constructor
             (OMutation (MCreateFile "/a.txt" (JS.cat "x" (JS.cat nl "y")))) 0 fs built_new);
      [vm_compute; reflexivity | reflexivity].
  - vm_compute. reflexivity.
Defined.

(** ** [viewFile] *)

Lemma not_empty_file_text c x r :
  c <> "("%char -> String.append (String c x) r <> "(empty file)".
Proof. intros Hc E. simpl in E. injection E as E _. congruence. Qed.

Lemma join_head sep x (l : list string) : exists r, JS.join sep (x :: l) = String.append x r.
Proof.
  destruct l as [|y l].
  - exists EmptyString. simpl. rewrite app_nil_r_s. reflexivity.
  - eexists. apply join_cons. discriminate.
Qed.

Lemma ofNat_head k : exists c x, JS.ofNat k = String c x /\ c <> "("%char.
Proof.
  unfold JS.ofNat. destruct (Nat.to_uint k); simpl; eexists _, _; (split; [reflexivity | discriminate]).
Qed.

Lemma numberToString_head z : exists c x, numberToString z = String c x /\ c <> "("%char.
Proof.
  unfold numberToString. destruct (Z.ltb z 0).
  - eexists _, _. split; [reflexivity | discriminate].
  - apply ofNat_head.
Qed.

Lemma mapIndexedFrom_ext {A B} (f g : A -> nat -> B) (l : list A) : forall i,
  (forall x j, f x j = g x j) -> mapIndexedFrom i f l = mapIndexedFrom i g l.
Proof.
  induction l as [|x l IH]; intros i H; [reflexivity|]. simpl. rewrite H, (IH (S i) H). reflexivity.
Qed.

(** The numbered lines of a content are never the empty text. *)
Lemma numbered_lines_head c :
  exists x, JS.join nl
              (mapIndexedFrom 0 (fun line index => JS.cat (JS.ofNat (index + 1)) (JS.cat tab line))
                 (JS.split nl c))
            = String "1" x.
Proof.
  pose proof (splitFrom_nonempty nl c 0 EmptyString) as Hne. unfold JS.split.
  destruct (JS.splitFrom nl c 0 EmptyString) as [|line rest]; [congruence|].
  cbn [mapIndexedFrom].
  destruct (join_head nl (JS.cat (JS.ofNat (0 + 1)) (JS.cat tab line))
              (mapIndexedFrom 1
                 (fun line0 index => JS.cat (JS.ofNat (index + 1)) (JS.cat tab line0)) rest))
    as [r Hr].
  rewrite Hr. eexists. reflexivity.
Qed.

Section ViewFileFacts.
Variable sortByName : (ref -> string) -> list ref -> list ref.

  (** X16.  [viewFile] never answers that the file is empty, whatever the
      sort of the platform: the numbered lines of a file start with the
      number of its first line, and an empty file is shown as the number
      one followed by a tab. *)
Theorem viewFile_never_says_empty_file
      (fs : VirtualFileSystem) (path : string) (viewRange : option (list Z)) :
    viewFile sortByName fs path viewRange <> "(empty file)"
    /\ (readFile fs path = Some EmptyString ->
        viewFile sortByName fs path None = JS.cat "1" tab).
  Proof.
    split.
    - unfold viewFile. destruct (getNode fs path) as [file|]; [|discriminate].
      destruct (isDirectory fs file).
      + destruct (listDirectory fs path) as [children|]; [|discriminate].
        destruct (Nat.eqb (List.length children) 0); [discriminate|].
        destruct (sortByName (fun a => FileNode.name (deref fs a)) children) as [|x l];
          [discriminate|].
        cbn [List.map].
        match goal with |- JS.join nl (?h :: ?t) <> _ => destruct (join_head nl h t) as [r ->] end.
        destruct (isDirectory fs x); apply not_empty_file_text; discriminate.
      + cbv zeta.
        destruct viewRange as [[|start [|end_ [|more rest]]]|].
        * destruct (numbered_lines_head (contentOrEmpty (deref fs file))) as [x ->].
          simpl. discriminate.
        * destruct (numbered_lines_head (contentOrEmpty (deref fs file))) as [x ->].
          simpl. discriminate.
        * match goal with |- JS.join nl (mapIndexedFrom 0 ?f ?l) <> _ => destruct l as [|line more] end;
            [discriminate|].
          cbn [mapIndexedFrom].
          match goal with |- JS.join nl (?h :: ?t) <> _ => destruct (join_head nl h t) as [r ->] end.
          destruct (numberToString_head (Z.max 1 start + Z.of_nat 0)) as (ch & x & -> & Hch).
          apply not_empty_file_text, Hch.
        * destruct (numbered_lines_head (contentOrEmpty (deref fs file))) as [x ->].
          simpl. discriminate.
        * destruct (numbered_lines_head (contentOrEmpty (deref fs file))) as [x ->].
          simpl. discriminate.
    - intros Hc. rewrite readFile_stored in Hc. unfold viewFile, getNode.
      destruct (Map_.get (files fs) (normalizePath path)) as [file|]; [|discriminate].
      rewrite isFile_not_directory in Hc.
      destruct (isDirectory fs file); [discriminate|]. simpl in Hc. injection Hc as ->.
      reflexivity.
  Qed.

  (** X17.  For a file, a range that starts at the first line or before
      it, and ends at minus one or at the number of lines or after it,
      shows what [viewFile] shows without a range. *)
Theorem viewFile_whole_range
      (fs : VirtualFileSystem) (path c : string) (start end_ : Z) :
    readFile fs path = Some c ->
    (start <= 1)%Z ->
    (end_ = (-1)%Z \/ (Z.of_nat (List.length (JS.split nl c)) <= end_)%Z) ->
    viewFile sortByName fs path (Some [start; end_]) = viewFile sortByName fs path None.
  Proof.
    intros Hc Hs He. rewrite readFile_stored in Hc. unfold viewFile, getNode.
    destruct (Map_.get (files fs) (normalizePath path)) as [file|]; [|discriminate].
    rewrite isFile_not_directory in Hc.
    destruct (isDirectory fs file); [discriminate|]. simpl in Hc. injection Hc as Hc.
    cbv zeta. rewrite Hc.
    assert (Htruthy : JS.truthy
              (JS.join nl
                 (mapIndexedFrom 0
                    (fun line index => JS.cat (JS.ofNat (index + 1)) (JS.cat tab line))
                    (JS.split nl c))) = true).
    { destruct (numbered_lines_head c) as [x ->]. reflexivity. }
    rewrite Htruthy.
    set (len := Z.of_nat (List.length (JS.split nl c))) in *.
    assert (Hstart : Z.max 1 start = 1%Z) by lia.
    assert (Hend : (if Z.eqb end_ (-1) then len else Z.min len end_) = len).
    { destruct (Z.eqb end_ (-1)) eqn:E; [reflexivity|].
      apply Z.eqb_neq in E. destruct He as [He|He]; [congruence | lia]. }
    rewrite Hstart, Hend.
    assert (Hslice : arraySlice (JS.split nl c) (1 - 1) len = JS.split nl c).
    { unfold arraySlice. fold len. change (1 - 1)%Z with 0%Z.
      change (Z.ltb 0 0) with false. cbv iota.
      assert (Hlen : (0 <= len)%Z) by (unfold len; lia).
      replace (Z.ltb len 0) with false by (symmetry; apply Z.ltb_ge; lia).
      rewrite Z.min_id, Z.min_l by lia. change (Z.to_nat 0) with 0. simpl List.skipn.
      rewrite Z.sub_0_r. unfold len. rewrite Nat2Z.id. apply firstn_all. }
    rewrite Hslice. f_equal. apply mapIndexedFrom_ext. intros line j.
    unfold numberToString.
    replace (Z.ltb (1 + Z.of_nat j) 0) with false by (symmetry; apply Z.ltb_ge; lia).
    replace (Z.to_nat (1 + Z.of_nat j)) with (j + 1) by lia. reflexivity.
  Qed.
End ViewFileFacts.

Lemma viewFile_never_says_empty_file_witness :
  let fs := snd (createFile constructor "/a.txt" EmptyString) in
  viewFile (fun _ l => l) fs "/a.txt" None <> "(empty file)"
  /\ (readFile fs "/a.txt" = Some EmptyString ->
      viewFile (fun _ l => l) fs "/a.txt" None = JS.cat "1" tab).
Proof.
  intros fs. apply (viewFile_never_says_empty_file (fun _ l => l) fs "/a.txt" None).
Defined.

Lemma viewFile_whole_range_witness :
  let fs := snd (createFile constructor "/a.txt" (JS.cat "x" (JS.cat nl "y"))) in
  viewFile (fun _ l => l) fs "/a.txt" (Some [0%Z; 9%Z]) = viewFile (fun _ l => l) fs "/a.txt" None.
Proof.
  intros fs.
  apply (viewFile_whole_range (fun _ l => l) fs "/a.txt" (JS.cat "x" (JS.cat nl "y")) 0 9).
  - vm_compute. reflexivity.
  - lia.
  - right. vm_compute. discriminate.
Defined.


(** ** The parent path and the name of a path *)

(** X18.  For a path that normalizes to a normal path other than the
    root, the parent path and the file name put the normalized path
    together again; the parent path is a path that [normalizePath] leaves
    as it is, and the name is not empty and has no slash. *)
Theorem parent_and_name_recompose (path : string) :
  cleanPath (normalizePath path) = true -> normalizePath path <> "/" ->
  normalizePath path
  = (if String.eqb (getParentPath path) "/" then JS.cat "/" (getFileName path)
     else JS.cat (getParentPath path) (JS.cat "/" (getFileName path)))
  /\ normalizePath (getParentPath path) = getParentPath path
  /\ validName (getFileName path) = true.
Proof.
  intros Hcp Hne. pose proof (cleanPath_normalize _ Hcp) as Hnn.
  assert (Hp : getParentPath (normalizePath path) = getParentPath path)
    by (unfold getParentPath; rewrite Hnn; reflexivity).
  assert (Hf : getFileName (normalizePath path) = getFileName path)
    by (unfold getFileName; rewrite Hnn; reflexivity).
  destruct (cleanSegs_split _ (cleanPath_cleanSegs _ Hcp) Hne)
    as (segs & k & Hvs & Hk & HN & HP & HF & HJ).
  rewrite Hp in HP. rewrite Hf in HF. rewrite HP, HF. split; [|split].
  - rewrite <- HJ. reflexivity.
  - apply normalizePath_pathOf, Hvs.
  - exact Hk.
Qed.

Lemma parent_and_name_recompose_witness :
  normalizePath "src//lib/a.ts"
  = (if String.eqb (getParentPath "src//lib/a.ts") "/" then JS.cat "/" (getFileName "src//lib/a.ts")
     else JS.cat (getParentPath "src//lib/a.ts") (JS.cat "/" (getFileName "src//lib/a.ts")))
  /\ normalizePath (getParentPath "src//lib/a.ts") = getParentPath "src//lib/a.ts"
  /\ validName (getFileName "src//lib/a.ts") = true.
Proof.
  apply (parent_and_name_recompose "src//lib/a.ts"); [vm_compute; reflexivity | vm_compute; discriminate].
Defined.

(** ** The tools *)

Lemma deleteFile_false_same fuel fs path fs' :
  wellFormed fs -> deleteFile fuel fs path = Some (false, fs') -> fs' = fs.
Proof.
  intros WF H. destruct fuel as [|fuel]; [discriminate|].
  destruct (Map_.get (files fs) (normalizePath path)) as [file|] eqn:Hfile.
  - destruct (String.eqb (normalizePath path) "/") eqn:HN.
    + apply String.eqb_eq in HN. rewrite (deleteFile_refused fuel fs path) in H by auto.
      injection H as <-. reflexivity.
    + apply String.eqb_neq in HN.
      destruct (deleteFile_removes fs path file WF Hfile HN)
        as (segs & k & fs1 & fuel0 & _ & _ & Hrun & _).
      pose proof (deleteFile_mono _ _ _ _ H (Nat.max (S fuel) fuel0) ltac:(lia)) as H1.
      rewrite (Hrun (Nat.max (S fuel) fuel0) ltac:(lia)) in H1. discriminate.
  - rewrite (deleteFile_refused fuel fs path) in H by auto. injection H as <-. reflexivity.
Qed.

(** X19. On a tree that [built] admits (built from a new instance by the
    methods, each path to create normalizing to a normal path and no
    directory being renamed into its own subtree), when the file manager
    tool answers without success, to a rename, a delete or any other
    command, the instance is as it was; for a rename the new path is taken
    to normalize to a normal path. *)
Theorem fileManagerExecute_failure_changes_nothing
    (fuel : nat) (fs : VirtualFileSystem) (command path : string) (new_path : option string)
    (r : ToolResult.t) (fs' : VirtualFileSystem) :
  built fs ->
  (forall p, new_path = Some p -> cleanPath (normalizePath p) = true) ->
  fileManagerExecute fuel fs command path new_path = Some (r, fs') ->
  ToolResult.success r = false ->
  fs' = fs.
Proof.
  intros B Hnew H Hfail. pose proof (built_wellFormed _ B) as WF.
  unfold fileManagerExecute in H.
  destruct (String.eqb command "rename").
  - destruct (negb (JS.truthyOpt new_path)) eqn:Et; [injection H as _ <-; reflexivity|].
    destruct new_path as [p|]; [|discriminate].
    destruct (rename fuel fs path p) as [[[|] fs1]|] eqn:Er; [| |discriminate].
    + injection H as <- _. discriminate.
    + injection H as _ <-.
      destruct (rename_refusal fs path p WF (cleanPath_cleanSegs _ (Hnew p eq_refl)))
        as [[_ Hrun]|[_ Hrun]].
      * rewrite Hrun in Er. injection Er as <-. reflexivity.
      * pose proof (Hrun _ _ _ Er). discriminate.
  - destruct (String.eqb command "delete").
    + destruct (deleteFile fuel fs path) as [[[|] fs1]|] eqn:Ed; [| |discriminate].
      * injection H as <- _. discriminate.
      * injection H as _ <-. apply (deleteFile_false_same _ _ _ _ WF Ed).
    + injection H as _ <-. reflexivity.
Qed.

Lemma fileManagerExecute_failure_changes_nothing_witness :
  let fs := snd (createFile constructor "/a.txt" "x") in
  let r := ToolResult.Build false None (Some (JS.cat "Failed to delete " "/nowhere")) in
  fileManagerExecute 1 fs "delete" "/nowhere" None = Some (r, fs)
  /\ ToolResult.success r = false
  /\ fs = fs.
Proof.
  intros fs r. split; [vm_compute; reflexivity|]. split; [reflexivity|].
  apply (fileManagerExecute_failure_changes_nothing 1 fs "delete" "/nowhere" None r fs).
  - apply (built_step constructor (OMutation (MCreateFile "/a.txt" "x")) 0 fs built_new);
      [vm_compute; reflexivity | reflexivity].
  - intros p Hp. discriminate.
  - vm_compute. reflexivity.
  - reflexivity.
Defined.

Section StrReplaceToolFacts.
Variable sortByName : (ref -> string) -> list ref -> list ref.

  (** X20.  When the text editor tool answers with a text that starts
      with the word Error, the instance is as it was, whatever the
      command. *)
Theorem strReplaceExecute_error_changes_nothing
      (fs : VirtualFileSystem) (command : EditorCommand) (path : string)
      (file_text : option string) (insert_line : option Z) (new_str old_str : option string)
      (view_range : option (list Z)) (answer : string) (fs' : VirtualFileSystem) :
    strReplaceExecute sortByName fs command path file_text insert_line new_str old_str view_range
    = Some (answer, fs') ->
    JS.startsWith answer "Error" = true ->
    fs' = fs.
  Proof.
    intros H Herr. destruct command; simpl in H.
    - injection H as _ <-. reflexivity.
    - unfold createFileWithParents in H. destruct (exists_ fs path).
      + injection H as _ <-. reflexivity.
      + injection H as <- _. discriminate.
    - unfold replaceInFile in H. destruct (getNode fs path) as [file|]; [|injection H as _ <-; reflexivity].
      destruct (negb (isFile fs file)); [injection H as _ <-; reflexivity|].
      destruct (negb (JS.truthy _) || negb (JS.includes _ _)); [injection H as _ <-; reflexivity|].
      destruct (RegExp (escapeRegExp _)); [|discriminate].
      injection H as <- _. discriminate.
    - unfold insertInFile in H. destruct (getNode fs path) as [file|]; [|injection H as _ <-; reflexivity].
      destruct (negb (isFile fs file)); [injection H as _ <-; reflexivity|].
      destruct (Z.ltb _ 0 || Z.ltb _ _); [injection H as _ <-; reflexivity|].
      injection H as <- _. discriminate.
    - injection H as _ <-. reflexivity.
  Qed.
End StrReplaceToolFacts.

Lemma strReplaceExecute_error_changes_nothing_witness :
  let fs := snd (createFile constructor "/a.txt" "x") in
  let answer := JS.cat "Error: String not found in file: " (JS.cat dquote (JS.cat "z" dquote)) in
  strReplaceExecute (fun _ l => l) fs CmdStrReplace "/a.txt" None None (Some "y") (Some "z") None
  = Some (answer, fs)
  /\ JS.startsWith answer "Error" = true
  /\ fs = fs.
Proof.
  intros fs answer. split; [vm_compute; reflexivity|]. split; [vm_compute; reflexivity|].
  apply (strReplaceExecute_error_changes_nothing (fun _ l => l) fs CmdStrReplace "/a.txt"
           None None (Some "y") (Some "z") None answer fs).
  - vm_compute. reflexivity.
  - vm_compute. reflexivity.
Defined.

(** ** [resolveRelativePath] *)

Lemma slash_join l : JS.cat "/" (JS.join "/" l) = pathOf l.
Proof.
  destruct l as [|k r]; [reflexivity|].
  change (pathOf (k :: r)) with (rawPath (k :: r)).
  rewrite <- (concat_raw (k :: r)) by discriminate. reflexivity.
Qed.

Lemma split_noSlash name : noSlash name = true -> JS.splitFrom "/" name 0 EmptyString = [name].
Proof.
  intros H. rewrite <- (app_nil_r_s name) at 1.
  rewrite (splitFrom_noSlash name EmptyString EmptyString H). reflexivity.
Qed.

(** X21.  From any directory, [resolveRelativePath] takes a dot followed
    by a name to the child of that name, and two dots followed by a name
    to the child of that name of the parent directory; the parent of the
    root is the root, so the result never leaves the tree. *)
Theorem resolveRelativePath_dot_and_dotdot (fromDir name : string) :
  validName name = true -> name <> "." -> name <> ".." ->
  resolveRelativePath fromDir (JS.cat "./" name)
  = pathOf (JS.filterBoolean (JS.split "/" fromDir) ++ [name])
  /\ resolveRelativePath fromDir (JS.cat "../" name)
     = pathOf (List.removelast (JS.filterBoolean (JS.split "/" fromDir)) ++ [name])
  /\ resolveRelativePath "/" (JS.cat "../" name) = JS.cat "/" name.
Proof.
  intros Hv Hd Hdd. pose proof (validName_noSlash _ Hv) as Hns.
  apply String.eqb_neq in Hd. apply String.eqb_neq in Hdd.
  assert (Hs1 : JS.split "/" (JS.cat "./" name) = ["."; name]).
  { unfold JS.split, JS.cat. simpl String.append. cbn.
    rewrite prefix_nil, (split_noSlash _ Hns). reflexivity. }
  assert (Hs2 : JS.split "/" (JS.cat "../" name) = [".."; name]).
  { unfold JS.split, JS.cat. simpl String.append. cbn.
    rewrite prefix_nil, (split_noSlash _ Hns). reflexivity. }
  assert (H1 : forall d, resolveRelativePath d (JS.cat "./" name)
                         = pathOf (JS.filterBoolean (JS.split "/" d) ++ [name])).
  { intros d. unfold resolveRelativePath. rewrite Hs1. cbn [List.fold_left].
    change (String.eqb "." "..") with false. change (String.eqb "." ".") with true.
    cbn [negb]. rewrite Hdd, Hd. cbn [negb]. apply slash_join. }
  assert (H2 : forall d, resolveRelativePath d (JS.cat "../" name)
                         = pathOf (List.removelast (JS.filterBoolean (JS.split "/" d)) ++ [name])).
  { intros d. unfold resolveRelativePath. rewrite Hs2. cbn [List.fold_left].
    change (String.eqb ".." "..") with true. cbv iota.
    rewrite Hdd, Hd. cbn [negb]. apply slash_join. }
  split; [apply H1|]. split; [apply H2|]. rewrite H2.
  change (List.removelast (JS.filterBoolean (JS.split "/" "/"))) with (@nil string).
  change (pathOf ([] ++ [name])) with (String slash (String.append name EmptyString)).
  rewrite app_nil_r_s. reflexivity.
Qed.

Lemma resolveRelativePath_dot_and_dotdot_witness :
  resolveRelativePath "/src/ui" (JS.cat "./" "a.css")
  = pathOf (JS.filterBoolean (JS.split "/" "/src/ui") ++ ["a.css"])
  /\ resolveRelativePath "/src/ui" (JS.cat "../" "a.css")
     = pathOf (List.removelast (JS.filterBoolean (JS.split "/" "/src/ui")) ++ ["a.css"])
  /\ resolveRelativePath "/" (JS.cat "../" "a.css") = JS.cat "/" "a.css".
Proof.
  apply (resolveRelativePath_dot_and_dotdot "/src/ui" "a.css");
    [vm_compute; reflexivity | discriminate | discriminate].
Defined.


(** ** [createImportMap] on any snapshot *)

Section ImportMapFacts.
Variable Babel_transform : string -> string -> bool -> BabelOutcome.
Variable objectURL : nat -> string.
Variable JSON_stringify_imports : gmap string string -> string.
Variable files : Map_.t string.

Lemma firstPass_fold_errors l : forall st,
    passErrors
      (List.fold_left (firstPassStep Babel_transform objectURL (List.map fst (Map_.entries files)))
         l st)
    = passErrors st
      ++ List.flat_map
           (fun '(path, content) =>
              if isScriptPath path && failsToCompile Babel_transform files path content
              then [ErrorEntry.Build path
                      (match TransformResult.error
                               (transformJSX Babel_transform content path
                                  (List.map fst (Map_.entries files))) with
                       | Some e => e
                       | None => EmptyString
                       end)]
              else []) l.
  Proof.
    induction l as [|[p c] l IH]; intros st; [simpl; rewrite app_nil_r; reflexivity|].
    cbn [List.fold_left List.flat_map]. rewrite IH.
    destruct (firstPassStep_cases Babel_transform objectURL files st p c)
      as [(Hs & Hf & ->)|[(Hs & Hf & imps & alls & css & _ & ->)|(Hs & _ & _ & _ & -> & _)]];
      rewrite Hs; try rewrite Hf; simpl; rewrite <- ?app_assoc; reflexivity.
  Qed.

  (** X22.  On every snapshot, the errors that [createImportMap] returns
      are the script files that fail to compile, in the order of the
      snapshot, each with its message; the other files give no error. *)
Theorem createImportMap_errors_are_the_failures :
    errors (createImportMap Babel_transform objectURL JSON_stringify_imports files)
    = List.flat_map
        (fun '(path, content) =>
           if isScriptPath path && failsToCompile Babel_transform files path content
           then [ErrorEntry.Build path
                   (match TransformResult.error
                            (transformJSX Babel_transform content path
                               (List.map fst (Map_.entries files))) with
                    | Some e => e
                    | None => EmptyString
                    end)]
           else [])
        (Map_.entries files).
  Proof.
    unfold createImportMap, finalPass. simpl errors.
    destruct (secondPass_fields objectURL files (cssPass files (firstPass Babel_transform objectURL files)))
      as [_ ->].
    destruct (cssPass_fields files (firstPass Babel_transform objectURL files))
      as (_ & _ & _ & -> & _).
    unfold firstPass. rewrite firstPass_fold_errors. reflexivity.
  Qed.

  (** X23.  On every snapshot, each value of the import map is a URL of
      the package server, or the URL of a blob that [createImportMap]
      created; and each of these blobs holds the compiled code of a
      script file of the snapshot that compiles, or a placeholder module. *)
Theorem createImportMap_values_are_packages_or_blobs (k v : string) :
    imports (finalPass Babel_transform objectURL files) !! k = Some v ->
    isPackageUrl v
    \/ exists i b,
         nth_error (blobs (finalPass Babel_transform objectURL files)) i = Some b
         /\ v = objectURL i
         /\ (isOutput Babel_transform files b \/ isPlaceholder b).
  Proof.
    intros Hk.
    destruct (passSound_finalPass Babel_transform objectURL files) as (Hv & Hb & _).
    destruct (Hv _ _ Hk) as [Hp|(i & Hi & ->)]; [left; exact Hp|].
    right. destruct (nth_error (blobs (finalPass Babel_transform objectURL files)) i) as [b|] eqn:E.
    - exists i, b. split; [exact E|]. split; [reflexivity|]. apply Hb. eapply nth_error_In, E.
    - apply nth_error_None in E. lia.
  Qed.

  (** X24.  On every snapshot, a script file that compiles has an entry in
      the import map under each of its keys other than [__proto__]: its
      path, the path without the leading slash, the two alias spellings,
      and these without the extension.  (The map is an object literal: an
      assignment under the key [__proto__] stores nothing.) *)
Theorem createImportMap_registers_compiled_files (path content k : string) :
    In (path, content) (Map_.entries files) ->
    isScriptPath path = true ->
    failsToCompile Babel_transform files path content = false ->
    In k (specifierKeys path) ->
    k <> "__proto__" ->
    is_Some (imports (finalPass Babel_transform objectURL files) !! k).
  Proof.
    intros Hin Hs Hok Hk Hne.
    unfold finalPass, secondPass. apply secondPass_fold_mono.
    destruct (cssPass_fields files (firstPass Babel_transform objectURL files)) as (-> & _).
    unfold firstPass.
    destruct (in_split _ _ Hin) as (l1 & l2 & Hl).
    set (F := firstPassStep Babel_transform objectURL _). rewrite Hl, fold_left_app. subst F.
    cbn [List.fold_left]. apply firstPass_fold_mono.
    apply firstPassStep_registers; assumption.
  Qed.
End ImportMapFacts.

Lemma createImportMap_values_are_packages_or_blobs_witness :
  let files := snapshot [("/App.jsx", "import Button from './components/Button';")] in
  isPackageUrl "blob:1"
  \/ exists i b,
       nth_error (blobs (finalPass (toyBabel []) toyURL files)) i = Some b
       /\ "blob:1" = toyURL i
       /\ (isOutput (toyBabel []) files b \/ isPlaceholder b).
Proof.
  cbv zeta.
  apply (createImportMap_values_are_packages_or_blobs (toyBabel []) toyURL
           (snapshot [("/App.jsx", "import Button from './components/Button';")])
           "./components/Button" "blob:1").
  vm_compute. reflexivity.
Defined.

Lemma createImportMap_registers_compiled_files_witness :
  let files := snapshot [("/App.jsx", "export default function App() {}")] in
  is_Some (imports (finalPass (toyBabel []) toyURL files) !! "@/App").
Proof.
  cbv zeta.
  apply (createImportMap_registers_compiled_files (toyBabel []) toyURL
           (snapshot [("/App.jsx", "export default function App() {}")])
           "/App.jsx" "export default function App() {}" "@/App").
  - vm_compute. auto.
  - reflexivity.
  - reflexivity.
  - vm_compute. auto 10.
  - discriminate.
Defined.


(** ** [normalizePath]: when the result is a normal path *)

Lemma collapse_nonempty c s : collapseSlashes (String c s) <> EmptyString.
Proof.
  revert c. induction s as [|d s IH]; intros c; [discriminate|].
  change (collapseSlashes (String c (String d s)))
    with (if Ascii.eqb c slash && Ascii.eqb d slash
          then collapseSlashes (String d s)
          else String c (collapseSlashes (String d s))).
  destruct (Ascii.eqb c slash && Ascii.eqb d slash); [apply IH | discriminate].
Qed.

Lemma endsWith_cons c d s p :
  JS.endsWith (String c (String d s)) (String p EmptyString)
  = JS.endsWith (String d s) (String p EmptyString).
Proof.
  rewrite endsWith_eq.
  replace (String.eqb (String c (String d s)) (String p EmptyString)) with false; [reflexivity|].
  symmetry. apply String.eqb_neq. discriminate.
Qed.

Lemma collapse_endsWith s : JS.endsWith (collapseSlashes s) "/" = JS.endsWith s "/".
Proof.
  induction s as [|c s IH]; [reflexivity|].
  destruct s as [|d s]; [reflexivity|].
  change "/" with (String slash EmptyString). rewrite endsWith_cons.
  change (collapseSlashes (String c (String d s)))
    with (if Ascii.eqb c slash && Ascii.eqb d slash
          then collapseSlashes (String d s)
          else String c (collapseSlashes (String d s))).
  destruct (Ascii.eqb c slash && Ascii.eqb d slash); [exact IH|].
  destruct (collapseSlashes (String d s)) as [|x u] eqn:E;
    [exfalso; apply (collapse_nonempty d s E)|].
  rewrite endsWith_cons. exact IH.
Qed.

Lemma sliceDropLast_app t c : JS.sliceDropLast (String.append t (String c EmptyString)) = t.
Proof.
  induction t as [|x t IH]; [reflexivity|].
  change (String.append (String x t) (String c EmptyString))
    with (String x (String.append t (String c EmptyString))).
  destruct t as [|y t]; [reflexivity|].
  change (JS.sliceDropLast (String x (String.append (String y t) (String c EmptyString))))
    with (String x (JS.sliceDropLast (String.append (String y t) (String c EmptyString)))).
  rewrite IH. reflexivity.
Qed.

Lemma normalizePath_end path :
  JS.endsWith path "//" = false ->
  normalizePath path = "/" \/ JS.endsWith (normalizePath path) "/" = false.
Proof.
  intros H. unfold normalizePath. rewrite replaceAll_slashes.
  set (p1 := if negb (JS.startsWith path "/") then JS.cat "/" path else path).
  assert (H1 : JS.endsWith p1 "//" = false).
  { subst p1. destruct (JS.startsWith path "/") eqn:E; [exact H|]. simpl negb. cbv iota.
    change (JS.cat "/" path) with (String slash path).
    rewrite endsWith_eq, H, orb_false_r. apply String.eqb_neq. intros E'.
    injection E' as ->. discriminate. }
  destruct (String.eqb p1 "/") eqn:Eroot.
  { apply String.eqb_eq in Eroot. rewrite Eroot. left. reflexivity. }
  simpl negb. cbn [andb].
  destruct (JS.endsWith p1 "/") eqn:Eend.
  - right. rewrite collapse_endsWith.
    apply endsWith_inv in Eend as [t Ht]. rewrite Ht.
    change "/" with (String slash EmptyString). rewrite sliceDropLast_app.
    destruct (JS.endsWith t (String slash EmptyString)) eqn:Et; [|reflexivity].
    apply endsWith_inv in Et as [t' ->].
    rewrite Ht, app_assoc_s in H1.
    change (String.append (String slash EmptyString) "/") with "//" in H1.
    rewrite endsWith_app in H1. discriminate.
  - right. rewrite collapse_endsWith. exact Eend.
Qed.

(** X25.  The result of [normalizePath] is a normal path whenever the
    path given does not end in two slashes: it starts with a slash, has no
    two slashes in a row, and ends in a slash only when it is the root;
    [normalizePath] leaves it as it is. *)
Theorem normalizePath_normal_without_two_trailing_slashes (path : string) :
  JS.endsWith path "//" = false ->
  cleanPath (normalizePath path) = true
  /\ normalizePath (normalizePath path) = normalizePath path.
Proof.
  intros H.
  assert (Hc : cleanPath (normalizePath path) = true).
  { unfold cleanPath. destruct (normalizePath_shape path) as [-> ->]. simpl.
    destruct (normalizePath_end path H) as [->| ->]; [reflexivity | apply orb_true_r]. }
  split; [exact Hc | apply cleanPath_normalize, Hc].
Qed.

Lemma normalizePath_normal_without_two_trailing_slashes_witness :
  cleanPath (normalizePath "a//b/") = true
  /\ normalizePath (normalizePath "a//b/") = normalizePath "a//b/".
Proof.
  apply (normalizePath_normal_without_two_trailing_slashes "a//b/"). reflexivity.
Defined.
